(* ===== verification/_CoqProject ===== *)
-Q . S2P
Prelude.v
Words.v
Ids.v
SpanSet.v
Xxh3.v
Xxh3Simd.v
Xxh3Paths.v
Defaults.v
Frame.v
FrameReader.v
Timers.v
Endpoint.v
IpAddr.v
LogSummary.v
Records.v
Interleaving.v
Fork.v
Ordered.v
Messages.v
CoreTypes.v
CoreBase.v
ConnQueue.v
OutboxState.v
ConfirmingState.v
Placing.v
Bodies.v
Batching.v
Confirming.v
Sending.v
Handover.v
Query.v
Connection.v
Client.v
Connect.v
Run.v
Concrete.v
Stable.v
StableRun.v
ConnIds.v
ConnSpec.v
System.v
Asked.v
Fronts.v
OutboxSpec.v
NumbersSpec.v
FlagsSpec.v
RunsSpec.v
BodiesSpec.v
BacklogSpec.v
Inbox.v
Driver.v
DriverSpec.v
Writes.v
WireSpec.v
TurnSpec.v
Pending.v
Message.v
SyncClient.v
SyncSpec.v
Requests.v
ThreadedServer.v
Turns.v
Lifecycle.v
PlainServer.v
PlainSpec.v
ThreadedClient.v
