(* ===== verification/Prelude.v ===== *)
(** * A verification development of the Rust client of the multiplexer

    The multiplexer is a message broker; this is a development of its Rust
    crate, src/rust/mx-multiplexer/src ("the crate" below).  What of it is not
    modelled is listed at the end.  File names of the code are relative to it.

    ** The program

    A client keeps connections to several multiplexers and sends, queries and
    receives through them.  The crate has layers, and the files here follow
    them.

    - The wire: a frame is a header with a length and an XXH3 checksum, then a
      protobuf message (frame.rs, xxh3.rs, message.rs).
    - The core (core/): a state machine with no thread and no socket.  It is
      handed what happened, calls and the time, and leaves what it wants done,
      its actions, and the work it posts itself.
    - The driver and the engine (driver.rs, engine.rs): the loop that waits for
      the sockets, hands the core what became ready and carries out its actions.
    - The clients: [SyncClient] (sync_client.rs) runs that loop inside its calls;
      [ThreadedClient] (threaded_client.rs) has a thread that does, reached
      through an inbox (inbox.rs), its results waited for through pending.rs.
    - The servers (servers/): a handler served by the synchronous client on one
      thread (plain.rs), or on workers behind a threaded client (threaded.rs).
    - Beside them: ids, the ids seen last, timers, addresses in text, counted
      log lines, and what a forked child must not do (fork.rs).

    ** The files

    Foundations.  Prelude (this file: tactics, list and integer lemmas), Words
    (machine words), Records (record update, the core's state monad [CM], and
    [pres], the rules by which an operation preserves an invariant), Ordered
    (ordered containers as sorted lists), Interleaving (threads as labelled
    steps: every interleaving is a list of labels).

    The wire.  Defaults (defaults.rs, constants.rs, error.rs), Xxh3, Xxh3Simd and
    Xxh3Paths (xxh3.rs, every vector path), Frame and FrameReader (frame.rs),
    Messages (the records of Multiplexer.proto and [Env], what is not the
    crate's), Message (message.rs).

    Small parts.  Ids (ids.rs), SpanSet (spanset.rs), Timers (core/timers.rs),
    Endpoint (endpoint.rs), IpAddr (the standard library's addresses in text, for
    core/client/connect.rs), LogSummary (log_summary.rs), Fork (fork.rs).

    The core.  CoreTypes is its state: one record [Core], with what Rust shares
    by pointer as stores read by number.  CoreBase, ConnQueue, OutboxState,
    ConfirmingState, Placing, Bodies, Batching, Confirming, Sending, Handover,
    Query, Connection, Client, Connect are its operations, a definition per Rust
    function, in the order of their calls: core/connection.rs, core/lane.rs,
    core/outbox/*.rs, core/bodies.rs, core/batching.rs, core/confirming/*.rs,
    core/plain.rs, core/query.rs, core/client/*.rs, core/threaded.rs.  Run is what
    the driver hands it (core/mod.rs).  Concrete is an environment to evaluate on.

    The core's proofs.  Stable, StableRun and ConnIds are interfaces ([Quiet],
    [Stable], [Whole], [DomOnly], [Fronted], [Ending]): an invariant that is an
    instance survives every operation.  ConnSpec, OutboxSpec, BacklogSpec, Asked
    and Fronts are such invariants; NumbersSpec, FlagsSpec, RunsSpec and BodiesSpec
    are about single operations.  System closes the core: [Call] is what a class
    on top may call, [input_ok] what a driver keeps to, [reachable] the states of
    a client's run.  Fronts follows the writes asked for along a run: the last on a
    connection that writes is of the frame at the front of its queue.

    Below and above it.  Inbox (inbox.rs), Driver (driver.rs, engine.rs) with
    DriverSpec, Writes (what a socket writes is what was last asked for), WireSpec
    and TurnSpec; Pending (pending.rs); SyncClient
    (sync_client.rs, handles.rs) with SyncSpec; Lifecycle and ThreadedClient
    (threaded_client.rs), the posts and the shutdown as threads and the calls one
    by one; Requests (servers/mod.rs), ThreadedServer (servers/threaded.rs), Turns
    and PlainServer (servers/plain.rs) with PlainSpec.

    ** How the code is modelled

    A function of Rust is a definition with its name, [Type_method] where a name
    is a method's of several types.  [&mut self] methods of the core are programs
    of [CM]; the driver's, the clients' and the plain server's are programs of
    [DM] (a machine: core, driver, sockets and the system) and [SM] (with the
    server), and the threaded client's calls of [TM] (what a call finds and leaves).
    [Result] is [result], a panic that matters is [None] or [Unwinds].
    u32 and u64 are integers with their wrap-around written out where the code
    wraps, and integers alone where it counts up by one from zero (a timer's key,
    a token); instants and durations are nanoseconds; strings and bytes are lists of
    bytes.  A callback of the program's is known by its number, and what it is
    told is an event of the core's, in order.  Where a call would panic in a state
    no run reaches, the definition takes the nearest value: [queue_asap] on a busy
    channel with nothing queued, which [connections_never_stall] rules out.

    What is not the crate's is a parameter: [Env] (prost's encoding, the logger's
    levels, the fork generation), [Program] (what the callbacks answer), [Os] (one
    function per system call, whose answers may depend on all before), [Handler]
    (a server's handler, a program of calls that may keep requests, fail and
    panic), [Callers] (other threads' calls on a plain server).  Laws asked of
    them are classes, [OsOk], [Interrupts], [Sized] and the hypotheses of the
    frame sections, each with an instance that shows it can hold.

    Code used by several threads is a state and a step function whose labels are
    the atomic steps of each thread, a load, a store, a locked section, a notify:
    Fork, Inbox, Lifecycle, Pending, Requests, ThreadedServer, Turns.  Invariants of all
    interleavings are by induction on the run ([steps_keep]).  In Ids the only
    shared step is one [fetch_add], and the relation [turns] is its sequences.

    Fuel.  Loops of the driver and above take fuel and give [None] without
    enough, so an answer of the model is an answer of the code; [write_ends],
    [next_total], [every_call_returns] and [calls_and_shutdowns_return] show where loops end and how soon.
    Loops inside the core are bounded by what they walk and need none.

    ** What the theorems show

    - Of every state a client's run reaches: a live connection with frames queued
      is writing the first, the frame the driver was last asked to write on it
      ([connections_never_stall]); the outbox's queues and counts are exact
      ([outbox_accounts]); a flush found done has nothing before it still waiting
      ([flush_waits_for_all]); a message waits for room only on a live connection
      whose queue is full and whose front is being written, and the end of that
      write fills the queue again ([waits_only_when_full]).
    - That these hold of a client as it runs: the driver keeps to [input_ok]
      whatever the system answers ([client_reachable]); each socket takes a prefix
      of the frames asked of it ([wire_is_frames]); the first frame queued on a live
      connection is the one its socket writes, or its write ended or is still to
      be carried out ([client_never_stalls]); a step's turns are bounded and a pass
      gives every connection and the timers theirs ([turns_bounded],
      [pass_gives_turns]).
    - Of the synchronous client: any program of its calls keeps the above
      ([sync_client_sound]); every answer of a receive and of a flushing send has
      its reason, a timeout a reading of the clock at the call's own deadline
      ([receive_answers], [send_wait_answers]); a forked child's
      calls refuse and touch nothing ([inherited_client_refuses]).
    - Of the threaded client: what is posted runs in order, nothing but callbacks'
      posts comes after the shutdown, and nothing a call posted is left at the end
      ([posts_run_before_the_end]); every call returns and every shutdown reaches
      the io thread ([calls_and_shutdowns_return]); the io thread keeps what holds
      of the core and ends with nothing left to do ([threaded_client_sound]); a
      call posts once or refuses ([calls_post_once_or_refuse]); [connect_all]
      counts ([connect_all_counts]).
    - Of the plain server: the lending of its client is exclusive, in turn, and
      no call waits for a poll ([client_lent_in_turn], [every_call_returns]); the
      server is a program of its client's calls ([plain_server_sound]); each
      message is handled to its end, its failure reported to the requester
      ([message_handled]); serving ends closed and for a reason, well only once
      stopped or drained ([serve_ends_for_a_reason]); echoes are answered
      ([echo_never_too_large]).
    - Of the threaded server and of requests: every request accepted, refused or
      dropped, in order ([requests_accounted]); no lost wake
      ([serving_loop_is_woken], [no_request_waits_for_a_sleeper],
      [io_thread_is_woken], [queue_no_lost_wake], [slot_delivers]); callbacks after
      the requests before them ([acknowledged_after_requests]); the close waits
      for all ([close_handles_all]); one confirmation, one report
      ([request_confirmed_once], [failure_reported_once]).
    - Of the wire: what is framed is read back, cut as it may be
      ([stream_roundtrip], [reader_exact], [message_sent_is_received]); every path
      of the hash agrees and none panics ([long_paths_agree], [xxh3_64_total]); a
      batch's frame, numbers, runs and flags are exact ([batch_frame_exact],
      [numbers_roundtrip], [runs_exact], [segments_exact], [set_range_spec]).
    - Of the parts: the lazy heap is an ordered list of timers ([timers_refine]);
      the recent ids are a window ([spanset_refines]); ids are distinct
      ([ids_distinct]); what is kept is bounded ([kept_bounded]); lines are said
      or counted ([log_conservation]); addresses read back
      ([endpoint_roundtrip], [target_canonical]); a forked child closes only open
      sockets and is refused ([fork_closes_sockets], [forked_client_is_foreign]).
    - Where the code and its comments differ: [polls_twice_a_turn_apart] (the
      bound of [turns_bounded] on polls is reached, twice the comment's),
      [heap_bound_exceeded].  A confirmation a program leaves in a message is on the
      wire, where docs/wire_format.md has none; [message_sent_is_received] shows
      the receiver clear it.

    A theorem with hypotheses has a [_witness] that applies it to a run evaluated
    by [vm_compute].

    ** Not modelled

    - Of threaded_client.rs, the builder's [connect] ([build] and [connect_all] are
      modelled) and an inherited client's closing of its descriptors, which is that
      of SyncClient and Fork.  What a posted command gives its caller is told by
      its callback's number; Pending has how the caller hears it.
    - Of servers/threaded.rs, the calls it makes of its client: their answers are
      the environment's.
    - proto/multiplexer.rs, generated by prost: its encoding is [Env]'s.
    - The text of log lines but where a line is counted or told; [Debug] and
      [Display] of the types.
    - The allocation of memory, and weak memory orders: atomics are taken in one
      total order, though fork.rs, ids.rs, servers/, threaded_client.rs and the
      answer of a resolver use relaxed, acquire and release accesses.  What these would allow beyond
      one order is not examined, except for [asked] in Turns.v.
    - core/harness.rs, test_log.rs and the tests; the repository's C++ and Python
      code, its tools, examples and packaging, which are other programs. *)
From Stdlib Require Export ZArith Lia Bool.
From stdpp Require Export base list gmap fin_sets sorting.

#[export] Set Default Goal Selector "!".

(** ** Scope and notations *)

Declare Scope mx_scope.
Delimit Scope mx_scope with mx.

(** Machine words are integers in [0, 2^w); the [w]-bit operations below write
    the wrap-around of the Rust [wrapping_*] methods out. *)
Definition M32 : Z := 2 ^ 32.
Definition M64 : Z := 2 ^ 64.
Definition M128 : Z := 2 ^ 128.
Definition w32 (x : Z) : Z := x mod M32.
Definition w64 (x : Z) : Z := x mod M64.
Definition is_u32 (x : Z) : Prop := (0 <= x < M32)%Z.
Definition is_u64 (x : Z) : Prop := (0 <= x < M64)%Z.

Definition add64 (x y : Z) : Z := w64 (x + y).
Definition sub64 (x y : Z) : Z := w64 (x - y).
Definition mul64 (x y : Z) : Z := w64 (x * y).
Definition shl64 (x n : Z) : Z := w64 (Z.shiftl x n).

Notation "x +w y" := (add64 x y) (at level 50, left associativity) : mx_scope.
Notation "x -w y" := (sub64 x y) (at level 50, left associativity) : mx_scope.
Notation "x *w y" := (mul64 x y) (at level 40, left associativity) : mx_scope.
Notation "x ^^ y" := (Z.lxor x y) (at level 52, left associativity) : mx_scope.
Notation "x >>> n" := (Z.shiftr x n) (at level 48, left associativity) : mx_scope.
Notation "x <<< n" := (shl64 x n) (at level 48, left associativity) : mx_scope.

(** Rust's [Result]. *)
Inductive result (A E : Type) : Type :=
| Ok (a : A)
| Err (e : E).
Arguments Ok {A E} a.
Arguments Err {A E} e.

(** ** Automation *)

Create HintDb mx discriminated.

(** Splits conjunctions and existentials of the context, and substitutes. *)
Ltac destr_all :=
  repeat match goal with
  | H : _ /\ _ |- _ => destruct H
  | H : exists _, _ |- _ => destruct H
  | H : (_, _) = (_, _) |- _ => injection H as ?; subst
  end.

(** Case analysis on the scrutinee of the first match of the goal. *)
Ltac case_goal :=
  match goal with
  | |- context [match ?x with _ => _ end] => destruct x eqn:?
  end.

(** ** Machine words *)

Lemma M32_val : M32 = 4294967296%Z.
Proof. reflexivity. Qed.
Lemma M64_val : M64 = 18446744073709551616%Z.
Proof. reflexivity. Qed.

Lemma w64_range x : is_u64 (w64 x).
Proof. apply Z.mod_pos_bound. reflexivity. Qed.
Lemma w32_range x : is_u32 (w32 x).
Proof. apply Z.mod_pos_bound. reflexivity. Qed.
Lemma w64_id x : is_u64 x -> w64 x = x.
Proof. apply Z.mod_small. Qed.
Lemma w32_id x : is_u32 x -> w32 x = x.
Proof. apply Z.mod_small. Qed.
Lemma w64_w64 x : w64 (w64 x) = w64 x.
Proof. apply w64_id, w64_range. Qed.
Lemma add64_range x y : is_u64 (add64 x y).
Proof. apply w64_range. Qed.
Lemma mul64_range x y : is_u64 (mul64 x y).
Proof. apply w64_range. Qed.

#[export] Hint Resolve w64_range w32_range add64_range mul64_range : mx.

(** ** Lists *)

Lemma filter_all {A} (P : A -> Prop) `{!forall x, Decision (P x)} (l : list A) :
  Forall P l -> filter P l = l.
Proof. induction 1; [done|]. rewrite filter_cons_True by done. by f_equal. Qed.

Lemma filter_iff_in {A} (P Q : A -> Prop) `{!forall x, Decision (P x)} `{!forall x, Decision (Q x)} (l : list A) :
  (forall x, x ∈ l -> (P x <-> Q x)) -> filter P l = filter Q l.
Proof.
  induction l as [|x l IH]; intros Hiff; [done|]. rewrite !filter_cons.
  rewrite IH by (intros; apply Hiff; by right).
  destruct (Hiff x) as [H1 H2]; [by left|]. repeat case_decide; naive_solver.
Qed.

Lemma filter_fmap {A B} (f : A -> B) (P : B -> Prop) `{!forall x, Decision (P x)} (l : list A) :
  filter P (f <$> l) = f <$> filter (fun x => P (f x)) l.
Proof.
  induction l as [|x l IH]; [done|]. rewrite fmap_cons, !filter_cons, IH. by case_decide.
Qed.

Lemma filter_none {A} (P : A -> Prop) `{!forall x, Decision (P x)} (l : list A) :
  Forall (fun x => ~ P x) l -> filter P l = [].
Proof. induction 1; [done|]. by rewrite filter_cons_False. Qed.

Lemma Forall_filter {A} (Q P : A -> Prop) `{!forall x, Decision (P x)} (l : list A) :
  Forall Q l -> Forall Q (filter P l).
Proof. rewrite !Forall_forall. intros HQ x [_ Hx]%list_elem_of_filter. auto. Qed.

Lemma StronglySorted_filter {A} (R : A -> A -> Prop) (P : A -> Prop) `{!forall x, Decision (P x)} (l : list A) :
  StronglySorted R l -> StronglySorted R (filter P l).
Proof.
  induction 1 as [|x l Hs IH HF]; [constructor|].
  destruct (decide (P x)); [rewrite filter_cons_True by done|by rewrite filter_cons_False].
  constructor; [done|]. by apply Forall_filter.
Qed.

Lemma NoDup_map_filter {A B} (f : A -> B) (P : A -> Prop) `{!forall x, Decision (P x)} (l : list A) :
  NoDup (map f l) -> NoDup (map f (filter P l)).
Proof.
  induction l as [|x l IH]; simpl; [done|]. intros [Hx Hn]%NoDup_cons.
  destruct (decide (P x)); [rewrite filter_cons_True by done|rewrite filter_cons_False by done; auto].
  simpl. apply NoDup_cons. split; [|auto]. intros Hin. apply Hx.
  apply list_elem_of_In, in_map_iff in Hin as (y & Hy & [_ Hin]%list_elem_of_In%list_elem_of_filter).
  apply list_elem_of_In, in_map_iff. exists y. by rewrite <- list_elem_of_In.
Qed.

Lemma NoDup_map_inj {A B} (f : A -> B) (l : list A) x y :
  NoDup (map f l) -> x ∈ l -> y ∈ l -> f x = f y -> x = y.
Proof.
  induction l as [|z l IH]; simpl; [by intros _ ?%elem_of_nil|]. intros [Hz Hn]%NoDup_cons.
  rewrite !elem_of_cons. intros [->|Hx] [->|Hy] Hf; [done| | |by apply IH]; destruct Hz;
    [rewrite Hf|rewrite <- Hf]; by apply list_elem_of_fmap_2.
Qed.

(** ** Sums *)

Fixpoint sum_of {A} (f : A -> Z) (l : list A) : Z :=
  match l with [] => 0 | x :: l => (f x + sum_of f l)%Z end.

Section Sums.
Context {A : Type}.
Implicit Types (f g : A -> Z) (l : list A).
Open Scope Z_scope.

Lemma sum_of_app f l l' : sum_of f (l ++ l') = sum_of f l + sum_of f l'.
Proof. induction l; simpl; lia. Qed.

Lemma sum_of_perm f l l' : l ≡ₚ l' -> sum_of f l = sum_of f l'.
Proof. induction 1; simpl; lia. Qed.

Lemma sum_of_ext f g l : (forall x, x ∈ l -> f x = g x) -> sum_of f l = sum_of g l.
Proof.
  induction l as [|x l IH]; intros H; simpl; [done|]. rewrite H by left. rewrite IH; [done|]. intros y Hy. apply H. by right.
Qed.

Lemma sum_of_nonneg f l : (forall x, x ∈ l -> 0 <= f x) -> 0 <= sum_of f l.
Proof.
  induction l as [|x l IH]; intros H; simpl; [done|]. assert (0 <= f x) by (apply H; left).
  assert (0 <= sum_of f l) by (apply IH; intros y Hy; apply H; by right). lia.
Qed.

Lemma sum_of_zero f l : (forall x, x ∈ l -> f x = 0) -> sum_of f l = 0.
Proof. induction l as [|x l IH]; intros H; simpl; [done|]. rewrite H by left. apply IH. intros y Hy. apply H. by right. Qed.

(** Two sums over a list without repetition that differ at one place. *)
Lemma sum_of_point `{EqDecision A} f g k l :
  NoDup l -> (forall x, x ∈ l -> x <> k -> g x = f x) ->
  sum_of g l = sum_of f l + (if decide (k ∈ l) then g k - f k else 0).
Proof.
  induction 1 as [|x l Hx Hl IH]; intros H; cbn [sum_of];
    [rewrite decide_False by apply not_elem_of_nil; done|].
  rewrite IH by (intros y Hy; apply H; by right). destruct (decide (x = k)) as [->|Hne].
  - rewrite (decide_True (P := k ∈ k :: l)) by left. rewrite decide_False by done. lia.
  - rewrite (H x) by (by left || done). destruct (decide (k ∈ l)); [rewrite decide_True by (by right); lia|].
    rewrite decide_False by (rewrite elem_of_cons; naive_solver). lia.
Qed.
End Sums.
