(* ===== verification/Words.v ===== *)
(** * Words: bits and bytes of machine words

    What the hash, the id generator and the frame codec share: xor-shifts and
    odd multiplications are injective on 64-bit words, and the little-endian
    bytes of a word are a bijection. *)
From S2P Require Import Prelude.
Open Scope Z_scope.
Open Scope mx_scope.

(** ** Mixing steps *)

Definition xorshift (k x : Z) : Z := x ^^ (x >>> k).

Lemma lxor_is_u64 x y : is_u64 x -> is_u64 y -> is_u64 (Z.lxor x y).
Proof.
  intros [Hx0 Hx] [Hy0 Hy]. split.
  - apply Z.lxor_nonneg. tauto.
  - destruct (Z.eq_dec (Z.lxor x y) 0) as [->|Hn]; [reflexivity|].
    assert (0 < Z.lxor x y) as Hpos.
    { pose proof (proj2 (Z.lxor_nonneg x y) ltac:(tauto)). lia. }
    apply Z.log2_lt_pow2; [done|].
    pose proof (Z.log2_lxor x y Hx0 Hy0).
    assert (Z.log2 x < 64).
    { destruct (Z.eq_dec x 0) as [->|]; [reflexivity|]. apply Z.log2_lt_pow2; [lia|exact Hx]. }
    assert (Z.log2 y < 64).
    { destruct (Z.eq_dec y 0) as [->|]; [reflexivity|]. apply Z.log2_lt_pow2; [lia|exact Hy]. }
    lia.
Qed.

Lemma shiftr_is_u64 x k : 0 <= k -> is_u64 x -> is_u64 (Z.shiftr x k).
Proof.
  intros Hk [H0 H1]. rewrite Z.shiftr_div_pow2 by done. split.
  - apply Z.div_pos; [done|]. apply Z.pow_pos_nonneg; lia.
  - apply Z.le_lt_trans with x; [|done].
    apply Z.div_le_upper_bound; [apply Z.pow_pos_nonneg; lia|].
    pose proof (Z.pow_pos_nonneg 2 k ltac:(lia) Hk). nia.
Qed.

#[export] Hint Resolve lxor_is_u64 shiftr_is_u64 : mx.

Lemma xorshift_range k x : 0 <= k -> is_u64 x -> is_u64 (xorshift k x).
Proof. unfold xorshift. auto with mx. Qed.

(** A number that equals its own right shift is zero. *)
Lemma shiftr_fixpoint d k : 0 <= d -> 0 < k -> Z.shiftr d k = d -> d = 0.
Proof.
  intros Hd Hk. rewrite Z.shiftr_div_pow2 by lia. intros Heq.
  destruct (Z.eq_dec d 0) as [|Hn]; [done|]. exfalso.
  pose proof (Z.div_lt d (2 ^ k) ltac:(lia)).
  assert (1 < 2 ^ k) by (apply Z.pow_gt_1; lia). lia.
Qed.

Lemma xorshift_inj k x y :
  0 < k -> 0 <= x -> 0 <= y -> xorshift k x = xorshift k y -> x = y.
Proof.
  unfold xorshift. intros Hk Hx Hy Heq. apply Z.lxor_eq.
  apply (shiftr_fixpoint _ k); [apply Z.lxor_nonneg; tauto|done|].
  rewrite Z.shiftr_lxor. apply Z.lxor_eq.
  transitivity (Z.lxor (Z.lxor x (Z.shiftr x k)) (Z.lxor y (Z.shiftr y k))).
  - apply Z.bits_inj'. intros n Hn. rewrite !Z.lxor_spec.
    destruct (Z.testbit x n), (Z.testbit y n), (Z.testbit (Z.shiftr x k) n),
      (Z.testbit (Z.shiftr y k) n); done.
  - rewrite Heq. apply Z.lxor_nilpotent.
Qed.

Lemma mul64_inj c inv x y :
  w64 (c * inv) = 1 -> is_u64 x -> is_u64 y -> mul64 x c = mul64 y c -> x = y.
Proof.
  unfold mul64, w64. intros Hinv Hx Hy Heq.
  rewrite <- (w64_id x Hx), <- (w64_id y Hy). unfold w64.
  transitivity ((x * c * inv) mod M64).
  - rewrite <- Z.mul_assoc, <- Z.mul_mod_idemp_r, Hinv by done. f_equal. lia.
  - rewrite <- Z.mul_mod_idemp_l, Heq, Z.mul_mod_idemp_l by done.
    rewrite <- Z.mul_assoc, <- Z.mul_mod_idemp_r, Hinv by done. f_equal. lia.
Qed.

(** ** Bytes *)

Definition is_byte (b : Z) : Prop := 0 <= b < 256.

(** [from_le_bytes]: the little-endian number of a string of bytes. *)
Fixpoint from_le (bytes : list Z) : Z :=
  match bytes with
  | [] => 0
  | b :: bytes => b + 256 * from_le bytes
  end.

(** [to_le_bytes] at [n] bytes. *)
Fixpoint to_le (n : nat) (x : Z) : list Z :=
  match n with
  | O => []
  | S n => x mod 256 :: to_le n (x / 256)
  end.

(** [u64::swap_bytes] and [u64::rotate_left]. *)
Definition swap_bytes64 (x : Z) : Z := from_le (rev (to_le 8 x)).
Definition rotl64 (x k : Z) : Z := w64 (Z.lor (Z.shiftl x k) (Z.shiftr x (64 - k))).

(** [bytes[at..at + n]], a panic ([None]) out of range. *)
Definition slice {A} (bytes : list A) (at_ n : nat) : option (list A) :=
  if decide (at_ + n <= length bytes)%nat then Some (take n (drop at_ bytes)) else None.

Lemma from_le_range bytes :
  Forall is_byte bytes -> 0 <= from_le bytes < 256 ^ Z.of_nat (length bytes).
Proof.
  induction 1 as [|b bytes Hb _ IH]; simpl from_le; [done|].
  change (length (b :: bytes)) with (S (length bytes)).
  rewrite Nat2Z.inj_succ, Z.pow_succ_r by lia. unfold is_byte in Hb. lia.
Qed.

Lemma bytes_check bytes :
  forallb (fun b => (0 <=? b) && (b <? 256)) bytes = true -> Forall is_byte bytes.
Proof.
  rewrite forallb_forall. intros H. apply Forall_forall. intros x Hx%list_elem_of_In.
  apply H, andb_true_iff in Hx as [H1 H2]. unfold is_byte. lia.
Qed.

Lemma to_le_length n x : length (to_le n x) = n.
Proof. revert x. induction n as [|n IH]; intros x; simpl; auto. Qed.

Lemma to_le_bytes n x : Forall is_byte (to_le n x).
Proof.
  revert x. induction n as [|n IH]; intros x; simpl; constructor; auto.
  apply Z.mod_pos_bound. lia.
Qed.

Lemma from_to_le n x : 0 <= x < 256 ^ Z.of_nat n -> from_le (to_le n x) = x.
Proof.
  revert x. induction n as [|n IH]; intros x Hx.
  - simpl in *. lia.
  - rewrite Nat2Z.inj_succ, Z.pow_succ_r in Hx by lia. simpl.
    rewrite IH.
    + pose proof (Z.div_mod x 256). lia.
    + split; [apply Z.div_pos; lia|]. apply Z.div_lt_upper_bound; lia.
Qed.

Lemma to_from_le bytes : Forall is_byte bytes -> to_le (length bytes) (from_le bytes) = bytes.
Proof.
  induction 1 as [|b bytes Hb _ IH]; simpl; [done|]. unfold is_byte in Hb.
  rewrite Z.mul_comm, Z.mod_add, Z.div_add, Z.mod_small, Z.div_small by lia.
  by rewrite Z.add_0_l, IH.
Qed.

Lemma to_from_le' n bytes : length bytes = n -> Forall is_byte bytes -> to_le n (from_le bytes) = bytes.
Proof. intros <-. apply to_from_le. Qed.

Lemma slice_Some {A} (bytes : list A) at_ n s :
  slice bytes at_ n = Some s -> length s = n /\ s = take n (drop at_ bytes).
Proof.
  unfold slice. destruct (decide _) as [Hle|]; [|done]. intros [= <-]. split; [|done].
  rewrite length_take, length_drop. lia.
Qed.

Lemma slice_ok {A} (bytes : list A) at_ n :
  (at_ + n <= length bytes)%nat -> slice bytes at_ n = Some (take n (drop at_ bytes)).
Proof. intros. unfold slice. by rewrite decide_True. Qed.

Lemma slice_Forall {A} (P : A -> Prop) bytes at_ n s :
  Forall P bytes -> slice bytes at_ n = Some s -> Forall P s.
Proof. intros H [_ ->]%slice_Some. by apply Forall_take, Forall_drop. Qed.
