(* ===== verification/Ids.v ===== *)
(** * Ids: the generator of message and instance ids (ids.rs)

    [Ids::next] is SplitMix64 over an atomic counter.  One [fetch_add] is one
    step of the shared counter, so the calls of any number of threads are a
    sequence of such steps; what a thread does between two of them is local. *)
From S2P Require Import Prelude Words.
Open Scope Z_scope.
Open Scope mx_scope.

Definition GOLDEN_GAMMA : Z := 0x9E3779B97F4A7C15.

(** The mixing of the loop body of [Ids::next]. *)
Definition mix (mixed : Z) : Z :=
  let mixed := (mixed ^^ (mixed >>> 30)) *w 0xBF58476D1CE4E5B9 in
  let mixed := (mixed ^^ (mixed >>> 27)) *w 0x94D049BB133111EB in
  mixed ^^ (mixed >>> 31).

(** [Ids::new]: the seed from the eight bytes read of /dev/urandom as a
    number, the pid and the nanoseconds since the epoch. *)
Definition seed_of (urandom pid nanos : Z) : Z :=
  (urandom ^^ (pid <<< 32)) ^^ w64 nanos.

(** [Ids::next]: the id and the counter after it; the fuel bounds the turns of
    the loop, of which [next_total] shows two to be enough. *)
Fixpoint next_loop (fuel : nat) (counter : Z) : option (Z * Z) :=
  match fuel with
  | O => None
  | S fuel =>
      let counter' := counter +w GOLDEN_GAMMA in
      let mixed := mix counter' in
      if mixed =? 0 then next_loop fuel counter' else Some (mixed, counter')
  end.

Definition next (counter : Z) : option (Z * Z) := next_loop 2 counter.

(** A run of the shared counter: thread [t] takes the next [fetch_add]; it
    returns from its call with the mixed number unless that is zero, when it
    takes another turn. *)
Record Run := mkRun { run_counter : Z; run_given : list (nat * Z) }.

Inductive turn : Run -> Run -> Prop :=
| turn_gives t c given :
    mix (c +w GOLDEN_GAMMA) <> 0 ->
    turn (mkRun c given) (mkRun (c +w GOLDEN_GAMMA) ((t, mix (c +w GOLDEN_GAMMA)) :: given))
| turn_again c given :
    mix (c +w GOLDEN_GAMMA) = 0 ->
    turn (mkRun c given) (mkRun (c +w GOLDEN_GAMMA) given).

Inductive turns : nat -> Run -> Run -> Prop :=
| turns_none r : turns 0 r r
| turns_more n r r' r'' : turns n r r' -> turn r' r'' -> turns (S n) r r''.

(** ** The mixing is a bijection *)

Lemma mix_range x : is_u64 x -> is_u64 (mix x).
Proof. intros. unfold mix. apply xorshift_range; [lia|]. apply mul64_range. Qed.

Lemma mix_inj x y : is_u64 x -> is_u64 y -> mix x = mix y -> x = y.
Proof.
  intros Hx Hy H. unfold mix in H.
  apply (xorshift_inj 31) in H; [|lia|apply mul64_range..].
  apply (mul64_inj _ 3573116690164977347) in H;
    [|reflexivity|apply xorshift_range; [lia|apply mul64_range]..].
  apply (xorshift_inj 27) in H; [|lia|apply mul64_range..].
  apply (mul64_inj _ 10871156337175269513) in H;
    [|reflexivity|apply xorshift_range; [lia|done]..].
  apply (xorshift_inj 30) in H; [done|lia|apply Hx|apply Hy].
Qed.

Lemma mix_0_iff x : is_u64 x -> mix x = 0 <-> x = 0.
Proof.
  intros Hx. split; [|by intros ->].
  intros H. apply mix_inj; [done|by split|]. exact H.
Qed.

(** The counter's value after [i] steps from [c]. *)
Definition counter_at (c : Z) (i : nat) : Z := w64 (c + Z.of_nat i * GOLDEN_GAMMA).

Lemma counter_at_S c i : counter_at c i +w GOLDEN_GAMMA = counter_at c (S i).
Proof.
  unfold counter_at, add64, w64. rewrite Z.add_mod_idemp_l by done. f_equal. lia.
Qed.

Lemma counter_at_inj c i j :
  Z.of_nat i <= M64 -> Z.of_nat j <= M64 -> (0 < i)%nat -> (0 < j)%nat ->
  counter_at c i = counter_at c j -> i = j.
Proof.
  unfold counter_at, w64. intros Hi Hj Hi0 Hj0 H.
  assert ((GOLDEN_GAMMA * (Z.of_nat i - Z.of_nat j)) mod M64 = 0) as H0.
  { replace (GOLDEN_GAMMA * (Z.of_nat i - Z.of_nat j))
      with ((c + Z.of_nat i * GOLDEN_GAMMA) - (c + Z.of_nat j * GOLDEN_GAMMA)) by ring.
    rewrite Zminus_mod, H, Z.sub_diag. done. }
  apply Z.mod_divide in H0; [|done].
  apply Z.gauss in H0; [|reflexivity]. destruct H0 as [k Hk].
  assert (k = 0) by (unfold M64 in *; lia). lia.
Qed.

Lemma turns_counter n c r' :
  turns n (mkRun (w64 c) []) r' ->
  run_counter r' = counter_at c n /\
  map snd (run_given r') =
    filter (fun x => x <> 0) (map (fun i => mix (counter_at c i)) (rev (seq 1 n))).
Proof.
  intros H. remember (mkRun (w64 c) []) as r eqn:Hr.
  induction H as [r|n r r' r'' H IH Hturn]; subst.
  - split; [|done]. unfold counter_at. simpl. f_equal. lia.
  - destruct (IH eq_refl) as [IHc IHg]. clear IH.
    rewrite seq_S, rev_app_distr. simpl.
    inversion Hturn; subst; simpl in *; subst; rewrite counter_at_S in *.
    + split; [done|]. rewrite filter_cons_True by done. by rewrite IHg.
    + split; [done|]. by rewrite filter_cons_False by tauto.
Qed.

(** ** Properties *)

(** [Ids::next] returns: whatever the counter, a turn of the loop that finds
    zero is followed by one that does not; the id is a non-zero 64-bit word. *)
Theorem next_total counter :
  exists id counter', next counter = Some (id, counter') /\ 0 < id < M64.
Proof.
  unfold next. simpl.
  assert (forall x, mix (add64 x GOLDEN_GAMMA) <> 0 -> 0 < mix (add64 x GOLDEN_GAMMA) < M64) as Hr.
  { intros x Hx. pose proof (mix_range _ (add64_range x GOLDEN_GAMMA)) as [? ?]. lia. }
  destruct (Z.eqb_spec (mix (add64 counter GOLDEN_GAMMA)) 0) as [H0|H0]; [|by eauto].
  apply (mix_0_iff _ (add64_range _ _)) in H0. rewrite H0.
  change (mix (add64 0 GOLDEN_GAMMA) =? 0) with false. eexists _, _. split; [done|].
  apply Hr. vm_compute. discriminate.
Qed.

(** C36: Distinct ids without a lock: however the turns of any number of threads
    interleave on the shared counter, the ids given in the first 2^64 turns are
    pairwise distinct and none of them is zero. *)
Theorem ids_distinct n seed r :
  Z.of_nat n <= M64 -> turns n (mkRun (w64 seed) []) r ->
  NoDup (map snd (run_given r)) /\ 0 ∉ map snd (run_given r).
Proof.
  intros Hn H. apply turns_counter in H as [_ ->]. split.
  - apply NoDup_filter, NoDup_fmap_2_strong; [|apply NoDup_ListNoDup, List.NoDup_rev, List.seq_NoDup].
    intros i j Hi Hj Hij. rewrite !list_elem_of_In, <- in_rev, in_seq in Hi, Hj.
    apply mix_inj in Hij; [|apply w64_range..].
    apply counter_at_inj in Hij; lia.
  - intros H%list_elem_of_filter. by destruct H.
Qed.

Lemma ids_distinct_witness :
  NoDup [3203168211198807973; 6457827717110365317] /\
  0 ∉ [3203168211198807973; 6457827717110365317].
Proof.
  refine (ids_distinct 2 1234567
    (mkRun (counter_at 1234567 2) [(1%nat, 3203168211198807973); (0%nat, 6457827717110365317)]) _ _).
  - vm_compute. discriminate.
  - eapply turns_more; [eapply turns_more; [apply turns_none|]|].
    + refine (turn_gives 0 _ _ _). vm_compute. discriminate.
    + refine (turn_gives 1 _ _ _). vm_compute. discriminate.
Defined.
