(* ===== verification/SpanSet.v ===== *)
(** * SpanSet: the bounded set of recently seen ids (spanset.rs)

    The hash set answers membership and the deque remembers the order of
    insertion.  [Window] is the specification: the last [span] accepted values
    as one list.  [spanset_refines] shows that the pair of containers
    implements it under every sequence of operations. *)
From S2P Require Import Prelude.

Record SpanSet := mkSpanSet {
  ss_span : nat;
  ss_set : gset Z;
  ss_order : list Z;
}.

Definition SpanSet_new (span : nat) : SpanSet := mkSpanSet span ∅ [].

Definition SpanSet_insert (s : SpanSet) (value : Z) : bool * SpanSet :=
  if decide (value ∈ ss_set s) then (false, s)
  else
    let set1 := {[value]} ∪ ss_set s in
    let '(set2, order2) :=
      if decide (length (ss_order s) = ss_span s) then
        match ss_order s with
        | oldest :: rest => (set1 ∖ {[oldest]}, rest)
        | [] => (set1, [])
        end
      else (set1, ss_order s) in
    (true, mkSpanSet (ss_span s) set2 (order2 ++ [value])).

Definition SpanSet_forget_last (s : SpanSet) : SpanSet :=
  match last (ss_order s) with
  | Some l => mkSpanSet (ss_span s) (ss_set s ∖ {[l]}) (removelast (ss_order s))
  | None => s
  end.

Inductive SpanOp := Insert (value : Z) | ForgetLast.

(** What one operation answers, and the set after it. *)
Definition spanset_run_op (s : SpanSet) (o : SpanOp) : option bool * SpanSet :=
  match o with
  | Insert v => let '(b, s') := SpanSet_insert s v in (Some b, s')
  | ForgetLast => (None, SpanSet_forget_last s)
  end.

Fixpoint spanset_run_ops (s : SpanSet) (os : list SpanOp) : list (option bool) * SpanSet :=
  match os with
  | [] => ([], s)
  | o :: os =>
      let '(a, s1) := spanset_run_op s o in
      let '(as_, s2) := spanset_run_ops s1 os in (a :: as_, s2)
  end.

(** ** Specification: a window of the last accepted values *)

(** The last [n] elements of a list. *)
Definition last_n {A} (n : nat) (l : list A) : list A := drop (length l - n) l.

Definition window_op (n : nat) (w : list Z) (o : SpanOp) : option bool * list Z :=
  match o with
  | Insert v =>
      if decide (v ∈ w) then (Some false, w) else (Some true, last_n n (w ++ [v]))
  | ForgetLast => (None, removelast w)
  end.

Fixpoint window_ops (n : nat) (w : list Z) (os : list SpanOp) : list (option bool) * list Z :=
  match os with
  | [] => ([], w)
  | o :: os =>
      let '(a, w1) := window_op n w o in
      let '(as_, w2) := window_ops n w1 os in (a :: as_, w2)
  end.

(** ** The invariant *)

Record SpanSet_ok (s : SpanSet) : Prop := {
  ok_set : ss_set s = list_to_set (ss_order s);
  ok_nodup : NoDup (ss_order s);
  ok_bound : (length (ss_order s) <= ss_span s)%nat;
  ok_span : (0 < ss_span s)%nat;
}.

Lemma removelast_snoc {A} (l : list A) x : removelast (l ++ [x]) = l.
Proof. rewrite removelast_app by done. by rewrite app_nil_r. Qed.

Lemma SpanSet_forget_last_ok s : SpanSet_ok s -> SpanSet_ok (SpanSet_forget_last s) /\ ss_order (SpanSet_forget_last s) = removelast (ss_order s).
Proof.
  intros [Hs Hn Hb H0]. unfold SpanSet_forget_last.
  destruct (ss_order s) as [|x l _] eqn:Ho using rev_ind; simpl.
  - split; [|done]. split; rewrite ?Ho; simpl; auto.
  - rewrite last_snoc. simpl. rewrite removelast_snoc. split; [|done].
    apply NoDup_app in Hn as (Hn1 & Hn2 & _).
    split; simpl; [|done| |done].
    + rewrite Hs, list_to_set_app_L. simpl.
      assert (x ∉ l) by (intros Hx; apply (Hn2 x Hx); set_solver). set_solver.
    + rewrite length_app in Hb. simpl in Hb. lia.
Qed.

Lemma SpanSet_insert_ok s v :
  SpanSet_ok s ->
  SpanSet_ok (SpanSet_insert s v).2 /\ (Some (SpanSet_insert s v).1, ss_order (SpanSet_insert s v).2) = window_op (ss_span s) (ss_order s) (Insert v) /\
  ss_span (SpanSet_insert s v).2 = ss_span s.
Proof.
  intros Hok. pose proof Hok as [Hs Hn Hb H0]. unfold SpanSet_insert, window_op, last_n.
  assert (v ∈ ss_set s <-> v ∈ ss_order s) as Hmem by (rewrite Hs; apply elem_of_list_to_set).
  destruct (decide (v ∈ ss_set s)) as [Hv|Hv]; rewrite Hmem in Hv; [by rewrite decide_True by done|].
  rewrite (decide_False (P:=v ∈ ss_order s)) by done.
  destruct (decide (length (ss_order s) = ss_span s)) as [Hl|Hl].
  - destruct (ss_order s) as [|o l] eqn:Ho; [simpl in Hl; lia|]. simpl in *.
    apply NoDup_cons in Hn as [Hno Hn]. repeat split; simpl.
    + rewrite Hs, list_to_set_app_L. simpl. set_solver.
    + apply NoDup_app. split; [done|]. split; [|apply NoDup_singleton]. set_solver.
    + rewrite length_app. simpl. lia.
    + done.
    + rewrite length_app. simpl. replace (S (length l + 1) - ss_span s)%nat with 1%nat by lia. done.
  - repeat split; simpl.
    + rewrite Hs, list_to_set_app_L. simpl. set_solver.
    + apply NoDup_app. split; [done|]. split; [|apply NoDup_singleton]. set_solver.
    + rewrite length_app. simpl. lia.
    + done.
    + rewrite length_app. simpl. replace (length (ss_order s) + 1 - ss_span s)%nat with 0%nat by lia. done.
Qed.

Lemma spanset_run_op_ok s o :
  SpanSet_ok s ->
  SpanSet_ok (spanset_run_op s o).2 /\ ((spanset_run_op s o).1, ss_order (spanset_run_op s o).2) = window_op (ss_span s) (ss_order s) o /\
  ss_span (spanset_run_op s o).2 = ss_span s.
Proof.
  intros Hok. destruct o as [v|]; simpl.
  - pose proof (SpanSet_insert_ok s v Hok). by destruct (SpanSet_insert s v).
  - destruct (SpanSet_forget_last_ok s Hok) as [? ->]. split; [done|]. split; [done|].
    unfold SpanSet_forget_last. by destruct (last _).
Qed.

Lemma spanset_run_ops_ok os s :
  SpanSet_ok s ->
  SpanSet_ok (spanset_run_ops s os).2 /\
  ((spanset_run_ops s os).1, ss_order (spanset_run_ops s os).2) = window_ops (ss_span s) (ss_order s) os.
Proof.
  revert s. induction os as [|o os IH]; intros s Hok; simpl; [done|].
  pose proof (spanset_run_op_ok s o Hok) as (Hok1 & Hw & Hsp).
  destruct (spanset_run_op s o) as [a s1]. simpl in *. rewrite <- Hw, <- Hsp.
  destruct (IH s1 Hok1) as [Hok2 Hws]. destruct (spanset_run_ops s1 os) as [as_ s2]. simpl in *.
  by rewrite <- Hws.
Qed.

Lemma SpanSet_new_ok n : (0 < n)%nat -> SpanSet_ok (SpanSet_new n).
Proof. intros. split; simpl; [done|apply NoDup_nil_2|lia|done]. Qed.

(** ** Properties *)

(** C38: The set of recent ids is the window of the last [span] accepted values:
    every sequence of inserts and take-backs gets the answers the window gives,
    the two containers always hold the same values, each once, and at most
    [span] of them. *)
Theorem spanset_refines n os :
  (0 < n)%nat ->
  let '(answers, s) := spanset_run_ops (SpanSet_new n) os in
  (answers, ss_order s) = window_ops n [] os /\
  (forall v, v ∈ ss_set s <-> v ∈ ss_order s) /\ NoDup (ss_order s) /\ (length (ss_order s) <= n)%nat.
Proof.
  intros Hn. pose proof (spanset_run_ops_ok os (SpanSet_new n) (SpanSet_new_ok n Hn)) as [Hok Hw].
  assert (ss_span (spanset_run_ops (SpanSet_new n) os).2 = n) as Hspan.
  { clear. generalize (SpanSet_new n) as s, (eq_refl : ss_span (SpanSet_new n) = n).
    induction os as [|o os IH]; intros s Hs; simpl; [done|].
    assert (ss_span (spanset_run_op s o).2 = ss_span s) as H1.
    { destruct o; simpl; unfold SpanSet_insert, SpanSet_forget_last; repeat case_match; simplify_eq/=; done. }
    destruct (spanset_run_op s o) as [a s1]. simpl in H1. specialize (IH s1 ltac:(congruence)).
    by destruct (spanset_run_ops s1 os). }
  destruct (spanset_run_ops (SpanSet_new n) os) as [answers s]. simpl in *. destruct Hok as [Hs Hnd Hb _].
  repeat split; [done|rewrite Hs; set_solver..|done|lia].
Qed.

Lemma spanset_refines_witness :
  (fst (spanset_run_ops (SpanSet_new 2) [Insert 7; Insert 7; Insert 8; Insert 9; Insert 7; ForgetLast; Insert 7]%Z),
   ss_order (snd (spanset_run_ops (SpanSet_new 2) [Insert 7; Insert 7; Insert 8; Insert 9; Insert 7; ForgetLast; Insert 7]%Z)))
  = ([Some true; Some false; Some true; Some true; Some true; None; Some true], [9; 7]%Z).
Proof. exact (proj1 (spanset_refines 2 [Insert 7; Insert 7; Insert 8; Insert 9; Insert 7; ForgetLast; Insert 7]%Z ltac:(lia))). Defined.
