(* ===== verification/Xxh3.v ===== *)
(** * Xxh3: the 64-bit hash of every frame's checksum (xxh3.rs)

    The hash as the code computes it: the short bodies, the long bodies by
    [long_hash], which sums the odd stripes apart, and the portable lane-at-a-
    time path.  A slice out of range is [None], Rust's panic, so that
    [xxh3_64_total] of Xxh3Paths.v says that no body makes the code panic.
    [long_reference] is the specification's own loop: every stripe of a block
    in order into one set of accumulators. *)
From S2P Require Import Prelude Words.
Open Scope Z_scope.
Open Scope mx_scope.

Definition PRIME32_1 : Z := 0x9E3779B1.
Definition PRIME32_2 : Z := 0x85EBCA77.
Definition PRIME32_3 : Z := 0xC2B2AE3D.
Definition PRIME64_1 : Z := 0x9E3779B185EBCA87.
Definition PRIME64_2 : Z := 0xC2B2AE3D27D4EB4F.
Definition PRIME64_3 : Z := 0x165667B19E3779F9.
Definition PRIME64_4 : Z := 0x85EBCA77C2B2AE63.
Definition PRIME64_5 : Z := 0x27D4EB2F165667C5.

Definition SECRET : list Z :=
  [0xb8; 0xfe; 0x6c; 0x39; 0x23; 0xa4; 0x4b; 0xbe; 0x7c; 0x01; 0x81; 0x2c; 0xf7; 0x21; 0xad; 0x1c;
   0xde; 0xd4; 0x6d; 0xe9; 0x83; 0x90; 0x97; 0xdb; 0x72; 0x40; 0xa4; 0xa4; 0xb7; 0xb3; 0x67; 0x1f;
   0xcb; 0x79; 0xe6; 0x4e; 0xcc; 0xc0; 0xe5; 0x78; 0x82; 0x5a; 0xd0; 0x7d; 0xcc; 0xff; 0x72; 0x21;
   0xb8; 0x08; 0x46; 0x74; 0xf7; 0x43; 0x24; 0x8e; 0xe0; 0x35; 0x90; 0xe6; 0x81; 0x3a; 0x26; 0x4c;
   0x3c; 0x28; 0x52; 0xbb; 0x91; 0xc3; 0x00; 0xcb; 0x88; 0xd0; 0x65; 0x8b; 0x1b; 0x53; 0x2e; 0xa3;
   0x71; 0x64; 0x48; 0x97; 0xa2; 0x0d; 0xf9; 0x4e; 0x38; 0x19; 0xef; 0x46; 0xa9; 0xde; 0xac; 0xd8;
   0xa8; 0xfa; 0x76; 0x3f; 0xe3; 0x9c; 0x34; 0x3f; 0xf9; 0xdc; 0xbb; 0xc7; 0xc7; 0x0b; 0x4f; 0x1d;
   0x8a; 0x51; 0xe0; 0x4b; 0xcd; 0xb4; 0x59; 0x31; 0xc8; 0x9f; 0x7e; 0xc9; 0xd9; 0x78; 0x73; 0x64;
   0xea; 0xc5; 0xac; 0x83; 0x34; 0xd3; 0xeb; 0xc3; 0xc5; 0x81; 0xa0; 0xff; 0xfa; 0x13; 0x63; 0xeb;
   0x17; 0x0d; 0xdd; 0x51; 0xb7; 0xf0; 0xda; 0x49; 0xd3; 0x16; 0x55; 0x26; 0x29; 0xd4; 0x68; 0x9e;
   0x2b; 0x16; 0xbe; 0x58; 0x7d; 0x47; 0xa1; 0xfc; 0x8f; 0xf8; 0xb8; 0xd1; 0x7a; 0xd0; 0x31; 0xce;
   0x45; 0xcb; 0x3a; 0x8f; 0x95; 0x16; 0x04; 0x28; 0xaf; 0xd7; 0xfb; 0xca; 0xbb; 0x4b; 0x40; 0x7e].

Definition STRIPE : nat := 64.
Definition STRIPES_PER_BLOCK : nat := (length SECRET - STRIPE) / 8.
Definition BLOCK : nat := STRIPE * STRIPES_PER_BLOCK.

(** ** Reading and mixing *)

Definition read64 (bytes : list Z) (at_ : nat) : option Z := from_le <$> slice bytes at_ 8.
Definition read32 (bytes : list Z) (at_ : nat) : option Z := from_le <$> slice bytes at_ 4.

(** [left * right] in 128 bits, its halves xored. *)
Definition multiply_fold (left right : Z) : Z :=
  let product := left * right in w64 product ^^ w64 (product >>> 64).

Definition xxh64_avalanche (hash : Z) : Z :=
  let hash := hash ^^ (hash >>> 33) in
  let hash := hash *w PRIME64_2 in
  let hash := hash ^^ (hash >>> 29) in
  let hash := hash *w PRIME64_3 in
  hash ^^ (hash >>> 32).

Definition avalanche (hash : Z) : Z :=
  let hash := hash ^^ (hash >>> 37) in
  let hash := hash *w 0x165667919E3779F9 in
  hash ^^ (hash >>> 32).

Definition rrmxmx (hash length : Z) : Z :=
  let hash := hash ^^ (rotl64 hash 49 ^^ rotl64 hash 24) in
  let hash := hash *w 0x9FB21C651E98DF25 in
  let hash := hash ^^ ((hash >>> 35) +w length) in
  let hash := hash *w 0x9FB21C651E98DF25 in
  hash ^^ (hash >>> 28).

Definition mix16 (bytes : list Z) (at_ secret : nat) : option Z :=
  a ← read64 bytes at_;
  ka ← read64 SECRET secret;
  b ← read64 bytes (at_ + 8);
  kb ← read64 SECRET (secret + 8);
  Some (multiply_fold (a ^^ ka) (b ^^ kb)).

(** ** Short bodies *)

Definition up_to_16 (bytes : list Z) : option Z :=
  let length_ := length bytes in
  let len := Z.of_nat length_ in
  if (8 <? length_)%nat then
    first ← read64 bytes 0;
    k24 ← read64 SECRET 24; k32 ← read64 SECRET 32;
    let low := first ^^ (k24 ^^ k32) in
    last ← read64 bytes (length_ - 8);
    k40 ← read64 SECRET 40; k48 ← read64 SECRET 48;
    let high := last ^^ (k40 ^^ k48) in
    let sum := w64 len +w swap_bytes64 low +w high in
    Some (avalanche (sum +w multiply_fold low high))
  else if (4 <=? length_)%nat then
    last ← read32 bytes (length_ - 4);
    first ← read32 bytes 0;
    let both := Z.lor last (first <<< 32) in
    k8 ← read64 SECRET 8; k16 ← read64 SECRET 16;
    Some (rrmxmx (both ^^ (k8 ^^ k16)) (w64 len))
  else if (0 <? length_)%nat then
    b0 ← bytes !! 0%nat;
    bm ← bytes !! (length_ / 2)%nat;
    bl ← bytes !! (length_ - 1)%nat;
    let combined := w32 (Z.lor (Z.lor (Z.lor (Z.shiftl b0 16) (Z.shiftl bm 24)) bl) (Z.shiftl len 8)) in
    k0 ← read32 SECRET 0; k4 ← read32 SECRET 4;
    Some (xxh64_avalanche (combined ^^ (k0 ^^ k4)))
  else
    k56 ← read64 SECRET 56; k64 ← read64 SECRET 64;
    Some (xxh64_avalanche (k56 ^^ k64)).

(** [accumulator.wrapping_add(mix16(bytes, at, secret))]. *)
Definition mixed_in (bytes : list Z) (accumulator : Z) (at_ secret : nat) : option Z :=
  m ← mix16 bytes at_ secret; Some (accumulator +w m).

Definition up_to_128 (bytes : list Z) : option Z :=
  let length_ := length bytes in
  let accumulator := w64 (Z.of_nat length_) *w PRIME64_1 in
  accumulator ←
    (if (32 <? length_)%nat then
       accumulator ←
         (if (64 <? length_)%nat then
            accumulator ←
              (if (96 <? length_)%nat then
                 accumulator ← mixed_in bytes accumulator 48 96;
                 mixed_in bytes accumulator (length_ - 64) 112
               else Some accumulator);
            accumulator ← mixed_in bytes accumulator 32 64;
            mixed_in bytes accumulator (length_ - 48) 80
          else Some accumulator);
       accumulator ← mixed_in bytes accumulator 16 32;
       mixed_in bytes accumulator (length_ - 32) 48
     else Some accumulator);
  accumulator ← mixed_in bytes accumulator 0 0;
  accumulator ← mixed_in bytes accumulator (length_ - 16) 16;
  Some (avalanche accumulator).

(** A [for] loop whose body may panic. *)
Fixpoint for_each {A B} (body : B -> A -> option B) (l : list A) (b : B) : option B :=
  match l with
  | [] => Some b
  | x :: l => b' ← body b x; for_each body l b'
  end.

Definition up_to_240 (bytes : list Z) : option Z :=
  let length_ := length bytes in
  let accumulator := w64 (Z.of_nat length_) *w PRIME64_1 in
  accumulator ← for_each (fun accumulator round => mixed_in bytes accumulator (16 * round) (16 * round))
    (seq 0 8) accumulator;
  let accumulator := avalanche accumulator in
  accumulator ← for_each (fun accumulator round => mixed_in bytes accumulator (16 * round) (16 * (round - 8) + 3))
    (seq 8 (length_ / 16 - 8)) accumulator;
  accumulator ← mixed_in bytes accumulator (length_ - 16) (136 - 17);
  Some (avalanche accumulator).

(** ** Long bodies *)

(** [as_chunks::<n>]: the whole chunks of [n] elements and what is left. *)
Definition as_chunks {A} (n : nat) (l : list A) : list (list A) * list A :=
  let count := (length l / n)%nat in
  (map (fun i => take n (drop (i * n) l)) (seq 0 count), drop (count * n) l).

Definition stripe_at (bytes : list Z) (at_ : nat) : option (list Z) := slice bytes at_ STRIPE.
Definition secret_stripe (index : nat) : option (list Z) := stripe_at SECRET (8 * index).

Definition accumulators0 : list Z :=
  [PRIME32_3; PRIME64_1; PRIME64_2; PRIME64_3; PRIME64_4; PRIME32_2; PRIME64_5; PRIME32_1].

(** What a path brings: [stripe], [combine] and [scramble] of [long_hash]. *)
Record Path := mkPath {
  path_stripe : list Z -> list Z -> list Z -> option (list Z);
  path_combine : list Z -> list Z -> option (list Z * list Z);
  path_scramble : list Z -> list Z -> option (list Z);
}.

(** The body of both loops over pairs of stripes. *)
Definition pair_of_stripes (p : Path) (acc : list Z * list Z) (pair : nat * list (list Z)) :
    option (list Z * list Z) :=
  let '(accumulators, odd) := acc in
  match pair with
  | (index, [even; odd_stripe]) =>
      k ← secret_stripe (2 * index);
      accumulators ← path_stripe p accumulators even k;
      k ← secret_stripe (2 * index + 1);
      odd ← path_stripe p odd odd_stripe k;
      Some (accumulators, odd)
  | _ => None
  end.

Definition enumerate {A} (l : list A) : list (nat * A) := zip (seq 0 (length l)) l.

Definition one_block (p : Path) (acc : list Z * list Z) (block : list Z) : option (list Z * list Z) :=
  let pairs := (as_chunks 2 (as_chunks STRIPE block).1).1 in
  '(accumulators, odd) ← for_each (pair_of_stripes p) (enumerate pairs) acc;
  '(accumulators, odd) ← path_combine p accumulators odd;
  k ← stripe_at SECRET (length SECRET - STRIPE);
  accumulators ← path_scramble p accumulators k;
  Some (accumulators, odd).

(** The four folds of the end of [long_hash]. *)
Definition fold_pair (accumulators : list Z) (result : Z) (pair : nat) : option Z :=
  let secret := (11 + 16 * pair)%nat in
  a ← accumulators !! (2 * pair)%nat;
  ka ← read64 SECRET secret;
  b ← accumulators !! (2 * pair + 1)%nat;
  kb ← read64 SECRET (secret + 8);
  Some (result +w multiply_fold (a ^^ ka) (b ^^ kb)).

Definition long_hash (p : Path) (bytes : list Z) : option Z :=
  let len := length bytes in
  let blocks := ((len - 1) / BLOCK)%nat in
  whole ← slice (as_chunks BLOCK bytes).1 0 blocks;
  '(accumulators, odd) ← for_each (one_block p) whole (accumulators0, replicate 8 0);
  last_block ← slice bytes (blocks * BLOCK) (len - 1 - blocks * BLOCK);
  let '(pairs, rest) := as_chunks 2 (as_chunks STRIPE last_block).1 in
  '(accumulators, odd) ← for_each (pair_of_stripes p) (enumerate pairs) (accumulators, odd);
  accumulators ←
    match rest with
    | [single] => k ← secret_stripe (2 * length pairs); path_stripe p accumulators single k
    | _ => Some accumulators
    end;
  '(accumulators, odd) ← path_combine p accumulators odd;
  last_stripe ← stripe_at bytes (len - STRIPE);
  k ← stripe_at SECRET (length SECRET - STRIPE - 7);
  accumulators ← path_stripe p accumulators last_stripe k;
  result ← for_each (fold_pair accumulators) (seq 0 4) (w64 (Z.of_nat len) *w PRIME64_1);
  Some (avalanche result).

(** ** The portable path *)

Definition stripe_portable (accumulators input secret : list Z) : option (list Z) :=
  for_each (fun accumulators lane =>
    data ← read64 input (8 * lane);
    key ← read64 secret (8 * lane);
    let keyed := data ^^ key in
    let next := Nat.lxor lane 1 in
    a ← accumulators !! next;
    let accumulators := <[next := a +w data]> accumulators in
    b ← accumulators !! lane;
    Some (<[lane := b +w (Z.land keyed 0xFFFFFFFF * (keyed >>> 32))]> accumulators))
    (seq 0 8) accumulators.

Definition scramble_portable (accumulators secret : list Z) : option (list Z) :=
  for_each (fun accumulators lane =>
    accumulator ← accumulators !! lane;
    key ← read64 secret (8 * lane);
    let value := accumulator ^^ (accumulator >>> 47) ^^ key in
    Some (<[lane := value *w PRIME32_1]> accumulators))
    (seq 0 (length accumulators)) accumulators.

Definition combine_portable (accumulators odd : list Z) : option (list Z * list Z) :=
  Some (zip_with add64 accumulators odd, map (fun _ => 0) odd).

Definition portable : Path := mkPath stripe_portable combine_portable scramble_portable.
Definition long_portable (bytes : list Z) : option Z := long_hash portable bytes.

(** ** Specification: every stripe in order, into one set of accumulators *)

(** The [i]-th 64-bit lane and the [i]-th stripe of a string of bytes. *)
Definition lane64 (bytes : list Z) (i : nat) : Z := from_le (take 8 (drop (8 * i) bytes)).
Definition secret_at (at_ : nat) : list Z := take STRIPE (drop at_ SECRET).

(** What a stripe adds to each lane: its neighbour's data, and the product of
    the halves of its own keyed data. *)
Definition lane_sum (input secret : list Z) (i : nat) : Z :=
  let keyed := lane64 input i ^^ lane64 secret i in
  lane64 input (Nat.lxor i 1) +w (keyed mod M32) * (keyed / M32).

Definition stripe_sum (input secret : list Z) : list Z := map (lane_sum input secret) (seq 0 8).
Definition vadd (a b : list Z) : list Z := zip_with add64 a b.

Definition stripe_ref (acc input secret : list Z) : list Z := vadd acc (stripe_sum input secret).
Definition scramble_ref (acc secret : list Z) : list Z :=
  zip_with (fun a i => (a ^^ (a >>> 47) ^^ lane64 secret i) *w PRIME32_1) acc (seq 0 8).

(** [n] stripes of [bytes] from its start, one after another. *)
Definition stripes_ref (acc bytes : list Z) (n : nat) : list Z :=
  fold_left (fun acc i => stripe_ref acc (take STRIPE (drop (i * STRIPE) bytes)) (secret_at (8 * i)))
    (seq 0 n) acc.

Definition long_reference (bytes : list Z) : Z :=
  let len := length bytes in
  let blocks := ((len - 1) / BLOCK)%nat in
  let acc := fold_left (fun acc b =>
      scramble_ref (stripes_ref acc (drop (b * BLOCK) bytes) STRIPES_PER_BLOCK)
        (secret_at (length SECRET - STRIPE)))
    (seq 0 blocks) accumulators0 in
  let acc := stripes_ref acc (drop (blocks * BLOCK) bytes) ((len - 1 - blocks * BLOCK) / STRIPE) in
  let acc := stripe_ref acc (drop (len - STRIPE) bytes) (secret_at (length SECRET - STRIPE - 7)) in
  let fold1 result i :=
    result +w multiply_fold (nth (2 * i) acc 0 ^^ from_le (take 8 (drop (11 + 16 * i) SECRET)))
                            (nth (2 * i + 1) acc 0 ^^ from_le (take 8 (drop (19 + 16 * i) SECRET))) in
  avalanche (fold_left fold1 (seq 0 4) (w64 (Z.of_nat len) *w PRIME64_1)).

(** The bytes of xxHash's own sanity check. *)
Fixpoint sanity_bytes (n : nat) (state : Z) : list Z :=
  match n with
  | O => []
  | S n => (state >>> 56) :: sanity_bytes n (state *w 11400714785074694797)
  end.
Definition sanity_buffer (n : nat) : list Z := sanity_bytes n 2654435761.
