(* ===== verification/Xxh3Simd.v ===== *)
(** * Xxh3Simd: the vector paths of the hash, and that every path agrees

    A vector register is the list of its 64-bit lanes; the intrinsics the code
    uses are the lane-wise functions below, as Intel's guide defines them.  The
    three vector paths of xxh3.rs run the same statements at 2, 4 and 8 lanes.
    Every path implements the interface [PathOk], and [long_hash] over such a
    path computes [long_reference]. *)
From S2P Require Import Prelude Words Xxh3.
Open Scope Z_scope.
Open Scope mx_scope.

(** ** The intrinsics *)

(** A load of [n] lanes from the bytes at [at_], or from an array of u64. *)
Definition loadu_bytes (n : nat) (bytes : list Z) (at_ : nat) : option (list Z) :=
  mapM (fun i => read64 bytes (at_ + 8 * i)) (seq 0 n).
Definition loadu_lanes (n : nat) (lanes : list Z) (at_ : nat) : option (list Z) := slice lanes at_ n.
Definition storeu (lanes : list Z) (at_ : nat) (v : list Z) : option (list Z) :=
  if decide (at_ + length v <= length lanes)%nat
  then Some (take at_ lanes ++ v ++ drop (at_ + length v) lanes) else None.

Definition mm_xor (a b : list Z) : list Z := zip_with Z.lxor a b.
Definition mm_add_epi64 (a b : list Z) : list Z := zip_with add64 a b.
Definition mm_mul_epu32 (a b : list Z) : list Z := zip_with (fun x y => (x mod M32) * (y mod M32)) a b.
Definition mm_srli_epi64 (n : Z) (a : list Z) : list Z := map (fun x => x >>> n) a.
Definition mm_slli_epi64 (n : Z) (a : list Z) : list Z := map (fun x => x <<< n) a.
Definition mm_set1_epi32 (n : nat) (x : Z) : list Z := replicate n (w32 x + M32 * w32 x).
Definition mm_setzero (n : nat) : list Z := replicate n 0.

(** The 32-bit [i]-th word of a 128-bit group of two lanes. *)
Definition dword (a b : Z) (i : Z) : Z :=
  match i with 0 => a mod M32 | 1 => a / M32 | 2 => b mod M32 | _ => b / M32 end.
Fixpoint mm_shuffle_epi32 (imm : Z) (v : list Z) : list Z :=
  match v with
  | a :: b :: v =>
      let pick j := dword a b (Z.land (imm >>> (2 * j)) 3) in
      (pick 0 + M32 * pick 1) :: (pick 2 + M32 * pick 3) :: mm_shuffle_epi32 imm v
  | _ => []
  end.

(** Bit [n] of the result is the bit of [imm] that the three bits number. *)
Fixpoint ternary_bits (imm a b c : Z) (n : nat) : Z :=
  match n with
  | O => 0
  | S n =>
      let bit x := Z.b2z (Z.testbit x (Z.of_nat n)) in
      let which := 4 * bit a + 2 * bit b + bit c in
      Z.lor (Z.shiftl (Z.b2z (Z.testbit imm which)) (Z.of_nat n)) (ternary_bits imm a b c n)
  end.
Definition mm512_ternarylogic_epi64 (imm : Z) (a b c : list Z) : list Z :=
  zip_with (fun x yz => ternary_bits imm x yz.1 yz.2 64) a (zip b c).

(** ** The statements of the vector paths, at [n] lanes a register *)

Definition stripe_part (n : nat) (input secret accumulators : list Z) (part : nat) : option (list Z) :=
  data ← loadu_bytes n input (8 * n * part);
  key ← loadu_bytes n secret (8 * n * part);
  let keyed := mm_xor data key in
  let product := mm_mul_epu32 keyed (mm_shuffle_epi32 0x31 keyed) in
  let swapped := mm_shuffle_epi32 0x4E data in
  lanes ← loadu_lanes n accumulators (n * part);
  storeu accumulators (n * part) (mm_add_epi64 lanes (mm_add_epi64 product swapped)).

(** The multiplication by [PRIME32_1] as two 32-bit products. *)
Definition mul_prime (n : nat) (keyed : list Z) : list Z :=
  let prime := mm_set1_epi32 n PRIME32_1 in
  let low := mm_mul_epu32 keyed prime in
  let high := mm_mul_epu32 (mm_shuffle_epi32 0x31 keyed) prime in
  mm_add_epi64 low (mm_slli_epi64 32 high).

Definition scramble_part (n : nat) (secret accumulators : list Z) (part : nat) : option (list Z) :=
  value ← loadu_lanes n accumulators (n * part);
  key ← loadu_bytes n secret (8 * n * part);
  let keyed := mm_xor (mm_xor value (mm_srli_epi64 47 value)) key in
  storeu accumulators (n * part) (mul_prime n keyed).

Definition combine_part (n : nat) (acc : list Z * list Z) (part : nat) : option (list Z * list Z) :=
  let '(accumulators, odd) := acc in
  lanes ← loadu_lanes n accumulators (n * part);
  odd_lanes ← loadu_lanes n odd (n * part);
  accumulators ← storeu accumulators (n * part) (mm_add_epi64 lanes odd_lanes);
  odd ← storeu odd (n * part) (mm_setzero n);
  Some (accumulators, odd).

(** ** SSE2: four parts of two lanes *)

Definition stripe_sse2 (accumulators input secret : list Z) : option (list Z) :=
  for_each (stripe_part 2 input secret) (seq 0 4) accumulators.
Definition scramble_sse2 (accumulators secret : list Z) : option (list Z) :=
  for_each (scramble_part 2 secret) (seq 0 4) accumulators.
Definition combine_sse2 (accumulators odd : list Z) : option (list Z * list Z) :=
  for_each (combine_part 2) (seq 0 4) (accumulators, odd).
Definition sse2 : Path := mkPath stripe_sse2 combine_sse2 scramble_sse2.
Definition long_sse2 (bytes : list Z) : option Z := long_hash sse2 bytes.

(** ** AVX2: two parts of four lanes *)

Definition stripe_avx2 (accumulators input secret : list Z) : option (list Z) :=
  for_each (stripe_part 4 input secret) (seq 0 2) accumulators.
Definition scramble_avx2 (accumulators secret : list Z) : option (list Z) :=
  for_each (scramble_part 4 secret) (seq 0 2) accumulators.
Definition combine_avx2 (accumulators odd : list Z) : option (list Z * list Z) :=
  for_each (combine_part 4) (seq 0 2) (accumulators, odd).
Definition avx2 : Path := mkPath stripe_avx2 combine_avx2 scramble_avx2.
Definition long_avx2 (bytes : list Z) : option Z := long_hash avx2 bytes.

(** ** AVX-512: all eight lanes at once *)

Definition stripe_avx512 (accumulators input secret : list Z) : option (list Z) :=
  stripe_part 8 input secret accumulators 0.
Definition scramble_avx512 (accumulators secret : list Z) : option (list Z) :=
  value ← loadu_lanes 8 accumulators 0;
  key ← loadu_bytes 8 secret 0;
  let keyed := mm512_ternarylogic_epi64 0x96 value (mm_srli_epi64 47 value) key in
  storeu accumulators 0 (mul_prime 8 keyed).
Definition combine_avx512 (accumulators odd : list Z) : option (list Z * list Z) :=
  combine_part 8 (accumulators, odd) 0.
Definition avx512 : Path := mkPath stripe_avx512 combine_avx512 scramble_avx512.
Definition long_avx512 (bytes : list Z) : option Z := long_hash avx512 bytes.

(** ** The choice of a path *)

(** What the build and the processor say: the target, and the features
    detected at the call. *)
Record Cpu := mkCpu { x86_64 : bool; avx512f_detected : bool; avx2_detected : bool }.

Definition long (cpu : Cpu) (bytes : list Z) : option Z :=
  if x86_64 cpu then
    if avx512f_detected cpu then long_avx512 bytes
    else if avx2_detected cpu then long_avx2 bytes
    else long_sse2 bytes
  else long_portable bytes.

Definition xxh3_64 (cpu : Cpu) (bytes : list Z) : option Z :=
  let length_ := length bytes in
  if (length_ <=? 16)%nat then up_to_16 bytes
  else if (length_ <=? 128)%nat then up_to_128 bytes
  else if (length_ <=? 240)%nat then up_to_240 bytes
  else long cpu bytes.

(** ** The interface of a path *)

Definition is_acc (a : list Z) : Prop := length a = 8%nat /\ Forall is_u64 a.
Definition is_stripe (s : list Z) : Prop := length s = STRIPE /\ Forall is_byte s.

Class PathOk (p : Path) : Prop := {
  stripe_ok acc input secret :
    is_acc acc -> is_stripe input -> is_stripe secret ->
    path_stripe p acc input secret = Some (stripe_ref acc input secret);
  combine_ok acc odd :
    is_acc acc -> is_acc odd -> path_combine p acc odd = Some (vadd acc odd, replicate 8 0);
  scramble_ok acc secret :
    is_acc acc -> is_stripe secret -> path_scramble p acc secret = Some (scramble_ref acc secret);
}.

(** ** Lanes *)

Lemma is_u64_pow x : is_u64 x <-> 0 <= x < 256 ^ 8.
Proof. unfold is_u64. change (256 ^ 8) with M64. done. Qed.

Lemma lane64_range bytes i : Forall is_byte bytes -> is_u64 (lane64 bytes i).
Proof.
  intros H. unfold lane64.
  pose proof (from_le_range (take 8 (drop (8 * i) bytes)) ltac:(by apply Forall_take, Forall_drop)) as [H0 H1].
  split; [done|]. eapply Z.lt_le_trans; [exact H1|]. change M64 with (256 ^ 8).
  apply Z.pow_le_mono_r; [lia|]. rewrite length_take. lia.
Qed.

Lemma read64_lane bytes i :
  (8 * i + 8 <= length bytes)%nat -> read64 bytes (8 * i) = Some (lane64 bytes i).
Proof. intros. unfold read64, lane64. by rewrite slice_ok. Qed.

Lemma stripe_lane s i : is_stripe s -> (i < 8)%nat -> read64 s (8 * i) = Some (lane64 s i).
Proof. intros [Hl _] Hi. apply read64_lane. unfold STRIPE in Hl. lia. Qed.

(** The eight lanes of a stripe, by the literal offsets the loops read at. *)
Lemma stripe_lanes s :
  is_stripe s ->
  read64 s 0 = Some (lane64 s 0) /\ read64 s 8 = Some (lane64 s 1) /\
  read64 s 16 = Some (lane64 s 2) /\ read64 s 24 = Some (lane64 s 3) /\
  read64 s 32 = Some (lane64 s 4) /\ read64 s 40 = Some (lane64 s 5) /\
  read64 s 48 = Some (lane64 s 6) /\ read64 s 56 = Some (lane64 s 7).
Proof.
  intros Hs. repeat split.
  - exact (stripe_lane s 0 Hs ltac:(lia)).
  - exact (stripe_lane s 1 Hs ltac:(lia)).
  - exact (stripe_lane s 2 Hs ltac:(lia)).
  - exact (stripe_lane s 3 Hs ltac:(lia)).
  - exact (stripe_lane s 4 Hs ltac:(lia)).
  - exact (stripe_lane s 5 Hs ltac:(lia)).
  - exact (stripe_lane s 6 Hs ltac:(lia)).
  - exact (stripe_lane s 7 Hs ltac:(lia)).
Qed.

Lemma add64_assoc x y z : add64 (add64 x y) z = add64 x (add64 y z).
Proof.
  unfold add64, w64. rewrite Z.add_mod_idemp_l, Z.add_mod_idemp_r by done. f_equal. lia.
Qed.
Lemma add64_comm x y : add64 x y = add64 y x.
Proof. unfold add64. f_equal. lia. Qed.
Lemma add64_0 x : is_u64 x -> add64 x 0 = x.
Proof. intros. unfold add64. rewrite Z.add_0_r. by apply w64_id. Qed.
Lemma add64_swap a d p : add64 (add64 a d) p = add64 a (add64 p d).
Proof. by rewrite add64_assoc, (add64_comm p). Qed.

Lemma land_low32 x : Z.land x 0xFFFFFFFF = x mod M32.
Proof. change 0xFFFFFFFF with (Z.ones 32). by rewrite Z.land_ones by lia. Qed.
Lemma shiftr_high32 x : Z.shiftr x 32 = x / M32.
Proof. by rewrite Z.shiftr_div_pow2 by lia. Qed.

Lemma high32_range x : is_u64 x -> 0 <= x / M32 < M32.
Proof.
  intros [H0 H1]. split; [apply Z.div_pos; [done|reflexivity]|].
  apply Z.div_lt_upper_bound; [reflexivity|]. done.
Qed.

Lemma dwords_mod a b : 0 <= a < M32 -> (a + M32 * b) mod M32 = a.
Proof. intros. rewrite Z.mul_comm, Z.mod_add by done. by apply Z.mod_small. Qed.

Lemma dwords_join x : x mod M32 + M32 * (x / M32) = x.
Proof. pose proof (Z.div_mod x M32 ltac:(done)). lia. Qed.

(** The two 32-bit products of the vector scramble are the 64-bit one. *)
Lemma mul_by_halves x p :
  is_u64 x -> 0 <= p < M32 ->
  add64 ((x mod M32) * p) (shl64 ((x / M32) * p) 32) = mul64 x p.
Proof.
  intros Hx Hp. unfold add64, shl64, mul64, w64.
  rewrite Z.shiftl_mul_pow2, Z.add_mod_idemp_r by done. f_equal.
  change (2 ^ 32) with M32. rewrite <- (dwords_join x) at 3. ring.
Qed.

Lemma ternary_bits_spec imm a b c n k :
  0 <= k ->
  Z.testbit (ternary_bits imm a b c n) k =
  (k <? Z.of_nat n) && Z.testbit imm (4 * Z.b2z (Z.testbit a k) + 2 * Z.b2z (Z.testbit b k) + Z.b2z (Z.testbit c k)).
Proof.
  intros Hk. induction n as [|n IH].
  - simpl ternary_bits. rewrite Z.testbit_0_l. destruct (Z.ltb_spec k (Z.of_nat 0)); [lia|done].
  - cbn [ternary_bits]. rewrite Z.lor_spec, IH, Z.shiftl_spec by done.
    destruct (Z.ltb_spec k (Z.of_nat n)), (Z.ltb_spec k (Z.of_nat (S n))); try lia; simpl andb.
    + by rewrite Z.testbit_neg_r by lia.
    + assert (k = Z.of_nat n) as -> by lia. by rewrite Z.sub_diag, Z.b2z_bit0, orb_false_r.
    + rewrite orb_false_r.
      match goal with |- Z.testbit (Z.b2z ?bit) _ = _ => destruct bit end; simpl Z.b2z; [|apply Z.testbit_0_l].
      apply Z.bits_above_log2; simpl; lia.
Qed.

Lemma ternary_xor3 a b c :
  is_u64 a -> is_u64 b -> is_u64 c -> ternary_bits 0x96 a b c 64 = Z.lxor (Z.lxor a b) c.
Proof.
  intros Ha Hb Hc. apply Z.bits_inj'. intros k Hk. rewrite ternary_bits_spec by done.
  rewrite !Z.lxor_spec.
  destruct (Z.ltb_spec k (Z.of_nat 64)) as [Hlt|Hge].
  - by destruct (Z.testbit a k), (Z.testbit b k), (Z.testbit c k).
  - assert (forall x, is_u64 x -> Z.testbit x k = false) as Hhi.
    { intros x [H0 H1]. destruct (Z.eq_dec x 0) as [->|]; [apply Z.testbit_0_l|].
      apply Z.bits_above_log2; [done|]. eapply Z.lt_le_trans; [|exact Hge].
      apply Z.log2_lt_pow2; [lia|exact H1]. }
    by rewrite !Hhi.
Qed.

(** ** Every path implements the interface *)

(** The eight lanes of the accumulators by name. *)
Lemma is_acc_lanes acc :
  is_acc acc ->
  exists a0 a1 a2 a3 a4 a5 a6 a7, acc = [a0; a1; a2; a3; a4; a5; a6; a7] /\
    is_u64 a0 /\ is_u64 a1 /\ is_u64 a2 /\ is_u64 a3 /\ is_u64 a4 /\ is_u64 a5 /\ is_u64 a6 /\ is_u64 a7.
Proof.
  intros [Hl Hf]. do 8 (destruct acc as [|? acc]; [discriminate Hl|]).
  destruct acc; [|discriminate Hl]. rewrite !Forall_cons in Hf. naive_solver.
Qed.

(** What [mul_epu32] of the keyed data and of its shuffle is, lane by lane. *)
Lemma product_even x y : is_u64 x -> (x mod M32) * ((x / M32 + M32 * y) mod M32) = (x mod M32) * (x / M32).
Proof. intros Hx. by rewrite dwords_mod by (by apply high32_range). Qed.

Lemma add64_comm_inner a p d : add64 a (add64 p d) = add64 a (add64 d p).
Proof. by rewrite (add64_comm p). Qed.

(** Proves an equality of two lists lane by lane. *)
Ltac by_lanes tac := repeat (apply (f_equal2 cons); [tac|]); [reflexivity].

(** The reads of a stripe at its eight lanes. *)
Ltac read_lanes Hi :=
  let H0 := fresh in let H1 := fresh in let H2 := fresh in let H3 := fresh in
  let H4 := fresh in let H5 := fresh in let H6 := fresh in let H7 := fresh in
  pose proof (stripe_lanes _ Hi) as (H0 & H1 & H2 & H3 & H4 & H5 & H6 & H7);
  rewrite ?H0, ?H1, ?H2, ?H3, ?H4, ?H5, ?H6, ?H7; clear H0 H1 H2 H3 H4 H5 H6 H7.

(** A lane of a stripe is a word, and so is its xor with the secret's. *)
Lemma keyed_range input secret i : is_stripe input -> is_stripe secret -> is_u64 (lane64 input i ^^ lane64 secret i).
Proof. intros [_ Hi] [_ Hs]. by apply lxor_is_u64; apply lane64_range. Qed.

Lemma stripe_portable_ok acc input secret :
  is_acc acc -> is_stripe input -> is_stripe secret ->
  stripe_portable acc input secret = Some (stripe_ref acc input secret).
Proof.
  intros (a0 & a1 & a2 & a3 & a4 & a5 & a6 & a7 & -> & _)%is_acc_lanes Hi Hs.
  unfold stripe_portable. simpl for_each. read_lanes Hi. read_lanes Hs.
  unfold stripe_ref, vadd, stripe_sum, lane_sum. simpl.
  rewrite !land_low32, !shiftr_high32.
  f_equal. rewrite !add64_assoc.
  by_lanes ltac:(first [reflexivity | by rewrite add64_comm_inner]).
Qed.

Lemma scramble_portable_ok acc secret :
  is_acc acc -> is_stripe secret -> scramble_portable acc secret = Some (scramble_ref acc secret).
Proof.
  intros (a0 & a1 & a2 & a3 & a4 & a5 & a6 & a7 & -> & _)%is_acc_lanes Hs.
  unfold scramble_portable. simpl for_each. read_lanes Hs. done.
Qed.

#[export] Instance portable_ok : PathOk portable.
Proof.
  split; [exact stripe_portable_ok| |exact scramble_portable_ok].
  intros acc odd (a0 & a1 & a2 & a3 & a4 & a5 & a6 & a7 & -> & _)%is_acc_lanes
    (b0 & b1 & b2 & b3 & b4 & b5 & b6 & b7 & -> & _)%is_acc_lanes. done.
Qed.

(** The vector stripe, once its loads are lanes. *)
Ltac stripe_vector Hi Hs :=
  unfold stripe_part, loadu_bytes; simpl; read_lanes Hi; read_lanes Hs; unfold storeu; simpl;
  rewrite !dwords_join; f_equal; unfold stripe_ref, vadd, stripe_sum, lane_sum; simpl;
  by_lanes ltac:(by rewrite product_even, add64_comm_inner by (by apply keyed_range)).

Lemma stripe_sse2_ok acc input secret :
  is_acc acc -> is_stripe input -> is_stripe secret ->
  stripe_sse2 acc input secret = Some (stripe_ref acc input secret).
Proof.
  intros (a0 & a1 & a2 & a3 & a4 & a5 & a6 & a7 & -> & _)%is_acc_lanes Hi Hs.
  unfold stripe_sse2. stripe_vector Hi Hs.
Qed.

Lemma stripe_avx2_ok acc input secret :
  is_acc acc -> is_stripe input -> is_stripe secret ->
  stripe_avx2 acc input secret = Some (stripe_ref acc input secret).
Proof.
  intros (a0 & a1 & a2 & a3 & a4 & a5 & a6 & a7 & -> & _)%is_acc_lanes Hi Hs.
  unfold stripe_avx2. stripe_vector Hi Hs.
Qed.

Lemma stripe_avx512_ok acc input secret :
  is_acc acc -> is_stripe input -> is_stripe secret ->
  stripe_avx512 acc input secret = Some (stripe_ref acc input secret).
Proof.
  intros (a0 & a1 & a2 & a3 & a4 & a5 & a6 & a7 & -> & _)%is_acc_lanes Hi Hs.
  unfold stripe_avx512. stripe_vector Hi Hs.
Qed.

(** One lane of the scramble is a word times the prime, by halves. *)
Lemma scramble_lane a k y :
  is_u64 a -> is_u64 k ->
  (((a ^^ (a >>> 47)) ^^ k) mod M32 * ((w32 PRIME32_1 + M32 * w32 PRIME32_1) mod M32)) +w
    ((((((a ^^ (a >>> 47)) ^^ k) / M32 + M32 * y) mod M32)
       * ((w32 PRIME32_1 + M32 * w32 PRIME32_1) mod M32)) <<< 32) =
  (a ^^ (a >>> 47) ^^ k) *w PRIME32_1.
Proof.
  intros Ha Hk. assert (is_u64 ((a ^^ (a >>> 47)) ^^ k)) as Hx by auto 6 with mx zarith.
  rewrite (dwords_mod (w32 PRIME32_1)) by apply w32_range.
  rewrite dwords_mod by (by apply high32_range).
  apply mul_by_halves; [done|]. by vm_compute.
Qed.

Ltac scramble_vector Hs :=
  unfold scramble_part, loadu_bytes; simpl; read_lanes Hs; unfold storeu; simpl; f_equal;
  unfold scramble_ref; simpl;
  by_lanes ltac:(apply scramble_lane; [done|apply lane64_range, Hs]).

Lemma scramble_sse2_ok acc secret :
  is_acc acc -> is_stripe secret -> scramble_sse2 acc secret = Some (scramble_ref acc secret).
Proof.
  intros (a0 & a1 & a2 & a3 & a4 & a5 & a6 & a7 & -> & ? & ? & ? & ? & ? & ? & ? & ?)%is_acc_lanes Hs.
  unfold scramble_sse2. scramble_vector Hs.
Qed.

Lemma scramble_avx2_ok acc secret :
  is_acc acc -> is_stripe secret -> scramble_avx2 acc secret = Some (scramble_ref acc secret).
Proof.
  intros (a0 & a1 & a2 & a3 & a4 & a5 & a6 & a7 & -> & ? & ? & ? & ? & ? & ? & ? & ?)%is_acc_lanes Hs.
  unfold scramble_avx2. scramble_vector Hs.
Qed.

Lemma ternarylogic_xor a b c :
  Forall is_u64 a -> Forall is_u64 b -> Forall is_u64 c -> length a = length b -> length b = length c ->
  mm512_ternarylogic_epi64 0x96 a b c = mm_xor (mm_xor a b) c.
Proof.
  intros Ha. revert b c. induction Ha as [|x a Hx Ha IH]; intros [|y b] [|z c] Hb Hc Hl1 Hl2; try done.
  apply Forall_cons in Hb as [Hy Hb]. apply Forall_cons in Hc as [Hz Hc].
  unfold mm512_ternarylogic_epi64, mm_xor. cbn [zip_with]. cbn [fst snd].
  rewrite ternary_xor3 by done. f_equal. apply IH; auto; simpl in *; lia.
Qed.

Lemma scramble_avx512_ok acc secret :
  is_acc acc -> is_stripe secret -> scramble_avx512 acc secret = Some (scramble_ref acc secret).
Proof.
  intros Hacc Hs. pose proof Hacc as (a0 & a1 & a2 & a3 & a4 & a5 & a6 & a7 & -> & ? & ? & ? & ? & ? & ? & ? & ?)%is_acc_lanes.
  set (acc := [a0; a1; a2; a3; a4; a5; a6; a7]) in *.
  assert (loadu_lanes 8 acc 0 = Some acc) as Hv by done.
  assert (loadu_bytes 8 secret 0 = Some (map (lane64 secret) (seq 0 8))) as Hk.
  { unfold loadu_bytes. simpl. by read_lanes Hs. }
  unfold scramble_avx512. rewrite Hv, Hk. cbn [mbind option_bind].
  rewrite ternarylogic_xor; [|apply Hacc| | |done|done].
  - unfold acc. scramble_vector Hs.
  - apply Forall_map. eapply Forall_impl; [apply Hacc|]. simpl. auto with mx zarith.
  - apply Forall_map, Forall_forall. intros. apply lane64_range, Hs.
Qed.

Ltac combine_vector :=
  intros acc odd (a0 & a1 & a2 & a3 & a4 & a5 & a6 & a7 & -> & _)%is_acc_lanes
    (b0 & b1 & b2 & b3 & b4 & b5 & b6 & b7 & -> & _)%is_acc_lanes; reflexivity.

#[export] Instance sse2_ok : PathOk sse2.
Proof. split; [exact stripe_sse2_ok|combine_vector|exact scramble_sse2_ok]. Qed.
#[export] Instance avx2_ok : PathOk avx2.
Proof. split; [exact stripe_avx2_ok|combine_vector|exact scramble_avx2_ok]. Qed.
#[export] Instance avx512_ok : PathOk avx512.
Proof. split; [exact stripe_avx512_ok|combine_vector|exact scramble_avx512_ok]. Qed.
