(* ===== verification/Xxh3Paths.v ===== *)
(** * Xxh3Paths: every path of the hash computes the reference

    [long_hash] over any path that implements [PathOk] is [long_reference]: the
    odd stripes may be summed apart because a stripe only adds to the
    accumulators, modulo 2^64.  With it, the choice of the path at the call
    does not show in the checksum, and no body makes the code panic. *)
From S2P Require Import Prelude Words Xxh3 Xxh3Simd.
Open Scope Z_scope.
Open Scope mx_scope.

(** ** Chunks *)

Lemma as_chunks_app {A} n (x l : list A) :
  (0 < n)%nat -> length x = n ->
  as_chunks n (x ++ l) = (x :: (as_chunks n l).1, (as_chunks n l).2).
Proof.
  intros Hn Hx. unfold as_chunks. rewrite length_app, Hx.
  replace ((n + length l) / n)%nat with (S (length l / n)).
  2: { replace (n + length l)%nat with (length l + 1 * n)%nat by lia. rewrite Nat.div_add by lia. lia. }
  cbn [seq map fst snd]. rewrite Nat.mul_0_l, drop_0, take_app_length' by done. f_equal; [f_equal|].
  - rewrite <- seq_shift, map_map. apply map_ext. intros i.
    replace (S i * n)%nat with (length x + i * n)%nat by lia. by rewrite drop_app_add.
  - replace (S (length l / n) * n)%nat with (length x + length l / n * n)%nat by lia.
    by rewrite drop_app_add.
Qed.

Lemma as_chunks_short {A} n (l : list A) : (length l < n)%nat -> as_chunks n l = ([], l).
Proof. intros. unfold as_chunks. by rewrite Nat.div_small. Qed.

Lemma as_chunks_2_length {A} (l : list A) :
  length l = (2 * length (as_chunks 2 l).1 + length (as_chunks 2 l).2)%nat.
Proof.
  unfold as_chunks. cbn [fst snd]. rewrite length_map, length_seq, length_drop.
  pose proof (Nat.div_mod_eq (length l) 2). lia.
Qed.

(** ** Accumulators *)

Lemma vadd_acc a b : is_acc a -> is_acc b -> is_acc (vadd a b).
Proof.
  intros [La Fa] [Lb Fb]. split; [unfold vadd; rewrite length_zip_with; lia|].
  unfold vadd. clear La Lb. revert b Fb. induction Fa; intros [|y b] Fb; simpl; auto using Forall_nil.
  apply Forall_cons in Fb as [_ Fb]. constructor; auto with mx.
Qed.

Lemma stripe_sum_acc i k : is_acc (stripe_sum i k).
Proof.
  split; [done|]. apply Forall_map, Forall_forall. intros j _. apply add64_range.
Qed.

Lemma stripe_ref_acc a i k : is_acc a -> is_acc (stripe_ref a i k).
Proof. intros. apply vadd_acc; [done|apply stripe_sum_acc]. Qed.

Lemma zero_acc : is_acc (replicate 8 0).
Proof. split; [done|]. apply Forall_replicate. by vm_compute. Qed.

Lemma scramble_ref_acc a k : is_acc a -> is_acc (scramble_ref a k).
Proof.
  intros (a0 & a1 & a2 & a3 & a4 & a5 & a6 & a7 & -> & _)%is_acc_lanes.
  split; [done|]. unfold scramble_ref. simpl. repeat constructor; apply w64_range.
Qed.

#[export] Hint Resolve vadd_acc stripe_sum_acc stripe_ref_acc zero_acc scramble_ref_acc : mx.

Lemma vadd_assoc a b c : vadd (vadd a b) c = vadd a (vadd b c).
Proof.
  unfold vadd. revert b c. induction a as [|x a IH]; intros [|y b] [|z c]; simpl; auto.
  by rewrite add64_assoc, IH.
Qed.

Lemma vadd_comm a b : vadd a b = vadd b a.
Proof.
  unfold vadd. revert b. induction a as [|x a IH]; intros [|y b]; simpl; auto.
  by rewrite add64_comm, IH.
Qed.

Lemma vadd_zero a : is_acc a -> vadd a (replicate 8 0) = a.
Proof.
  intros (a0 & a1 & a2 & a3 & a4 & a5 & a6 & a7 & -> & Ha)%is_acc_lanes. destr_all.
  unfold vadd. simpl. by rewrite !add64_0.
Qed.

Lemma stripe_into_even a o i k : vadd (stripe_ref a i k) o = stripe_ref (vadd a o) i k.
Proof. unfold stripe_ref. by rewrite !vadd_assoc, (vadd_comm o). Qed.
Lemma stripe_into_odd a o i k : vadd a (stripe_ref o i k) = stripe_ref (vadd a o) i k.
Proof. unfold stripe_ref. by rewrite vadd_assoc. Qed.

(** ** Stripes in order *)

Fixpoint stripes_seq (acc : list Z) (i : nat) (stripes : list (list Z)) : list Z :=
  match stripes with
  | [] => acc
  | s :: stripes => stripes_seq (stripe_ref acc s (secret_at (8 * i))) (S i) stripes
  end.

Lemma stripes_seq_acc acc i l : is_acc acc -> is_acc (stripes_seq acc i l).
Proof. revert acc i. induction l; simpl; auto with mx. Qed.

Lemma stripes_seq_ref acc (f : nat -> list Z) s n :
  stripes_seq acc s (map f (seq s n)) =
  fold_left (fun acc i => stripe_ref acc (f i) (secret_at (8 * i))) (seq s n) acc.
Proof. revert acc s. induction n as [|n IH]; intros acc s; simpl; [done|]. apply IH. Qed.

Lemma SECRET_bytes : Forall is_byte SECRET.
Proof. apply bytes_check. by vm_compute. Qed.

Lemma secret_at_ok at_ : (at_ + 64 <= 192)%nat -> stripe_at SECRET at_ = Some (secret_at at_) /\ is_stripe (secret_at at_).
Proof.
  intros H. unfold stripe_at, secret_at. change (length SECRET) with 192%nat in *.
  rewrite slice_ok by (change (length SECRET) with 192%nat; unfold STRIPE; lia).
  split; [done|]. split.
  - rewrite length_take, length_drop. change (length SECRET) with 192%nat. unfold STRIPE. lia.
  - apply Forall_take, Forall_drop, SECRET_bytes.
Qed.

Section Paths.
Context (p : Path) `{!PathOk p}.

Lemma pair_of_stripes_ok acc odd i s1 s2 :
  is_acc acc -> is_acc odd -> is_stripe s1 -> is_stripe s2 -> (2 * i + 1 < 17)%nat ->
  pair_of_stripes p (acc, odd) (i, [s1; s2]) =
  Some (stripe_ref acc s1 (secret_at (8 * (2 * i))), stripe_ref odd s2 (secret_at (8 * (2 * i + 1)))).
Proof.
  intros Ha Ho H1 H2 Hi. unfold pair_of_stripes, secret_stripe.
  destruct (secret_at_ok (8 * (2 * i)) ltac:(lia)) as [-> Hk1].
  destruct (secret_at_ok (8 * (2 * i + 1)) ltac:(lia)) as [-> Hk2].
  cbn [mbind option_bind]. rewrite stripe_ok by done. simpl. by rewrite stripe_ok.
Qed.

(** The loop over pairs leaves the even and the odd sums of the stripes in
    order, and at most one stripe. *)
Lemma pairs_ok n stripes i acc odd :
  (length stripes <= n)%nat -> Forall is_stripe stripes -> is_acc acc -> is_acc odd ->
  (2 * i + length stripes <= 16)%nat ->
  let '(pairs, rest) := as_chunks 2 stripes in
  exists acc' odd',
    for_each (pair_of_stripes p) (zip (seq i (length pairs)) pairs) (acc, odd) = Some (acc', odd') /\
    is_acc acc' /\ is_acc odd' /\ (length rest <= 1)%nat /\ Forall is_stripe rest /\
    (2 * (i + length pairs) + length rest <= 16)%nat /\
    stripes_seq (vadd acc odd) (2 * i) stripes =
      stripes_seq (vadd acc' odd') (2 * (i + length pairs)) rest.
Proof.
  revert stripes i acc odd. induction n as [|n IH]; intros stripes i acc odd Hn HF Ha Ho Hi.
  { destruct stripes; [|simpl in Hn; lia]. rewrite as_chunks_short by (simpl; lia).
    exists acc, odd. rewrite Nat.add_0_r. do 3 (split; [done|]). split_and!; simpl in *; auto; lia. }
  destruct stripes as [|s1 [|s2 stripes]].
  - rewrite as_chunks_short by (simpl; lia).
    exists acc, odd. rewrite Nat.add_0_r. do 3 (split; [done|]). split_and!; simpl in *; auto; lia.
  - rewrite as_chunks_short by (simpl; lia).
    exists acc, odd. rewrite Nat.add_0_r. do 3 (split; [done|]). split_and!; simpl in *; auto; lia.
  - change (s1 :: s2 :: stripes) with ([s1; s2] ++ stripes).
    rewrite as_chunks_app by (done || lia).
    apply Forall_cons in HF as [H1 HF]. apply Forall_cons in HF as [H2 HF]. simpl in Hn, Hi.
    specialize (IH stripes (S i) (stripe_ref acc s1 (secret_at (8 * (2 * i))))
      (stripe_ref odd s2 (secret_at (8 * (2 * i + 1)))) ltac:(lia) HF
      ltac:(auto with mx) ltac:(auto with mx) ltac:(lia)).
    destruct (as_chunks 2 stripes) as [pairs rest].
    destruct IH as (acc' & odd' & Hfor & Ha' & Ho' & Hr & HFr & Hb & Hseq).
    exists acc', odd'. cbn [fst snd length seq zip for_each].
    rewrite pair_of_stripes_ok by (done || lia). split; [exact Hfor|].
    do 4 (split; [done|]). split; [lia|].
    replace (i + S (length pairs))%nat with (S i + length pairs)%nat by lia.
    rewrite <- Hseq. cbn [stripes_seq app].
    rewrite stripe_into_odd, stripe_into_even.
    replace (S (2 * i)) with (2 * i + 1)%nat by lia.
    by replace (S (2 * i + 1)) with (2 * S i)%nat by lia.
Qed.

(** The stripes of a string of bytes, as [as_chunks] cuts them. *)
Definition cut (bytes : list Z) (n : nat) : list (list Z) :=
  map (fun i => take STRIPE (drop (i * STRIPE) bytes)) (seq 0 n).

Lemma cut_stripes bytes n :
  Forall is_byte bytes -> (n * STRIPE <= length bytes)%nat -> Forall is_stripe (cut bytes n).
Proof.
  intros HF Hn. apply Forall_map, Forall_forall. intros i Hi%elem_of_seq. simpl. split.
  - rewrite length_take, length_drop. unfold STRIPE in *. lia.
  - by apply Forall_take, Forall_drop.
Qed.

Lemma cut_take bytes n m : (n * STRIPE <= m)%nat -> cut (take m bytes) n = cut bytes n.
Proof.
  intros Hm. apply map_ext_in. intros i Hi%in_seq.
  rewrite skipn_firstn_comm, take_take. f_equal. unfold STRIPE in *. nia.
Qed.

Lemma stripes_ref_seq acc bytes n : stripes_ref acc bytes n = stripes_seq acc 0 (cut bytes n).
Proof. unfold stripes_ref, cut. by rewrite stripes_seq_ref. Qed.

(** The stripes of a block or of the last part of one: the loop over pairs,
    the single stripe left if there is one, and the joining of the sums. *)
Lemma stripes_ok acc bytes n :
  is_acc acc -> Forall is_byte bytes -> (n <= 16)%nat -> n = (length bytes / STRIPE)%nat ->
  let '(pairs, rest) := as_chunks 2 (as_chunks STRIPE bytes).1 in
  exists acc1 odd1 acc2,
    for_each (pair_of_stripes p) (enumerate pairs) (acc, replicate 8 0) = Some (acc1, odd1) /\
    match rest with
    | [single] => k ← secret_stripe (2 * length pairs); path_stripe p acc1 single k
    | _ => Some acc1
    end = Some acc2 /\
    (rest = [] -> acc2 = acc1) /\
    path_combine p acc2 odd1 = Some (stripes_ref acc bytes n, replicate 8 0) /\
    ((n mod 2)%nat = 0%nat -> rest = []).
Proof.
  intros Ha HF Hn Heq.
  assert (n * STRIPE <= length bytes)%nat as Hle.
  { subst n. rewrite Nat.mul_comm. by apply Nat.Div0.mul_div_le. }
  assert ((as_chunks STRIPE bytes).1 = cut bytes n) as -> by (unfold as_chunks; by rewrite <- Heq).
  assert (length (cut bytes n) = n) as Hlen by (unfold cut; by rewrite length_map, length_seq).
  pose proof (pairs_ok n (cut bytes n) 0 acc (replicate 8 0) ltac:(lia)
    (cut_stripes _ _ HF Hle) Ha zero_acc ltac:(lia)) as H.
  pose proof (as_chunks_2_length (cut bytes n)) as H2. rewrite Hlen in H2.
  destruct (as_chunks 2 (cut bytes n)) as [pairs rest].
  destruct H as (acc1 & odd1 & Hfor & Ha1 & Ho1 & Hr & HFr & Hb & Hseq).
  rewrite vadd_zero in Hseq by done. simpl Nat.add in *. change (2 * 0)%nat with 0%nat in Hseq.
  exists acc1, odd1. destruct rest as [|single [|? ?]]; [| |simpl in Hr; lia].
  - exists acc1. do 3 (split; [done|]). rewrite combine_ok by done.
    rewrite stripes_ref_seq, Hseq. done.
  - apply Forall_cons in HFr as [Hs _]. simpl in Hb, H2.
    destruct (secret_at_ok (8 * (2 * length pairs)) ltac:(lia)) as [Hk Hks].
    exists (stripe_ref acc1 single (secret_at (8 * (2 * length pairs)))).
    split; [done|]. unfold secret_stripe. rewrite Hk. cbn [mbind option_bind]. rewrite stripe_ok by done.
    split; [done|]. split; [done|]. rewrite combine_ok by auto with mx.
    rewrite stripes_ref_seq, Hseq. cbn [stripes_seq]. rewrite stripe_into_even.
    split; [done|]. intros Hev. exfalso.
    replace n with (1 + length pairs * 2)%nat in Hev by lia.
    by rewrite Nat.Div0.mod_add in Hev.
Qed.

Lemma one_block_ok acc block :
  is_acc acc -> Forall is_byte block -> length block = BLOCK ->
  one_block p (acc, replicate 8 0) block =
  Some (scramble_ref (stripes_ref acc block STRIPES_PER_BLOCK) (secret_at (length SECRET - STRIPE)),
        replicate 8 0).
Proof.
  intros Ha HF Hl. unfold one_block.
  pose proof (stripes_ok acc block STRIPES_PER_BLOCK Ha HF ltac:(by vm_compute) ltac:(by rewrite Hl)) as H.
  destruct (as_chunks 2 (as_chunks STRIPE block).1) as [pairs rest]. cbn [fst].
  destruct H as (acc1 & odd1 & acc2 & Hfor & _ & H21 & Hcomb & Hrest).
  rewrite Hfor. cbn [mbind option_bind]. rewrite <- (H21 (Hrest eq_refl)), Hcomb. cbn [mbind option_bind].
  destruct (secret_at_ok (length SECRET - STRIPE) ltac:(by vm_compute)) as [-> Hk]. cbn [mbind option_bind].
  rewrite scramble_ok; [done| |done]. rewrite stripes_ref_seq. by apply stripes_seq_acc.
Qed.

Lemma blocks_ok acc bytes n s :
  is_acc acc -> Forall is_byte bytes -> ((s + n) * BLOCK <= length bytes)%nat ->
  for_each (one_block p) (map (fun b => take BLOCK (drop (b * BLOCK) bytes)) (seq s n)) (acc, replicate 8 0) =
  Some (fold_left (fun acc b =>
      scramble_ref (stripes_ref acc (drop (b * BLOCK) bytes) STRIPES_PER_BLOCK)
        (secret_at (length SECRET - STRIPE))) (seq s n) acc, replicate 8 0) /\
  is_acc (fold_left (fun acc b =>
      scramble_ref (stripes_ref acc (drop (b * BLOCK) bytes) STRIPES_PER_BLOCK)
        (secret_at (length SECRET - STRIPE))) (seq s n) acc).
Proof.
  intros Ha HF Hle. revert s acc Ha Hle. induction n as [|n IH]; intros s acc Ha Hle; [done|].
  cbn [seq map for_each fold_left].
  assert (forall a, stripes_ref a (take BLOCK (drop (s * BLOCK) bytes)) STRIPES_PER_BLOCK =
                    stripes_ref a (drop (s * BLOCK) bytes) STRIPES_PER_BLOCK) as Hst.
  { intros a. rewrite !stripes_ref_seq, cut_take; [done|by vm_compute]. }
  rewrite one_block_ok; [|done|by apply Forall_take, Forall_drop|rewrite length_take, length_drop; nia].
  cbn [mbind option_bind]. rewrite Hst. apply IH; [|lia].
  apply scramble_ref_acc. rewrite stripes_ref_seq. by apply stripes_seq_acc.
Qed.

Lemma fold_pairs_ok acc r :
  is_acc acc ->
  for_each (fold_pair acc) (seq 0 4) r =
  Some (fold_left (fun result i =>
    result +w multiply_fold (nth (2 * i) acc 0 ^^ from_le (take 8 (drop (11 + 16 * i) SECRET)))
                            (nth (2 * i + 1) acc 0 ^^ from_le (take 8 (drop (19 + 16 * i) SECRET))))
    (seq 0 4) r).
Proof.
  intros (a0 & a1 & a2 & a3 & a4 & a5 & a6 & a7 & -> & _)%is_acc_lanes.
  reflexivity.
Qed.

(** The last 64 bytes of a body are its last stripe. *)
Lemma last_stripe_ok bytes :
  Forall is_byte bytes -> (240 < length bytes)%nat ->
  stripe_at bytes (length bytes - STRIPE) = Some (drop (length bytes - STRIPE) bytes) /\
  is_stripe (drop (length bytes - STRIPE) bytes).
Proof.
  intros HF Hl. unfold stripe_at. rewrite slice_ok by (unfold STRIPE; lia).
  rewrite take_ge by (rewrite length_drop; unfold STRIPE; lia). split; [done|].
  split; [rewrite length_drop; unfold STRIPE; lia|]. by apply Forall_drop.
Qed.

(** The end of [long_hash]: the last block's stripes, the last stripe, the fold. *)
Lemma last_block_ok acc bytes start :
  is_acc acc -> Forall is_byte bytes -> (240 < length bytes)%nat ->
  (start <= length bytes - 1)%nat -> (length bytes - 1 - start < BLOCK)%nat ->
  let tail := take (length bytes - 1 - start) (drop start bytes) in
  let '(pairs, rest) := as_chunks 2 (as_chunks STRIPE tail).1 in
  exists acc1 odd1 acc2,
    for_each (pair_of_stripes p) (enumerate pairs) (acc, replicate 8 0) = Some (acc1, odd1) /\
    match rest with
    | [single] => k ← secret_stripe (2 * length pairs); path_stripe p acc1 single k
    | _ => Some acc1
    end = Some acc2 /\
    path_combine p acc2 odd1 =
      Some (stripes_ref acc (drop start bytes) ((length bytes - 1 - start) / STRIPE), replicate 8 0).
Proof.
  intros Ha HF Hl Hs Hb tail.
  assert (length tail = length bytes - 1 - start)%nat as Ht.
  { unfold tail. rewrite length_take, length_drop. lia. }
  pose proof (stripes_ok acc tail ((length bytes - 1 - start) / STRIPE) Ha
    ltac:(by apply Forall_take, Forall_drop)) as H.
  destruct (as_chunks 2 (as_chunks STRIPE tail).1) as [pairs rest].
  destruct H as (acc1 & odd1 & acc2 & Hfor & Hm & _ & Hc & _); [|by rewrite Ht|].
  { apply Nat.lt_succ_r, Nat.Div0.div_lt_upper_bound. change BLOCK with 1024%nat in Hb. unfold STRIPE. lia. }
  exists acc1, odd1, acc2. do 2 (split; [done|]). rewrite Hc, !stripes_ref_seq. unfold tail.
  rewrite cut_take; [done|]. rewrite Nat.mul_comm. by apply Nat.Div0.mul_div_le.
Qed.

Lemma long_hash_ok bytes :
  Forall is_byte bytes -> (240 < length bytes)%nat -> long_hash p bytes = Some (long_reference bytes).
Proof.
  intros HF Hl. unfold long_hash, long_reference.
  set (blocks := ((length bytes - 1) / BLOCK)%nat).
  assert (blocks * BLOCK <= length bytes - 1)%nat as Hb.
  { rewrite Nat.mul_comm. by apply Nat.Div0.mul_div_le. }
  assert (slice (as_chunks BLOCK bytes).1 0 blocks =
          Some (map (fun b => take BLOCK (drop (b * BLOCK) bytes)) (seq 0 blocks))) as ->.
  { assert (blocks <= length bytes / BLOCK)%nat by (apply Nat.Div0.div_le_mono; lia).
    unfold as_chunks. cbn [fst]. rewrite slice_ok by (rewrite length_map, length_seq; lia).
    rewrite drop_0, firstn_map. do 2 f_equal. by rewrite take_seq, Nat.min_l. }
  cbn [mbind option_bind].
  destruct (blocks_ok accumulators0 bytes blocks 0) as [Hbl Hbacc]; [|done|simpl; lia|].
  { split; [done|]. repeat constructor; by vm_compute. }
  rewrite Hbl. cbn [mbind option_bind]. revert Hbacc. generalize (fold_left (fun acc b =>
      scramble_ref (stripes_ref acc (drop (b * BLOCK) bytes) STRIPES_PER_BLOCK)
        (secret_at (length SECRET - STRIPE))) (seq 0 blocks) accumulators0) as acc. clear Hbl. intros acc Hacc.
  rewrite slice_ok by lia. cbn [mbind option_bind].
  assert (length bytes - 1 - blocks * BLOCK < BLOCK)%nat as Hlt.
  { pose proof (Nat.div_mod_eq (length bytes - 1) BLOCK).
    pose proof (Nat.mod_upper_bound (length bytes - 1) BLOCK ltac:(by vm_compute)). unfold blocks. lia. }
  pose proof (last_block_ok acc bytes (blocks * BLOCK) Hacc HF Hl Hb Hlt) as H. cbn zeta in H.
  destruct (as_chunks 2 _) as [pairs rest]. destruct H as (acc1 & odd1 & acc2 & -> & Hm & Hc).
  cbn [mbind option_bind] in *. rewrite Hm. cbn [mbind option_bind]. rewrite Hc. cbn [mbind option_bind].
  destruct (last_stripe_ok bytes HF Hl) as [-> Hls].
  destruct (secret_at_ok (length SECRET - STRIPE - 7) ltac:(vm_compute; lia)) as [-> Hk].
  cbn [mbind option_bind].
  assert (is_acc (stripes_ref acc (drop (blocks * BLOCK) bytes) ((length bytes - 1 - blocks * BLOCK) / STRIPE)))
    as Hst by (rewrite stripes_ref_seq; by apply stripes_seq_acc).
  rewrite stripe_ok by done. cbn [mbind option_bind]. rewrite fold_pairs_ok by auto with mx. done.
Qed.
End Paths.

(** ** Short bodies *)

Lemma avalanche_range h : is_u64 (avalanche h).
Proof. unfold avalanche. auto with mx zarith. Qed.
Lemma xxh64_avalanche_range h : is_u64 (xxh64_avalanche h).
Proof. unfold xxh64_avalanche. auto with mx zarith. Qed.
Lemma rrmxmx_range h l : is_u64 (rrmxmx h l).
Proof. unfold rrmxmx. auto with mx zarith. Qed.

#[export] Hint Resolve avalanche_range xxh64_avalanche_range rrmxmx_range : mx.

Lemma read64_total bytes at_ : (at_ + 8 <= length bytes)%nat -> exists x, read64 bytes at_ = Some x.
Proof. intros. unfold read64. rewrite slice_ok by done. by eexists. Qed.
Lemma read32_total bytes at_ : (at_ + 4 <= length bytes)%nat -> exists x, read32 bytes at_ = Some x.
Proof. intros. unfold read32. rewrite slice_ok by done. by eexists. Qed.

Lemma mixed_in_total bytes acc at_ secret :
  (at_ + 16 <= length bytes)%nat -> (secret + 16 <= 192)%nat ->
  exists x, mixed_in bytes acc at_ secret = Some x.
Proof.
  intros Hb Hs. unfold mixed_in, mix16.
  destruct (read64_total bytes at_ ltac:(lia)) as [? ->].
  destruct (read64_total bytes (at_ + 8) ltac:(lia)) as [? ->].
  destruct (read64_total SECRET secret ltac:(change (length SECRET) with 192%nat; lia)) as [? ->].
  destruct (read64_total SECRET (secret + 8) ltac:(change (length SECRET) with 192%nat; lia)) as [? ->].
  by eexists.
Qed.

Lemma for_each_total {A B} (body : B -> A -> option B) l b :
  (forall x b, x ∈ l -> exists b', body b x = Some b') -> exists b', for_each body l b = Some b'.
Proof.
  revert b. induction l as [|x l IH]; intros b H; simpl; [by eexists|].
  destruct (H x b ltac:(set_solver)) as [b' ->]. apply IH. set_solver.
Qed.

(** Runs the next step of a chain of mixes. *)
Ltac mix_step :=
  match goal with
  | |- context [mixed_in ?b ?a ?i ?s] =>
      let H := fresh in
      destruct (mixed_in_total b a i s ltac:(lia) ltac:(lia)) as [? H]; rewrite H; cbn [mbind option_bind]
  end.

Lemma up_to_128_total bytes :
  (16 < length bytes)%nat -> exists h, up_to_128 bytes = Some h /\ is_u64 h.
Proof.
  intros Hl. unfold up_to_128.
  destruct (Nat.ltb_spec 32 (length bytes)); [destruct (Nat.ltb_spec 64 (length bytes));
    [destruct (Nat.ltb_spec 96 (length bytes))|]|]; cbn [mbind option_bind];
    repeat mix_step; eauto with mx.
Qed.

Lemma up_to_240_total bytes :
  (128 < length bytes <= 240)%nat -> exists h, up_to_240 bytes = Some h /\ is_u64 h.
Proof.
  intros Hl. unfold up_to_240.
  destruct (for_each_total (fun acc round => mixed_in bytes acc (16 * round) (16 * round)) (seq 0 8)
    (w64 (Z.of_nat (length bytes)) *w PRIME64_1)) as [a ->].
  { intros r b Hr%elem_of_seq. apply mixed_in_total; lia. }
  cbn [mbind option_bind].
  destruct (for_each_total (fun acc round => mixed_in bytes acc (16 * round) (16 * (round - 8) + 3))
    (seq 8 (length bytes / 16 - 8)) (avalanche a)) as [a' ->].
  { intros r b Hr%elem_of_seq. pose proof (Nat.Div0.mul_div_le (length bytes) 16).
    apply mixed_in_total; lia. }
  cbn [mbind option_bind]. mix_step. eauto with mx.
Qed.

Lemma up_to_16_total bytes :
  (length bytes <= 16)%nat -> exists h, up_to_16 bytes = Some h /\ is_u64 h.
Proof.
  intros Hl. unfold up_to_16.
  repeat match goal with
  | |- context [read64 SECRET ?i] => change (read64 SECRET i) with (Some (from_le (take 8 (drop i SECRET))))
  | |- context [read32 SECRET ?i] => change (read32 SECRET i) with (Some (from_le (take 4 (drop i SECRET))))
  end. cbn [mbind option_bind].
  destruct (Nat.ltb_spec 8 (length bytes)); [|destruct (Nat.leb_spec 4 (length bytes));
    [|destruct (Nat.ltb_spec 0 (length bytes))]].
  - destruct (read64_total bytes 0 ltac:(lia)) as [? ->].
    destruct (read64_total bytes (length bytes - 8) ltac:(lia)) as [? ->].
    cbn [mbind option_bind]. eauto with mx.
  - destruct (read32_total bytes 0 ltac:(lia)) as [? ->].
    destruct (read32_total bytes (length bytes - 4) ltac:(lia)) as [? ->].
    cbn [mbind option_bind]. eauto with mx.
  - destruct (lookup_lt_is_Some_2 bytes 0 ltac:(lia)) as [? ->].
    destruct (lookup_lt_is_Some_2 bytes (length bytes / 2)) as [? ->]; [by apply Nat.div_lt; lia|].
    destruct (lookup_lt_is_Some_2 bytes (length bytes - 1) ltac:(lia)) as [? ->].
    cbn [mbind option_bind]. eauto with mx.
  - eauto with mx.
Qed.

(** What every processor computes for a string of bytes. *)
Lemma xxh3_64_value bytes :
  Forall is_byte bytes -> exists h, is_u64 h /\ forall cpu, xxh3_64 cpu bytes = Some h.
Proof.
  intros HF. unfold xxh3_64.
  destruct (Nat.leb_spec (length bytes) 16); [|destruct (Nat.leb_spec (length bytes) 128);
    [|destruct (Nat.leb_spec (length bytes) 240)]].
  - destruct (up_to_16_total bytes) as (h & -> & ?); eauto.
  - destruct (up_to_128_total bytes) as (h & -> & ?); eauto.
  - destruct (up_to_240_total bytes) as (h & -> & ?); eauto.
  - exists (long_reference bytes). split; [unfold long_reference; auto with mx|].
    intros c. unfold long. destruct (x86_64 c), (avx512f_detected c), (avx2_detected c);
      apply long_hash_ok; try apply _; done.
Qed.

(** ** Properties *)

(** C18: Every path of the long hash computes the same value, the one of the
    specification's loop over every stripe in order: summing the odd stripes
    apart and the vector instructions at any width change nothing. *)
Theorem long_paths_agree bytes :
  Forall is_byte bytes -> (240 < length bytes)%nat ->
  long_portable bytes = Some (long_reference bytes) /\
  long_sse2 bytes = Some (long_reference bytes) /\
  long_avx2 bytes = Some (long_reference bytes) /\
  long_avx512 bytes = Some (long_reference bytes).
Proof. intros HF Hl. split_and!; by apply long_hash_ok; try apply _. Qed.

(** C35: The checksum's hash is total and does not depend on the machine: for
    every body no slice or index is out of range, the result is a 64-bit word,
    and every processor computes the same one. *)
Theorem xxh3_64_total cpu cpu' bytes :
  Forall is_byte bytes ->
  exists h, xxh3_64 cpu bytes = Some h /\ xxh3_64 cpu' bytes = Some h /\ is_u64 h.
Proof. intros HF. destruct (xxh3_64_value bytes HF) as (h & Hh & H). eauto. Qed.

Lemma long_paths_agree_witness :
  long_sse2 (sanity_buffer 403) = Some 0xCDEB804D65C6DEA4.
Proof.
  pose proof (long_paths_agree (sanity_buffer 403) ltac:(apply bytes_check; by vm_compute)
    ltac:(vm_compute; lia)) as (_ & H & _).
  rewrite H. vm_compute. reflexivity.
Defined.

Lemma xxh3_64_total_witness :
  exists h, xxh3_64 (mkCpu true true true) (sanity_buffer 80) = Some h /\
            xxh3_64 (mkCpu false false false) (sanity_buffer 80) = Some h /\ is_u64 h.
Proof. apply (xxh3_64_total _ _ (sanity_buffer 80)). apply bytes_check. by vm_compute. Defined.

(** The hash is xxHash's: the values of its own sanity check, for lengths on
    either side of every change of method and a body of three blocks. *)
Theorem xxh3_sanity_check :
  map (fun n => xxh3_64 (mkCpu false false false) (sanity_buffer n))
    [0; 1; 3; 4; 6; 8; 9; 12; 16; 17; 24; 48; 80; 128; 129; 195; 240; 241; 403; 512; 1024; 1025; 2099]%nat =
  map Some
    [0x2D06800538D394C2; 0xC44BDFF4074EECDB; 0x54247382A8D6B94D; 0xE5DC74BC51848A51; 0x27B56A84CD2D7325;
     0x24CCC9ACAA9F65E4; 0x14D5001C15DD3F2B; 0xA713DAF0DFBB77E7; 0x981B17D36C7498C9; 0x796F5ACD3A60F862;
     0xA3FE70BF9D3510EB; 0x397DA259ECBA1F11; 0xBCDEFBBB2C47C90A; 0xFCFF24126754D861; 0x98F1B0A679A2CA29;
     0xCD94217EE362EC3A; 0x81C3C2B67F568CCF; 0xC5A639ECD2030E5E; 0xCDEB804D65C6DEA4; 0x617E49599013CB6B;
     0xDD85C9B5C1109C5C; 0xD870C0FA13211C6A; 0xC6B9D9B3FC9AC765].
Proof. vm_compute. reflexivity. Qed.
