(* ===== verification/Defaults.v ===== *)
(** * Defaults: limits, timeouts, message types and errors

    The constants of defaults.rs and constants.rs and the error type of
    error.rs.  Sizes are integers; a [Duration] is its nanoseconds. *)
From S2P Require Import Prelude.
Open Scope Z_scope.

(** ** Durations *)

Definition from_millis (n : Z) : Z := n * 1000000.
Definition from_secs (n : Z) : Z := n * 1000000000.

Definition DEFAULT_INCOMING_QUEUE_MAX_SIZE : Z := 1024.
Definition FORCED_FRAMES_PAST_FULL_QUEUE : Z := 64.
Definition AUTO_RECONNECT_TIME : Z := from_secs 3.
Definition CONNECT_ATTEMPT_SECONDS : Z := from_secs 5.
Definition DEFAULT_TIMEOUT : Z := from_secs 10.
Definition ROOM_GRACE_SECONDS : Z := from_millis 10.
Definition MAX_MESSAGE_SIZE : Z := 128 * 1024 * 1024.
Definition MAX_KEY_SIZE : Z := 256.
Definition MAX_KEY_PATTERN_SIZE : Z := 1024.
Definition DEFAULT_BATCH_MAX_RECORDS : Z := 1000.
Definition DEFAULT_BATCH_MAX_BYTES : Z := 1024 * 1024.
Definition MAX_BATCH_RECORDS : Z := 1024.
Definition DEFAULT_RETRY_AFTER : Z := from_secs 5.
Definition CONFIRMATIONS_GATHERED_MAX : Z := 256.
Definition HEARTBIT_INTERVAL : Z := from_secs 3.
Definition CLOSE_READ_SECONDS : Z := from_secs 1.
Definition CLOSE_FLUSH_SECONDS : Z := from_secs 1.
Definition NO_HEARTBIT_SO_PREPARE_DROP_INTERVAL : Z := from_secs 30.
Definition NO_HEARTBIT_SO_REALLY_DROP_INTERVAL : Z := from_secs 60.

(** ** Message types *)

Module types.
Definition PING : Z := 1.
Definition CONNECTION_WELCOME : Z := 2.
Definition BACKEND_FOR_PACKET_SEARCH : Z := 3.
Definition HEARTBIT : Z := 4.
Definition DELIVERY_ERROR : Z := 5.
Definition RECORDING_CONTROL : Z := 6.
Definition RECORDING_STATUS : Z := 7.
Definition RULES_CONTROL : Z := 9.
Definition RULES_STATUS : Z := 10.
Definition PEER_CONTROL : Z := 11.
Definition PEER_STATUS : Z := 12.
Definition CONFIRMATION : Z := 13.
Definition MAX_MULTIPLEXER_META_PACKET : Z := 99.
Definition REQUEST_RECEIVED : Z := 113.
Definition BACKEND_ERROR : Z := 114.
End types.

Definition PEER_MULTIPLEXER : Z := 1.

(** ** Errors *)

Inductive Limit := LimitMessage | LimitKey.
#[export] Instance Limit_eq_dec : EqDecision Limit.
Proof. solve_decision. Defined.

(** The errors of a call; [Backend]'s reply and the texts of [InvalidArgument]
    and [Io] are left to the caller. *)
Inductive Error :=
| NotConnected
| OperationTimedOut
| OperationFailed
| TooLarge (what : Limit) (size limit : Z)
| InvalidArgument
| OnIoThread
| UsedAfterFork.
#[export] Instance Error_eq_dec : EqDecision Error.
Proof. solve_decision. Defined.
