(* ===== verification/Frame.v ===== *)
(** * Frame: one frame on the wire (frame.rs)

    A header of two little-endian u32, the body's length and the low 32 bits of
    its hash, then the body.  The serialization of a message is prost's: a
    parameter, with what prost documents of it as hypotheses of the section. *)
From S2P Require Import Prelude Words Defaults Xxh3 Xxh3Simd Xxh3Paths.
Open Scope Z_scope.
Open Scope mx_scope.

Definition HEADER_LENGTH : nat := 8.

Definition check_message_size (size : Z) : result unit Error :=
  if MAX_MESSAGE_SIZE <? size then Err (TooLarge LimitMessage size MAX_MESSAGE_SIZE) else Ok tt.

(** A key is its bytes. *)
Definition check_key_size (key : option (list Z)) : result unit Error :=
  let size := match key with Some k => Z.of_nat (length k) | None => 0 end in
  if MAX_KEY_SIZE <? size then Err (TooLarge LimitKey size MAX_KEY_SIZE) else Ok tt.

(** The low 32 bits of the hash; [xxh3_64] of a body is never [None]. *)
Definition checksum (cpu : Cpu) (body : list Z) : Z := w32 (default 0 (xxh3_64 cpu body)).

Definition header_of (cpu : Cpu) (body : list Z) : list Z :=
  to_le 4 (w32 (Z.of_nat (length body))) ++ to_le 4 (checksum cpu body).

(** [write_header]: over the first 8 bytes of a frame. *)
Definition write_header (cpu : Cpu) (frame : list Z) : list Z :=
  let body := drop HEADER_LENGTH frame in header_of cpu body ++ body.

(** [write_checksum]: over bytes 4 to 8. *)
Definition write_checksum (cpu : Cpu) (buffer : list Z) : list Z :=
  take 4 buffer ++ to_le 4 (checksum cpu (drop HEADER_LENGTH buffer)) ++ drop HEADER_LENGTH buffer.

Definition seal (cpu : Cpu) (bytes : list Z) : list Z := write_checksum cpu bytes.

Definition frame_of_body (cpu : Cpu) (body : list Z) : list Z :=
  write_header cpu (replicate HEADER_LENGTH 0 ++ body).

Definition head_of (cpu : Cpu) (body : list Z) : list Z := header_of cpu body.

Record Header := mkHeader { h_length : Z; h_checksum : Z }.

Definition unpack_header (header : list Z) : option Header :=
  let length_ := from_le (take 4 header) in
  let checksum_ := from_le (take 4 (drop 4 header)) in
  if (length_ =? 0) || (MAX_MESSAGE_SIZE <? length_) then None
  else Some (mkHeader length_ checksum_).

Definition verify (cpu : Cpu) (header : Header) (body : list Z) : bool :=
  (Z.of_nat (length body) =? h_length header) && (checksum cpu body =? h_checksum header).

Section Prost.
(** prost's [Message]: its key, its [encoded_len], the bytes [encode] appends
    to a buffer that grows, and [decode]. *)
Context {Msg : Type} (msg_key : Msg -> option (list Z)) (encoded_len : Msg -> Z)
  (prost_encode : Msg -> list Z) (prost_decode : list Z -> option Msg).

(** The header with the length and a checksum left 0, then the body. *)
Definition encode_body (message : Msg) (key : option (list Z)) : result (list Z) Error :=
  match check_key_size key with
  | Err e => Err e
  | Ok _ =>
      let size := encoded_len message in
      match check_message_size size with
      | Err e => Err e
      | Ok _ =>
          let buffer := replicate HEADER_LENGTH 0 ++ prost_encode message in
          Ok (to_le 4 (w32 size) ++ drop 4 buffer)
      end
  end.

Definition encode_unsealed (message : Msg) : result (list Z) Error :=
  encode_body message (msg_key message).

Definition encode (cpu : Cpu) (message : Msg) : result (list Z) Error :=
  match encode_body message (msg_key message) with
  | Err e => Err e
  | Ok buffer => Ok (write_checksum cpu buffer)
  end.

(** [encode_into]: the buffer is emptied first, so its old bytes do not show. *)
Definition encode_into (cpu : Cpu) (message : Msg) (key : option (list Z)) (buffer : list Z) :
    result (list Z) Error :=
  match check_key_size key with
  | Err e => Err e
  | Ok _ =>
      let size := encoded_len message in
      match check_message_size size with
      | Err e => Err e
      | Ok _ =>
          let buffer := replicate HEADER_LENGTH 0 ++ prost_encode message in
          Ok (write_header cpu buffer)
      end
  end.

Definition decode (body : list Z) : option Msg := prost_decode body.
End Prost.

(** ** Lemmas on headers *)

Lemma checksum_range cpu body : is_u32 (checksum cpu body).
Proof. apply w32_range. Qed.

Lemma checksum_cpu cpu cpu' body : Forall is_byte body -> checksum cpu body = checksum cpu' body.
Proof.
  intros HF. destruct (xxh3_64_value body HF) as (h & _ & H). unfold checksum. by rewrite !H.
Qed.

Lemma header_of_length cpu body : length (header_of cpu body) = HEADER_LENGTH.
Proof. unfold header_of. by rewrite length_app, !to_le_length. Qed.

Lemma header_of_bytes cpu body : Forall is_byte (header_of cpu body).
Proof. apply Forall_app. split; apply to_le_bytes. Qed.

Lemma is_u32_256 x : is_u32 x -> 0 <= x < 256 ^ Z.of_nat 4.
Proof. done. Qed.

Lemma frame_of_body_eq cpu body : frame_of_body cpu body = header_of cpu body ++ body.
Proof. reflexivity. Qed.

Lemma write_checksum_app cpu h c body :
  length h = 4%nat -> length c = 4%nat ->
  write_checksum cpu (h ++ c ++ body) = h ++ to_le 4 (checksum cpu body) ++ body.
Proof.
  intros Hh Hc. unfold write_checksum. rewrite take_app_length' by done.
  assert (drop HEADER_LENGTH (h ++ c ++ body) = body) as ->; [|done].
  rewrite app_assoc. apply drop_app_length'. rewrite length_app. unfold HEADER_LENGTH. lia.
Qed.

(** A header read back is the body's length and checksum. *)
Lemma unpack_header_of cpu body :
  0 < Z.of_nat (length body) <= MAX_MESSAGE_SIZE ->
  unpack_header (header_of cpu body) = Some (mkHeader (Z.of_nat (length body)) (checksum cpu body)).
Proof.
  intros Hb. unfold unpack_header, header_of.
  assert (is_u32 (Z.of_nat (length body))) as H32.
  { split; [lia|]. eapply Z.le_lt_trans; [apply Hb|]. reflexivity. }
  rewrite take_app_length' by (by rewrite ?to_le_length).
  rewrite drop_app_length' by (by rewrite ?to_le_length).
  rewrite take_ge by (rewrite to_le_length; lia).
  rewrite !from_to_le by apply is_u32_256, w32_range. rewrite w32_id by done.
  destruct (Z.eqb_spec (Z.of_nat (length body)) 0); [lia|].
  destruct (Z.ltb_spec MAX_MESSAGE_SIZE (Z.of_nat (length body))); [lia|]. done.
Qed.

Lemma verify_of cpu cpu' body :
  Forall is_byte body ->
  verify cpu' (mkHeader (Z.of_nat (length body)) (checksum cpu body)) body = true.
Proof.
  intros HF. unfold verify. simpl. by rewrite (checksum_cpu cpu' cpu), !Z.eqb_refl.
Qed.

(** What the checks let through. *)
Definition sizes_ok (key : option (list Z)) (size : Z) : Prop :=
  (match key with Some k => Z.of_nat (length k) | None => 0 end) <= MAX_KEY_SIZE /\ size <= MAX_MESSAGE_SIZE.

Section ProstLaws.
Context {Msg : Type} (msg_key : Msg -> option (list Z)) (encoded_len : Msg -> Z)
  (prost_encode : Msg -> list Z) (prost_decode : list Z -> option Msg).
Hypothesis encoded_len_encode : forall m, encoded_len m = Z.of_nat (length (prost_encode m)).
Hypothesis encode_bytes : forall m, Forall is_byte (prost_encode m).
Hypothesis decode_encode : forall m, prost_decode (prost_encode m) = Some m.

Lemma encode_body_ok m key :
  sizes_ok key (encoded_len m) ->
  encode_body encoded_len prost_encode m key =
  Ok (to_le 4 (w32 (encoded_len m)) ++ replicate 4 0 ++ prost_encode m).
Proof.
  intros [Hk Hs]. unfold encode_body, check_key_size, check_message_size.
  destruct (Z.ltb_spec MAX_KEY_SIZE (match key with Some k => Z.of_nat (length k) | None => 0 end)); [lia|].
  destruct (Z.ltb_spec MAX_MESSAGE_SIZE (encoded_len m)); [lia|]. done.
Qed.

Lemma encode_ok cpu m :
  sizes_ok (msg_key m) (encoded_len m) ->
  encode msg_key encoded_len prost_encode cpu m = Ok (frame_of_body cpu (prost_encode m)).
Proof.
  intros Hs. unfold encode. rewrite encode_body_ok by done.
  rewrite write_checksum_app by (by rewrite ?to_le_length).
  rewrite frame_of_body_eq. unfold header_of. by rewrite encoded_len_encode, <- app_assoc.
Qed.

(** However a frame is built it is the same bytes: serialized and sealed at
    once, serialized into a kept buffer whatever that held, sealed later,
    framed from a serialized body, or with its header kept apart. *)
Theorem frame_builders_agree cpu m old :
  sizes_ok (msg_key m) (encoded_len m) ->
  exists frame unsealed,
    encode msg_key encoded_len prost_encode cpu m = Ok frame /\
    encode_into encoded_len prost_encode cpu m (msg_key m) old = Ok frame /\
    encode_unsealed msg_key encoded_len prost_encode m = Ok unsealed /\ seal cpu unsealed = frame /\
    frame_of_body cpu (prost_encode m) = frame /\
    head_of cpu (prost_encode m) ++ prost_encode m = frame.
Proof.
  intros Hs. exists (frame_of_body cpu (prost_encode m)), (to_le 4 (w32 (encoded_len m)) ++ replicate 4 0 ++ prost_encode m).
  split; [by apply encode_ok|]. split.
  { pose proof Hs as [Hk Hm]. unfold encode_into, check_key_size, check_message_size.
    destruct (Z.ltb_spec MAX_KEY_SIZE (match msg_key m with Some k => Z.of_nat (length k) | None => 0 end)); [lia|].
    destruct (Z.ltb_spec MAX_MESSAGE_SIZE (encoded_len m)); [lia|]. done. }
  split; [by apply encode_body_ok|]. split; [|done].
  unfold seal. rewrite write_checksum_app by (by rewrite ?to_le_length).
  rewrite frame_of_body_eq. unfold header_of. by rewrite encoded_len_encode, <- app_assoc.
Qed.

(** A frame round-trips: what one machine encodes, another unpacks to the
    body's length, verifies, and decodes to the same message. *)
Theorem frame_roundtrip cpu cpu' m :
  sizes_ok (msg_key m) (encoded_len m) -> prost_encode m <> [] ->
  exists frame header,
    encode msg_key encoded_len prost_encode cpu m = Ok frame /\
    unpack_header (take HEADER_LENGTH frame) = Some header /\
    verify cpu' header (drop HEADER_LENGTH frame) = true /\
    decode prost_decode (drop HEADER_LENGTH frame) = Some m.
Proof.
  intros Hs Hne. eexists _, _. split; [by apply encode_ok|]. rewrite frame_of_body_eq.
  rewrite take_app_length', drop_app_length' by (by rewrite header_of_length).
  split; [apply unpack_header_of|].
  - rewrite <- encoded_len_encode. destruct Hs as [_ Hs]. split; [|done].
    rewrite encoded_len_encode. destruct (prost_encode m); [done|simpl; lia].
  - split; [by apply verify_of|]. apply decode_encode.
Qed.

(** A message over [MAX_MESSAGE_SIZE] or a key over [MAX_KEY_SIZE] is refused
    at the call with the limit it broke, the key first, and nothing else is. *)
Theorem encode_refuses cpu m :
  match encode msg_key encoded_len prost_encode cpu m with
  | Ok _ => sizes_ok (msg_key m) (encoded_len m)
  | Err e =>
      (exists k, msg_key m = Some k /\ MAX_KEY_SIZE < Z.of_nat (length k) /\
         e = TooLarge LimitKey (Z.of_nat (length k)) MAX_KEY_SIZE) \/
      (MAX_MESSAGE_SIZE < encoded_len m /\ e = TooLarge LimitMessage (encoded_len m) MAX_MESSAGE_SIZE)
  end.
Proof.
  unfold encode, encode_body, check_key_size, check_message_size.
  destruct (Z.ltb_spec MAX_KEY_SIZE (match msg_key m with Some k => Z.of_nat (length k) | None => 0 end)) as [Hk|Hk].
  - left. destruct (msg_key m) as [k|]; [by eauto|]. by vm_compute in Hk.
  - destruct (Z.ltb_spec MAX_MESSAGE_SIZE (encoded_len m)); [by right|]. by split.
Qed.
End ProstLaws.

(** A small wire format for the witnesses: one field, a bool. *)
Definition demo_encode (b : bool) : list Z := [8; if b then 1 else 0].
Definition demo_decode (body : list Z) : option bool :=
  match body with [8; v] => Some (v =? 1) | _ => None end.

Lemma demo_bytes b : Forall is_byte (demo_encode b).
Proof. apply bytes_check. by destruct b. Defined.

Lemma frame_roundtrip_witness :
  exists frame header,
    encode (fun _ : bool => None) (fun _ => 2) demo_encode (mkCpu false false false) true = Ok frame /\
    unpack_header (take HEADER_LENGTH frame) = Some header /\
    verify (mkCpu true true true) header (drop HEADER_LENGTH frame) = true /\
    decode demo_decode (drop HEADER_LENGTH frame) = Some true.
Proof.
  apply (frame_roundtrip (fun _ => None) (fun _ => 2) demo_encode demo_decode);
    [by intros []|apply demo_bytes|by intros []|by vm_compute|done].
Defined.

Lemma frame_builders_agree_witness :
  exists frame unsealed,
    encode (fun _ : bool => None) (fun _ => 2) demo_encode (mkCpu false false false) true = Ok frame /\
    encode_into (fun _ => 2) demo_encode (mkCpu false false false) true None [1; 2; 3] = Ok frame /\
    encode_unsealed (fun _ => None) (fun _ => 2) demo_encode true = Ok unsealed /\
    seal (mkCpu false false false) unsealed = frame /\
    frame_of_body (mkCpu false false false) (demo_encode true) = frame /\
    head_of (mkCpu false false false) (demo_encode true) ++ demo_encode true = frame.
Proof.
  apply (frame_builders_agree (fun _ => None) (fun _ => 2) demo_encode);
    [by intros []|by vm_compute].
Defined.
