(* ===== verification/FrameReader.v ===== *)
(** * FrameReader: frames out of a byte stream (frame.rs, [FrameReader])

    The reader as the code keeps it: one buffer with a start and an end, and a
    buffer of its own for a frame that does not fit.  The specification is
    [parse_one] on the stream itself.  [unread] maps a reader to the bytes it
    was given and has not handed over; every operation is a step of the parser
    on them, whatever the reads brought and wherever they were cut. *)
From S2P Require Import Prelude Words Defaults Xxh3 Xxh3Simd Xxh3Paths Frame.
Open Scope Z_scope.

Definition READ_BUFFER : nat := 64 * 1024.

Inductive Next :=
| NextFrame (body : list Z)
| Started
| Nothing
| BadHeader
| BadChecksum.

Record Large := mkLarge { lg_header : Header; lg_body : list Z; lg_filled : nat }.

Record FrameReader := mkFrameReader {
  fr_buffer : list Z;
  fr_start : nat;
  fr_end : nat;
  fr_large : option Large;
  fr_started : bool;
  fr_broken : bool;
}.

(** A reader over a buffer of [n] bytes; the code's has [READ_BUFFER]. *)
Definition reader_over (n : nat) : FrameReader := mkFrameReader (replicate n 0) 0 0 None false false.
Definition FrameReader_default : FrameReader := reader_over READ_BUFFER.

(** [dst[at..at + src.len()].copy_from_slice(src)], in range. *)
Definition copy_at (dst : list Z) (at_ : nat) (src : list Z) : list Z :=
  take at_ dst ++ src ++ drop (at_ + length src) dst.

Definition compact (r : FrameReader) : FrameReader :=
  let unread := take (fr_end r - fr_start r) (drop (fr_start r) (fr_buffer r)) in
  mkFrameReader (copy_at (fr_buffer r) 0 unread) 0 (fr_end r - fr_start r)
    (fr_large r) (fr_started r) (fr_broken r).

(** The room the next read is offered. *)
Definition read_room (r : FrameReader) : nat :=
  match fr_large r with
  | Some large => length (lg_body large) - lg_filled large
  | None =>
      let r := if (fr_end r =? length (fr_buffer r))%nat then compact r else r in
      length (fr_buffer r) - fr_end r
  end.

(** [read_from]: [source] fills at most the room it is offered. *)
Definition read_from (r : FrameReader) (source : nat -> list Z) : FrameReader * nat :=
  match fr_large r with
  | Some large =>
      let data := source (length (lg_body large) - lg_filled large)%nat in
      (mkFrameReader (fr_buffer r) (fr_start r) (fr_end r)
         (Some (mkLarge (lg_header large) (copy_at (lg_body large) (lg_filled large) data)
                  (lg_filled large + length data)))
         (fr_started r) (fr_broken r), length data)
  | None =>
      let r := if (fr_end r =? length (fr_buffer r))%nat then compact r else r in
      let data := source (length (fr_buffer r) - fr_end r)%nat in
      (mkFrameReader (copy_at (fr_buffer r) (fr_end r) data) (fr_start r) (fr_end r + length data)
         None (fr_started r) (fr_broken r), length data)
  end.

Section Reader.
Context (cpu : Cpu).

(** The first branch of [take]: a frame in a buffer of its own. *)
Definition take_large (r : FrameReader) (large : Large) : FrameReader * Next :=
  if (lg_filled large <? length (lg_body large))%nat then (r, Nothing)
  else
    let r := mkFrameReader (fr_buffer r) (fr_start r) (fr_end r) None false (fr_broken r) in
    if verify cpu (lg_header large) (lg_body large) then (r, NextFrame (lg_body large))
    else (r, BadChecksum).

(** [next_started]; its call of [take] is with a full frame of its own, the
    first branch of [take]. *)
Definition next_started (r : FrameReader) : FrameReader * Next :=
  if fr_started r then (r, Nothing)
  else
    let r := mkFrameReader (fr_buffer r) (fr_start r) (fr_end r) (fr_large r) true (fr_broken r) in
    match fr_large r with
    | Some large =>
        if (lg_filled large =? length (lg_body large))%nat then take_large r large else (r, Started)
    | None => (r, Started)
    end.

Definition take_next (r : FrameReader) : FrameReader * Next :=
  match fr_large r with
  | Some large => take_large r large
  | None =>
      let available := (fr_end r - fr_start r)%nat in
      if (available <? HEADER_LENGTH)%nat then (r, Nothing)
      else
        let raw := take HEADER_LENGTH (drop (fr_start r) (fr_buffer r)) in
        match unpack_header raw with
        | None => (r, BadHeader)
        | Some header =>
            let whole := Z.of_nat HEADER_LENGTH + h_length header in
            if Z.of_nat (length (fr_buffer r)) <? whole then
              let here := (available - HEADER_LENGTH)%nat in
              let body := copy_at (replicate (Z.to_nat (h_length header)) 0) 0
                (take here (drop (fr_start r + HEADER_LENGTH) (fr_buffer r))) in
              next_started (mkFrameReader (fr_buffer r) 0 0 (Some (mkLarge header body here))
                (fr_started r) (fr_broken r))
            else if Z.of_nat available <? whole then
              next_started (if Z.of_nat (length (fr_buffer r)) <? Z.of_nat (fr_start r) + whole
                then compact r else r)
            else
              let length_ := Z.to_nat (h_length header) in
              let body := take length_ (drop (fr_start r + HEADER_LENGTH) (fr_buffer r)) in
              let start := (fr_start r + HEADER_LENGTH + length_)%nat in
              let '(start, end_) := if (start =? fr_end r)%nat then (0%nat, 0%nat) else (start, fr_end r) in
              let r := mkFrameReader (fr_buffer r) start end_ None false (fr_broken r) in
              if verify cpu header body then (r, NextFrame body) else (r, BadChecksum)
        end
  end.

Definition next_frame (r : FrameReader) : FrameReader * Next :=
  if fr_broken r then (r, Nothing)
  else
    let '(r, next) := take_next r in
    let broken := match next with BadHeader | BadChecksum => true | _ => false end in
    (mkFrameReader (fr_buffer r) (fr_start r) (fr_end r) (fr_large r) (fr_started r) broken, next).

Definition holds_next (r : FrameReader) : bool :=
  if fr_broken r then false
  else
    match fr_large r with
    | Some large => (lg_filled large =? length (lg_body large))%nat
    | None =>
        let available := (fr_end r - fr_start r)%nat in
        if (available <? HEADER_LENGTH)%nat then false
        else
          let length_ := from_le (take 4 (drop (fr_start r) (fr_buffer r))) in
          let whole := Z.of_nat HEADER_LENGTH + length_ in
          (length_ =? 0) || (whole <=? Z.of_nat available) || (Z.of_nat (length (fr_buffer r)) <? whole)
    end.

(** ** Specification: the frames of a stream *)

Inductive Parsed :=
| Incomplete
| ParsedFrame (body rest : list Z)
| ParsedBadHeader
| ParsedBadChecksum.

Definition parse_one (stream : list Z) : Parsed :=
  if (length stream <? HEADER_LENGTH)%nat then Incomplete
  else
    match unpack_header (take HEADER_LENGTH stream) with
    | None => ParsedBadHeader
    | Some header =>
        if Z.of_nat (length stream) <? Z.of_nat HEADER_LENGTH + h_length header then Incomplete
        else
          let body := take (Z.to_nat (h_length header)) (drop HEADER_LENGTH stream) in
          if verify cpu header body
          then ParsedFrame body (drop (HEADER_LENGTH + Z.to_nat (h_length header)) stream)
          else ParsedBadChecksum
    end.

(** What ended a stream. *)
Inductive Ending := AtIncomplete (rest : list Z) | AtBadHeader | AtBadChecksum.

Fixpoint parse_frames (fuel : nat) (stream : list Z) : list (list Z) * Ending :=
  match fuel with
  | O => ([], AtIncomplete stream)
  | S fuel =>
      match parse_one stream with
      | Incomplete => ([], AtIncomplete stream)
      | ParsedBadHeader => ([], AtBadHeader)
      | ParsedBadChecksum => ([], AtBadChecksum)
      | ParsedFrame body rest => let '(bodies, e) := parse_frames fuel rest in (body :: bodies, e)
      end
  end.

(** A frame takes nine bytes at least, so a stream's length is fuel enough. *)
Definition frames_of (stream : list Z) : list (list Z) * Ending := parse_frames (length stream) stream.
End Reader.

(** ** The invariant and the unread bytes *)

Definition header_ok (h : Header) : Prop :=
  0 < h_length h <= MAX_MESSAGE_SIZE /\ is_u32 (h_checksum h).

Definition raw_header (h : Header) : list Z := to_le 4 (h_length h) ++ to_le 4 (h_checksum h).

Record large_ok (n : nat) (l : Large) : Prop := {
  lo_header : header_ok (lg_header l);
  lo_length : Z.of_nat (length (lg_body l)) = h_length (lg_header l);
  lo_filled : (lg_filled l <= length (lg_body l))%nat;
  lo_bytes : Forall is_byte (lg_body l);
  lo_big : Z.of_nat n < Z.of_nat HEADER_LENGTH + h_length (lg_header l);
}.

Record reader_ok (r : FrameReader) : Prop := {
  ro_room : (HEADER_LENGTH < length (fr_buffer r))%nat;
  ro_start : (fr_start r <= fr_end r)%nat;
  ro_end : (fr_end r <= length (fr_buffer r))%nat;
  ro_bytes : Forall is_byte (fr_buffer r);
  ro_large : match fr_large r with
             | Some l => large_ok (length (fr_buffer r)) l /\ fr_end r = 0%nat
             | None => True
             end;
}.

Definition unread (r : FrameReader) : list Z :=
  match fr_large r with
  | Some l => raw_header (lg_header l) ++ take (lg_filled l) (lg_body l)
  | None => take (fr_end r - fr_start r) (drop (fr_start r) (fr_buffer r))
  end.

(** ** A connection's reading *)

(** Frames are taken until there is no whole one; a frame takes nine bytes at
    least, so the unread bytes are fuel enough. *)
Fixpoint drain (cpu : Cpu) (fuel : nat) (r : FrameReader) : FrameReader * list (list Z) :=
  match fuel with
  | O => (r, [])
  | S fuel =>
      match next_frame cpu r with
      | (r, NextFrame body) => let '(r, bodies) := drain cpu fuel r in (r, body :: bodies)
      | (r, _) => (r, [])
      end
  end.

(** Reads of a stream cut at [ns], each of at most the room it is offered, with
    the frames taken after each, until an error; what the reader handed over,
    and what is left of the stream. *)
Fixpoint pump (cpu : Cpu) (ns : list nat) (r : FrameReader) (stream : list Z) :
    FrameReader * list (list Z) * list Z :=
  match ns with
  | [] => (r, [], stream)
  | n :: ns =>
      if fr_broken r then (r, [], stream)
      else
        let '(r, got) := read_from r (fun room => take (Nat.min n room) stream) in
        let '(r, bodies) := drain cpu (S (length (unread r))) r in
        let '(r, more, rest) := pump cpu ns r (drop got stream) in
        (r, bodies ++ more, rest)
  end.

(** Reduces the projections of a built record. *)
Ltac fields :=
  cbn [fr_buffer fr_start fr_end fr_large fr_started fr_broken lg_header lg_body lg_filled].

Lemma copy_at_length dst at_ src :
  (at_ + length src <= length dst)%nat -> length (copy_at dst at_ src) = length dst.
Proof. intros. unfold copy_at. rewrite !length_app, length_take, length_drop. lia. Qed.

Lemma copy_at_bytes dst at_ src :
  Forall is_byte dst -> Forall is_byte src -> Forall is_byte (copy_at dst at_ src).
Proof. intros. unfold copy_at. rewrite !Forall_app. auto using Forall_take, Forall_drop. Qed.

(** What was before the copied bytes stays, and they follow it. *)
Lemma take_copy_at dst at_ src :
  (at_ <= length dst)%nat -> take (at_ + length src) (copy_at dst at_ src) = take at_ dst ++ src.
Proof.
  intros. unfold copy_at. rewrite app_assoc. apply take_app_length'. rewrite length_app, length_take. lia.
Qed.

Lemma raw_header_unpack h : header_ok h -> unpack_header (raw_header h) = Some h.
Proof.
  intros [Hl Hc]. unfold unpack_header, raw_header.
  rewrite take_app_length', drop_app_length', take_ge by (rewrite ?to_le_length; lia).
  rewrite !from_to_le.
  - destruct (Z.eqb_spec (h_length h) 0), (Z.ltb_spec MAX_MESSAGE_SIZE (h_length h)); try lia.
    by destruct h.
  - by apply is_u32_256.
  - split; [lia|]. eapply Z.le_lt_trans; [apply Hl|]. reflexivity.
Qed.

Lemma unpack_header_raw raw h :
  Forall is_byte raw -> length raw = HEADER_LENGTH -> unpack_header raw = Some h ->
  raw = raw_header h /\ header_ok h.
Proof.
  intros HF Hl Hu. unfold unpack_header in Hu.
  destruct (Z.eqb_spec (from_le (take 4 raw)) 0); [done|].
  destruct (Z.ltb_spec MAX_MESSAGE_SIZE (from_le (take 4 raw))); [done|]. simpl in Hu.
  injection Hu as <-. unfold raw_header, header_ok. simpl h_length. simpl h_checksum.
  assert (length (take 4 raw) = 4%nat) as H4 by (rewrite length_take, Hl; done).
  assert (length (take 4 (drop 4 raw)) = 4%nat) as H4' by (rewrite length_take, length_drop, Hl; done).
  pose proof (from_le_range (take 4 raw) ltac:(by apply Forall_take)).
  pose proof (from_le_range (take 4 (drop 4 raw)) ltac:(by apply Forall_take, Forall_drop)) as Hr.
  rewrite H4' in Hr. split; [|split; [lia|exact Hr]].
  rewrite !to_from_le' by auto using Forall_take, Forall_drop.
  rewrite (take_ge (drop 4 raw)) by (rewrite length_drop, Hl; done). by rewrite take_drop.
Qed.

Lemma raw_header_length h : length (raw_header h) = HEADER_LENGTH.
Proof. unfold raw_header. by rewrite length_app, !to_le_length. Qed.

Lemma compact_ok r :
  reader_ok r -> fr_large r = None ->
  reader_ok (compact r) /\ unread (compact r) = unread r /\
  length (fr_buffer (compact r)) = length (fr_buffer r).
Proof.
  intros [H0 H1 H2 H3 H4] Hn.
  set (u := take (fr_end r - fr_start r) (drop (fr_start r) (fr_buffer r))).
  assert (length u = fr_end r - fr_start r)%nat as Hu.
  { unfold u. rewrite length_take, length_drop. lia. }
  assert (length (fr_buffer (compact r)) = length (fr_buffer r)) as Hlen.
  { unfold compact. simpl. fold u. rewrite copy_at_length; lia. }
  split; [|split; [|done]].
  - split; rewrite ?Hlen; simpl; rewrite ?Hn; try done; try lia.
    apply copy_at_bytes; [done|]. by apply Forall_take, Forall_drop.
  - unfold unread. simpl. rewrite Hn. fold u. rewrite Nat.sub_0_r, drop_0, <- Hu.
    apply (take_copy_at _ 0). lia.
Qed.

(** ** Reading *)

(** A read appends what the source gave to the unread bytes. *)
Lemma read_from_ok r source :
  reader_ok r -> (forall n, (length (source n) <= n)%nat /\ Forall is_byte (source n)) ->
  let '(r', n) := read_from r source in
  reader_ok r' /\ unread r' = unread r ++ source (read_room r) /\ n = length (source (read_room r)) /\
  fr_broken r' = fr_broken r.
Proof.
  intros Hr Hs. pose proof Hr as [H0 H1 H2 H3 H4]. unfold read_from, read_room.
  destruct (fr_large r) as [l|] eqn:Hl.
  - destruct H4 as [[L1 L2 L3 L4 L5] He].
    destruct (Hs (length (lg_body l) - lg_filled l)%nat) as [Hd HF].
    set (data := source _) in *. split; [|split; [|done]].
    + split; simpl; try done. split; [|done].
      assert (length (copy_at (lg_body l) (lg_filled l) data) = length (lg_body l)) as Hc
        by (rewrite copy_at_length; lia).
      split; simpl; rewrite ?Hc; try done; try lia. by apply copy_at_bytes.
    + unfold unread. fields. rewrite Hl, take_copy_at by lia. by rewrite app_assoc.
  - set (r1 := if (fr_end r =? length (fr_buffer r))%nat then compact r else r).
    assert (reader_ok r1 /\ unread r1 = unread r /\ fr_large r1 = None /\ fr_broken r1 = fr_broken r)
      as ([J0 J1 J2 J3 J4] & Hu & Hn & Hb).
    { unfold r1. destruct (fr_end r =? length (fr_buffer r))%nat; [|done].
      destruct (compact_ok r Hr Hl) as (? & ? & ?). done. }
    destruct (Hs (length (fr_buffer r1) - fr_end r1)%nat) as [Hd HF].
    set (data := source _) in *. rewrite <- Hu. split; [|split; [|done]].
    + assert (length (copy_at (fr_buffer r1) (fr_end r1) data) = length (fr_buffer r1)) as Hc
        by (rewrite copy_at_length; lia).
      split; simpl; rewrite ?Hc; try done; try lia. by apply copy_at_bytes.
    + unfold unread. simpl. rewrite Hn.
      rewrite <- !skipn_firstn_comm, take_copy_at by lia.
      rewrite drop_app_le by (rewrite length_take; lia). done.
Qed.

(** ** Taking the next frame *)

Section ReaderSpec.
Context (cpu : Cpu).

(** What [next] does against the parser on the unread bytes. *)
Definition takes (r : FrameReader) (res : FrameReader * Next) : Prop :=
  let '(r', next) := res in
  match parse_one cpu (unread r) with
  | Incomplete =>
      (next = Started \/ next = Nothing) /\ reader_ok r' /\ unread r' = unread r /\ (0 < read_room r')%nat
  | ParsedFrame body rest => next = NextFrame body /\ reader_ok r' /\ unread r' = rest
  | ParsedBadHeader => next = BadHeader
  | ParsedBadChecksum => next = BadChecksum
  end.

Lemma parse_raw h data :
  header_ok h ->
  parse_one cpu (raw_header h ++ data) =
  if Z.of_nat (length data) <? h_length h then Incomplete
  else if verify cpu h (take (Z.to_nat (h_length h)) data)
       then ParsedFrame (take (Z.to_nat (h_length h)) data) (drop (Z.to_nat (h_length h)) data)
       else ParsedBadChecksum.
Proof.
  intros Hh. unfold parse_one. rewrite length_app, raw_header_length.
  replace (HEADER_LENGTH + length data <? HEADER_LENGTH)%nat with false
    by (symmetry; apply Nat.ltb_ge; lia).
  rewrite take_app_length', drop_app_length' by (by rewrite raw_header_length).
  rewrite raw_header_unpack by done.
  assert (drop (HEADER_LENGTH + Z.to_nat (h_length h)) (raw_header h ++ data) = drop (Z.to_nat (h_length h)) data)
    as -> by (rewrite <- (raw_header_length h); apply drop_app_add).
  destruct (Z.ltb_spec (Z.of_nat (length data)) (h_length h)),
    (Z.ltb_spec (Z.of_nat (HEADER_LENGTH + length data)) (Z.of_nat HEADER_LENGTH + h_length h)); auto; lia.
Qed.

Lemma take_large_ok r l :
  reader_ok r -> fr_large r = Some l -> takes r (take_large cpu r l).
Proof.
  intros Hr Hl. pose proof Hr as [H0 H1 H2 H3 H4]. rewrite Hl in H4. destruct H4 as [[L1 L2 L3 L4 L5] He].
  unfold takes, take_large. unfold unread at 1. rewrite Hl, parse_raw by done.
  rewrite length_take. destruct (Nat.ltb_spec (lg_filled l) (length (lg_body l))) as [Hlt|Hge].
  - rewrite Nat.min_l by lia. destruct (Z.ltb_spec (Z.of_nat (lg_filled l)) (h_length (lg_header l))); [|lia].
    split; [auto|]. split; [done|]. split; [done|]. unfold read_room. rewrite Hl. lia.
  - rewrite Nat.min_r by lia.
    destruct (Z.ltb_spec (Z.of_nat (length (lg_body l))) (h_length (lg_header l))); [lia|].
    rewrite <- L2, Nat2Z.id, (take_ge (lg_body l) (lg_filled l)) by lia. rewrite firstn_all, drop_all.
    destruct (verify cpu (lg_header l) (lg_body l)); [|done].
    split; [done|]. split.
    + split; simpl; try done; lia.
    + unfold unread. simpl. rewrite He. done.
Qed.

Lemma next_started_ok r :
  reader_ok r -> parse_one cpu (unread r) = Incomplete -> (0 < read_room r)%nat ->
  (forall l, fr_large r = Some l -> (lg_filled l < length (lg_body l))%nat) ->
  takes r (next_started cpu r).
Proof.
  intros Hr Hp Hroom Hl. unfold takes, next_started. rewrite Hp.
  destruct (fr_started r); [by auto|]. simpl.
  assert (reader_ok (mkFrameReader (fr_buffer r) (fr_start r) (fr_end r) (fr_large r) true (fr_broken r)))
    by (destruct Hr; by split).
  destruct (fr_large r) as [l|] eqn:Hlarge.
  - specialize (Hl l eq_refl). destruct (Nat.eqb_spec (lg_filled l) (length (lg_body l))); [lia|].
    split; [auto|]. split; [done|]. unfold unread, read_room in *. simpl. by rewrite Hlarge in *.
  - split; [auto|]. split; [done|]. unfold unread, read_room in *. simpl. rewrite Hlarge in *.
    unfold compact in *. simpl in *. by destruct (_ =? _)%nat.
Qed.

Lemma takes_unread r r1 res : unread r1 = unread r -> takes r1 res -> takes r res.
Proof. unfold takes. by intros ->. Qed.

(** The room of a read that follows an incomplete frame. *)
Lemma room_pos r :
  reader_ok r -> fr_large r = None -> (fr_end r - fr_start r < length (fr_buffer r))%nat -> (0 < read_room r)%nat.
Proof.
  intros Hr Hl Hlt. pose proof Hr as [H0 H1 H2 H3 _]. unfold read_room. rewrite Hl.
  destruct (Nat.eqb_spec (fr_end r) (length (fr_buffer r))); [|lia].
  destruct (compact_ok r Hr Hl) as (_ & _ & ->). simpl. lia.
Qed.

(** A frame too big for the buffer moves to one of its own. *)
Lemma take_big_ok r h :
  reader_ok r -> fr_large r = None -> header_ok h -> unread r = raw_header h ++ drop HEADER_LENGTH (unread r) ->
  (HEADER_LENGTH <= fr_end r - fr_start r)%nat ->
  Z.of_nat (length (fr_buffer r)) < Z.of_nat HEADER_LENGTH + h_length h ->
  let here := (fr_end r - fr_start r - HEADER_LENGTH)%nat in
  let body := copy_at (replicate (Z.to_nat (h_length h)) 0) 0
    (take here (drop (fr_start r + HEADER_LENGTH) (fr_buffer r))) in
  takes r (next_started cpu (mkFrameReader (fr_buffer r) 0 0 (Some (mkLarge h body here))
    (fr_started r) (fr_broken r))).
Proof.
  intros Hr Hl Hh Hu Hav Hbig here body. pose proof Hr as [H0 H1 H2 H3 _].
  set (data := take here (drop (fr_start r + HEADER_LENGTH) (fr_buffer r))) in *.
  assert (length data = here) as Hd.
  { unfold data. rewrite length_take, length_drop. lia. }
  assert (data = drop HEADER_LENGTH (unread r)) as Hdu.
  { unfold unread, data. rewrite Hl, <- drop_drop, skipn_firstn_comm. done. }
  assert (length body = Z.to_nat (h_length h)) as Hb.
  { unfold body. rewrite copy_at_length; rewrite length_replicate; [done|]. lia. }
  set (r1 := mkFrameReader _ _ _ _ _ _).
  assert (unread r1 = unread r) as Hur.
  { rewrite Hu. unfold unread at 1. unfold r1. fields. f_equal. rewrite <- Hdu. unfold body.
    rewrite <- Hd. apply (take_copy_at _ 0). lia. }
  apply (takes_unread _ _ _ Hur). apply next_started_ok.
  - split; unfold r1; fields; try done; try lia. split; [|done].
    split; fields; rewrite ?Hb; try done; try lia.
    apply copy_at_bytes; [apply Forall_replicate; by vm_compute|]. by apply Forall_take, Forall_drop.
  - rewrite Hur, Hu, parse_raw by done. rewrite <- Hdu, Hd.
    destruct (Z.ltb_spec (Z.of_nat here) (h_length h)); [done|lia].
  - unfold read_room, r1. fields. lia.
  - unfold r1. fields. intros l [= <-]. fields. lia.
Qed.

(** A whole frame in the buffer is handed over. *)
Lemma take_whole_ok r h :
  reader_ok r -> fr_large r = None -> header_ok h -> unread r = raw_header h ++ drop HEADER_LENGTH (unread r) ->
  Z.of_nat HEADER_LENGTH + h_length h <= Z.of_nat (fr_end r - fr_start r) ->
  let length_ := Z.to_nat (h_length h) in
  let body := take length_ (drop (fr_start r + HEADER_LENGTH) (fr_buffer r)) in
  let start := (fr_start r + HEADER_LENGTH + length_)%nat in
  takes r (let '(start, end_) := if (start =? fr_end r)%nat then (0%nat, 0%nat) else (start, fr_end r) in
    let r := mkFrameReader (fr_buffer r) start end_ None false (fr_broken r) in
    if verify cpu h body then (r, NextFrame body) else (r, BadChecksum)).
Proof.
  intros Hr Hl Hh Hu Hav length_ body start. pose proof Hr as [H0 H1 H2 H3 _].
  assert (Z.of_nat length_ = h_length h) as Hln by (destruct Hh; lia). clearbody length_.
  assert (length (drop HEADER_LENGTH (unread r)) = fr_end r - fr_start r - HEADER_LENGTH)%nat as Hlen.
  { unfold unread. rewrite Hl, length_drop, length_take, length_drop. lia. }
  assert (take length_ (drop HEADER_LENGTH (unread r)) = body) as Hbody.
  { unfold unread, body. rewrite Hl, skipn_firstn_comm, drop_drop, take_take. f_equal. lia. }
  assert (drop length_ (drop HEADER_LENGTH (unread r)) =
          take (fr_end r - start) (drop start (fr_buffer r))) as Hrest.
  { unfold unread. rewrite Hl, drop_drop, skipn_firstn_comm, drop_drop. unfold start. f_equal; [lia|]. f_equal. lia. }
  unfold takes. rewrite Hu, parse_raw, Hlen by done. replace (Z.to_nat (h_length h)) with length_ by lia. rewrite Hbody, Hrest.
  destruct (Z.ltb_spec (Z.of_nat (fr_end r - fr_start r - HEADER_LENGTH)) (h_length h)); [lia|].
  destruct (Nat.eqb_spec start (fr_end r)) as [He|He]; destruct (verify cpu h body); try done.
  - split; [done|]. rewrite He, Nat.sub_diag. split; [|done]. split; fields; try done; lia.
  - split; [done|]. split; [|done]. split; fields; try done; unfold start in *; lia.
Qed.

Lemma take_next_ok r : reader_ok r -> takes r (take_next cpu r).
Proof.
  intros Hr. unfold take_next. destruct (fr_large r) as [l|] eqn:Hl; [by apply take_large_ok|].
  pose proof Hr as [H0 H1 H2 H3 _]. cbn zeta.
  assert (length (unread r) = fr_end r - fr_start r)%nat as Hlen.
  { unfold unread. rewrite Hl, length_take, length_drop. lia. }
  destruct (Nat.ltb_spec (fr_end r - fr_start r) HEADER_LENGTH) as [Hlt|Hge].
  { unfold takes, parse_one. rewrite Hlen.
    destruct (Nat.ltb_spec (fr_end r - fr_start r) HEADER_LENGTH); [|lia].
    split; [auto|]. split; [done|]. split; [done|]. apply room_pos; [done..|]. lia. }
  assert (take HEADER_LENGTH (drop (fr_start r) (fr_buffer r)) = take HEADER_LENGTH (unread r)) as ->.
  { unfold unread. rewrite Hl, take_take. f_equal. lia. }
  destruct (unpack_header (take HEADER_LENGTH (unread r))) as [h|] eqn:Hh.
  2: { unfold takes, parse_one. rewrite Hlen, Hh.
       destruct (Nat.ltb_spec (fr_end r - fr_start r) HEADER_LENGTH); [lia|done]. }
  apply unpack_header_raw in Hh as [Hraw Hh].
  2: { apply Forall_take. unfold unread. rewrite Hl. by apply Forall_take, Forall_drop. }
  2: { rewrite length_take. lia. }
  assert (unread r = raw_header h ++ drop HEADER_LENGTH (unread r)) as Hu by (by rewrite <- Hraw, take_drop).
  destruct (Z.ltb_spec (Z.of_nat (length (fr_buffer r))) (Z.of_nat HEADER_LENGTH + h_length h)) as [Hbig|Hfit];
    [by apply take_big_ok|].
  destruct (Z.ltb_spec (Z.of_nat (fr_end r - fr_start r)) (Z.of_nat HEADER_LENGTH + h_length h)) as [Hpart|Hwhole];
    [|by apply take_whole_ok].
  assert (parse_one cpu (unread r) = Incomplete) as Hinc.
  { rewrite Hu, parse_raw, length_drop, Hlen by done.
    destruct (Z.ltb_spec (Z.of_nat (fr_end r - fr_start r - HEADER_LENGTH)) (h_length h)); [done|lia]. }
  destruct (Z.ltb_spec (Z.of_nat (length (fr_buffer r))) (Z.of_nat (fr_start r) + (Z.of_nat HEADER_LENGTH + h_length h))).
  - destruct (compact_ok r Hr Hl) as (Hc & Hcu & Hcl). apply (takes_unread _ _ _ Hcu).
    apply next_started_ok; [done|by rewrite Hcu| |simpl; congruence].
    apply room_pos; [done|done|]. rewrite Hcl. simpl. lia.
  - apply next_started_ok; [done|done| |congruence]. apply room_pos; [done..|lia].
Qed.
End ReaderSpec.

(** ** Streams *)

Section Streams.
Context (cpu : Cpu).

Lemma parse_one_app stream x :
  match parse_one cpu stream with
  | Incomplete => True
  | ParsedFrame body rest =>
      parse_one cpu (stream ++ x) = ParsedFrame body (rest ++ x) /\ (length rest < length stream)%nat
  | bad => parse_one cpu (stream ++ x) = bad
  end.
Proof.
  unfold parse_one. rewrite length_app.
  destruct (Nat.ltb_spec (length stream) HEADER_LENGTH) as [|Hge]; [done|].
  destruct (Nat.ltb_spec (length stream + length x) HEADER_LENGTH); [lia|].
  rewrite take_app_le by done.
  destruct (unpack_header (take HEADER_LENGTH stream)) as [h|] eqn:Hh; [|done].
  destruct (Z.ltb_spec (Z.of_nat (length stream)) (Z.of_nat HEADER_LENGTH + h_length h)); [done|].
  destruct (Z.ltb_spec (Z.of_nat (length stream + length x)) (Z.of_nat HEADER_LENGTH + h_length h)); [lia|].
  rewrite drop_app_le, take_app_le by (rewrite ?length_drop; lia).
  destruct (verify cpu h _); [|done]. split.
  - by rewrite drop_app_le by (unfold HEADER_LENGTH in *; lia).
  - rewrite length_drop. unfold HEADER_LENGTH in *. lia.
Qed.

Lemma parse_frames_fuel stream fuel fuel' :
  (length stream <= fuel)%nat -> (length stream <= fuel')%nat ->
  parse_frames cpu fuel stream = parse_frames cpu fuel' stream.
Proof.
  revert stream fuel'. induction fuel as [|fuel IH]; intros stream [|fuel'] H1 H2; try done.
  - destruct stream; [|simpl in H1; lia]. done.
  - destruct stream; [|simpl in H2; lia]. done.
  - simpl. pose proof (parse_one_app stream []) as Hp. destruct (parse_one cpu stream); try done.
    destruct Hp as [_ Hp]. rewrite (IH rest fuel') by lia. done.
Qed.

Lemma frames_of_step stream :
  frames_of cpu stream =
  match parse_one cpu stream with
  | Incomplete => ([], AtIncomplete stream)
  | ParsedBadHeader => ([], AtBadHeader)
  | ParsedBadChecksum => ([], AtBadChecksum)
  | ParsedFrame body rest => let '(bodies, e) := frames_of cpu rest in (body :: bodies, e)
  end.
Proof.
  unfold frames_of. rewrite (parse_frames_fuel stream (length stream) (S (length stream))) by lia.
  simpl. pose proof (parse_one_app stream []) as Hp. destruct (parse_one cpu stream); try done.
  destruct Hp as [_ Hp]. by rewrite (parse_frames_fuel rest (length stream) (length rest)) by lia.
Qed.

(** More bytes extend the frames of a stream, or change nothing after an error. *)
Lemma frames_of_app stream x :
  frames_of cpu (stream ++ x) =
  match frames_of cpu stream with
  | (bodies, AtIncomplete rest) =>
      let '(more, e) := frames_of cpu (rest ++ x) in (bodies ++ more, e)
  | bad => bad
  end.
Proof.
  remember (length stream) as n eqn:Hn. assert (length stream <= n)%nat as Hle by lia. clear Hn.
  revert stream Hle. induction n as [|n IH]; intros stream Hle.
  - destruct stream; [|simpl in Hle; lia]. simpl. by destruct (frames_of cpu x).
  - rewrite (frames_of_step stream). pose proof (parse_one_app stream x) as Hp.
    destruct (parse_one cpu stream) as [|body rest| |] eqn:Hs.
    + by destruct (frames_of cpu (stream ++ x)).
    + destruct Hp as [Hp Hl]. rewrite frames_of_step, Hp, IH by lia.
      destruct (frames_of cpu rest) as [bodies [t| |]]; [|done..].
      by destruct (frames_of cpu (t ++ x)).
    + by rewrite frames_of_step, Hp.
    + by rewrite frames_of_step, Hp.
Qed.

(** A reader that holds no whole frame, ready for a read. *)
Definition drained (r : FrameReader) : Prop :=
  reader_ok r /\ fr_broken r = false /\ (0 < read_room r)%nat /\ parse_one cpu (unread r) = Incomplete.

Lemma next_frame_ok r :
  reader_ok r -> fr_broken r = false ->
  let '(r', next) := next_frame cpu r in
  match parse_one cpu (unread r) with
  | Incomplete => (next = Started \/ next = Nothing) /\ drained r' /\ unread r' = unread r
  | ParsedFrame body rest =>
      next = NextFrame body /\ reader_ok r' /\ fr_broken r' = false /\ unread r' = rest
  | ParsedBadHeader => next = BadHeader /\ fr_broken r' = true
  | ParsedBadChecksum => next = BadChecksum /\ fr_broken r' = true
  end.
Proof.
  intros Hr Hb. unfold next_frame. rewrite Hb. pose proof (take_next_ok cpu r Hr) as H.
  destruct (take_next cpu r) as [r1 next]. unfold takes in H.
  assert (forall b, reader_ok r1 -> let r' := mkFrameReader (fr_buffer r1) (fr_start r1) (fr_end r1) (fr_large r1) (fr_started r1) b in
    reader_ok r' /\ unread r' = unread r1 /\ read_room r' = read_room r1) as Hmk.
  { intros b [? ? ? ? ?]. split; [by split|]. split; [done|]. unfold read_room, compact. simpl.
    destruct (fr_large r1); [done|]. by destruct (_ =? _)%nat. }
  destruct (parse_one cpu (unread r)) as [|body rest| |] eqn:Hp.
  - destruct H as (Hn & Hok & Hu & Hroom).
    assert (match next with BadHeader | BadChecksum => true | _ => false end = false) as -> by (by destruct Hn; subst).
    destruct (Hmk false Hok) as (? & Hu' & Hr'). split; [done|]. split; [|by rewrite Hu', Hu].
    split; [done|]. split; [done|]. rewrite Hr', Hu', Hu. done.
  - destruct H as (-> & Hok & Hu). destruct (Hmk false Hok) as (? & Hu' & ?).
    split; [done|]. split; [done|]. split; [done|]. by rewrite Hu', Hu.
  - by subst.
  - by subst.
Qed.

Lemma drain_ok fuel r :
  reader_ok r -> fr_broken r = false -> (length (unread r) < fuel)%nat ->
  let '(r', bodies) := drain cpu fuel r in
  match frames_of cpu (unread r) with
  | (bs, AtIncomplete rest) => bodies = bs /\ drained r' /\ unread r' = rest
  | (bs, _) => bodies = bs /\ fr_broken r' = true
  end.
Proof.
  revert r. induction fuel as [|fuel IH]; intros r Hr Hb Hf; [lia|]. simpl.
  pose proof (next_frame_ok r Hr Hb) as H. rewrite frames_of_step.
  pose proof (parse_one_app (unread r) []) as Hp.
  destruct (next_frame cpu r) as [r1 next]. destruct (parse_one cpu (unread r)) as [|body rest| |].
  - destruct H as ([-> | ->] & Hd & Hu); by rewrite <- Hu.
  - destruct H as (-> & Hr1 & Hb1 & Hu1). specialize (IH r1 Hr1 Hb1 ltac:(rewrite Hu1; lia)).
    destruct (drain cpu fuel r1) as [r2 bodies]. rewrite Hu1 in IH.
    destruct (frames_of cpu rest) as [bs [t| |]]; naive_solver.
  - by destruct H as [-> H].
  - by destruct H as [-> H].
Qed.

Lemma pump_broken ns r stream : fr_broken r = true -> pump cpu ns r stream = (r, [], stream).
Proof. intros Hb. destruct ns; simpl; [done|]. by rewrite Hb. Qed.

Lemma pump_ok ns r stream :
  drained r -> Forall is_byte stream -> Forall (fun n => 0 < n)%nat ns -> (length stream <= length ns)%nat ->
  let '(r', bodies, rest) := pump cpu ns r stream in
  match frames_of cpu (unread r ++ stream) with
  | (bs, AtIncomplete tail) => bodies = bs /\ rest = [] /\ unread r' = tail /\ fr_broken r' = false
  | (bs, _) => bodies = bs /\ fr_broken r' = true
  end.
Proof.
  revert r stream. induction ns as [|n ns IH]; intros r stream Hd HF Hns Hle.
  { destruct stream; [|simpl in Hle; lia]. simpl. rewrite app_nil_r, frames_of_step.
    destruct Hd as (_ & ? & _ & ->). done. }
  apply Forall_cons in Hns as [Hn Hns]. destruct Hd as (Hr & Hb & Hroom & Hp). cbn [pump]. rewrite Hb.
  pose proof (read_from_ok r (fun room => take (Nat.min n room) stream) Hr) as Hread.
  destruct (read_from r _) as [r1 got]. destruct Hread as (Hr1 & Hu1 & Hgot & Hb1).
  { intros m. split; [rewrite length_take; lia|by apply Forall_take]. }
  rewrite Hb in Hb1. set (m := Nat.min n (read_room r)) in *.
  pose proof (drain_ok (S (length (unread r1))) r1 Hr1 Hb1 ltac:(lia)) as Hdrain.
  destruct (drain cpu _ r1) as [r2 bodies]. rewrite Hgot.
  assert (unread r ++ stream = unread r1 ++ drop (length (take m stream)) stream) as ->.
  { rewrite Hu1, <- app_assoc. f_equal. rewrite length_take.
    destruct (decide (m <= length stream)%nat); [rewrite Nat.min_l by lia; by rewrite take_drop|].
    rewrite Nat.min_r, take_ge, drop_all, app_nil_r by lia. done. }
  rewrite frames_of_app. destruct (frames_of cpu (unread r1)) as [bs [t| |]].
  - destruct Hdrain as (-> & Hd2 & Hu2). rewrite <- Hu2.
    specialize (IH r2 (drop (length (take m stream)) stream) Hd2 ltac:(by apply Forall_drop) Hns).
    destruct (pump cpu ns r2 _) as [[r3 more] rest]. simpl in Hle.
    assert (length (drop (length (take m stream)) stream) <= length ns)%nat as Hle'.
    { rewrite length_drop, length_take. lia. }
    specialize (IH Hle'). destruct (frames_of cpu _) as [bs' [t'| |]]; naive_solver.
  - destruct Hdrain as (-> & Hb2). rewrite pump_broken, app_nil_r by done. done.
  - destruct Hdrain as (-> & Hb2). rewrite pump_broken, app_nil_r by done. done.
Qed.
End Streams.

Lemma reader_over_drained cpu n : (HEADER_LENGTH < n)%nat -> drained cpu (reader_over n).
Proof.
  intros Hn. split.
  - split; simpl; rewrite ?length_replicate; try done; [lia|]. apply Forall_replicate. by vm_compute.
  - split; [done|]. split; [|done]. unfold read_room. simpl. rewrite length_replicate.
    destruct n; [lia|]. simpl. lia.
Qed.

(** ** Properties *)

(** C13: Framing is exact and live: however the reads cut a stream of bytes, the
    reader hands over exactly the frames of the stream, in order, each verified,
    up to its first bad header or checksum, after which it is broken; it always
    offers a read room, so as many reads as bytes consume the whole stream, and
    what is left is the incomplete frame at its end. *)
Theorem reader_exact cpu n ns stream :
  (HEADER_LENGTH < n)%nat -> Forall is_byte stream -> Forall (fun k => 0 < k)%nat ns ->
  (length stream <= length ns)%nat ->
  let '(r, bodies, rest) := pump cpu ns (reader_over n) stream in
  match frames_of cpu stream with
  | (frames, AtIncomplete tail) =>
      bodies = frames /\ rest = [] /\ unread r = tail /\ fr_broken r = false
  | (frames, _) => bodies = frames /\ fr_broken r = true
  end.
Proof.
  intros Hn HF Hns Hle.
  pose proof (pump_ok cpu ns (reader_over n) stream (reader_over_drained cpu n Hn) HF Hns Hle) as H.
  destruct (pump cpu ns (reader_over n) stream) as [[r bodies] rest]. exact H.
Qed.

(** After a bad header or a bad checksum the reader gives nothing more. *)
Theorem broken_gives_nothing cpu r next r' k :
  next_frame cpu r = (r', next) -> next = BadHeader \/ next = BadChecksum ->
  Nat.iter k (fun x => fst (next_frame cpu x)) r' = r' /\ snd (next_frame cpu r') = Nothing /\
  holds_next r' = false.
Proof.
  intros Hn Hbad. assert (fr_broken r' = true) as Hb.
  { unfold next_frame in Hn. destruct (fr_broken r) eqn:Hb; [by destruct Hbad; simplify_eq|].
    destruct (take_next cpu r) as [r1 x]. by destruct Hbad; simplify_eq/=. }
  split; [|unfold next_frame, holds_next; by rewrite Hb].
  induction k as [|k IH]; [done|]. simpl. rewrite IH. unfold next_frame. by rewrite Hb.
Qed.

Lemma raw_header_of cpu body :
  Z.of_nat (length body) <= MAX_MESSAGE_SIZE ->
  header_of cpu body = raw_header (mkHeader (Z.of_nat (length body)) (checksum cpu body)).
Proof.
  intros Hb. unfold header_of, raw_header. fields. cbn [h_length h_checksum].
  rewrite w32_id; [done|]. split; [lia|]. eapply Z.le_lt_trans; [exact Hb|]. reflexivity.
Qed.

(** A body a connection accepts. *)
Definition body_ok (body : list Z) : Prop :=
  Forall is_byte body /\ 0 < Z.of_nat (length body) <= MAX_MESSAGE_SIZE.

Lemma frames_of_frames cpu cpu' bodies tail :
  Forall body_ok bodies -> parse_one cpu' tail = Incomplete ->
  frames_of cpu' (concat (map (frame_of_body cpu) bodies) ++ tail) = (bodies, AtIncomplete tail).
Proof.
  intros HF Ht. induction HF as [|body bodies [Hb Hl] _ IH].
  - simpl. by rewrite frames_of_step, Ht.
  - cbn [map concat]. rewrite frames_of_step, frame_of_body_eq, raw_header_of by lia.
    rewrite <- !app_assoc, parse_raw by (split; [simpl; lia|apply checksum_range]). cbn [h_length].
    rewrite Nat2Z.id, take_app_length, drop_app_length, verify_of by done.
    destruct (Z.ltb_spec (Z.of_nat (length (body ++ concat (map (frame_of_body cpu) bodies) ++ tail)))
      (Z.of_nat (length body))); [rewrite length_app in *; lia|].
    by rewrite IH.
Qed.

(** C12: A stream round-trips: the frames one side writes one after another come
    out of the other side's reader, on any machine and cut by the reads in any
    way, as the same bodies in the same order, and nothing is left over. *)
Theorem stream_roundtrip cpu cpu' n ns bodies :
  (HEADER_LENGTH < n)%nat -> Forall body_ok bodies -> Forall (fun k => 0 < k)%nat ns ->
  let stream := concat (map (frame_of_body cpu) bodies) in
  (length stream <= length ns)%nat ->
  let '(r, received, rest) := pump cpu' ns (reader_over n) stream in
  received = bodies /\ rest = [] /\ unread r = [] /\ fr_broken r = false.
Proof.
  intros Hn HF Hns stream Hle.
  assert (Forall is_byte stream) as Hbytes.
  { unfold stream. clear Hle stream. induction HF as [|body bodies [Hb _] _ IH]; cbn [map concat]; [constructor|].
    rewrite frame_of_body_eq, !Forall_app. auto using header_of_bytes. }
  pose proof (pump_ok cpu' ns (reader_over n) stream (reader_over_drained cpu' n Hn) Hbytes Hns Hle) as H.
  destruct (pump cpu' ns (reader_over n) stream) as [[r received] rest].
  change (unread (reader_over n)) with (@nil Z) in H. rewrite app_nil_l in H. unfold stream in H.
  rewrite <- (app_nil_r (concat _)), frames_of_frames in H by done. done.
Qed.

(** [holds_next] is exact: it is false precisely when the unread bytes hold
    no frame and no error and the next frame fits the buffer, so a read is
    needed; true means that [next] hands over a frame or an error, or moves a
    frame too big for the buffer to one of its own. *)
Theorem holds_next_spec cpu r :
  reader_ok r -> fr_broken r = false -> Z.of_nat (length (fr_buffer r)) <= MAX_MESSAGE_SIZE ->
  match parse_one cpu (unread r) with
  | Incomplete =>
      holds_next r = true <->
      fr_large r = None /\ (HEADER_LENGTH <= length (unread r))%nat /\
      Z.of_nat (length (fr_buffer r)) < Z.of_nat HEADER_LENGTH + from_le (take 4 (unread r))
  | _ => holds_next r = true
  end.
Proof.
  intros Hr Hb Hmax. pose proof Hr as [H0 H1 H2 H3 H4]. unfold holds_next. rewrite Hb.
  destruct (fr_large r) as [l|] eqn:Hl.
  - destruct H4 as [[L1 L2 L3 L4 L5] He]. unfold unread. rewrite Hl, parse_raw, length_take by done.
    destruct (Nat.eqb_spec (lg_filled l) (length (lg_body l)));
      destruct (Z.ltb_spec (Z.of_nat (Nat.min (lg_filled l) (length (lg_body l)))) (h_length (lg_header l)));
      try lia; [by destruct (verify _ _ _)|]. naive_solver.
  - assert (length (unread r) = fr_end r - fr_start r)%nat as Hlen.
    { unfold unread. rewrite Hl, length_take, length_drop. lia. }
    unfold parse_one. rewrite Hlen.
    destruct (Nat.ltb_spec (fr_end r - fr_start r) HEADER_LENGTH) as [Hlt|Hge]; [split; [done|lia]|].
    assert (take 4 (drop (fr_start r) (fr_buffer r)) = take 4 (unread r)) as ->.
    { unfold unread. rewrite Hl, take_take. f_equal. unfold HEADER_LENGTH in *. lia. }
    unfold unpack_header. rewrite take_take. change (Nat.min 4 HEADER_LENGTH) with 4%nat.
    set (len := from_le (take 4 (unread r))).
    destruct (Z.eqb_spec len 0); [done|].
    destruct (Z.ltb_spec MAX_MESSAGE_SIZE len); simpl;
      destruct (Z.leb_spec (Z.of_nat HEADER_LENGTH + len) (Z.of_nat (fr_end r - fr_start r))),
        (Z.ltb_spec (Z.of_nat (length (fr_buffer r))) (Z.of_nat HEADER_LENGTH + len)),
        (Z.ltb_spec (Z.of_nat (fr_end r - fr_start r)) (Z.of_nat HEADER_LENGTH + len));
      simpl; try lia; try done; try (by destruct (verify _ _ _)); split; try done; lia.
Qed.

(** ** Witnesses: two frames, the second too big for a buffer of 9 bytes, read
    three bytes at a time *)

Definition demo_cpu : Cpu := mkCpu false false false.
Definition demo_bodies : list (list Z) := [[7]; [1; 2; 3]].
Definition demo_stream : list Z := concat (map (frame_of_body demo_cpu) demo_bodies).

Lemma stream_roundtrip_witness :
  let '(r, received, rest) := pump (mkCpu true true true) (replicate 20 3%nat) (reader_over 9) demo_stream in
  received = demo_bodies /\ rest = [] /\ unread r = [] /\ fr_broken r = false.
Proof.
  apply (stream_roundtrip demo_cpu (mkCpu true true true) 9 (replicate 20 3%nat) demo_bodies).
  - unfold HEADER_LENGTH. lia.
  - repeat constructor; try (apply bytes_check; reflexivity); by vm_compute.
  - apply Forall_replicate. lia.
  - vm_compute. lia.
Defined.

Lemma reader_exact_witness :
  let '(r, bodies, rest) := pump demo_cpu (replicate 30 2%nat) (reader_over 16) (demo_stream ++ [1; 0]) in
  bodies = demo_bodies /\ rest = [] /\ unread r = [1; 0] /\ fr_broken r = false.
Proof.
  refine (reader_exact demo_cpu 16 (replicate 30 2%nat) (demo_stream ++ [1; 0]) _ _ _ _).
  - unfold HEADER_LENGTH. lia.
  - apply bytes_check. by vm_compute.
  - apply Forall_replicate. lia.
  - vm_compute. lia.
Defined.

Lemma broken_gives_nothing_witness :
  snd (next_frame demo_cpu (fst (next_frame demo_cpu
    (fst (read_from (reader_over 16) (fun _ => replicate 8 0)))))) = Nothing.
Proof.
  exact (proj1 (proj2 (broken_gives_nothing demo_cpu
    (fst (read_from (reader_over 16) (fun _ => replicate 8 0))) BadHeader _ 3 eq_refl (or_introl eq_refl)))).
Defined.

(** A reader of 16 bytes that holds the header of a body of 30. *)
Definition demo_reader : FrameReader :=
  mkFrameReader ([30; 0; 0; 0; 1; 2; 3; 4] ++ replicate 8 0) 0 8 None false false.

Lemma holds_next_spec_witness :
  holds_next demo_reader = true <->
  fr_large demo_reader = None /\ (HEADER_LENGTH <= length (unread demo_reader))%nat /\
  Z.of_nat (length (fr_buffer demo_reader)) < Z.of_nat HEADER_LENGTH + from_le (take 4 (unread demo_reader)).
Proof.
  refine (holds_next_spec demo_cpu demo_reader _ _ _); [|done|by vm_compute].
  split; simpl; unfold HEADER_LENGTH; try done; try lia. apply bytes_check. by vm_compute.
Defined.
