(* ===== verification/Timers.v ===== *)
(** * Timers: the core's heap of deadlines (core/timers.rs)

    A [BinaryHeap] of [Reverse<(Instant, TimerKey)>] is what its operations
    show: the entries in order, the least at the head.  Cancelled entries stay
    in it until they reach the top or a rebuild drops them.  The specification
    is the list of the armed timers alone, by deadline and key;
    [timers_refine] shows that under every sequence of operations the lazy heap
    answers as that list does. *)
From S2P Require Import Prelude.
Open Scope Z_scope.

Section Timers.
Context {Due : Type}.

Definition CANCELLED_SLACK : nat := 64.

(** An entry of the heap: a deadline and a key. *)
Abbreviation entry := (Z * Z)%type.

Definition entry_leb (a b : entry) : bool :=
  (a.1 <? b.1) || ((a.1 =? b.1) && (a.2 <=? b.2)).

Fixpoint heap_push (e : entry) (h : list entry) : list entry :=
  match h with
  | [] => [e]
  | x :: h' => if entry_leb e x then e :: h else x :: heap_push e h'
  end.

Record Timers := mkTimers {
  tm_heap : list entry;
  tm_armed : gmap Z Due;
  tm_next_key : Z;
}.

Definition Timers_default : Timers := mkTimers [] ∅ 0.

Definition Timers_arm (t : Timers) (deadline : Z) (due : Due) : Timers * Z :=
  let key := tm_next_key t + 1 in
  (mkTimers (heap_push (deadline, key) (tm_heap t)) (<[key := due]> (tm_armed t)) key, key).

(** [cancel]: the timers, and the slot after. *)
Definition Timers_cancel (t : Timers) (slot : option Z) : Timers * option Z :=
  match slot with
  | None => (t, None)
  | Some key =>
      let armed' := delete key (tm_armed t) in
      let heap' :=
        if (2 * size armed' + CANCELLED_SLACK <? length (tm_heap t))%nat
        then filter (fun e : entry => is_Some (armed' !! e.2)) (tm_heap t) else tm_heap t in
      (mkTimers heap' armed' (tm_next_key t), None)
  end.

Definition Timers_rearm (t : Timers) (slot : option Z) (deadline : Z) (due : Due) : Timers * option Z :=
  let '(t, _) := Timers_cancel t slot in
  let '(t, key) := Timers_arm t deadline due in (t, Some key).

Definition any_armed (t : Timers) : bool := negb (bool_decide (tm_armed t = ∅)).

(** The loop of [next_deadline]: the heap after, and the deadline on top. *)
Fixpoint next_deadline_loop (armed_ : gmap Z Due) (h : list entry) : list entry * option Z :=
  match h with
  | [] => ([], None)
  | (deadline, key) :: h' =>
      match armed_ !! key with
      | Some _ => (h, Some deadline)
      | None => next_deadline_loop armed_ h'
      end
  end.

Definition next_deadline (t : Timers) : Timers * option Z :=
  let '(h, d) := next_deadline_loop (tm_armed t) (tm_heap t) in
  (mkTimers h (tm_armed t) (tm_next_key t), d).

(** The loop of [take_due]. *)
Fixpoint take_due_loop (now : Z) (armed_ : gmap Z Due) (h : list entry) :
    list entry * gmap Z Due * option (Z * Due) :=
  match h with
  | [] => ([], armed_, None)
  | (deadline, key) :: h' =>
      match armed_ !! key with
      | None => take_due_loop now armed_ h'
      | Some due => if now <? deadline then (h, armed_, None) else (h', delete key armed_, Some (key, due))
      end
  end.

Definition take_due (t : Timers) (now : Z) : Timers * option (Z * Due) :=
  let '(h, a, taken) := take_due_loop now (tm_armed t) (tm_heap t) in
  (mkTimers h a (tm_next_key t), taken).

(** ** Specification: the armed timers in order *)

Local Abbreviation timer := (Z * Z * Due)%type.

Fixpoint live_insert (x : timer) (l : list timer) : list timer :=
  match l with
  | [] => [x]
  | y :: l' => if entry_leb x.1 y.1 then x :: l else y :: live_insert x l'
  end.

Inductive TimerOp :=
| OpArm (deadline : Z) (due : Due)
| OpCancel (slot : option Z)
| OpTakeDue (now : Z)
| OpNextDeadline
| OpAnyArmed.

Inductive TimerAnswer :=
| AnsKey (key : Z)
| AnsNone
| AnsTaken (taken : option (Z * Due))
| AnsDeadline (deadline : option Z)
| AnsAny (b : bool).

Definition timers_op (t : Timers) (o : TimerOp) : Timers * TimerAnswer :=
  match o with
  | OpArm d due => let '(t, k) := Timers_arm t d due in (t, AnsKey k)
  | OpCancel slot => ((Timers_cancel t slot).1, AnsNone)
  | OpTakeDue now => let '(t, x) := take_due t now in (t, AnsTaken x)
  | OpNextDeadline => let '(t, x) := next_deadline t in (t, AnsDeadline x)
  | OpAnyArmed => (t, AnsAny (any_armed t))
  end.

(** The specification's state: the armed timers by deadline, and the last key. *)
Definition live_op (s : list timer * Z) (o : TimerOp) : (list timer * Z) * TimerAnswer :=
  let '(l, k) := s in
  match o with
  | OpArm d due => ((live_insert (d, k + 1, due) l, k + 1), AnsKey (k + 1))
  | OpCancel slot =>
      ((filter (fun x : timer => slot <> Some x.1.2) l, k), AnsNone)
  | OpTakeDue now =>
      match l with
      | (d, key, due) :: l' =>
          if now <? d then (s, AnsTaken None) else ((l', k), AnsTaken (Some (key, due)))
      | [] => (s, AnsTaken None)
      end
  | OpNextDeadline => (s, AnsDeadline (head l ≫= fun x : timer => Some x.1.1))
  | OpAnyArmed => (s, AnsAny (negb (bool_decide (l = []))))
  end.

Fixpoint run_ops {S} (step : S -> TimerOp -> S * TimerAnswer) (s : S) (os : list TimerOp) : list TimerAnswer :=
  match os with
  | [] => []
  | o :: os => let '(s, a) := step s o in a :: run_ops step s os
  end.

(** ** The refinement *)

Definition live (armed_ : gmap Z Due) (h : list entry) : list timer :=
  omap (fun e : entry => (fun due => (e, due)) <$> armed_ !! e.2) h.

Definition entry_le (a b : entry) : Prop := entry_leb a b = true.

Record timers_ok (t : Timers) : Prop := {
  to_sorted : StronglySorted entry_le (tm_heap t);
  to_nodup : NoDup (map snd (tm_heap t));
  to_keys : Forall (fun e : entry => e.2 <= tm_next_key t) (tm_heap t);
  to_armed : forall k, is_Some (tm_armed t !! k) -> k ∈ map snd (tm_heap t);
}.

Lemma entry_leb_spec a b : entry_leb a b = true <-> a.1 < b.1 \/ (a.1 = b.1 /\ a.2 <= b.2).
Proof. unfold entry_leb. rewrite orb_true_iff, andb_true_iff, Z.ltb_lt, Z.eqb_eq, Z.leb_le. done. Qed.

Lemma entry_leb_total a b : entry_leb a b = false -> entry_leb b a = true.
Proof.
  intros H. apply entry_leb_spec. destruct (decide (entry_leb a b = true)) as [|Hn]; [congruence|].
  rewrite entry_leb_spec in Hn. lia.
Qed.

Lemma entry_le_trans a b c : entry_le a b -> entry_le b c -> entry_le a c.
Proof. unfold entry_le. rewrite !entry_leb_spec. lia. Qed.

Lemma heap_push_perm e h : heap_push e h ≡ₚ e :: h.
Proof.
  induction h as [|x h IH]; simpl; [done|]. destruct (entry_leb e x); [done|].
  rewrite IH. apply Permutation_swap.
Qed.

Lemma heap_push_sorted e h : StronglySorted entry_le h -> StronglySorted entry_le (heap_push e h).
Proof.
  induction 1 as [|x h Hs IH HF]; simpl; [repeat constructor|].
  destruct (entry_leb e x) eqn:He.
  - constructor; [by constructor|]. constructor; [done|].
    eapply Forall_impl; [exact HF|]. intros y Hy. by eapply entry_le_trans.
  - constructor; [done|]. rewrite heap_push_perm. constructor; [by apply entry_leb_total|done].
Qed.

Lemma live_ext a a' h : (forall k, k ∈ map snd h -> a !! k = a' !! k) -> live a h = live a' h.
Proof.
  intros H. unfold live. apply list_omap_ext.
  apply Forall_Forall2_diag, Forall_forall. intros e He. rewrite H; [done|].
  apply list_elem_of_In, in_map, list_elem_of_In. done.
Qed.

Lemma live_cons a e h :
  live a (e :: h) = match a !! e.2 with Some due => (e, due) :: live a h | None => live a h end.
Proof. unfold live. simpl. by destruct (a !! e.2). Qed.

Lemma elem_of_live a h x : x ∈ live a h <-> x.1 ∈ h /\ a !! x.1.2 = Some x.2.
Proof.
  unfold live. rewrite list_elem_of_omap. destruct x as [e due]. simpl. split.
  - intros (e' & He & Heq). destruct (a !! e'.2) eqn:?; simplify_eq/=. done.
  - intros [He Ha]. exists e. rewrite Ha. done.
Qed.

Lemma live_insert_least x l : Forall (fun y : timer => entry_le x.1 y.1) l -> live_insert x l = x :: l.
Proof. destruct 1 as [|y l Hy _]; cbn [live_insert]; [done|]. unfold entry_le in Hy. by rewrite Hy. Qed.

Lemma live_push a d k due h :
  StronglySorted entry_le h -> a !! k = Some due ->
  live a (heap_push (d, k) h) = live_insert (d, k, due) (live a h).
Proof.
  intros Hs Ha. induction Hs as [|x h Hs IH HF]; cbn [heap_push].
  - rewrite live_cons. cbn [snd]. by rewrite Ha.
  - destruct (entry_leb (d, k) x) eqn:He.
    + rewrite live_cons. cbn [snd]. rewrite Ha. symmetry. apply live_insert_least.
      apply Forall_forall. intros y [Hy _]%elem_of_live. apply elem_of_cons in Hy as [->|Hy]; [done|].
      eapply entry_le_trans; [exact He|]. rewrite Forall_forall in HF. auto.
    + rewrite !live_cons, IH. destruct (a !! x.2); [|done]. cbn [live_insert fst]. by rewrite He.
Qed.

Lemma live_delete a k h : live (delete k a) h = filter (fun x : timer => Some k <> Some x.1.2) (live a h).
Proof.
  induction h as [|e h IH]; [done|]. rewrite !live_cons, IH. destruct (decide (e.2 = k)) as [<-|Hne].
  - rewrite lookup_delete_eq. destruct (a !! e.2); [|done]. by rewrite filter_cons_False by (simpl; tauto).
  - rewrite lookup_delete_ne by done. destruct (a !! e.2); [|done].
    by rewrite filter_cons_True by (simpl; congruence).
Qed.

Lemma live_rebuild a h : live a (filter (fun e : entry => is_Some (a !! e.2)) h) = live a h.
Proof.
  induction h as [|e h IH]; [done|]. rewrite live_cons. destruct (a !! e.2) eqn:He.
  - rewrite filter_cons_True by (by rewrite He). by rewrite live_cons, He, IH.
  - rewrite filter_cons_False by (rewrite He; by apply is_Some_None). done.
Qed.

Lemma next_deadline_loop_ok a h :
  let '(h', d) := next_deadline_loop a h in
  live a h' = live a h /\ d = (head (live a h) ≫= fun x : timer => Some x.1.1) /\
  exists skipped, h = skipped ++ h' /\ Forall (fun e : entry => a !! e.2 = None) skipped.
Proof.
  induction h as [|[d k] h IH]; [split; [done|]; split; [done|]; by exists []|]. cbn [next_deadline_loop]. rewrite live_cons. cbn [snd]. destruct (a !! k) eqn:Hk.
  - rewrite live_cons. cbn [snd]. rewrite Hk. split; [done|]. split; [done|]. by exists [].
  - destruct (next_deadline_loop a h) as [h' d']. destruct IH as (H1 & H2 & sk & -> & HF).
    split; [done|]. split; [done|]. exists ((d, k) :: sk). auto.
Qed.

Lemma take_due_loop_ok now a h :
  NoDup (map snd h) ->
  let '(h', a', x) := take_due_loop now a h in
  match live a h with
  | (d, key, due) :: rest =>
      if now <? d then x = None /\ a' = a /\ live a' h' = live a h
      else x = Some (key, due) /\ a' = delete key a /\ live a' h' = rest
  | [] => x = None /\ a' = a /\ live a' h' = []
  end /\
  exists skipped, h = skipped ++ h' /\ Forall (fun e : entry => a' !! e.2 = None) skipped.
Proof.
  induction h as [|[d k] h IH]; intros Hnd; [split; [done|]; by exists []|]. simpl in Hnd. cbn [take_due_loop]. apply NoDup_cons in Hnd as [Hk Hnd].
  rewrite live_cons. cbn [snd]. destruct (a !! k) as [due|] eqn:Ha.
  - destruct (now <? d).
    + split; [|by exists []]. rewrite live_cons. cbn [snd]. by rewrite Ha.
    + split.
      * split; [done|]. split; [done|]. apply live_ext. intros k' Hk'. apply lookup_delete_ne. by intros ->.
      * exists [(d, k)]. split; [done|]. constructor; [|done]. apply lookup_delete_eq.
  - specialize (IH Hnd). destruct (take_due_loop now a h) as [[h' a'] x].
    destruct IH as (H1 & sk & -> & HF). split; [done|]. exists ((d, k) :: sk). split; [done|].
    constructor; [|done]. simpl. destruct (live a (sk ++ h')) as [|[[d' k'] due'] rest].
    + by destruct H1 as (_ & -> & _).
    + destruct (now <? d'); destruct H1 as (_ & -> & _); [done|]. rewrite lookup_delete_None. auto.
Qed.

(** A heap that lost a prefix of entries that are not armed is still sound. *)
Lemma timers_ok_suffix h h' sk a a' n :
  timers_ok (mkTimers h a n) -> h = sk ++ h' -> Forall (fun e : entry => a' !! e.2 = None) sk ->
  (forall k, is_Some (a' !! k) -> is_Some (a !! k)) -> timers_ok (mkTimers h' a' n).
Proof.
  intros [Hs Hn Hk Ha] -> HF Hsub. cbn in *. split; cbn.
  - by apply StronglySorted_app_1_r in Hs.
  - rewrite map_app in Hn. by apply NoDup_app in Hn as (_ & _ & ?).
  - by apply Forall_app in Hk as [_ ?].
  - intros k Hk'. specialize (Ha k (Hsub k Hk')). rewrite map_app in Ha.
    apply elem_of_app in Ha as [Hin|]; [|done]. exfalso.
    apply list_elem_of_In, in_map_iff in Hin as (e & <- & He%list_elem_of_In).
    rewrite Forall_forall in HF. rewrite (HF e He) in Hk'. by destruct Hk'.
Qed.

Definition live_of (t : Timers) : list timer * Z := (live (tm_armed t) (tm_heap t), tm_next_key t).

Lemma arm_ok t d due :
  timers_ok t ->
  timers_ok (Timers_arm t d due).1 /\
  live_of (Timers_arm t d due).1 = (live_insert (d, tm_next_key t + 1, due) (live_of t).1, tm_next_key t + 1).
Proof.
  intros [Hs Hn Hk Ha]. unfold Timers_arm, live_of. cbn [fst snd tm_heap tm_armed tm_next_key].
  assert (tm_next_key t + 1 ∉ map snd (tm_heap t)) as Hfresh.
  { intros (e & He & Hin%list_elem_of_In)%list_elem_of_In%in_map_iff. rewrite Forall_forall in Hk.
    specialize (Hk e Hin). lia. }
  split.
  - split; cbn.
    + by apply heap_push_sorted.
    + rewrite heap_push_perm. simpl. by apply NoDup_cons.
    + rewrite heap_push_perm. constructor; [simpl; lia|]. eapply Forall_impl; [exact Hk|]. simpl. lia.
    + intros k Hk'. rewrite heap_push_perm. simpl. apply elem_of_cons.
      destruct (decide (k = tm_next_key t + 1)) as [->|Hne]; [by left|right].
      rewrite lookup_insert_ne in Hk' by done. auto.
  - f_equal. rewrite (live_push _ _ _ due) by (done || apply lookup_insert_eq). f_equal.
    apply live_ext. intros k' Hk'. apply lookup_insert_ne. by intros <-.
Qed.

Lemma cancel_ok t slot :
  timers_ok t ->
  timers_ok (Timers_cancel t slot).1 /\
  live_of (Timers_cancel t slot).1 = (filter (fun x : timer => slot <> Some x.1.2) (live_of t).1, tm_next_key t).
Proof.
  intros Ht. pose proof Ht as [Hs Hn Hk Ha]. unfold Timers_cancel, live_of.
  destruct slot as [key|]; cbn [fst snd tm_heap tm_armed tm_next_key].
  2: { split; [done|]. f_equal. symmetry. apply filter_all, Forall_forall. done. }
  rewrite <- live_delete. destruct (_ <? _)%nat.
  - rewrite live_rebuild. split; [|done]. split; cbn.
    + by apply StronglySorted_filter.
    + by apply NoDup_map_filter.
    + by apply Forall_filter.
    + intros k Hk'. rewrite lookup_delete_is_Some in Hk'. destruct Hk' as [Hne Hk'].
      specialize (Ha k Hk'). apply list_elem_of_In, in_map_iff in Ha as (e & <- & He%list_elem_of_In).
      apply list_elem_of_In, in_map, list_elem_of_In, list_elem_of_filter. split; [|done].
      by rewrite lookup_delete_ne.
  - split; [|done]. split; cbn; try done.
    intros k Hk'. rewrite lookup_delete_is_Some in Hk'. naive_solver.
Qed.

Lemma take_due_ok t now :
  timers_ok t ->
  timers_ok (take_due t now).1 /\
  live_op (live_of t) (OpTakeDue now) = (live_of (take_due t now).1, AnsTaken (take_due t now).2).
Proof.
  intros Ht. pose proof (take_due_loop_ok now (tm_armed t) (tm_heap t) (to_nodup _ Ht)) as H.
  unfold take_due, live_of, live_op.
  destruct (take_due_loop now (tm_armed t) (tm_heap t)) as [[h' a'] x].
  destruct H as (H & sk & Hsk & HF). cbn [fst snd tm_heap tm_armed tm_next_key]. split.
  - eapply (timers_ok_suffix (tm_heap t) _ sk (tm_armed t)); [destruct t; exact Ht|done|done|].
    destruct (live (tm_armed t) (tm_heap t)) as [|[[d k] due] rest].
    + by destruct H as (_ & -> & _).
    + destruct (now <? d); destruct H as (_ & -> & _); [done|].
      intros k' Hk'. rewrite lookup_delete_is_Some in Hk'. tauto.
  - destruct (live (tm_armed t) (tm_heap t)) as [|[[d k] due] rest].
    + by destruct H as (-> & -> & ->).
    + destruct (now <? d); by destruct H as (-> & -> & ->).
Qed.

Lemma next_deadline_ok t :
  timers_ok t ->
  timers_ok (next_deadline t).1 /\ live_of (next_deadline t).1 = live_of t /\
  (next_deadline t).2 = (head (live_of t).1 ≫= fun x : timer => Some x.1.1).
Proof.
  intros Ht. pose proof (next_deadline_loop_ok (tm_armed t) (tm_heap t)) as H.
  unfold next_deadline, live_of. destruct (next_deadline_loop _ _) as [h' d].
  destruct H as (H1 & H2 & sk & Hsk & HF). cbn [fst snd tm_heap tm_armed tm_next_key]. split; [|by rewrite H1].
  eapply (timers_ok_suffix (tm_heap t) _ sk (tm_armed t)); [destruct t; exact Ht|done|done|done].
Qed.

Lemma any_armed_ok t : timers_ok t -> any_armed t = negb (bool_decide ((live_of t).1 = [])).
Proof.
  intros Ht. unfold any_armed. f_equal. apply bool_decide_ext. simpl. split.
  - intros He. destruct (live (tm_armed t) (tm_heap t)) as [|x l] eqn:Hl; [done|]. exfalso.
    assert (x ∈ live (tm_armed t) (tm_heap t)) as [_ Hx]%elem_of_live by (rewrite Hl; left).
    by rewrite He, lookup_empty in Hx.
  - intros Hl. apply map_empty. intros k. destruct (tm_armed t !! k) as [due|] eqn:Hk; [|done]. exfalso.
    pose proof (to_armed t Ht k ltac:(by eexists)) as Hin.
    apply list_elem_of_In, in_map_iff in Hin as (e & <- & He%list_elem_of_In).
    assert ((e, due) ∈ live (tm_armed t) (tm_heap t)) as Hlive by (by apply elem_of_live).
    rewrite Hl in Hlive. by apply not_elem_of_nil in Hlive.
Qed.

Lemma timers_op_ok t o :
  timers_ok t ->
  timers_ok (timers_op t o).1 /\ live_op (live_of t) o = (live_of (timers_op t o).1, (timers_op t o).2).
Proof.
  intros Ht. destruct o as [d due|slot|now| |]; unfold timers_op.
  - destruct (arm_ok t d due Ht) as [Hok Hl].
    assert ((Timers_arm t d due).2 = tm_next_key t + 1) as Hk by done.
    destruct (Timers_arm t d due) as [t' k]. cbn [fst snd] in *. subst k. split; [done|]. by rewrite Hl.
  - destruct (cancel_ok t slot Ht) as [Hok Hl]. split; [done|]. cbn [fst snd]. by rewrite Hl.
  - destruct (take_due_ok t now Ht) as [Hok Hl]. by destruct (take_due t now).
  - destruct (next_deadline_ok t Ht) as (Hok & Hl & Hd). destruct (next_deadline t) as [t' d].
    cbn [fst snd] in *. subst d. split; [done|]. by rewrite Hl.
  - split; [done|]. cbn [fst snd]. by rewrite any_armed_ok.
Qed.

Lemma timers_default_ok : timers_ok Timers_default.
Proof. split; cbn; [constructor|constructor|constructor|]. intros k [? Hk]. by rewrite lookup_empty in Hk. Qed.

Lemma run_ops_ok os t : timers_ok t -> run_ops timers_op t os = run_ops live_op (live_of t) os.
Proof.
  revert t. induction os as [|o os IH]; intros t Ht; [done|]. cbn [run_ops].
  destruct (timers_op_ok t o Ht) as [Hok Hl]. rewrite Hl.
  destruct (timers_op t o) as [t' a]. cbn [fst snd] in *. by rewrite (IH t' Hok).
Qed.

(** The invariant of the timers a sequence of operations leaves. *)
Lemma timers_reachable_ok os t :
  timers_ok t -> timers_ok (fold_left (fun t o => (timers_op t o).1) os t).
Proof. revert t. induction os as [|o os IH]; intros t Ht; [done|]. apply IH, timers_op_ok, Ht. Qed.

(** ** Properties *)

(** C17: The lazy heap is the ordered list of the armed timers: every sequence of
    arming, cancelling, taking what is due and asking for the next deadline gets
    the answers that list gives.  So a cancelled timer never fires, what fires is
    the armed timer with the earliest deadline (the earliest armed among equals),
    once and not before its time, and the deadline the driver waits for is the
    least one armed, whatever cancelled entries the heap still holds. *)
Theorem timers_refine os : run_ops timers_op Timers_default os = run_ops live_op ([], 0) os.
Proof. apply (run_ops_ok os Timers_default timers_default_ok). Qed.

(** After a cancellation the heap holds at most [CANCELLED_SLACK] entries
    beyond twice the armed timers. *)
Theorem cancel_bounds_heap os key :
  let t := fold_left (fun t o => (timers_op t o).1) os Timers_default in
  let t' := (Timers_cancel t (Some key)).1 in
  (length (tm_heap t') <= 2 * size (tm_armed t') + CANCELLED_SLACK)%nat.
Proof.
  intros t t'. assert (timers_ok t) as Ht by apply timers_reachable_ok, timers_default_ok.
  unfold t', Timers_cancel. cbn [fst tm_heap tm_armed]. clear t'.
  destruct (Nat.ltb_spec (2 * size (delete key (tm_armed t)) + CANCELLED_SLACK) (length (tm_heap t))) as [Hlt|]; [|done].
  set (a := delete key (tm_armed t)).
  set (h := filter (fun e : entry => is_Some (a !! e.2)) (tm_heap t)).
  assert (length h <= size a)%nat; [|lia].
  rewrite <- (length_map snd h), <- (size_dom a), <- (size_list_to_set (C:=gset Z) (map snd h)).
  - apply subseteq_size. intros k Hk%elem_of_list_to_set%list_elem_of_In%in_map_iff.
    destruct Hk as (e & <- & [He _]%list_elem_of_In%list_elem_of_filter). by apply elem_of_dom.
  - apply NoDup_map_filter, (to_nodup _ Ht).
Qed.
End Timers.

(** The bound is what a cancellation restores, not an invariant: timers that
    fire leave the cancelled entries behind. *)
Definition fired_ops : list (TimerOp (Due := unit)) :=
  map (fun _ => OpArm 10 tt) (seq 0 67) ++ map (fun _ => OpArm 1 tt) (seq 0 3) ++
  map (fun k => OpCancel (Some (Z.of_nat k))) (seq 1 67) ++ map (fun _ => OpTakeDue 5) (seq 0 3).

(** The module comment's bound, no more than twice what is armed, is not an
    invariant of the heap even with the slack: seventy timers armed, the
    sixty-seven later ones cancelled and the other three fired leave sixty-seven
    entries and nothing armed. *)
Theorem heap_bound_exceeded :
  let t := fold_left (fun t o => (timers_op t o).1) fired_ops Timers_default in
  tm_armed t = ∅ /\ (length (tm_heap t) = 67)%nat /\ (2 * size (tm_armed t) + CANCELLED_SLACK < length (tm_heap t))%nat.
Proof. split; [by vm_compute|]. split; [by vm_compute|]. vm_compute. lia. Qed.
