(* ===== verification/Endpoint.v ===== *)
(** * Endpoint: a multiplexer's address as text (endpoint.rs)

    Text is its bytes; every character the code looks for is ASCII, so a search
    by byte finds what a search by character does.  The refusals are named
    after the text the code gives. *)
From S2P Require Import Prelude.
Open Scope Z_scope.

Definition OPEN : Z := 91.   (* [ *)
Definition CLOSE : Z := 93.  (* ] *)
Definition COLON : Z := 58.  (* : *)
Definition ZERO : Z := 48.   (* 0 *)

(** What [refuse] says of the text. *)
Inductive Why :=
| NoAddress
| NoCloseBracket
| BracketsHoldIpv6
| OnlyPortFollows
| BracketsAtStart
| Ipv6InBrackets
| NoPort
| NoPortAfterColon
| PortRange.

(** [str::find] and [str::contains] of one byte. *)
Fixpoint find (c : Z) (text : list Z) : option nat :=
  match text with
  | [] => None
  | x :: text => if x =? c then Some 0%nat else S <$> find c text
  end.

Definition contains (c : Z) (text : list Z) : bool :=
  match find c text with Some _ => true | None => false end.

(** The loop of [port_number] from [value] on. *)
Fixpoint port_loop (value : Z) (port : list Z) : result Z Why :=
  match port with
  | [] => Ok value
  | digit :: port =>
      if (ZERO <=? digit) && (digit <=? ZERO + 9) then
        let value := value * 10 + (digit - ZERO) in
        if 65535 <? value then Err PortRange else port_loop value port
      else Err PortRange
  end.

Definition port_number (port : list Z) : result Z Why :=
  match port with
  | [] => Err NoPortAfterColon
  | _ => port_loop 0 port
  end.

(** What follows the host: [colon] is the place before the port, or the text's
    length when there is none. *)
Definition with_port (text host : list Z) (colon : nat) (default_port : option Z) :
    result (list Z * Z) Why :=
  if (colon =? length text)%nat then
    match default_port with
    | Some port => Ok (host, port)
    | None => Err NoPort
    end
  else
    match port_number (drop (colon + 1) text) with
    | Ok port => Ok (host, port)
    | Err why => Err why
    end.

Definition parse_endpoint (text : list Z) (default_port : option Z) : result (list Z * Z) Why :=
  match text with
  | [] => Err NoAddress
  | c :: rest =>
      if c =? OPEN then
        match find CLOSE rest with
        | None => Err NoCloseBracket
        | Some close =>
            let host := take close rest in
            if negb (contains COLON host) || contains OPEN host then Err BracketsHoldIpv6
            else
              let colon := (close + 2)%nat in
              if (colon <? length text)%nat && negb (bool_decide (text !! colon = Some COLON))
              then Err OnlyPortFollows
              else with_port text host colon default_port
        end
      else if contains OPEN text || contains CLOSE text then Err BracketsAtStart
      else
        match find COLON text with
        | Some found =>
            if contains COLON (drop (found + 1) text) then Err Ipv6InBrackets
            else with_port text (take found text) found default_port
        | None => with_port text text (length text) default_port
        end
  end.

(** A number in decimal; a u16 has at most five digits. *)
Fixpoint digits (fuel : nat) (n : Z) : list Z :=
  match fuel with
  | O => []
  | S fuel => (if n <? 10 then [] else digits fuel (n / 10)) ++ [ZERO + n mod 10]
  end.
Definition show_u16 (port : Z) : list Z := digits 5 port.

Definition format_endpoint (host : list Z) (port : Z) : list Z :=
  if contains COLON host then [OPEN] ++ host ++ [CLOSE; COLON] ++ show_u16 port
  else host ++ [COLON] ++ show_u16 port.

(** ** Lemmas *)

Lemma find_app c l l' :
  find c (l ++ l') = match find c l with Some i => Some i | None => (fun i => (length l + i)%nat) <$> find c l' end.
Proof.
  induction l as [|x l IH]; simpl; [by destruct (find c l')|].
  destruct (x =? c); [done|]. rewrite IH. destruct (find c l); [done|]. by destruct (find c l').
Qed.

Lemma contains_app c l l' : contains c (l ++ l') = contains c l || contains c l'.
Proof. unfold contains. rewrite find_app. destruct (find c l); [done|]. by destruct (find c l'). Qed.

Lemma contains_cons c x l : contains c (x :: l) = (x =? c) || contains c l.
Proof. unfold contains. simpl. destruct (x =? c); [done|]. by destruct (find c l). Qed.

Lemma find_None c l : find c l = None <-> contains c l = false.
Proof. unfold contains. by destruct (find c l). Qed.

Lemma find_Some_split c l i :
  find c l = Some i -> l = take i l ++ c :: drop (i + 1) l /\ contains c (take i l) = false /\ (i < length l)%nat.
Proof.
  revert i. induction l as [|x l IH]; simpl; [done|]. intros i.
  destruct (Z.eqb_spec x c) as [->|Hne].
  - intros [= <-]. simpl. by split_and!; [|done|lia].
  - destruct (find c l) as [j|] eqn:Hf; [|done]. intros [= <-]. destruct (IH j eq_refl) as (H1 & H2 & H3).
    simpl. split; [by f_equal|]. rewrite contains_cons, H2. split; [|lia].
    destruct (Z.eqb_spec x c); done.
Qed.

(** A byte that is no decimal digit is not in a decimal number. *)
Lemma digits_contains c fuel n : 0 <= n -> (c < ZERO \/ ZERO + 9 < c) -> contains c (digits fuel n) = false.
Proof.
  intros Hn Hc. revert n Hn. induction fuel as [|fuel IH]; intros n Hn; [done|]. cbn [digits].
  rewrite contains_app. apply orb_false_iff. split.
  - destruct (n <? 10); [done|]. apply IH. apply Z.div_pos; lia.
  - rewrite contains_cons. pose proof (Z.mod_pos_bound n 10). destruct (Z.eqb_spec (ZERO + n mod 10) c); [lia|done].
Qed.

Lemma port_loop_app v l d :
  port_loop v (l ++ [d]) = match port_loop v l with Ok v' => port_loop v' [d] | Err e => Err e end.
Proof.
  revert v. induction l as [|x l IH]; intros v; [done|]. cbn [port_loop app].
  destruct (_ && _); [|done]. destruct (65535 <? _); [done|]. apply IH.
Qed.

Lemma port_loop_digits fuel n :
  0 <= n <= 65535 -> n < 10 ^ Z.of_nat fuel -> (0 < fuel)%nat -> port_loop 0 (digits fuel n) = Ok n.
Proof.
  revert n. induction fuel as [|fuel IH]; intros n Hn Hf Hpos; [lia|]. cbn [digits].
  rewrite Nat2Z.inj_succ, Z.pow_succ_r in Hf by lia.
  pose proof (Z.mod_pos_bound n 10 ltac:(lia)). pose proof (Z.div_mod n 10 ltac:(lia)) as Hdm.
  assert (forall v, v = n / 10 -> port_loop v [ZERO + n mod 10] = Ok n) as Hlast.
  { intros v ->. cbn [port_loop].
    destruct (Z.leb_spec ZERO (ZERO + n mod 10)), (Z.leb_spec (ZERO + n mod 10) (ZERO + 9)); try lia. cbn [andb].
    replace (n / 10 * 10 + (ZERO + n mod 10 - ZERO)) with n by lia.
    destruct (Z.ltb_spec 65535 n); [lia|done]. }
  rewrite port_loop_app. destruct (Z.ltb_spec n 10).
  - apply Hlast. symmetry. apply Z.div_small. lia.
  - rewrite IH; [by apply Hlast| | |].
    + split; [apply Z.div_pos; lia|]. lia.
    + apply Z.div_lt_upper_bound; lia.
    + destruct fuel; [simpl in Hf; lia|lia].
Qed.

Lemma digits_nonempty n : digits 5 n <> [].
Proof. cbn [digits]. intros H%app_eq_nil. by destruct H. Qed.

Lemma port_number_show p : 0 <= p <= 65535 -> port_number (show_u16 p) = Ok p.
Proof.
  intros Hp. unfold port_number, show_u16. pose proof (digits_nonempty p).
  destruct (digits 5 p) eqn:Hd; [done|]. rewrite <- Hd. apply port_loop_digits; [done| |lia].
  simpl. lia.
Qed.

Lemma port_loop_range v l p : 0 <= v <= 65535 -> port_loop v l = Ok p -> 0 <= p <= 65535.
Proof.
  revert v. induction l as [|d l IH]; intros v Hv; cbn [port_loop]; [intros [= <-]; done|].
  destruct (Z.leb_spec ZERO d), (Z.leb_spec d (ZERO + 9)); cbn [andb]; try done.
  destruct (Z.ltb_spec 65535 (v * 10 + (d - ZERO))); [done|]. apply IH. lia.
Qed.

Lemma with_port_Ok text host colon d h p :
  with_port text host colon d = Ok (h, p) -> h = host /\ (d = Some p \/ 0 <= p <= 65535).
Proof.
  unfold with_port. destruct (_ =? _)%nat; [destruct d; intros [= <- <-]; auto|].
  destruct (port_number _) as [p'|] eqn:Hp; [|done]. intros [= <- <-]. split; [done|]. right.
  unfold port_number in Hp. destruct (drop _ _); [done|]. apply (port_loop_range 0) in Hp; [done|lia].
Qed.

Lemma contains_false_cons c x l : contains c (x :: l) = false <-> x <> c /\ contains c l = false.
Proof. rewrite contains_cons, orb_false_iff, Z.eqb_neq. done. Qed.

Lemma parse_format_ipv6 host p d :
  contains COLON host = true -> contains OPEN host = false -> contains CLOSE host = false -> 0 <= p <= 65535 ->
  parse_endpoint ([OPEN] ++ host ++ [CLOSE; COLON] ++ show_u16 p) d = Ok (host, p).
Proof.
  intros Hc Ho Hcl Hp. apply find_None in Hcl.
  assert (([OPEN] ++ host ++ [CLOSE; COLON] ++ show_u16 p) =
          ([OPEN] ++ host ++ [CLOSE]) ++ COLON :: show_u16 p) as Hsplit by (by rewrite <- !app_assoc).
  assert (length ([OPEN] ++ host ++ [CLOSE]) = length host + 2)%nat as Hlen
    by (rewrite !length_app; simpl; lia).
  assert (([OPEN] ++ host ++ [CLOSE; COLON] ++ show_u16 p) !! (length host + 2)%nat = Some COLON) as Hl.
  { rewrite Hsplit, <- Hlen. apply list_lookup_middle. done. }
  assert (drop (length host + 2 + 1) ([OPEN] ++ host ++ [CLOSE; COLON] ++ show_u16 p) = show_u16 p) as Hd.
  { rewrite Hsplit, <- Hlen. by rewrite drop_app_add. }
  set (text := [OPEN] ++ host ++ [CLOSE; COLON] ++ show_u16 p) in *.
  assert (length host + 2 <> length text)%nat as Hne by (apply lookup_lt_Some in Hl; lia).
  unfold parse_endpoint. unfold text at 1. cbn [app]. rewrite Z.eqb_refl.
  rewrite find_app, Hcl. cbn [find]. rewrite Z.eqb_refl. cbn [fmap option_fmap option_map].
  rewrite Nat.add_0_r, take_app_length, Hc, Ho. cbn [negb orb].
  change (OPEN :: host ++ CLOSE :: COLON :: show_u16 p) with text.
  rewrite Hl, bool_decide_true, andb_false_r by done.
  unfold with_port. by rewrite (proj2 (Nat.eqb_neq _ _) Hne), Hd, port_number_show.
Qed.

Lemma parse_format_host host p d :
  contains COLON host = false -> contains OPEN host = false -> contains CLOSE host = false -> 0 <= p <= 65535 ->
  parse_endpoint (host ++ [COLON] ++ show_u16 p) d = Ok (host, p).
Proof.
  intros Hc Ho Hcl Hp. set (text := host ++ [COLON] ++ show_u16 p).
  assert (contains OPEN text = false /\ contains CLOSE text = false) as [Hto Htc].
  { unfold text. rewrite !contains_app, Ho, Hcl. unfold show_u16.
    rewrite !digits_contains by (lia || (vm_compute; auto)). done. }
  assert (find COLON text = Some (length host)) as Hf.
  { unfold text. rewrite find_app. apply find_None in Hc. rewrite Hc. simpl. by rewrite Nat.add_0_r. }
  assert (drop (length host + 1) text = show_u16 p) as Hd.
  { unfold text. by rewrite drop_app_add. }
  assert (length host <> length text) as Hl by (unfold text; rewrite length_app; simpl; lia).
  unfold parse_endpoint. destruct text as [|c rest] eqn:Ht; [done|].
  apply contains_false_cons in Hto as Hc0. destruct Hc0 as [Hc0 _].
  destruct (Z.eqb_spec c OPEN); [done|]. rewrite Hto, Htc, Hf, Hd. cbn [orb].
  unfold show_u16 at 1. rewrite digits_contains by (lia || (vm_compute; auto)).
  unfold with_port. rewrite (proj2 (Nat.eqb_neq _ _) Hl), Hd, port_number_show by done.
  do 2 f_equal. rewrite <- Ht. apply take_app_length.
Qed.

Lemma parse_format host p d :
  contains OPEN host = false -> contains CLOSE host = false -> 0 <= p <= 65535 ->
  parse_endpoint (format_endpoint host p) d = Ok (host, p).
Proof.
  intros. unfold format_endpoint. destruct (contains COLON host) eqn:Hc;
    auto using parse_format_ipv6, parse_format_host.
Qed.

Lemma parse_endpoint_host text d h p :
  parse_endpoint text d = Ok (h, p) -> contains OPEN h = false /\ contains CLOSE h = false /\ (d = Some p \/ 0 <= p <= 65535).
Proof.
  destruct text as [|c rest]; [done|]. cbn [parse_endpoint]. destruct (c =? OPEN).
  - destruct (find CLOSE rest) as [close|] eqn:Hf; [|done]. apply find_Some_split in Hf as (_ & Hcl & _).
    destruct (negb _ || contains OPEN _) eqn:Hb; [done|]. apply orb_false_iff in Hb as [_ Hb].
    destruct (_ && _); [done|]. intros [-> Hp]%with_port_Ok. done.
  - destruct (contains OPEN (c :: rest) || contains CLOSE (c :: rest)) eqn:Hb; [done|].
    apply orb_false_iff in Hb as [Ho Hcl].
    destruct (find COLON (c :: rest)) as [found|] eqn:Hf.
    + destruct (contains COLON _); [done|]. intros [-> Hp]%with_port_Ok.
      apply find_Some_split in Hf as (Hs & _ & _). rewrite Hs in Ho, Hcl.
      rewrite contains_app in Ho, Hcl. apply orb_false_iff in Ho as [? _], Hcl as [? _]. done.
    + intros [-> Hp]%with_port_Ok. done.
Qed.

(** ** Properties *)

(** What [format_endpoint] writes [parse_endpoint] reads back, whatever the
    default port: every host without brackets, an IPv6 address among them, and
    every port. *)
Theorem endpoint_roundtrip host port default_port :
  contains OPEN host = false -> contains CLOSE host = false -> 0 <= port <= 65535 ->
  parse_endpoint (format_endpoint host port) default_port = Ok (host, port).
Proof. apply parse_format. Qed.

(** An accepted text names an address: its port is a u16, its host has no
    brackets, and writing it out and reading it again gives the same address. *)
Theorem endpoint_canonical text default_port host port :
  match default_port with Some p => 0 <= p <= 65535 | None => True end ->
  parse_endpoint text default_port = Ok (host, port) ->
  0 <= port <= 65535 /\ contains OPEN host = false /\ contains CLOSE host = false /\
  parse_endpoint (format_endpoint host port) None = Ok (host, port).
Proof.
  intros Hd (Ho & Hcl & Hp)%parse_endpoint_host.
  assert (0 <= port <= 65535) by (destruct Hp as [-> |]; done). auto using parse_format.
Qed.

(** The text of an ASCII string, for the witnesses: [::1]:1980 and a:1. *)
Definition text_v6 : list Z := [91; 58; 58; 49; 93; 58; 49; 57; 56; 48].

Lemma endpoint_roundtrip_witness : parse_endpoint (format_endpoint [58; 58; 49] 1980) None = Ok ([58; 58; 49], 1980).
Proof. apply endpoint_roundtrip; [reflexivity|reflexivity|lia]. Defined.

Lemma endpoint_canonical_witness :
  0 <= 1980 <= 65535 /\ contains OPEN [58; 58; 49] = false /\ contains CLOSE [58; 58; 49] = false /\
  parse_endpoint (format_endpoint [58; 58; 49] 1980) None = Ok ([58; 58; 49], 1980).
Proof. apply (endpoint_canonical text_v6 (Some 80)); [lia|reflexivity]. Defined.
