(* ===== verification/IpAddr.v ===== *)
(** * IpAddr: addresses in text (the standard library's std::net, as client/connect.rs uses it)

    [target_of] (core/client/connect.rs) writes an address the way the standard
    library does, so that two spellings of one address are one target.  The
    parser and the printer of [IpAddr] are the standard library's: an address
    is its four octets or its eight segments.  [ip_roundtrip] shows that what is
    printed reads back, which makes [target_of] idempotent. *)
From S2P Require Import Prelude Endpoint.
Open Scope Z_scope.

Definition DOT : Z := 46.

Inductive IpAddr :=
| V4 (octets : list Z)
| V6 (segments : list Z).

(** A reader of a prefix: what it read and what is left; [None] reads nothing
    ([read_atomically]). *)
Definition reader (A : Type) : Type := list Z -> option (A * list Z).

(** [char::to_digit]. *)
Definition to_digit (radix c : Z) : option Z :=
  let digit := if (48 <=? c) && (c <=? 57) then c - 48
               else if (97 <=? c) && (c <=? 102) then c - 87
               else if (65 <=? c) && (c <=? 70) then c - 55
               else 99 in
  if digit <? radix then Some digit else None.

(** The digits from here on: their value from [value] on and how many. *)
Fixpoint read_digits (radix value : Z) (text : list Z) : Z * nat * list Z :=
  match text with
  | c :: rest =>
      match to_digit radix c with
      | Some digit =>
          let '(value, count, rest) := read_digits radix (value * radix + digit) rest in (value, S count, rest)
      | None => (value, O, text)
      end
  | [] => (value, O, [])
  end.

(** [read_number]: at most [max_digits] digits, the value within [bound]. *)
Definition read_number (radix : Z) (max_digits : nat) (allow_zero_prefix : bool) (bound : Z) : reader Z :=
  fun text =>
    let '(value, count, rest) := read_digits radix 0 text in
    if (max_digits <? count)%nat || (count =? 0)%nat then None
    else if negb allow_zero_prefix && bool_decide (head text = Some 48) && (1 <? count)%nat then None
    else if bound <? value then None
    else Some (value, rest).

Definition read_given_char (c : Z) (text : list Z) : option (list Z) :=
  match text with
  | x :: rest => if x =? c then Some rest else None
  | [] => None
  end.

(** [read_separator]: the separator before every piece but the first. *)
Definition read_separator {A} (sep : Z) (index : nat) (inner : reader A) : reader A :=
  fun text =>
    match index with
    | O => inner text
    | S _ => read_given_char sep text ≫= inner
    end.

Definition read_octet : reader Z := read_number 10 3 false 255.
Definition read_segment : reader Z := read_number 16 4 true 65535.

Definition read_ipv4_addr : reader (list Z) :=
  fun text =>
    '(a, text) ← read_separator DOT 0 read_octet text;
    '(b, text) ← read_separator DOT 1 read_octet text;
    '(c, text) ← read_separator DOT 2 read_octet text;
    '(d, text) ← read_separator DOT 3 read_octet text;
    Some ([a; b; c; d], text).

(** [read_groups]: up to [limit] groups from group [i] on, the last two perhaps
    as an IPv4 address. *)
Fixpoint read_groups (limit i : nat) (text : list Z) : list Z * bool * list Z :=
  match limit with
  | O => ([], false, text)
  | S left_ =>
      match (if (1 <=? left_)%nat then read_separator COLON i read_ipv4_addr text else None) with
      | Some ([one; two; three; four], rest) => ([one * 256 + two; three * 256 + four], true, rest)
      | _ =>
          match read_separator COLON i read_segment text with
          | Some (group, rest) => let '(groups, ipv4, rest) := read_groups left_ (S i) rest in (group :: groups, ipv4, rest)
          | None => ([], false, text)
          end
      end
  end.

Definition read_ipv6_addr : reader (list Z) :=
  fun text =>
    let '(head_, head_ipv4, rest) := read_groups 8 0 text in
    if (length head_ =? 8)%nat then Some (head_, rest)
    else if head_ipv4 : bool then None
    else
      rest ← read_given_char COLON rest;
      rest ← read_given_char COLON rest;
      let '(tail_, _, rest) := read_groups (8 - (length head_ + 1)) 0 rest in
      Some (head_ ++ replicate (8 - length head_ - length tail_) 0 ++ tail_, rest).

(** [str::parse::<IpAddr>]: the whole text, IPv4 first. *)
Definition parse_ip (text : list Z) : option IpAddr :=
  match (match read_ipv4_addr text with
         | Some (octets, rest) => Some (V4 octets, rest)
         | None => '(segments, rest) ← read_ipv6_addr text; Some (V6 segments, rest)
         end) with
  | Some (address, []) => Some address
  | _ => None
  end.

(** ** Printing *)

Fixpoint join (sep : list Z) (pieces : list (list Z)) : list Z :=
  match pieces with
  | [] => []
  | [piece] => piece
  | piece :: pieces => piece ++ sep ++ join sep pieces
  end.

Definition show_ipv4 (octets : list Z) : list Z := join [DOT] (map (digits 3) octets).

(** [{:x}] of a u16. *)
Fixpoint hex_digits (fuel : nat) (n : Z) : list Z :=
  match fuel with
  | O => []
  | S fuel => (if n <? 16 then [] else hex_digits fuel (n / 16))
              ++ [if n mod 16 <? 10 then 48 + n mod 16 else 87 + n mod 16]
  end.

(** [fmt_subslice]. *)
Definition show_segments (segments : list Z) : list Z := join [COLON] (map (hex_digits 4) segments).

(** The first of the longest runs of zeros: its start and its length. *)
Fixpoint longest_zeros (i : nat) (current longest : nat * nat) (segments : list Z) : nat * nat :=
  match segments with
  | [] => longest
  | segment :: segments =>
      if segment =? 0 then
        let current := (if (current.2 =? 0)%nat then i else current.1, S current.2) in
        longest_zeros (S i) current (if (longest.2 <? current.2)%nat then current else longest) segments
      else longest_zeros (S i) (O, O) longest segments
  end.

Definition show_ipv6 (segments : list Z) : list Z :=
  if bool_decide (take 6 segments = [0; 0; 0; 0; 0; 65535]) then
    [COLON; COLON; 102; 102; 102; 102; COLON]
    ++ show_ipv4 (concat (map (fun s => [s / 256; s mod 256]) (drop 6 segments)))
  else
    let '(start, len) := longest_zeros 0 (O, O) (O, O) segments in
    if (1 <? len)%nat then
      show_segments (take start segments) ++ [COLON; COLON] ++ show_segments (drop (start + len) segments)
    else show_segments segments.

Definition show_ip (address : IpAddr) : list Z :=
  match address with
  | V4 octets => show_ipv4 octets
  | V6 segments => show_ipv6 segments
  end.

(** The octets of an address. *)
Definition octets_of (address : IpAddr) : list Z :=
  match address with
  | V4 octets => octets
  | V6 segments => concat (map (fun s => [s / 256; s mod 256]) segments)
  end.

(** [target_of] (core/client/connect.rs). *)
Definition target_of (host : list Z) (port : Z) : list Z * Z :=
  match parse_ip host with
  | Some address => (show_ip address, port)
  | None => (host, port)
  end.

(** What the standard library's types hold. *)
Definition ip_ok (address : IpAddr) : Prop :=
  match address with
  | V4 octets => length octets = 4%nat /\ Forall (fun o => 0 <= o < 256) octets
  | V6 segments => length segments = 8%nat /\ Forall (fun s => 0 <= s < 65536) segments
  end.

(** ** Numbers *)

(** What a list of digits is worth. *)
Definition digits_value (radix : Z) (ds : list Z) : Z :=
  foldl (fun v c => v * radix + default 0 (to_digit radix c)) 0 ds.

(** What follows a number: nothing, or no digit. *)
Definition stops (radix : Z) (rest : list Z) : bool :=
  match rest with [] => true | c :: _ => bool_decide (to_digit radix c = None) end.

Definition all_digits (radix : Z) (ds : list Z) : bool := forallb (fun c => bool_decide (is_Some (to_digit radix c))) ds.

Lemma read_digits_app radix v ds rest :
  all_digits radix ds = true -> stops radix rest = true ->
  read_digits radix v (ds ++ rest)
  = (foldl (fun v c => v * radix + default 0 (to_digit radix c)) v ds, length ds, rest).
Proof.
  intros Hd Hs. revert v. induction ds as [|c ds IH]; intros v; cbn [app foldl length].
  - destruct rest as [|c rest]; [done|]. apply bool_decide_eq_true in Hs. cbn [read_digits]. by rewrite Hs.
  - cbn [all_digits forallb] in Hd. apply andb_true_iff in Hd as [[d Hc]%bool_decide_eq_true Hd].
    cbn [read_digits]. rewrite Hc, IH by done. done.
Qed.

(** A text that reads as the number [n]. *)
Definition reads_as (radix : Z) (max_digits : nat) (zeros : bool) (n : Z) (ds : list Z) : bool :=
  all_digits radix ds && (digits_value radix ds =? n) && (length ds <=? max_digits)%nat && (1 <=? length ds)%nat
  && (zeros || negb (bool_decide (head ds = Some 48)) || (length ds =? 1)%nat).

Lemma read_number_app radix max_digits zeros bound n ds rest :
  reads_as radix max_digits zeros n ds = true -> n <= bound -> stops radix rest = true ->
  read_number radix max_digits zeros bound (ds ++ rest) = Some (n, rest).
Proof.
  unfold reads_as. rewrite !andb_true_iff, Z.eqb_eq, !Nat.leb_le. intros ((((Hd & Hv) & Hl) & H1) & Hz) Hn Hs.
  unfold read_number. rewrite read_digits_app by done. fold (digits_value radix ds). rewrite Hv.
  replace (max_digits <? length ds)%nat with false by (symmetry; apply Nat.ltb_ge; lia).
  replace (length ds =? 0)%nat with false by (symmetry; apply Nat.eqb_neq; lia). cbn [orb].
  replace (bound <? n) with false by (symmetry; apply Z.ltb_ge; lia).
  destruct ds as [|c ds]; [simpl in H1; lia|]. cbn [app head] in *.
  destruct zeros; [done|]. cbn [negb andb orb] in *. destruct (bool_decide (Some c = Some 48)); [|done].
  cbn [negb orb] in Hz. apply Nat.eqb_eq in Hz. by rewrite Hz.
Qed.

Lemma octets_read n : 0 <= n < 256 -> reads_as 10 3 false n (digits 3 n) = true.
Proof.
  intros Hn. assert (H : forallb (fun n => reads_as 10 3 false n (digits 3 n)) (seqZ 0 256) = true) by (vm_compute; done).
  rewrite forallb_forall in H. apply H, list_elem_of_In, elem_of_seqZ. lia.
Qed.

Lemma segments_read n : 0 <= n < 65536 -> reads_as 16 4 true n (hex_digits 4 n) = true.
Proof.
  intros Hn.
  assert (H : forallb (fun h => forallb (fun l => reads_as 16 4 true (256 * h + l) (hex_digits 4 (256 * h + l)))
                (seqZ 0 256)) (seqZ 0 256) = true) by (vm_compute; reflexivity).
  rewrite forallb_forall in H. specialize (H (n / 256)). rewrite forallb_forall in H.
  rewrite (Z.div_mod n 256) by lia.
  apply H; apply list_elem_of_In, elem_of_seqZ; [|pose proof (Z.mod_pos_bound n 256); lia].
  split; [apply Z.div_pos; lia | apply Z.div_lt_upper_bound; lia].
Qed.

Lemma reads_as_digits radix max zeros n ds : reads_as radix max zeros n ds = true -> all_digits radix ds = true.
Proof. unfold reads_as. rewrite !andb_true_iff. tauto. Qed.

Lemma read_octet_app n rest : 0 <= n < 256 -> stops 10 rest = true -> read_octet (digits 3 n ++ rest) = Some (n, rest).
Proof. intros. apply read_number_app; [by apply octets_read | lia | done]. Qed.

Lemma read_segment_app n rest :
  0 <= n < 65536 -> stops 16 rest = true -> read_segment (hex_digits 4 n ++ rest) = Some (n, rest).
Proof. intros. apply read_number_app; [by apply segments_read | lia | done]. Qed.

Lemma read_ipv4_app a b c d rest :
  Forall (fun o => 0 <= o < 256) [a; b; c; d] -> stops 10 rest = true ->
  read_ipv4_addr (show_ipv4 [a; b; c; d] ++ rest) = Some ([a; b; c; d], rest).
Proof.
  intros Ho Hs. rewrite !Forall_cons in Ho. destruct Ho as (Ha & Hb & Hc & Hd & _). unfold show_ipv4, read_ipv4_addr, read_separator. cbn [map join].
  rewrite <- !app_assoc. cbn [app].
  do 3 (rewrite read_octet_app by (lia || reflexivity); cbn [mbind option_bind read_given_char];
    rewrite Z.eqb_refl; cbn [mbind option_bind]).
  rewrite read_octet_app by (lia || done). done.
Qed.

(** ** A group of an IPv6 address is no IPv4 address *)

Lemma read_digits_no_dot radix v ds rest value count left_ :
  DOT ∉ ds -> stops radix rest = true -> head rest <> Some DOT ->
  read_digits radix v (ds ++ rest) = (value, count, left_) -> head left_ <> Some DOT.
Proof.
  revert v value count. induction ds as [|c ds IH]; intros v value count Hd Hs Hh; cbn [app].
  - destruct rest as [|c rest]; cbn [read_digits]; [by intros [= _ _ <-]|]. apply bool_decide_eq_true in Hs. rewrite Hs.
    by intros [= _ _ <-].
  - apply not_elem_of_cons in Hd as [Hc Hd]. cbn [read_digits]. destruct (to_digit radix c) as [digit|].
    + destruct (read_digits radix _ (ds ++ rest)) as [[value' count'] left'] eqn:E. intros [= _ _ <-]. by eapply IH.
    + intros [= _ _ <-]. simpl. congruence.
Qed.

Lemma read_given_char_None c rest : head rest <> Some c -> read_given_char c rest = None.
Proof. destruct rest as [|x rest]; [done|]. simpl. intros H. by destruct (Z.eqb_spec x c); [subst|]. Qed.

Lemma read_ipv4_none ds rest :
  DOT ∉ ds -> stops 10 rest = true -> head rest <> Some DOT -> read_ipv4_addr (ds ++ rest) = None.
Proof.
  intros Hd Hs Hh. unfold read_ipv4_addr, read_separator.
  destruct (read_octet (ds ++ rest)) as [[a left_]|] eqn:E; [|done].
  assert (head left_ <> Some DOT).
  { unfold read_octet, read_number in E. destruct (read_digits 10 0 (ds ++ rest)) as [[value count] left'] eqn:E'.
    repeat case_match; simplify_eq. by eapply read_digits_no_dot. }
  cbn [mbind option_bind]. by rewrite read_given_char_None.
Qed.

Lemma hex_no_dot n : 0 <= n < 65536 -> DOT ∉ hex_digits 4 n.
Proof.
  intros Hn Hin. pose proof (reads_as_digits _ _ _ _ _ (segments_read n Hn)) as H.
  unfold all_digits in H. rewrite forallb_forall in H. specialize (H DOT (proj1 (list_elem_of_In _ _) Hin)). done.
Qed.

(** ** Groups *)

(** What follows the groups of one side: nothing, or the two colons. *)
Definition ends (rest : list Z) : Prop := rest = [] \/ exists r, rest = COLON :: COLON :: r.

(** The groups from group [i] on, as they are read: separated from what was before. *)
Definition groups_text (i : nat) (segments : list Z) : list Z :=
  match i, segments with
  | S _, _ :: _ => COLON :: show_segments segments
  | _, _ => show_segments segments
  end.

Lemma show_segments_cons i s segments :
  show_segments (s :: segments) = hex_digits 4 s ++ groups_text (S i) segments.
Proof. unfold show_segments. destruct segments; simpl; by rewrite ?app_nil_r. Qed.

Lemma after_group i segments rest :
  ends rest ->
  let text := groups_text (S i) segments ++ rest in
  stops 10 text = true /\ stops 16 text = true /\ head text <> Some DOT.
Proof.
  intros [->|[r ->]]; destruct segments; simpl; done.
Qed.

Lemma colon_reads_nothing r : read_ipv4_addr (COLON :: r) = None /\ read_segment (COLON :: r) = None.
Proof. done. Qed.

Lemma read_groups_end limit i rest : ends rest -> read_groups limit i rest = ([], false, rest).
Proof.
  intros Hr. destruct limit as [|left_]; [done|]. cbn [read_groups].
  assert (Hnone : read_separator COLON i read_ipv4_addr rest = None /\ read_separator COLON i read_segment rest = None).
  { destruct Hr as [->|[r ->]]; destruct i; cbn [read_separator read_given_char]; rewrite ?Z.eqb_refl; done. }
  destruct Hnone as [-> ->]. by destruct (1 <=? left_)%nat.
Qed.

Lemma read_groups_segment left_ i text group rest :
  read_separator COLON i read_ipv4_addr text = None -> read_separator COLON i read_segment text = Some (group, rest) ->
  read_groups (S left_) i text
  = let '(groups, ipv4, rest) := read_groups left_ (S i) rest in (group :: groups, ipv4, rest).
Proof. intros H1 H2. cbn [read_groups]. rewrite H1, H2. by destruct (1 <=? left_)%nat. Qed.

Lemma read_groups_v4 left_ i text a b c d rest :
  read_separator COLON i read_ipv4_addr text = Some ([a; b; c; d], rest) ->
  read_groups (S (S left_)) i text = ([a * 256 + b; c * 256 + d], true, rest).
Proof. intros H. cbn [read_groups Nat.leb]. by rewrite H. Qed.

Lemma read_groups_show segments limit i rest :
  Forall (fun s => 0 <= s < 65536) segments -> (length segments <= limit)%nat -> ends rest ->
  read_groups limit i (groups_text i segments ++ rest) = (segments, false, rest).
Proof.
  intros Hs. revert limit i. induction Hs as [|s segments Hs Hss IH]; intros limit i Hl Hr.
  { replace (groups_text i [] ++ rest) with rest by (by destruct i). by apply read_groups_end. }
  destruct limit as [|left_]; [simpl in Hl; lia|]. simpl in Hl.
  destruct (after_group i segments rest Hr) as (H10 & H16 & Hdot).
  assert (Hsep : forall A (inner : reader A), read_separator COLON i inner (groups_text i (s :: segments) ++ rest)
                 = inner (hex_digits 4 s ++ groups_text (S i) segments ++ rest)).
  { intros A inner. destruct i as [|i]; cbn [groups_text read_separator].
    - by rewrite (show_segments_cons 0), <- app_assoc.
    - rewrite (show_segments_cons (S i)). cbn [app read_given_char]. rewrite Z.eqb_refl, <- app_assoc. done. }
  erewrite read_groups_segment; rewrite ?Hsep; [|by apply read_ipv4_none; [apply hex_no_dot| |]|by apply read_segment_app].
  by rewrite IH by (done || lia).
Qed.

(** ** The run of zeros left out *)

(** A run of zeros within the first [i] segments. *)
Definition zeros_at (segments : list Z) (i : nat) (span : nat * nat) : Prop :=
  (span.1 + span.2 <= i)%nat /\ forall k, (span.1 <= k < span.1 + span.2)%nat -> segments !! k = Some 0.

Lemma longest_zeros_spec segments i current longest rest :
  drop i segments = rest ->
  zeros_at segments i current -> (current.2 <> 0 -> current.1 + current.2 = i)%nat -> zeros_at segments i longest ->
  (i <= length segments)%nat ->
  zeros_at segments (length segments) (longest_zeros i current longest rest).
Proof.
  revert i current longest. induction rest as [|s rest IH]; intros i current longest Hd Hc Hi Hl Hle.
  { split; [|apply Hl]. destruct Hl as [Hl _]. simpl. lia. }
  assert (Hs : segments !! i = Some s) by (rewrite <- (Nat.add_0_r i), <- lookup_drop, Hd; done).
  assert (Hlt : (i < length segments)%nat) by (by eapply lookup_lt_Some).
  assert (Hd' : drop (S i) segments = rest) by (by rewrite (drop_S _ _ _ Hs) in Hd; injection Hd as ->).
  assert (Hup : forall sp, zeros_at segments i sp -> zeros_at segments (S i) sp) by (intros sp [? ?]; split; [lia|done]).
  cbn [longest_zeros]. destruct (Z.eqb_spec s 0) as [->|Hne].
  2:{ apply IH; [done|split; simpl; lia|done|by apply Hup|lia]. }
  set (current' := (_, _)).
  assert (Hc' : zeros_at segments (S i) current' /\ (current'.1 + current'.2 = S i)%nat).
  { unfold current', zeros_at in *. cbn [fst snd]. destruct (Nat.eqb_spec (current.2) 0) as [H0|H0].
    - rewrite H0. split; [split; [lia|]|lia]. intros k Hk. by assert (k = i) as -> by lia.
    - specialize (Hi H0). destruct Hc as [Hc1 Hc2]. split; [split; [lia|]|lia]. intros k Hk.
      destruct (decide (k = i)) as [->|]; [done|]. apply Hc2. lia. }
  destruct Hc' as [Hc1 Hc2]. apply IH; [done|done|done| |lia]. case_match; [done|by apply Hup].
Qed.

Lemma zeros_split segments start len :
  zeros_at segments (length segments) (start, len) ->
  segments = take start segments ++ replicate len 0 ++ drop (start + len) segments.
Proof.
  intros [Hle Hz]. cbn [fst snd] in *. rewrite <- (take_drop start segments) at 1. f_equal.
  rewrite <- (take_drop len (drop start segments)) at 1. rewrite drop_drop. f_equal.
  apply list_eq. intros k. destruct (decide (k < len)%nat).
  - rewrite lookup_take_lt, lookup_drop by lia. rewrite lookup_replicate_2 by lia. apply Hz. lia.
  - rewrite lookup_take_ge by lia. symmetry. apply lookup_replicate_None. lia.
Qed.

(** ** Reading back what was printed *)

Lemma two_colons {A} (f : list Z -> option A) r :
  (read_given_char COLON (COLON :: COLON :: r) ≫= fun rest => read_given_char COLON rest ≫= f) = f r.
Proof. done. Qed.

Lemma read_ipv6_compressed head_ tail_ :
  Forall (fun s => 0 <= s < 65536) head_ -> Forall (fun s => 0 <= s < 65536) tail_ ->
  (length head_ + length tail_ <= 6)%nat ->
  read_ipv6_addr (show_segments head_ ++ [COLON; COLON] ++ show_segments tail_)
  = Some (head_ ++ replicate (8 - length head_ - length tail_) 0 ++ tail_, []).
Proof.
  intros Hh Ht Hl. unfold read_ipv6_addr.
  change (show_segments head_) with (groups_text 0 head_).
  rewrite read_groups_show; [|done|lia|right; eexists; done].
  replace (length head_ =? 8)%nat with false by (symmetry; apply Nat.eqb_neq; lia).
  cbn [app]. rewrite two_colons.
  rewrite <- (app_nil_r (show_segments tail_)). change (show_segments tail_) with (groups_text 0 tail_).
  rewrite read_groups_show; [done|done|lia|by left].
Qed.

Lemma read_ipv6_full segments :
  Forall (fun s => 0 <= s < 65536) segments -> length segments = 8%nat ->
  read_ipv6_addr (show_segments segments) = Some (segments, []).
Proof.
  intros Hs Hl. unfold read_ipv6_addr. rewrite <- (app_nil_r (show_segments segments)).
  change (show_segments segments) with (groups_text 0 segments).
  rewrite read_groups_show; [|done|lia|by left]. by rewrite Hl.
Qed.

Lemma read_ipv6_mapped ab cd :
  0 <= ab < 65536 -> 0 <= cd < 65536 ->
  read_ipv6_addr ([COLON; COLON; 102; 102; 102; 102; COLON] ++ show_ipv4 [ab / 256; ab mod 256; cd / 256; cd mod 256])
  = Some ([0; 0; 0; 0; 0; 65535; ab; cd], []).
Proof.
  intros Hab Hcd.
  assert (Ho : Forall (fun o => 0 <= o < 256) [ab / 256; ab mod 256; cd / 256; cd mod 256]).
  { repeat constructor; try apply Z.div_pos; try apply Z.div_lt_upper_bound; try lia;
      apply Z.mod_pos_bound; lia. }
  set (v4 := show_ipv4 _). unfold read_ipv6_addr. rewrite read_groups_end by (right; eexists; done).
  cbn [length Nat.eqb app Nat.add Nat.sub]. rewrite two_colons.
  assert (Hffff : forall rest, stops 16 rest = true -> stops 10 rest = true -> head rest <> Some DOT ->
            read_ipv4_addr (102 :: 102 :: 102 :: 102 :: rest) = None
            /\ read_segment (102 :: 102 :: 102 :: 102 :: rest) = Some (65535, rest)).
  { intros rest H16 H10 Hdot. change (102 :: 102 :: 102 :: 102 :: rest) with (hex_digits 4 65535 ++ rest).
    split; [apply read_ipv4_none; [apply hex_no_dot; lia|done|done] | by apply read_segment_app]. }
  destruct (Hffff (COLON :: v4)) as [H1 H2]; [done|done|done|].
  rewrite (read_groups_segment 6 0 _ _ _ H1 H2).
  erewrite read_groups_v4; [|cbn [read_separator read_given_char]; rewrite Z.eqb_refl; cbn [mbind option_bind];
    unfold v4; rewrite <- (app_nil_r (show_ipv4 _)); by apply read_ipv4_app].
  cbn [length Nat.sub replicate app]. rewrite <- !(Z.mul_comm 256), <- !Z.div_mod by lia. done.
Qed.

Lemma read_ipv4_group s segments rest :
  0 <= s < 65536 -> ends rest -> read_ipv4_addr (show_segments (s :: segments) ++ rest) = None.
Proof.
  intros Hs Hr. rewrite (show_segments_cons 0), <- app_assoc.
  destruct (after_group 0 segments rest Hr) as (H10 & _ & Hdot). apply read_ipv4_none; [by apply hex_no_dot|done|done].
Qed.

Lemma show_ipv6_reads segments :
  ip_ok (V6 segments) ->
  read_ipv4_addr (show_ipv6 segments) = None /\ read_ipv6_addr (show_ipv6 segments) = Some (segments, []).
Proof.
  intros [Hl Hs]. unfold show_ipv6. case_bool_decide as Hm.
  { rewrite <- (take_drop 6 segments), Hm in Hl, Hs. rewrite <- (take_drop 6 segments) at 3. rewrite Hm.
    rewrite length_app in Hl. destruct (drop 6 segments) as [|ab [|cd [|]]]; simpl in Hl; try lia.
    apply Forall_app in Hs as [_ Hs]. rewrite !Forall_cons in Hs. destruct Hs as (Hab & Hcd & _).
    split; [done|]. by apply read_ipv6_mapped. }
  destruct (longest_zeros 0 (0%nat, 0%nat) (0%nat, 0%nat) segments) as [start len] eqn:E.
  assert (Hz : zeros_at segments (length segments) (start, len)).
  { rewrite <- E. apply longest_zeros_spec; simpl; try done; try lia; split; simpl; lia. }
  pose proof (zeros_split _ _ _ Hz) as Hsplit. destruct Hz as [Hle _]. cbn [fst snd] in Hle.
  destruct (Nat.ltb_spec 1 len) as [Hlen|_].
  - split.
    + destruct (take start segments) as [|s l] eqn:Et; [done|].
      apply read_ipv4_group; [|right; eexists; done]. apply (Forall_take _ start) in Hs. rewrite Et in Hs. by apply Forall_cons in Hs as [? _].
    + rewrite read_ipv6_compressed; [|by apply Forall_take|by apply Forall_drop|rewrite length_take, length_drop; lia].
      rewrite length_take, length_drop.
      replace (8 - start `min` length segments - (length segments - (start + len)))%nat with len by lia.
      by rewrite <- Hsplit.
  - split; [|by apply read_ipv6_full]. destruct segments as [|s l]; [done|]. apply Forall_cons in Hs as [Hs _].
    rewrite <- (app_nil_r (show_segments _)). apply read_ipv4_group; [done|by left].
Qed.

Lemma ip_roundtrip address : ip_ok address -> parse_ip (show_ip address) = Some address.
Proof.
  destruct address as [octets|segments]; intros Hok; unfold parse_ip; cbn [show_ip].
  - destruct Hok as [Hl Ho]. destruct octets as [|a [|b [|c [|d [|]]]]]; try done.
    rewrite <- (app_nil_r (show_ipv4 _)). by rewrite read_ipv4_app.
  - destruct (show_ipv6_reads segments Hok) as [-> ->]. done.
Qed.

(** ** What is read is an address *)

Lemma read_digits_nonneg radix v text : 0 <= radix -> 0 <= v -> 0 <= (read_digits radix v text).1.1.
Proof.
  intros Hr. revert v. induction text as [|c text IH]; intros v Hv; [done|]. cbn [read_digits].
  destruct (to_digit radix c) as [digit|] eqn:E; [|done].
  assert (0 <= digit) by (unfold to_digit in E; repeat case_match; simplify_eq; lia).
  specialize (IH (v * radix + digit)). destruct (read_digits _ _ text) as [[? ?] ?]. cbn [fst] in *. apply IH. nia.
Qed.

Lemma read_number_range radix max zeros bound text n rest :
  0 <= radix -> read_number radix max zeros bound text = Some (n, rest) -> 0 <= n <= bound.
Proof.
  intros Hr. unfold read_number. pose proof (read_digits_nonneg radix 0 text Hr ltac:(lia)) as Hn.
  destruct (read_digits radix 0 text) as [[value count] left_]. cbn [fst] in Hn.
  destruct (_ || _); [done|]. destruct (_ && _); [done|]. destruct (Z.ltb_spec bound value); [done|].
  intros [= <- _]. lia.
Qed.

Lemma read_separator_inv {A} sep i (inner : reader A) text r :
  read_separator sep i inner text = Some r -> exists text', inner text' = Some r.
Proof.
  destruct i; cbn [read_separator]; [by eauto|]. destruct (read_given_char sep text) as [text'|]; [|done].
  cbn [mbind option_bind]. eauto.
Qed.

Lemma read_ipv4_ok text octets rest :
  read_ipv4_addr text = Some (octets, rest) -> ip_ok (V4 octets).
Proof.
  unfold read_ipv4_addr. intros H.
  assert (Ho : forall i t (r : Z * list Z), read_separator DOT i read_octet t = Some r -> 0 <= r.1 < 256).
  { intros i t [n rest'] [t' Hr]%read_separator_inv. apply read_number_range in Hr; simpl; lia. }
  repeat match type of H with
  | (read_separator DOT ?i read_octet ?t ≫= _) = _ =>
      let r := fresh "r" in let E := fresh "E" in
      destruct (read_separator DOT i read_octet t) as [r|] eqn:E; cbn [mbind option_bind] in H; [|discriminate H];
      apply Ho in E; destruct r; cbn [fst] in E
  end.
  injection H as <- _. split; [done|]. repeat constructor; lia.
Qed.

Lemma read_groups_ok limit i text groups ipv4 rest :
  read_groups limit i text = (groups, ipv4, rest) ->
  (length groups <= limit)%nat /\ Forall (fun s => 0 <= s < 65536) groups.
Proof.
  revert i text groups ipv4 rest. induction limit as [|left_ IH]; intros i text groups ipv4 rest; cbn [read_groups].
  { intros [= <- _ _]. split; [done|constructor]. }
  destruct (if (1 <=? left_)%nat then _ else None) as [[octets rest']|] eqn:E4.
  - destruct (Nat.leb_spec 1 left_); [|done]. apply read_separator_inv in E4 as [t' [Hl Ho]%read_ipv4_ok].
    destruct octets as [|a [|b [|c [|d [|]]]]]; try done. intros [= <- _ _].
    rewrite !Forall_cons in Ho. destruct Ho as (? & ? & ? & ? & _). split; [simpl; lia|]. repeat constructor; lia.
  - clear E4. destruct (read_separator COLON i read_segment text) as [[group rest']|] eqn:E.
    2:{ intros [= <- _ _]. split; [simpl; lia|constructor]. }
    apply read_separator_inv in E as [t' Hr]. apply read_number_range in Hr; [|lia].
    destruct (read_groups left_ (S i) rest') as [[groups' ipv4'] rest''] eqn:Eg. apply IH in Eg as [Hl Hf].
    intros [= <- _ _]. split; [simpl; lia|]. constructor; [lia|done].
Qed.

Lemma read_ipv6_ok text segments rest : read_ipv6_addr text = Some (segments, rest) -> ip_ok (V6 segments).
Proof.
  unfold read_ipv6_addr. destruct (read_groups 8 0 text) as [[head_ ipv4] rest'] eqn:Eh.
  apply read_groups_ok in Eh as [Hl Hf]. destruct (Nat.eqb_spec (length head_) 8); [by intros [= <- _]|].
  destruct ipv4; [done|].
  destruct (read_given_char COLON rest') as [rest2|]; [|done]. cbn [mbind option_bind].
  destruct (read_given_char COLON rest2) as [rest3|]; [|done]. cbn [mbind option_bind].
  destruct (read_groups _ 0 rest3) as [[tail_ ipv4'] rest4] eqn:Et. apply read_groups_ok in Et as [Hl' Hf'].
  intros [= <- _]. split.
  - rewrite !length_app, length_replicate. lia.
  - rewrite !Forall_app. split_and!; [done| |done]. apply Forall_replicate. lia.
Qed.

Lemma parse_ip_ok text address : parse_ip text = Some address -> ip_ok address.
Proof.
  unfold parse_ip. destruct (read_ipv4_addr text) as [[octets rest]|] eqn:E4.
  - apply read_ipv4_ok in E4. destruct rest; [by intros [= <-]|done].
  - destruct (read_ipv6_addr text) as [[segments rest]|] eqn:E6; [|done]. apply read_ipv6_ok in E6.
    cbn [mbind option_bind]. destruct rest; [by intros [= <-]|done].
Qed.

(** A target is one address or one name: the target of a target's own text is itself, so a reconnect finds the
    connection it replaces; two spellings have one target exactly when they are of one address. *)
Theorem target_canonical (host host' : list Z) (port : Z) :
  target_of (target_of host port).1 port = target_of host port
  /\ match parse_ip host, parse_ip host' with
     | Some address, Some address' => target_of host port = target_of host' port <-> address = address'
     | None, None => target_of host port = target_of host' port <-> host = host'
     | _, _ => target_of host port <> target_of host' port
     end.
Proof.
  assert (Hshow : forall text address, parse_ip text = Some address -> parse_ip (show_ip address) = Some address)
    by (intros text address H; by apply ip_roundtrip, (parse_ip_ok text)).
  unfold target_of. destruct (parse_ip host) as [a|] eqn:Ea; cbn [fst].
  - rewrite (Hshow _ _ Ea). split; [done|]. destruct (parse_ip host') as [a'|] eqn:Ea'.
    + split; [|by intros ->]. intros [= H]. apply Hshow in Ea, Ea'. congruence.
    + intros [= H]. apply Hshow in Ea. congruence.
  - rewrite Ea. split; [done|]. destruct (parse_ip host') as [a'|] eqn:Ea'.
    + intros [= H]. apply Hshow in Ea'. congruence.
    + split; [by intros [= H]|by intros ->].
Qed.
