(* ===== verification/LogSummary.v ===== *)
(** * LogSummary: the drop lines' counts (log_summary.rs)

    The first line of a kind is logged at once by the caller, the rest are
    counted, and [say] logs each count about once a second.  A [BTreeMap] is the
    list of its entries in the order of the keys.  What [say] logs is the list of
    its lines: the level, the kind's text or the shared count's, the number and
    the time it covers; whether the logger takes a level is a parameter. *)
From S2P Require Import Prelude.
Open Scope Z_scope.

Definition MAX_KINDS : nat := 256.

(** [log::Level]: Error is 1 and the least, Warn 2, up to Trace. *)
Definition LEVEL_WARN : Z := 2.

Record Kind := mkKind { k_reason : Z; k_level : Z; k_type : Z; k_peer : Z }.
#[export] Instance Kind_eq_dec : EqDecision Kind.
Proof. solve_decision. Defined.

(** The derived order: the fields in turn. *)
Definition kind_ltb (a b : Kind) : bool :=
  (k_reason a <? k_reason b) || ((k_reason a =? k_reason b) &&
    ((k_level a <? k_level b) || ((k_level a =? k_level b) &&
      ((k_type a <? k_type b) || ((k_type a =? k_type b) && (k_peer a <? k_peer b)))))).

Record Count := mkCount { c_text : list Z; c_more : Z; c_since : Z }.

Record LogSummary := mkLogSummary {
  ls_counts : list (Kind * Count);
  ls_other : Z;
  ls_other_level : option Z;
  ls_other_since : option Z;
}.

Definition LogSummary_default : LogSummary := mkLogSummary [] 0 None None.

(** A line [say] logs: of a kind, or of the kinds past the limit. *)
Inductive Line :=
| KindLine (level : Z) (text : list Z) (more elapsed : Z)
| OtherLine (level : Z) (more elapsed : Z).

Definition line_count (l : Line) : Z :=
  match l with KindLine _ _ more _ => more | OtherLine _ more _ => more end.

(** [BTreeMap::get_mut] with the count increased, if the kind is there. *)
Fixpoint counted (kind : Kind) (counts : list (Kind * Count)) : option (list (Kind * Count)) :=
  match counts with
  | [] => None
  | (k, c) :: counts =>
      if decide (k = kind) then Some ((k, mkCount (c_text c) (c_more c + 1) (c_since c)) :: counts)
      else (fun r => (k, c) :: r) <$> counted kind counts
  end.

(** [BTreeMap::insert] of a kind that is not there. *)
Fixpoint insert_kind (kind : Kind) (count : Count) (counts : list (Kind * Count)) : list (Kind * Count) :=
  match counts with
  | [] => [(kind, count)]
  | (k, c) :: rest =>
      if kind_ltb kind k then (kind, count) :: counts else (k, c) :: insert_kind kind count rest
  end.

Definition first_line (log_enabled : Z -> bool) (s : LogSummary) (kind : Kind) (make_text : list Z) (now : Z) :
    option bool * LogSummary :=
  if negb (log_enabled (k_level kind)) then (None, s)
  else
    match counted kind (ls_counts s) with
    | Some counts => (Some false, mkLogSummary counts (ls_other s) (ls_other_level s) (ls_other_since s))
    | None =>
        if (MAX_KINDS <=? length (ls_counts s))%nat then
          let since := if ls_other s =? 0 then Some now else ls_other_since s in
          let level := match ls_other_level s with Some l => Z.min l (k_level kind) | None => k_level kind end in
          (Some false, mkLogSummary (ls_counts s) (ls_other s + 1) (Some level) since)
        else
          (Some true, mkLogSummary (insert_kind kind (mkCount make_text 0 now) (ls_counts s))
             (ls_other s) (ls_other_level s) (ls_other_since s))
    end.

(** The closure of [retain]: what is kept of an entry, and what it logs. *)
Definition retain_count (forget : bool) (now : Z) (kc : Kind * Count) : option (Kind * Count) * list Line :=
  let '(kind, count) := kc in
  if 0 <? c_more count then
    (Some (kind, mkCount (c_text count) 0 now),
     [KindLine (k_level kind) (c_text count) (c_more count) (now - c_since count)])
  else (if forget then Some (kind, count) else None, []).

(** [BTreeMap::retain] over the entries in order. *)
Fixpoint retain (forget : bool) (now : Z) (counts : list (Kind * Count)) : list (Kind * Count) * list Line :=
  match counts with
  | [] => ([], [])
  | kc :: counts =>
      let '(kept, line) := retain_count forget now kc in
      let '(counts, lines) := retain forget now counts in
      (match kept with Some kc => kc :: counts | None => counts end, line ++ lines)
  end.

Definition say (s : LogSummary) (forget : bool) (now : Z) : bool * list Line * LogSummary :=
  let '(counts, lines) := retain forget now (ls_counts s) in
  let '(other, other_level, lines') :=
    if 0 <? ls_other s then
      (0, None, [OtherLine (default LEVEL_WARN (ls_other_level s)) (ls_other s)
                   (now - default now (ls_other_since s))])
    else (ls_other s, ls_other_level s, []) in
  let counts := if forget then [] else counts in
  (negb (bool_decide (counts = [])), lines ++ lines',
   mkLogSummary counts other other_level (ls_other_since s)).

(** ** Runs: the lines a client meets and the timer's ticks *)

Inductive LogEvent :=
| Meet (kind : Kind) (text : list Z) (now : Z)
| Tick (forget : bool) (now : Z).

(** The state, the lines logged at once, the lines met that the logger takes,
    and the lines [say] logged. *)
Record LogRun := mkLogRun { lr_state : LogSummary; lr_first : Z; lr_met : Z; lr_said : list Line }.

Definition log_step (log_enabled : Z -> bool) (r : LogRun) (e : LogEvent) : LogRun :=
  match e with
  | Meet kind text now =>
      let '(answer, s) := first_line log_enabled (lr_state r) kind text now in
      match answer with
      | None => mkLogRun s (lr_first r) (lr_met r) (lr_said r)
      | Some true => mkLogRun s (lr_first r + 1) (lr_met r + 1) (lr_said r)
      | Some false => mkLogRun s (lr_first r) (lr_met r + 1) (lr_said r)
      end
  | Tick forget now =>
      let '(_, lines, s) := say (lr_state r) forget now in
      mkLogRun s (lr_first r) (lr_met r) (lr_said r ++ lines)
  end.

Definition log_run (log_enabled : Z -> bool) (es : list LogEvent) : LogRun :=
  fold_left (log_step log_enabled) es (mkLogRun LogSummary_default 0 0 []).

(** ** Counting *)

Definition sum_more (counts : list (Kind * Count)) : Z :=
  foldr (fun kc acc => c_more kc.2 + acc) 0 counts.
Definition sum_lines (lines : list Line) : Z := foldr (fun l acc => line_count l + acc) 0 lines.

(** Lines counted and not said yet. *)
Definition unsaid (s : LogSummary) : Z := sum_more (ls_counts s) + ls_other s.

Record log_ok (s : LogSummary) : Prop := {
  lk_more : Forall (fun kc : Kind * Count => 0 <= c_more kc.2) (ls_counts s);
  lk_other : 0 <= ls_other s;
  lk_len : (length (ls_counts s) <= MAX_KINDS)%nat;
  lk_sorted : StronglySorted (fun a b => kind_ltb a b = true) (map fst (ls_counts s));
}.

Lemma kind_ltb_spec a b :
  kind_ltb a b = true <->
  k_reason a < k_reason b \/ (k_reason a = k_reason b /\
    (k_level a < k_level b \/ (k_level a = k_level b /\
      (k_type a < k_type b \/ (k_type a = k_type b /\ k_peer a < k_peer b))))).
Proof.
  unfold kind_ltb. rewrite !orb_true_iff, !andb_true_iff, !orb_true_iff, !andb_true_iff, !orb_true_iff,
    !andb_true_iff, !Z.ltb_lt, !Z.eqb_eq. done.
Qed.

Lemma kind_ltb_trans a b c : kind_ltb a b = true -> kind_ltb b c = true -> kind_ltb a c = true.
Proof. rewrite !kind_ltb_spec. lia. Qed.

Lemma kind_ltb_total a b : kind_ltb a b = false -> a <> b -> kind_ltb b a = true.
Proof.
  intros H Hne. apply kind_ltb_spec. destruct (decide (kind_ltb a b = true)) as [|Hn]; [congruence|].
  rewrite kind_ltb_spec in Hn. destruct a as [a1 a2 a3 a4], b as [b1 b2 b3 b4]. simpl in *.
  destruct (decide (a1 = b1)), (decide (a2 = b2)), (decide (a3 = b3)), (decide (a4 = b4)); subst; try lia. done.
Qed.

Lemma counted_Some kind counts counts' :
  counted kind counts = Some counts' ->
  map fst counts' = map fst counts /\ sum_more counts' = sum_more counts + 1 /\
  (Forall (fun kc : Kind * Count => 0 <= c_more kc.2) counts -> Forall (fun kc : Kind * Count => 0 <= c_more kc.2) counts').
Proof.
  revert counts'. induction counts as [|[k c] counts IH]; simpl; [done|]. intros counts'.
  destruct (decide (k = kind)).
  - intros [= <-]. simpl. split; [done|]. split; [lia|]. rewrite !Forall_cons. simpl. intros [? ?]. split; [lia|done].
  - destruct (counted kind counts) as [r|] eqn:Hr; [|done]. intros [= <-]. destruct (IH r eq_refl) as (H1 & H2 & H3).
    simpl. rewrite H1, H2. split; [done|]. split; [lia|]. rewrite !Forall_cons. tauto.
Qed.

Lemma counted_None kind counts : counted kind counts = None -> kind ∉ map fst counts.
Proof.
  induction counts as [|[k c] counts IH]; simpl; [set_solver|]. destruct (decide (k = kind)); [done|].
  destruct (counted kind counts); [done|]. intros _. set_solver.
Qed.

Lemma insert_kind_perm kind count counts : insert_kind kind count counts ≡ₚ (kind, count) :: counts.
Proof.
  induction counts as [|[k c] counts IH]; simpl; [done|]. destruct (kind_ltb kind k); [done|].
  rewrite IH. apply Permutation_swap.
Qed.

Lemma sum_more_perm l l' : l ≡ₚ l' -> sum_more l = sum_more l'.
Proof. induction 1; simpl; lia. Qed.

Lemma insert_kind_sorted kind count counts :
  StronglySorted (fun a b => kind_ltb a b = true) (map fst counts) -> kind ∉ map fst counts ->
  StronglySorted (fun a b => kind_ltb a b = true) (map fst (insert_kind kind count counts)).
Proof.
  induction counts as [|[k c] counts IH]; simpl; intros Hs Hk; [repeat constructor|].
  apply not_elem_of_cons in Hk as [Hne Hk]. apply StronglySorted_inv in Hs as Hs'. destruct Hs' as [Hs' HF].
  destruct (kind_ltb kind k) eqn:Hlt; simpl.
  - constructor; [done|]. constructor; [done|]. eapply Forall_impl; [exact HF|].
    intros x Hx. by eapply kind_ltb_trans.
  - constructor; [auto|]. rewrite insert_kind_perm. simpl. constructor; [by apply kind_ltb_total|done].
Qed.

Lemma first_line_ok log_enabled s kind text now :
  log_ok s ->
  let '(answer, s') := first_line log_enabled s kind text now in
  log_ok s' /\
  match answer with
  | None => s' = s
  | Some true => unsaid s' = unsaid s
  | Some false => unsaid s' = unsaid s + 1
  end.
Proof.
  intros Hs. pose proof Hs as [Hm Ho Hl Hst]. unfold first_line. destruct (negb _); [done|].
  destruct (counted kind (ls_counts s)) as [counts|] eqn:Hc.
  - apply counted_Some in Hc as (Hk & Hsum & HF). unfold unsaid. simpl. split; [|lia].
    split; simpl; [auto|done| |by rewrite Hk].
    rewrite <- (length_map fst), Hk, length_map. done.
  - apply counted_None in Hc. destruct (Nat.leb_spec MAX_KINDS (length (ls_counts s))).
    + unfold unsaid. simpl. split; [|lia]. split; simpl; auto; lia.
    + unfold unsaid. simpl. rewrite (sum_more_perm _ _ (insert_kind_perm _ _ _)). simpl. split; [|lia].
      split; simpl; [|done| |by apply insert_kind_sorted].
      * rewrite insert_kind_perm. constructor; [simpl; lia|done].
      * rewrite insert_kind_perm. simpl. lia.
Qed.

(** What [retain] keeps and logs. *)
Lemma retain_ok forget now counts :
  Forall (fun kc : Kind * Count => 0 <= c_more kc.2) counts ->
  let '(counts', lines) := retain forget now counts in
  sum_lines lines = sum_more counts /\ sum_more counts' = 0 /\
  Forall (fun kc : Kind * Count => c_more kc.2 = 0) counts' /\ map fst counts' `sublist_of` map fst counts.
Proof.
  induction 1 as [|[k c] counts Hc HF IH]; simpl; [by repeat constructor|].
  destruct (retain forget now counts) as [counts' lines]. destruct IH as (H1 & H2 & H3 & H4). simpl in Hc.
  destruct (Z.ltb_spec 0 (c_more c)); [|assert (c_more c = 0) as Hz by lia; destruct forget];
    simpl; split_and!; try lia; auto; by constructor.
Qed.

Lemma sorted_sublist {A} (R : A -> A -> Prop) l l' : l `sublist_of` l' -> StronglySorted R l' -> StronglySorted R l.
Proof.
  induction 1 as [|x l l' Hsub IH|x l l' Hsub IH]; [done| |].
  - intros Hs. apply StronglySorted_inv in Hs as [Hs HF]. constructor; [auto|].
    rewrite Forall_forall in HF |- *. intros y Hy. apply HF. by eapply elem_of_sublist.
  - intros Hs. apply StronglySorted_inv in Hs as [Hs _]. auto.
Qed.

Lemma say_ok s forget now :
  log_ok s ->
  let '(_, lines, s') := say s forget now in
  log_ok s' /\ sum_lines lines + unsaid s' = unsaid s /\
  Forall (fun kc : Kind * Count => c_more kc.2 = 0) (ls_counts s') /\ ls_other s' = 0.
Proof.
  intros [Hm Ho Hl Hst]. unfold say. pose proof (retain_ok forget now (ls_counts s) Hm) as H.
  destruct (retain forget now (ls_counts s)) as [counts lines]. destruct H as (H1 & H2 & H3 & H4).
  assert (forall a b, sum_lines (a ++ b) = sum_lines a + sum_lines b) as Happ.
  { intros a b. induction a; simpl; lia. }
  set (counts' := if forget then [] else counts).
  assert (sum_more counts' = 0 /\ Forall (fun kc : Kind * Count => c_more kc.2 = 0) counts' /\
          map fst counts' `sublist_of` map fst (ls_counts s)) as (H2' & H3' & H4').
  { unfold counts'. destruct forget; [|done]. split_and!; [done|done|apply sublist_nil_l]. }
  assert (forall l sn, log_ok (mkLogSummary counts' 0 l sn)) as Hok.
  { intros l sn. split; simpl; [|lia| |by eapply sorted_sublist].
    - eapply Forall_impl; [exact H3'|]. simpl. lia.
    - apply sublist_length in H4'. rewrite !length_map in H4'. lia. }
  unfold unsaid. destruct (Z.ltb_spec 0 (ls_other s)); simpl; rewrite Happ, H1; simpl.
  - split_and!; auto; lia.
  - assert (ls_other s = 0) as -> by lia. split_and!; auto; lia.
Qed.

Lemma say_closing s now : ls_counts (say s true now).2 = [] /\ (say s true now).1.1 = false.
Proof.
  unfold say. destruct (retain true now (ls_counts s)) as [counts lines].
  by destruct (0 <? ls_other s).
Qed.

Lemma log_run_ok log_enabled es r :
  log_ok (lr_state r) -> lr_met r = lr_first r + sum_lines (lr_said r) + unsaid (lr_state r) ->
  let r' := fold_left (log_step log_enabled) es r in
  log_ok (lr_state r') /\ lr_met r' = lr_first r' + sum_lines (lr_said r') + unsaid (lr_state r').
Proof.
  revert r. induction es as [|e es IH]; intros r Hok Heq; [done|]. simpl. apply IH; clear IH.
  - destruct e as [kind text now|forget now]; simpl.
    + pose proof (first_line_ok log_enabled (lr_state r) kind text now Hok) as H.
      destruct (first_line _ _ _ _ _) as [[[]|] s']; simpl; tauto.
    + pose proof (say_ok (lr_state r) forget now Hok) as H. destruct (say _ _ _) as [[b lines] s']. simpl. tauto.
  - destruct e as [kind text now|forget now]; simpl.
    + pose proof (first_line_ok log_enabled (lr_state r) kind text now Hok) as H.
      destruct (first_line _ _ _ _ _) as [[[]|] s']; simpl; destruct H as [_ H]; subst; lia.
    + pose proof (say_ok (lr_state r) forget now Hok) as H. destruct (say _ _ _) as [[b lines] s']. simpl.
      assert (sum_lines (lr_said r ++ lines) = sum_lines (lr_said r) + sum_lines lines) as ->.
      { clear. induction (lr_said r); simpl; lia. }
      lia.
Qed.

(** ** Properties *)

(** No line is lost: of the lines a client meets that the logger takes, every
    one was logged at once, or is in the count of a line said, or is in a count
    still to be said; and at most [MAX_KINDS] kinds are counted, each once. *)
Theorem log_conservation log_enabled es :
  let r := log_run log_enabled es in
  lr_met r = lr_first r + sum_lines (lr_said r) + unsaid (lr_state r) /\
  (length (ls_counts (lr_state r)) <= MAX_KINDS)%nat /\ NoDup (map fst (ls_counts (lr_state r))).
Proof.
  intros r. destruct (log_run_ok log_enabled es (mkLogRun LogSummary_default 0 0 [])) as [[_ _ Hl Hs] H].
  { split; simpl; [constructor|lia|unfold MAX_KINDS; lia|constructor]. }
  { done. }
  split; [exact H|]. split; [exact Hl|]. clear -Hs. fold (log_run log_enabled es) in Hs. fold r in Hs.
  induction Hs as [|k l Hs IH HF]; constructor; [|done]. intros Hin. rewrite Forall_forall in HF.
  specialize (HF k Hin). apply kind_ltb_spec in HF. lia.
Qed.

(** A kind that stayed quiet for a whole interval is forgotten: of two ticks
    with nothing between them the second says nothing, forgets every kind and
    stops the timer; and a closing tick says all that is counted and keeps
    nothing. *)
Theorem log_quiet_forgotten log_enabled es now now' :
  let s := lr_state (log_run log_enabled es) in
  let '(_, _, s1) := say s false now in
  let '(again, lines, s2) := say s1 false now' in
  let '(left_, closing, s3) := say s true now in
  again = false /\ lines = [] /\ ls_counts s2 = [] /\
  left_ = false /\ sum_lines closing = unsaid s /\ unsaid s3 = 0 /\ ls_counts s3 = [].
Proof.
  intros s.
  destruct (log_run_ok log_enabled es (mkLogRun LogSummary_default 0 0 [])) as [Hok _]; [|done|].
  { split; simpl; [constructor|lia|unfold MAX_KINDS; lia|constructor]. }
  change (log_ok s) in Hok.
  pose proof (say_ok s false now Hok) as H1. destruct (say s false now) as [[b lines1] s1].
  destruct H1 as (_ & _ & Hz & Ho).
  assert (retain false now' (ls_counts s1) = ([], [])) as Hr.
  { induction Hz as [|[k c] counts Hc _ IH]; simpl; [done|]. simpl in Hc. rewrite Hc, IH. done. }
  unfold say at 1. rewrite Hr, Ho. cbn.
  pose proof (say_ok s true now Hok) as H3. pose proof (say_closing s now) as [Hc3 Hf].
  destruct (say s true now) as [[left_ closing] s3]. simpl in *. destruct H3 as (_ & Hsum & _ & Ho3).
  assert (unsaid s3 = 0) as Hu3 by (unfold unsaid; rewrite Hc3, Ho3; done).
  split_and!; auto; lia.
Qed.
