(* ===== verification/Records.v ===== *)
(** * Records: field update and the state monad of the core

    Rust's [&mut self] methods are functions in a state monad.  This file holds
    what they are written with: the update of a record's field,
    [r <| f ::= g |>], the monad over an arbitrary state, its loops, and the
    rule-by-rule composition of "preserves an invariant" that the proofs about
    the core go by. *)
From S2P Require Import Prelude.

(** ** Field update

    [Eta R] writes a record as its constructor applied to its projections; the
    setter of a field is that term with the field's projection replaced. *)

Class Eta (R : Type) := eta : R -> R.

Class Setter {R T : Type} (proj : R -> T) := upd : (T -> T) -> R -> R.
Arguments upd {R T} proj {_} f r / : assert.

Ltac find_setter R proj :=
  let e := constr:(eta : R -> R) in
  let e := eval cbv [eta] in e in
  lazymatch e with
  | ?h ?param => let e := eval unfold h in (h param) in
    lazymatch eval pattern proj in e with
    | ?f _ => let s := eval cbv beta in (fun g => f (fun r => g (proj r))) in exact s
    end
  | ?h => let e := eval unfold h in h in
    lazymatch eval pattern proj in e with
    | ?f _ => let s := eval cbv beta in (fun g => f (fun r => g (proj r))) in exact s
    end
  end.

#[export] Hint Extern 1 (@Setter ?R _ ?proj) => find_setter R proj : typeclass_instances.

Declare Scope record_scope.
Delimit Scope record_scope with rec.
Notation "r <| f ::= g |>" := (upd f g r)
  (at level 1, f at level 200, g at level 200, left associativity, format "r  <|  f  ::=  g  |>") : record_scope.
Notation "r <| f := v |>" := (upd f (fun _ => v) r)
  (at level 1, f at level 200, v at level 200, left associativity, format "r  <|  f  :=  v  |>") : record_scope.
Open Scope record_scope.

(** ** The state monad *)

Section State.
Context {S : Type}.

Definition M (A : Type) : Type := S -> A * S.

Definition ret {A} (a : A) : M A := fun s => (a, s).
Definition bind {A B} (m : M A) (k : A -> M B) : M B := fun s => let '(a, s') := m s in k a s'.
Definition gets {A} (f : S -> A) : M A := fun s => (f s, s).
Definition modify (f : S -> S) : M unit := fun s => (tt, f s).
Definition when (b : bool) (m : M unit) : M unit := if b then m else ret tt.

(** [for x in l { body }]. *)
Fixpoint for_each {A} (l : list A) (body : A -> M unit) : M unit :=
  match l with
  | [] => ret tt
  | x :: l => bind (body x) (fun _ => for_each l body)
  end.

(** A loop that carries a local variable. *)
Fixpoint fold_m {A B} (l : list A) (b : B) (body : B -> A -> M B) : M B :=
  match l with
  | [] => ret b
  | x :: l => bind (body b x) (fun b => fold_m l b body)
  end.

(** [while]: [step] says whether to go on, at most [fuel] times. *)
Fixpoint loop_m (fuel : nat) (step : M bool) : M unit :=
  match fuel with
  | O => ret tt
  | Datatypes.S fuel => bind step (fun go_on => if go_on : bool then loop_m fuel step else ret tt)
  end.

(** ** Preserved invariants *)

Definition pres (I : S -> Prop) {A} (m : M A) : Prop := forall s, I s -> I (m s).2.

Lemma pres_ret I A (a : A) : pres I (ret a).
Proof. by intros s. Qed.

Lemma pres_bind I A B (m : M A) (k : A -> M B) :
  pres I m -> (forall a, pres I (k a)) -> pres I (bind m k).
Proof.
  intros Hm Hk s Hs. unfold bind. specialize (Hm s Hs). destruct (m s) as [a s']. by apply Hk.
Qed.

Lemma bind_tt B (m : M unit) (k : unit -> M B) s : bind m k s = k tt (m s).2.
Proof. unfold bind. by destruct (m s) as [[] s']. Qed.

(** The same at one state. *)
Lemma pres_bind_2 (I : S -> Prop) A B (m : M A) (k : A -> M B) s :
  I (m s).2 -> (forall a, pres I (k a)) -> I (bind m k s).2.
Proof. intros Hm Hk. unfold bind. destruct (m s) as [a s']. by apply Hk. Qed.

Lemma pres_gets I A (f : S -> A) : pres I (gets f).
Proof. by intros s. Qed.

Lemma pres_modify I f : (forall s, I s -> I (f s)) -> pres I (modify f).
Proof. intros H s Hs. by apply H. Qed.

Lemma pres_when I b m : (b = true -> pres I m) -> pres I (when b m).
Proof. unfold when. destruct b; [by intros H; apply H | intros _; apply pres_ret]. Qed.

Lemma pres_for_each I A (l : list A) body : (forall x, pres I (body x)) -> pres I (for_each l body).
Proof. intros H. induction l; simpl; [apply pres_ret | apply pres_bind; auto]. Qed.

Lemma pres_fold_m I A B (l : list A) (b : B) body :
  (forall b x, pres I (body b x)) -> pres I (fold_m l b body).
Proof.
  intros H. revert b. induction l; intros b; simpl; [apply pres_ret | apply pres_bind; auto].
Qed.

Lemma pres_loop_m I fuel step : pres I step -> pres I (loop_m fuel step).
Proof.
  intros H. induction fuel; simpl; [apply pres_ret|].
  apply pres_bind; [done|]. intros [|]; [done | apply pres_ret].
Qed.

Lemma pres_and (I J : S -> Prop) A (m : M A) : pres I m -> pres J m -> pres (fun s => I s /\ J s) m.
Proof. intros HI HJ s [? ?]. split; [by apply HI|by apply HJ]. Qed.

(** From one invariant to another. *)
Definition leads (P Q : S -> Prop) {A} (m : M A) : Prop := forall s, P s -> Q (m s).2.

Lemma leads_then P Q A B (m : M A) (k : A -> M B) : pres P m -> (forall a, leads P Q (k a)) -> leads P Q (bind m k).
Proof.
  intros Hm Hk s Hs. unfold bind. specialize (Hm s Hs). destruct (m s) as [a s']. by apply Hk.
Qed.

Lemma leads_bind P Q R A B (m : M A) (k : A -> M B) : leads P Q m -> (forall a, leads Q R (k a)) -> leads P R (bind m k).
Proof.
  intros Hm Hk s Hs. unfold bind. specialize (Hm s Hs). destruct (m s) as [a s']. by apply Hk.
Qed.

(** A read, and what it read. *)
Lemma leads_gets P Q A B (f : S -> A) (k : A -> M B) :
  (forall a, leads (fun s => P s /\ f s = a) Q (k a)) -> leads P Q (bind (gets f) k).
Proof. intros Hk s Hs. unfold bind, gets. by apply Hk. Qed.

Lemma leads_weaken (P P' Q Q' : S -> Prop) A (m : M A) :
  (forall s, P s -> P' s) -> (forall s, Q' s -> Q s) -> leads P' Q' m -> leads P Q m.
Proof. intros HP HQ Hm s Hs. apply HQ, Hm, HP, Hs. Qed.

(** The same with what [m] answered. *)
Definition gives (P : S -> Prop) {A} (m : M A) (Q : A -> S -> Prop) : Prop := forall s, P s -> Q (m s).1 (m s).2.

Lemma gives_bind P A B (m : M A) (k : A -> M B) (Q : A -> S -> Prop) R :
  gives P m Q -> (forall a, gives (Q a) (k a) R) -> gives P (bind m k) R.
Proof.
  intros Hm Hk s Hs. unfold bind. specialize (Hm s Hs). destruct (m s) as [a s']. by apply Hk.
Qed.

Lemma gives_pres P A (m : M A) : pres P m -> gives P m (fun _ => P).
Proof. intros Hm s Hs. by apply Hm. Qed.

Lemma leads_gives P A B (m : M A) (k : A -> M B) (Q : A -> S -> Prop) R :
  gives P m Q -> (forall a, leads (Q a) R (k a)) -> leads P R (bind m k).
Proof.
  intros Hm Hk s Hs. unfold bind. specialize (Hm s Hs). destruct (m s) as [a s']. by apply Hk.
Qed.

Lemma pres_leads P A (m : M A) : pres P m -> leads P P m.
Proof. done. Qed.

Lemma leads_for_each {A} (l : list A) (I : list A -> S -> Prop) body :
  (forall x l', leads (I (x :: l')) (I l') (body x)) -> leads (I l) (I []) (for_each l body).
Proof.
  intros H. induction l as [|x l IH]; [by intros s Hs|]. apply (leads_bind _ (I l)); [apply H|]. intros _. apply IH.
Qed.

Lemma leads_ret P Q A (a : A) : (forall s, P s -> Q s) -> leads P Q (ret a).
Proof. intros H s Hs. by apply H. Qed.
End State.
Arguments M : clear implicits.

Declare Scope monad_scope.
Delimit Scope monad_scope with monad.
Notation "'let*' x ':=' m 'in' k" := (bind m (fun x => k))
  (at level 10, x pattern, k at level 200, format "'[v' 'let*'  x  ':='  m  'in' '/' k ']'") : monad_scope.
Notation "m ';;;' k" := (bind m (fun _ => k))
  (at level 199, right associativity, format "'[v' m  ';;;' '/' k ']'") : monad_scope.
Open Scope monad_scope.

Create HintDb pres discriminated.
#[export] Hint Resolve pres_ret pres_gets : pres.

(** One step of the composition: the rule of the program's head, or the lemma
    of the operation called. *)
Ltac pres_step :=
  match goal with
  | |- pres _ (ret _) => apply pres_ret
  | |- pres _ (gets _) => apply pres_gets
  | |- pres _ (bind _ _) => apply pres_bind; [|intros ?]
  | |- pres _ (when _ _) => apply pres_when; intros ?
  | |- pres _ (for_each _ _) => apply pres_for_each; intros ?
  | |- pres _ (fold_m _ _ _) => apply pres_fold_m; intros ? ?
  | |- pres _ (loop_m _ _) => apply pres_loop_m
  | |- pres _ (match ?x with _ => _ end) => destruct x eqn:?
  | |- pres _ ((match ?x with _ => _ end) _) => destruct x eqn:?
  | |- pres _ _ => solve [eauto 3 with pres nocore]
  end.
Ltac pres_tac := repeat pres_step.
