(* ===== verification/Interleaving.v ===== *)
(** * Interleaving: threads as sequences of atomic steps

    The parts of the library that several threads use are modelled as a state and
    a partial function [step]: a label names which thread does what next, and
    [None] says that it cannot now.  What a mutex guards is read and written
    under it alone, so a locked section is one step; an atomic variable's load,
    store or swap is one each, in one total order, as [SeqCst] has it.  A run is a
    list of labels: every interleaving is one. *)
From S2P Require Import Prelude.

Section Interleaving.
Context {St L : Type} (step : L -> St -> option St).

Fixpoint run_steps (ls : list L) (s : St) : option St :=
  match ls with
  | [] => Some s
  | l :: ls => step l s ≫= run_steps ls
  end.

(** [s'] is a state some interleaving takes [s] to. *)
Definition steps_to (s s' : St) : Prop := exists ls, run_steps ls s = Some s'.

Lemma run_steps_app ls1 ls2 s : run_steps (ls1 ++ ls2) s = run_steps ls1 s ≫= run_steps ls2.
Proof. revert s. induction ls1 as [|l ls1 IH]; intros s; [done|]. cbn. destruct (step l s); [apply IH|done]. Qed.

Lemma steps_to_refl s : steps_to s s.
Proof. by exists []. Qed.

Lemma steps_to_one l s s' : step l s = Some s' -> steps_to s s'.
Proof. intros H. exists [l]. cbn. by rewrite H. Qed.

Lemma steps_to_trans s1 s2 s3 : steps_to s1 s2 -> steps_to s2 s3 -> steps_to s1 s3.
Proof. intros [l1 H1] [l2 H2]. exists (l1 ++ l2). by rewrite run_steps_app, H1. Qed.

(** What every step keeps holds of every state of a run. *)
Lemma steps_keep (I : St -> Prop) s s' :
  (forall l s s', I s -> step l s = Some s' -> I s') -> I s -> steps_to s s' -> I s'.
Proof.
  intros Hstep Hs [ls Hls]. revert s Hs Hls. induction ls as [|l ls IH]; intros s Hs; cbn; [by intros [= <-]|].
  destruct (step l s) as [s1|] eqn:H1; [|done]. apply IH. by eapply Hstep.
Qed.

(** And of the labels that led to it. *)
Lemma steps_trace (J : list L -> St -> Prop) ls s s' :
  (forall ls l s s', J ls s -> step l s = Some s' -> J (ls ++ [l]) s') -> J [] s -> run_steps ls s = Some s' -> J ls s'.
Proof.
  intros Hstep Hs. revert s'. induction ls as [|l ls IH] using rev_ind; intros s'; [by intros [= <-]|].
  rewrite run_steps_app. destruct (run_steps ls s) as [s1|]; [|done]. cbn. destruct (step l s1) as [s2|] eqn:H1; [|done].
  intros [= <-]. by eapply Hstep; [apply IH|].
Qed.
End Interleaving.

(** A step of one thread: its guard, and the state after it. *)
Definition guard_step {A} (b : bool) (s : A) : option A := if b then Some s else None.

(** Takes a step apart: the cases of the label's definition with their guards. *)
Ltac step_cases H :=
  repeat match type of H with
  | guard_step ?b _ = Some _ => destruct b eqn:?; cbn [guard_step] in H; [|discriminate H]
  | context [match ?x with _ => _ end] => destruct x eqn:?; try discriminate H
  end;
  try (injection H as H; subst).

(** ** Threads of one kind, each at a point of its own *)

Definition one (b : bool) : nat := if b then 1 else 0.

(** How many are at a point [f] tells of, and what [w] weighs of them all. *)
Fixpoint total {A} (f : A -> bool) (l : list A) : nat :=
  match l with [] => 0 | p :: l => one (f p) + total f l end.
Fixpoint weight {A} (w : A -> nat) (l : list A) : nat :=
  match l with [] => 0 | p :: l => w p + weight w l end.

Lemma weight_insert {A} (w : A -> nat) i p q l : l !! i = Some p -> weight w (<[i := q]> l) + w p = weight w l + w q.
Proof.
  revert i. induction l as [|x l IH]; intros [|i]; try done.
  - intros [= ->]. change (<[0 := q]> (p :: l)) with (q :: l). cbn [weight]. lia.
  - intros H. specialize (IH i H). change (<[S i := q]> (x :: l)) with (x :: <[i := q]> l). cbn [weight]. lia.
Qed.
Lemma total_weight {A} (f : A -> bool) l : total f l = weight (fun p => one (f p)) l.
Proof. induction l as [|x l IH]; [done|]. cbn. by rewrite IH. Qed.
Lemma total_insert {A} (f : A -> bool) i p q l : l !! i = Some p -> total f (<[i := q]> l) + one (f p) = total f l + one (f q).
Proof. rewrite !total_weight. apply (weight_insert (fun p => one (f p))). Qed.
Lemma total_pos {A} (f : A -> bool) l : 0 < total f l -> exists i p, l !! i = Some p /\ f p = true.
Proof.
  induction l as [|x l IH]; cbn [total]; [lia|]. destruct (f x) eqn:Hx; [by exists 0, x|].
  intros (i & p & H)%IH. by exists (S i), p.
Qed.
Lemma total_zero {A} (f : A -> bool) l i p : total f l = 0 -> l !! i = Some p -> f p = false.
Proof.
  revert i. induction l as [|x l IH]; intros [|i]; try done; cbn [total lookup list_lookup].
  - intros H [= ->]. by destruct (f p).
  - intros H Hi. eapply IH; [lia|done].
Qed.
Lemma total_replicate {A} (f : A -> bool) n p : f p = false -> total f (replicate n p) = 0.
Proof. intros H. induction n as [|n IH]; [done|]. cbn [replicate total]. by rewrite H. Qed.
