(* ===== verification/Fork.v ===== *)
(** * Fork: the sockets a forked child closes (fork.rs)

    A client keeps the descriptors of its open sockets in a fixed array of atomic
    slots.  A child reads its copy of the array, taken between two stores of the
    owner; [add] and [remove] are written as the stores they make, so that every
    such moment is a state of the model.  [fork_closes_sockets]: whatever the
    owner opens and closes, and whenever the child is made, every descriptor it
    closes is that of a socket open then.  The generation a client is made in is
    the other half, [forked_client_is_foreign]: a process and its children, down
    one line, with the threads that make the first clients at once. *)
From S2P Require Import Prelude Records Interleaving.
Open Scope Z_scope.

Definition FREE : Z := -1.
Definition DESCRIPTOR_SLOTS : nat := 256.

Record DescriptorTable := mkDescriptorTable { dt_slots : list Z; dt_full_said : bool; dt_closed : bool }.
#[export] Instance eta_DescriptorTable : Eta DescriptorTable := fun r =>
  mkDescriptorTable (dt_slots r) (dt_full_said r) (dt_closed r).

Definition DescriptorTable_default : DescriptorTable := mkDescriptorTable (replicate DESCRIPTOR_SLOTS FREE) false false.

(** ** The owner's stores *)

(** The slot [add] stores into: the first that is free. *)
Fixpoint add_slot (slots : list Z) (fd : Z) : option nat :=
  match slots with
  | [] => None
  | slot :: slots => if slot =? FREE then Some 0%nat else S <$> add_slot slots fd
  end.

Definition store_slot (i : nat) (fd : Z) (t : DescriptorTable) : DescriptorTable := t <| dt_slots ::= <[i := fd]> |>.

(** [add]: whether the warning is said, and the table. *)
Definition add (fd : Z) (t : DescriptorTable) : bool * DescriptorTable :=
  match add_slot (dt_slots t) fd with
  | Some i => (false, store_slot i fd t)
  | None => (negb (dt_full_said t), t <| dt_full_said := true |>)
  end.

(** [remove]: every slot that holds [fd], freed. *)
Definition free_slot (fd slot : Z) : Z := if slot =? fd then FREE else slot.
Definition remove (fd : Z) (t : DescriptorTable) : DescriptorTable := t <| dt_slots ::= map (free_slot fd) |>.

(** The descriptors recorded, and what a child closes of them, once. *)
Definition recorded (t : DescriptorTable) : list Z := filter (fun fd => fd <> FREE) (dt_slots t).
Definition close_all (t : DescriptorTable) : list Z * DescriptorTable :=
  if dt_closed t then ([], t) else (recorded t, t <| dt_closed := true |>).

(** ** The owner and the moments of a fork *)

(** What the owner, the driver, is in the middle of: a socket opened and not
    recorded yet (its [Action::Open], between connect(2) and [add]), or one whose
    slots it frees (its [close], in [remove], before the socket is dropped), the
    first [i] looked at. *)
Inductive Owner := Idle | Adding (fd : Z) | Removing (fd : Z) (i : nat).

Record ForkRun := mkForkRun { fk_table : DescriptorTable; fk_open : gset Z; fk_owner : Owner }.
#[export] Instance eta_ForkRun : Eta ForkRun := fun r => mkForkRun (fk_table r) (fk_open r) (fk_owner r).

Inductive ForkLabel :=
| LOpens (fd : Z)     (* the system gives a descriptor *)
| LAdd                (* [add] stores it *)
| LRefused            (* it does not register: the socket is dropped, unrecorded *)
| LCloses (fd : Z)    (* the owner is to close a socket *)
| LScan               (* [remove] looks at the next slot *)
| LClosed.            (* close(2) *)

Definition fork_step (l : ForkLabel) (r : ForkRun) : option ForkRun :=
  match l, fk_owner r with
  | LOpens fd, Idle =>
      if bool_decide (0 <= fd /\ fd ∉ fk_open r) then Some (r <| fk_open ::= union {[fd]} |> <| fk_owner := Adding fd |>) else None
  | LAdd, Adding fd => Some (r <| fk_table ::= fun t => (add fd t).2 |> <| fk_owner := Idle |>)
  | LRefused, Adding fd => Some (r <| fk_open ::= (.∖ {[fd]}) |> <| fk_owner := Idle |>)
  | LCloses fd, Idle => if bool_decide (fd ∈ fk_open r) then Some (r <| fk_owner := Removing fd 0 |>) else None
  | LScan, Removing fd i =>
      match dt_slots (fk_table r) !! i with
      | Some slot =>
          Some (r <| fk_table ::= (if slot =? fd then store_slot i FREE else id) |> <| fk_owner := Removing fd (S i) |>)
      | None => None
      end
  | LClosed, Removing fd i =>
      if (i =? length (dt_slots (fk_table r)))%nat
      then Some (r <| fk_open ::= (.∖ {[fd]}) |> <| fk_owner := Idle |>) else None
  | _, _ => None
  end.

Definition ForkRun_new : ForkRun := mkForkRun DescriptorTable_default ∅ Idle.

(** The scan's stores are [remove]. *)
Lemma scan_removes fd t n :
  n = length (dt_slots t) ->
  run_steps fork_step (replicate n LScan) (mkForkRun t ∅ (Removing fd 0))
  = Some (mkForkRun (remove fd t) ∅ (Removing fd n)).
Proof.
  intros ->. destruct t as [slots said closed]. cbn [dt_slots].
  enough (H : forall done_ rest, run_steps fork_step (replicate (length rest) LScan)
      (mkForkRun (mkDescriptorTable (map (free_slot fd) done_ ++ rest) said closed) ∅ (Removing fd (length done_)))
    = Some (mkForkRun (mkDescriptorTable (map (free_slot fd) (done_ ++ rest)) said closed) ∅ (Removing fd (length done_ + length rest)))).
  { apply (H [] slots). }
  intros done_ rest. revert done_. induction rest as [|slot rest IH]; intros done_; [cbn; by rewrite !app_nil_r, Nat.add_0_r|].
  cbn [length replicate run_steps fork_step fk_owner fk_table dt_slots].
  assert (Hlen : length (map (free_slot fd) done_) = length done_) by apply length_map.
  rewrite lookup_app_r, Hlen, Nat.sub_diag by lia. cbn [lookup list_lookup].
  specialize (IH (done_ ++ [slot])). rewrite length_app, map_app in IH. cbn [length map] in IH. rewrite <- !app_assoc in IH. cbn [app] in IH.
  replace (length done_ + S (length rest))%nat with (length done_ + 1 + length rest)%nat by lia. rewrite <- IH.
  replace (length done_ + 1)%nat with (S (length done_)) by lia. unfold free_slot at 3.
  destruct (slot =? fd); [|done]. cbn. f_equal. unfold store_slot. cbn. do 2 f_equal.
  rewrite insert_app_r_alt, Hlen, Nat.sub_diag by lia. done.
Qed.

(** ** The invariant *)

(** What the owner is not changing: every descriptor recorded is open, and every
    open one is recorded unless there was no slot left. *)
Definition at_work (o : Owner) : option Z := match o with Idle => None | Adding fd | Removing fd _ => Some fd end.

Record fork_ok (r : ForkRun) : Prop := {
  fk_recorded i fd : dt_slots (fk_table r) !! i = Some fd -> fd <> FREE -> fd ∈ fk_open r;
  fk_all fd : dt_full_said (fk_table r) = false -> fd ∈ fk_open r -> at_work (fk_owner r) <> Some fd ->
    exists i, dt_slots (fk_table r) !! i = Some fd;
  fk_at_work fd : at_work (fk_owner r) = Some fd -> fd ∈ fk_open r;
  fk_real fd : fd ∈ fk_open r -> 0 <= fd;
  fk_scanned fd k i : fk_owner r = Removing fd k -> (i < k)%nat -> dt_slots (fk_table r) !! i <> Some fd;
  fk_fresh fd i : fk_owner r = Adding fd -> dt_slots (fk_table r) !! i <> Some fd;
}.

Lemma add_slot_Some slots fd i : add_slot slots fd = Some i -> slots !! i = Some FREE.
Proof.
  revert i. induction slots as [|slot slots IH]; intros i; cbn [add_slot]; [done|].
  destruct (Z.eqb_spec slot FREE) as [->|]; [by intros [= <-]|]. destruct (add_slot slots fd) as [j|]; [|done].
  intros [= <-]. cbn. by apply IH.
Qed.

(** A store into one slot of the table. *)
Lemma table_store_ok r i v old o :
  fork_ok r -> dt_slots (fk_table r) !! i = Some old ->
  (v <> FREE -> v ∈ fk_open r) ->
  (forall fd, fd ∈ fk_open r -> at_work o <> Some fd -> fd <> v -> at_work (fk_owner r) <> Some fd /\ fd <> old) ->
  (forall fd, at_work o = Some fd -> fd ∈ fk_open r) ->
  (forall fd k j, o = Removing fd k -> (j < k)%nat -> (j = i /\ v <> fd) \/ (j <> i /\ dt_slots (fk_table r) !! j <> Some fd)) ->
  (forall fd, o <> Adding fd) ->
  fork_ok (r <| fk_table ::= store_slot i v |> <| fk_owner := o |>).
Proof.
  intros [H1 H2 H3 H4 H5 H6] Hi Hv Hkept Hwork Hscan Hadd. pose proof (lookup_lt_Some _ _ _ Hi) as Hlt.
  split; cbn [upd fk_table fk_open fk_owner store_slot dt_slots dt_full_said].
  - intros j fd Hj Hne. apply list_lookup_insert_Some in Hj as [(_ & <- & _)|[_ Hj]]; [by apply Hv|by apply (H1 j)].
  - intros fd Hs Hfd Hne. destruct (decide (fd = v)) as [->|Hnv]; [exists i; by rewrite list_lookup_insert_eq|].
    destruct (Hkept fd Hfd Hne Hnv) as [Hw Hold]. destruct (H2 fd Hs Hfd Hw) as [j Hj]. exists j.
    rewrite list_lookup_insert_ne; [done|]. intros ->. congruence.
  - exact Hwork.
  - exact H4.
  - intros fd k j Ho Hj. destruct (Hscan fd k j Ho Hj) as [[-> Hne]|[Hne Hj']]; [rewrite list_lookup_insert_eq by done; congruence|].
    by rewrite list_lookup_insert_ne.
  - intros fd j Ho. by destruct (Hadd fd).
Qed.

(** A socket recorded nowhere is closed. *)
Lemma closed_ok r fd :
  fork_ok r -> at_work (fk_owner r) = Some fd -> (forall j, dt_slots (fk_table r) !! j <> Some fd) ->
  fork_ok (r <| fk_open ::= (.∖ {[fd]}) |> <| fk_owner := Idle |>).
Proof.
  intros [H1 H2 H3 H4 H5 H6] Hw Hgone. split; cbn [upd fk_table fk_open fk_owner at_work]; [| |done| |done|done].
  - intros j fd' Hj Hne. apply elem_of_difference. split; [by apply (H1 j)|]. intros ->%elem_of_singleton. by apply (Hgone j).
  - intros fd' Hs [Hfd Hne]%elem_of_difference _. apply H2; [done|done|]. rewrite Hw. intros [= ->]. set_solver.
  - intros fd' [Hfd _]%elem_of_difference. by apply H4.
Qed.

(** The owner alone moves on. *)
Lemma moves_ok r o :
  fork_ok r -> (forall fd, at_work (fk_owner r) = Some fd -> at_work o = Some fd) ->
  (forall fd, at_work o = Some fd -> fd ∈ fk_open r) ->
  (forall fd k j, o = Removing fd k -> (j < k)%nat -> dt_slots (fk_table r) !! j <> Some fd) ->
  (forall fd, o <> Adding fd) ->
  fork_ok (r <| fk_owner := o |>).
Proof.
  intros [H1 H2 H3 H4 H5 H6] Hw Ho Hs Ha. split; try done; [|intros fd j H; by destruct (Ha fd)].
  intros fd Hf Hfd Hne. apply H2; [done|done|]. intros H. by apply Hne, Hw.
Qed.

Lemma fork_step_ok l r r' : fork_step l r = Some r' -> fork_ok r -> fork_ok r'.
Proof.
  intros Hl Hok. pose proof Hok as [H1 H2 H3 H4 H5 H6]. unfold fork_step in Hl.
  destruct l as [fd| | |fd| |]; destruct (fk_owner r) as [|fd'|fd' i] eqn:Ho; try done.
  - case_bool_decide as Hb; [|done]. destruct Hb as [Hge Hnew]. injection Hl as <-.
    split; cbn [upd fk_table fk_open fk_owner at_work].
    + intros i fd' Hi Hne. apply elem_of_union_r. by apply (H1 i).
    + intros fd' Hs Hfd Hne. apply elem_of_union in Hfd as [->%elem_of_singleton|Hfd]; [by destruct Hne|]. by apply H2.
    + intros fd' [= <-]. set_solver.
    + intros fd' Hfd. apply elem_of_union in Hfd as [->%elem_of_singleton|Hfd]; [done|by apply H4].
    + done.
    + intros fd' i [= <-] Hi. apply Hnew, (H1 i); [done|]. unfold FREE. lia.
  - injection Hl as <-. assert (Hfd : fd' ∈ fk_open r) by (by apply H3). unfold add.
    destruct (add_slot (dt_slots (fk_table r)) fd') as [i|] eqn:Ha; cbn [snd].
    + apply add_slot_Some in Ha. apply (table_store_ok r i fd' FREE Idle Hok Ha); [done| |done|done|done].
      intros fd Hin _ Hne. rewrite Ho. cbn [at_work]. specialize (H4 fd Hin). unfold FREE. split; [congruence|lia].
    + split; cbn [upd fk_table fk_open fk_owner at_work dt_slots dt_full_said]; try done.
  - injection Hl as <-. apply closed_ok; [done|by rewrite Ho|]. intros j. by apply H6.
  - case_bool_decide; [|done]. injection Hl as <-. apply moves_ok; [done|by rewrite Ho|by intros fd' [= <-]| |done]. intros fd' k j [= _ <-]. lia.
  - destruct (dt_slots (fk_table r) !! i) as [slot|] eqn:Hi; [|done]. injection Hl as <-.
    destruct (Z.eqb_spec slot fd') as [->|Hne].
    + apply (table_store_ok r i FREE fd' (Removing fd' (S i)) Hok Hi); [done| | | |done].
      * intros fd Hin Hne _. cbn [at_work] in Hne. rewrite Ho. cbn [at_work]. split; congruence.
      * intros fd [= <-]. by apply H3.
      * intros fd k j [= <- <-] Hj. specialize (H4 fd'). specialize (H3 fd' eq_refl). unfold FREE.
        destruct (decide (j = i)) as [->|]; [left; split; [done|specialize (H4 H3); lia]|right; split; [done|]]. apply (H5 fd' i); [done|lia].
    + apply (moves_ok r (Removing fd' (S i)) Hok); [by rewrite Ho|intros fd [= <-]; by apply H3| |done].
      intros fd k j [= <- <-] Hj. destruct (decide (j = i)) as [->|]; [congruence|]. apply (H5 fd' i); [done|lia].
  - destruct (Nat.eqb_spec i (length (dt_slots (fk_table r)))) as [->|]; [|done]. injection Hl as <-.
    apply closed_ok; [done|by rewrite Ho|]. intros j Hj. apply (H5 fd' _ j eq_refl (lookup_lt_Some _ _ _ Hj) Hj).
Qed.

(** C39: A forked child closes its own sockets' copies alone.  Whatever the owner opens and closes and whichever
    instruction the fork falls on, every descriptor the child's [close_all] closes is that of a socket open then;
    unless more than 256 were open at once, it closes that of every socket but the one being opened or closed; and a
    second [close_all] closes none. *)
Theorem fork_closes_sockets (r : ForkRun) :
  steps_to fork_step ForkRun_new r -> dt_closed (fk_table r) = false ->
  (forall fd, fd ∈ (close_all (fk_table r)).1 -> fd ∈ fk_open r)
  /\ (dt_full_said (fk_table r) = false -> forall fd, fd ∈ fk_open r -> at_work (fk_owner r) <> Some fd ->
        fd ∈ (close_all (fk_table r)).1)
  /\ (close_all (close_all (fk_table r)).2).1 = [].
Proof.
  intros Hr Hc. assert (Hok : fork_ok r).
  { eapply (steps_keep fork_step fork_ok); [intros; by eapply fork_step_ok| |exact Hr].
    split; try done. intros i fd Hi. apply lookup_replicate in Hi as [-> _]. done. }
  destruct Hok as [H1 H2 _ H4 _ _]. unfold close_all at 1 2 4. rewrite Hc. cbn [fst snd]. split_and!; [| |done].
  - intros fd [Hne Hin]%list_elem_of_filter. apply list_elem_of_lookup in Hin as [i Hi]. by apply (H1 i).
  - intros Hs fd Hfd Hw. destruct (H2 fd Hs Hfd Hw) as [i Hi]. apply list_elem_of_filter. split; [|by eapply list_elem_of_lookup_2].
    specialize (H4 fd Hfd). unfold FREE. lia.
Qed.

(** Two sockets opened, the first being closed: the child closes the second's. *)
Definition demo_fork : list ForkLabel := [LOpens 7; LAdd; LOpens 9; LAdd; LCloses 7; LScan].

Lemma fork_closes_sockets_witness :
  exists r, run_steps fork_step demo_fork ForkRun_new = Some r /\ (close_all (fk_table r)).1 = [9] /\ 9 ∈ fk_open r.
Proof.
  destruct (run_steps fork_step demo_fork ForkRun_new) as [r|] eqn:Hr; [|discriminate (f_equal (fun o => bool_decide (is_Some o)) Hr)].
  exists r. split; [done|]. assert (Hc : (close_all (fk_table r)).1 = [9] /\ dt_closed (fk_table r) = false).
  { revert Hr. vm_compute. intros [= <-]. by split. }
  split; [apply Hc|]. apply (proj1 (fork_closes_sockets r (ex_intro _ demo_fork Hr) (proj2 Hc)) 9). rewrite (proj1 Hc). constructor.
Defined.

(** ** The generation *)

(** One line of processes, each the child of the one before, and the first client
    made in it: the process's [GENERATION] and [REGISTERED], the handlers
    [pthread_atfork] recorded, the threads at each point of [generation], and of
    the client the generation it recorded, the forks since and the runs of the
    handlers since. *)
Record Lineage := mkLineage {
  ln_generation : Z;
  ln_registered : bool;
  ln_handlers : Z;
  ln_looked : nat;       (* saw [REGISTERED] false, [pthread_atfork] to come *)
  ln_storing : nat;      (* in [register], the store to come *)
  ln_reading : nat;      (* the load of [GENERATION] to come *)
  ln_client : option Z;
  ln_forks : Z;
  ln_ran : Z;
}.
#[export] Instance eta_Lineage : Eta Lineage := fun r =>
  mkLineage (ln_generation r) (ln_registered r) (ln_handlers r) (ln_looked r) (ln_storing r) (ln_reading r)
    (ln_client r) (ln_forks r) (ln_ran r).

Definition Lineage_new : Lineage := mkLineage 0 false 0 0 0 0 None 0 0.

Inductive LineageLabel :=
| GLook       (* a thread loads [REGISTERED] *)
| GAtfork     (* it calls [pthread_atfork] *)
| GStore      (* it stores [REGISTERED] *)
| GMade       (* it loads [GENERATION]: a client is made *)
| GFork.      (* the process forks, by none of those threads: the line goes on in the child *)

(** The child handlers run, each [fetch_add(1)]. *)
Definition in_child (handlers generation : Z) : Z := w32 (generation + handlers).

Definition lineage_step (l : LineageLabel) (r : Lineage) : option Lineage :=
  match l with
  | GLook => Some (if ln_registered r then r <| ln_reading ::= S |> else r <| ln_looked ::= S |>)
  | GAtfork =>
      match ln_looked r with
      | S n => Some (r <| ln_looked := n |> <| ln_storing ::= S |> <| ln_handlers ::= Z.add 1 |>)
      | O => None
      end
  | GStore =>
      match ln_storing r with
      | S n => Some (r <| ln_storing := n |> <| ln_reading ::= S |> <| ln_registered := true |>)
      | O => None
      end
  | GMade =>
      match ln_reading r with
      | S n => Some (r <| ln_reading := n |>
                       <| ln_client ::= fun client => Some (default (ln_generation r) client) |>)
      | O => None
      end
  | GFork =>
      let r := match ln_client r with
               | Some _ => r <| ln_forks ::= Z.add 1 |> <| ln_ran ::= Z.add (ln_handlers r) |>
               | None => r
               end in
      Some (r <| ln_generation ::= in_child (ln_handlers r) |> <| ln_looked := 0%nat |> <| ln_storing := 0%nat |>
              <| ln_reading := 0%nat |>)
  end.

(** A call on the client fails with [UsedAfterFork]. *)
Definition used_after_fork (r : Lineage) (client : Z) : bool := negb (ln_generation r =? client).

Record lineage_ok (r : Lineage) : Prop := {
  lo_word : is_u32 (ln_generation r);
  lo_handlers : 0 <= ln_handlers r;
  lo_some : ln_registered r = true \/ (0 < ln_storing r)%nat \/ (0 < ln_reading r)%nat \/ is_Some (ln_client r) -> 1 <= ln_handlers r;
  lo_counts : match ln_client r with
              | Some client => 0 <= ln_forks r <= ln_ran r /\ is_u32 client /\ ln_generation r = w32 (client + ln_ran r)
                               /\ (ln_forks r = 0 -> ln_ran r = 0)
              | None => ln_forks r = 0 /\ ln_ran r = 0
              end;
}.

Lemma lineage_step_ok l r r' : lineage_step l r = Some r' -> lineage_ok r -> lineage_ok r'.
Proof.
  intros Hl [H1 H2 H3 H4]. destruct l; cbn [lineage_step] in Hl.
  - destruct (ln_registered r) eqn:Hreg; injection Hl as <-; split; cbn [upd ln_generation ln_handlers ln_registered ln_storing
      ln_reading ln_client ln_forks ln_ran]; try done; [intros _; apply H3; by left|]. rewrite Hreg. exact H3.
  - destruct (ln_looked r); [done|]. injection Hl as <-. split; cbn; try done; lia.
  - destruct (ln_storing r) as [|n] eqn:Hs; [done|]. injection Hl as <-.
    split; cbn; try done. intros _. apply H3. right. left. lia.
  - destruct (ln_reading r) as [|n] eqn:Hs; [done|]. injection Hl as <-.
    assert (Hh : 1 <= ln_handlers r) by (apply H3; right; right; left; lia). split; cbn; try done.
    destruct (ln_client r) as [client|]; cbn; [done|]. destruct H4 as [-> ->]. split_and!; [lia|lia|done| |done].
    rewrite Z.add_0_r. unfold w32. by rewrite Z.mod_small.
  - assert (Hw : forall g, is_u32 (in_child (ln_handlers r) g)) by (intros g; apply Z.mod_pos_bound; reflexivity).
    destruct (ln_client r) as [client|] eqn:Hc; injection Hl as <-; split; cbn; try done; rewrite ?Hc; try done.
    + intros _. apply H3. right. right. right. done.
    + assert (Hh : 1 <= ln_handlers r) by (apply H3; right; right; right; done). destruct H4 as (H5 & H6 & H7 & H8).
      split_and!; [lia|lia|done| |lia]. unfold in_child. rewrite H7. unfold w32. rewrite Zplus_mod_idemp_l. f_equal. lia.
    + intros [H|[H|[H|H]]]; [apply H3; by left|lia|lia|by destruct H].
Qed.

(** A client is used only by the process that made it.  However many threads made the first clients at once and
    whenever the process forked, in the process that made a client no call on it is refused; in a child of that
    process, and in a child's child, every call is, as long as the handlers ran fewer than 2^32 times since. *)
Theorem forked_client_is_foreign (r : Lineage) (client : Z) :
  steps_to lineage_step Lineage_new r -> ln_client r = Some client ->
  (ln_forks r = 0 -> used_after_fork r client = false)
  /\ (1 <= ln_forks r -> ln_ran r < M32 -> used_after_fork r client = true).
Proof.
  intros Hr Hc. assert (Hok : lineage_ok r).
  { eapply (steps_keep lineage_step lineage_ok); [intros; by eapply lineage_step_ok| |exact Hr].
    split; cbn; [done|done| |done]. intros [H|[H|[H|[? H]]]]; [done|lia|lia|done]. }
  destruct Hok as [_ _ _ H]. rewrite Hc in H. destruct H as (H5 & H6 & H7 & H8). unfold used_after_fork. rewrite H7.
  unfold w32, is_u32 in *. split.
  - intros H0. rewrite (H8 H0), Z.add_0_r, Z.mod_small, Z.eqb_refl by done. done.
  - intros Hf Hlt. apply negb_true_iff, Z.eqb_neq. intros Heq. destruct (Z_lt_le_dec (client + ln_ran r) M32).
    + rewrite Z.mod_small in Heq by lia. lia.
    + replace (client + ln_ran r) with ((client + ln_ran r - M32) + 1 * M32) in Heq by lia.
      rewrite Z_mod_plus_full, Z.mod_small in Heq by lia. lia.
Qed.

(** Two threads make the first clients at once, both handlers are recorded, and
    the process forks: its generation differs by two. *)
Definition demo_lineage : list LineageLabel := [GLook; GLook; GAtfork; GAtfork; GStore; GMade; GStore; GMade; GFork].

Definition demo_child : Lineage := mkLineage 2 true 2 0 0 0 (Some 0) 1 2.

Lemma demo_child_reached : run_steps lineage_step demo_lineage Lineage_new = Some demo_child.
Proof. vm_compute. reflexivity. Qed.

Lemma forked_client_is_foreign_witness : ln_generation demo_child = 2 /\ used_after_fork demo_child 0 = true.
Proof.
  split; [reflexivity|].
  apply (proj2 (forked_client_is_foreign demo_child 0 (ex_intro _ demo_lineage demo_child_reached) eq_refl));
    cbn [demo_child ln_forks ln_ran]; unfold M32; lia.
Defined.
