(* ===== verification/Ordered.v ===== *)
(** * Ordered: [BTreeMap], [BTreeSet] and [BinaryHeap] as sorted lists

    What the core reads of an ordered container is its order: the first entry,
    the entries in order, a range.  A sorted list without duplicate keys shows
    exactly that. *)
From S2P Require Import Prelude.
Open Scope Z_scope.

(** The strict order of a key type, as [Ord] gives it. *)
Class Key (K : Type) := key_ltb : K -> K -> bool.

#[export] Instance key_Z : Key Z := Z.ltb.
#[export] Instance key_nat : Key nat := Nat.ltb.
#[export] Instance key_pair {A B} `{Key A, Key B} : Key (A * B) :=
  fun x y => key_ltb x.1 y.1 || (negb (key_ltb y.1 x.1) && key_ltb x.2 y.2).

(** The order of strings, byte by byte. *)
Fixpoint str_ltb (a b : list Z) : bool :=
  match a, b with
  | _, [] => false
  | [], _ :: _ => true
  | x :: a, y :: b => (x <? y) || ((x =? y) && str_ltb a b)
  end.
#[export] Instance key_str : Key (list Z) := str_ltb.

(** What the proofs need of an order. *)
Class KeyOrder (K : Type) `{Key K} : Prop := {
  key_irrefl : forall x : K, key_ltb x x = false;
  key_trans : forall x y z : K, key_ltb x y = true -> key_ltb y z = true -> key_ltb x z = true;
  key_total : forall x y : K, key_ltb x y = false -> key_ltb y x = false -> x = y;
}.

#[export] Instance key_order_Z : KeyOrder Z.
Proof.
  split; unfold key_ltb, key_Z; intros.
  - apply Z.ltb_irrefl.
  - rewrite Z.ltb_lt in *. lia.
  - rewrite Z.ltb_ge in *. lia.
Qed.

#[export] Instance key_order_nat : KeyOrder nat.
Proof.
  split; unfold key_ltb, key_nat; intros.
  - apply Nat.ltb_irrefl.
  - rewrite Nat.ltb_lt in *. lia.
  - rewrite Nat.ltb_ge in *. lia.
Qed.

#[export] Instance key_order_pair {A B} `{KeyOrder A, KeyOrder B} : KeyOrder (A * B).
Proof.
  split; unfold key_ltb, key_pair; cbn [fst snd].
  - intros [a b]. cbn [fst snd]. by rewrite !key_irrefl.
  - intros [a1 b1] [a2 b2] [a3 b3]. cbn [fst snd]. rewrite !orb_true_iff, !andb_true_iff, !negb_true_iff.
    intros [E|[E F]] [G|[G I]].
    + left. by eapply key_trans.
    + left. destruct (key_ltb a2 a3) eqn:E23; [by eapply key_trans|].
      by rewrite <- (key_total a2 a3).
    + left. destruct (key_ltb a1 a2) eqn:E12; [by eapply key_trans|].
      by rewrite (key_total a1 a2).
    + destruct (key_ltb a1 a2) eqn:E12; destruct (key_ltb a2 a3) eqn:E23.
      * left. by eapply key_trans.
      * left. by rewrite <- (key_total a2 a3).
      * left. by rewrite (key_total a1 a2).
      * right. rewrite <- (key_total a2 a3) in * by done. split; [done|]. by eapply key_trans.
  - intros [a1 b1] [a2 b2]. cbn [fst snd].
    destruct (key_ltb a1 a2) eqn:E12; [done|]. destruct (key_ltb a2 a1) eqn:E21; [done|].
    cbn. intros. f_equal; by apply key_total.
Qed.

(** [take_while]. *)
Fixpoint take_while {A} (f : A -> bool) (l : list A) : list A :=
  match l with
  | x :: l => if f x then x :: take_while f l else []
  | [] => []
  end.

Section Map.
Context {K V : Type} `{Key K} `{EqDecision K}.

(** ** [BTreeMap] *)

Fixpoint bt_get (k : K) (m : list (K * V)) : option V :=
  match m with
  | [] => None
  | (k', v) :: m => if decide (k = k') then Some v else bt_get k m
  end.

Fixpoint bt_insert (k : K) (v : V) (m : list (K * V)) : list (K * V) :=
  match m with
  | [] => [(k, v)]
  | (k', v') :: m' =>
      if decide (k = k') then (k, v) :: m'
      else if key_ltb k k' then (k, v) :: m else (k', v') :: bt_insert k v m'
  end.

Fixpoint bt_remove (k : K) (m : list (K * V)) : list (K * V) :=
  match m with
  | [] => []
  | (k', v) :: m => if decide (k = k') then m else (k', v) :: bt_remove k m
  end.

Fixpoint bt_alter (f : V -> V) (k : K) (m : list (K * V)) : list (K * V) :=
  match m with
  | [] => []
  | (k', v) :: m => if decide (k = k') then (k', f v) :: m else (k', v) :: bt_alter f k m
  end.

Definition bt_has (k : K) (m : list (K * V)) : bool := bool_decide (is_Some (bt_get k m)).

(** [range(..=k).next_back()]. *)
Fixpoint bt_last_to (k : K) (m : list (K * V)) : option (K * V) :=
  match m with
  | [] => None
  | (k', v) :: m => if key_ltb k k' then None
                    else match bt_last_to k m with Some r => Some r | None => Some (k', v) end
  end.

(** [range(from..past)]. *)
Definition bt_range (from past : K) (m : list (K * V)) : list (K * V) :=
  filter (fun e : K * V => key_ltb e.1 from = false /\ key_ltb e.1 past = true) m.

(** [range((Excluded(k), Unbounded)).next()]. *)
Definition bt_after (k : K) (m : list (K * V)) : option (K * V) :=
  head (filter (fun e : K * V => key_ltb k e.1 = true) m).
End Map.

Section Set_.
Context {K : Type} `{Key K} `{EqDecision K}.

(** ** [BTreeSet] *)

Fixpoint bs_insert (k : K) (s : list K) : list K :=
  match s with
  | [] => [k]
  | k' :: s' => if decide (k = k') then s else if key_ltb k k' then k :: s else k' :: bs_insert k s'
  end.

Fixpoint bs_remove (k : K) (s : list K) : list K :=
  match s with
  | [] => []
  | k' :: s' => if decide (k = k') then s' else k' :: bs_remove k s'
  end.

(** ** [BinaryHeap] of [Reverse]d entries: the least first, equal ones kept *)

Fixpoint bh_push (k : K) (h : list K) : list K :=
  match h with
  | [] => [k]
  | k' :: h' => if key_ltb k' k then k' :: bh_push k h' else k :: h
  end.

(** [sort_unstable]. *)
Fixpoint sort_list (l : list K) : list K :=
  match l with
  | [] => []
  | k :: l => bh_push k (sort_list l)
  end.
End Set_.

(** ** Sorted maps *)

Section MapLaws.
Context {K V : Type} `{KeyOrder K} `{EqDecision K}.

Definition bt_ok (m : list (K * V)) : Prop := StronglySorted (fun x y => key_ltb x.1 y.1 = true) m.

Lemma bt_get_insert_eq k v (m : list (K * V)) : bt_get k (bt_insert k v m) = Some v.
Proof.
  induction m as [|[k' v'] m IH]; simpl; [by rewrite decide_True|].
  destruct (decide (k = k')) as [->|Hne]; simpl; [by rewrite decide_True|].
  destruct (key_ltb k k'); simpl; [by rewrite decide_True|]. by rewrite decide_False.
Qed.

Lemma bt_get_insert_ne k k' v (m : list (K * V)) : k <> k' -> bt_get k (bt_insert k' v m) = bt_get k m.
Proof.
  intros Hne. induction m as [|[k2 v2] m IH]; simpl; [by rewrite decide_False|].
  destruct (decide (k' = k2)) as [->|Hne2]; simpl; [by rewrite !decide_False|].
  destruct (key_ltb k' k2); simpl; [by rewrite (decide_False (P := k = k'))|]. by rewrite IH.
Qed.

Lemma bt_get_elem k v (m : list (K * V)) : bt_get k m = Some v -> (k, v) ∈ m.
Proof.
  induction m as [|[k' v'] m IH]; simpl; [done|].
  destruct (decide (k = k')) as [->|]; [intros [= ->]; by left | intros; right; auto].
Qed.

Lemma bt_elem_get k v (m : list (K * V)) : bt_ok m -> (k, v) ∈ m -> bt_get k m = Some v.
Proof.
  induction 1 as [|[k' v'] m Hm IH Hall]; [by intros ?%elem_of_nil|].
  intros [E|Hin]%elem_of_cons; simpl.
  - injection E as -> ->. by rewrite decide_True.
  - rewrite decide_False; [auto|]. intros ->. rewrite Forall_forall in Hall.
    specialize (Hall _ Hin). cbn in Hall. by rewrite key_irrefl in Hall.
Qed.

Lemma bt_insert_elem k v x (m : list (K * V)) :
  x ∈ bt_insert k v m -> x = (k, v) \/ x ∈ m.
Proof.
  induction m as [|[k' v'] m IH]; simpl; [rewrite elem_of_cons; naive_solver|].
  case_decide; [rewrite !elem_of_cons; naive_solver|].
  destruct (key_ltb k k'); rewrite !elem_of_cons; naive_solver.
Qed.

Lemma bt_insert_ok k v (m : list (K * V)) : bt_ok m -> bt_ok (bt_insert k v m).
Proof.
  intros Hm. induction Hm as [|[k' v'] m Hm IH Hall]; simpl; [repeat constructor|].
  rewrite Forall_forall in Hall.
  case_decide as Heq; [subst; constructor; [done|]; by rewrite Forall_forall|].
  destruct (key_ltb k k') eqn:Hlt; constructor.
  - constructor; [done|]. by rewrite Forall_forall.
  - rewrite Forall_forall. intros x [->|Hin]%elem_of_cons; [done|]. cbn in *.
    eapply key_trans; [done|]. by apply Hall.
  - done.
  - rewrite Forall_forall. intros x [->|Hin]%bt_insert_elem; [|by apply Hall]. cbn.
    destruct (key_ltb k' k) eqn:E; [done|]. by destruct Heq; apply key_total.
Qed.

Lemma bt_remove_elem k x (m : list (K * V)) : x ∈ bt_remove k m -> x ∈ m.
Proof.
  induction m as [|[k' v'] m IH]; simpl; [done|].
  case_decide; rewrite ?elem_of_cons; naive_solver.
Qed.

Lemma bt_remove_ok k (m : list (K * V)) : bt_ok m -> bt_ok (bt_remove k m).
Proof.
  induction 1 as [|[k' v'] m Hm IH Hall]; simpl; [constructor|].
  case_decide; [done|]. constructor; [done|].
  rewrite Forall_forall in *. intros x Hx%bt_remove_elem. by apply Hall.
Qed.

Lemma bt_get_remove_eq k (m : list (K * V)) : bt_ok m -> bt_get k (bt_remove k m) = None.
Proof.
  induction 1 as [|[k' v'] m Hm IH Hall]; simpl; [done|].
  case_decide as Heq; [subst|simpl; by rewrite decide_False].
  destruct (bt_get k' m) eqn:E; [|done]. apply bt_get_elem in E.
  rewrite Forall_forall in Hall. specialize (Hall _ E). cbn in Hall. by rewrite key_irrefl in Hall.
Qed.

Lemma bt_get_remove_ne k k' (m : list (K * V)) : k <> k' -> bt_get k (bt_remove k' m) = bt_get k m.
Proof.
  intros Hne. induction m as [|[k2 v2] m IH]; simpl; [done|].
  destruct (decide (k' = k2)) as [->|]; simpl; [by rewrite decide_False|]. by rewrite IH.
Qed.

Lemma bt_get_alter f k k' (m : list (K * V)) :
  bt_get k (bt_alter f k' m) = if decide (k = k') then f <$> bt_get k m else bt_get k m.
Proof.
  induction m as [|[k2 v2] m IH]; simpl; [by case_decide|].
  destruct (decide (k' = k2)) as [->|]; simpl.
  - destruct (decide (k = k2)); done.
  - rewrite IH. destruct (decide (k = k2)) as [->|]; [by rewrite decide_False|done].
Qed.

Lemma bt_alter_ok f k (m : list (K * V)) : bt_ok m -> bt_ok (bt_alter f k m).
Proof.
  induction 1 as [|[k' v'] m Hm IH Hall]; simpl; [constructor|].
  case_decide; constructor; try done.
  rewrite Forall_forall in *. intros [k2 v2] Hin. cbn.
  assert (exists v3, (k2, v3) ∈ m) as [v3 Hin3].
  { clear -Hin. induction m as [|[a b] m IH]; simpl in *; [by apply elem_of_nil in Hin|].
    case_decide; apply elem_of_cons in Hin as [[= -> ->]|Hin].
    - eexists. by left.
    - eexists. by right.
    - eexists. by left.
    - destruct IH as [v3 ?]; [done|]. exists v3. by right. }
  by apply (Hall (k2, v3)).
Qed.
End MapLaws.
