(* ===== verification/Messages.v ===== *)
(** * Messages: the protocol's messages and the code the core calls out to

    The records are those of multiplexer/Multiplexer.proto that the client
    reads or writes.  [Env] gathers what is not this repository's code: prost's
    encoding of each of them, the log crate's filter, and the values the
    process is started with.  Strings and bytes are lists of bytes. *)
From S2P Require Import Prelude Words Xxh3 Xxh3Simd Xxh3Paths Defaults Frame Records.
Open Scope Z_scope.

Abbreviation str := (list Z).

Record RoutingRule := mkRoutingRule {
  rr_peer : option str;
  rr_peer_type : option Z;
  rr_whom : option Z;
  rr_delivery_error_is_error : option bool;
  rr_report_delivery_error : option bool;
  rr_include_original_packet_in_report : option bool;
}.
#[export] Instance eta_RoutingRule : Eta RoutingRule := fun r =>
  mkRoutingRule (rr_peer r) (rr_peer_type r) (rr_whom r) (rr_delivery_error_is_error r)
    (rr_report_delivery_error r) (rr_include_original_packet_in_report r).

Record MultiplexerMessage := mkMessage {
  mm_id : option Z;
  mm_sender : option Z;
  mm_to : option Z;
  mm_report_delivery_error : option bool;
  mm_include_original_packet_in_report : option bool;
  mm_type : Z;
  mm_message : option (list Z);
  mm_compression : option Z;
  mm_timestamp : option Z;
  mm_references : option Z;
  mm_workflow : option str;
  mm_override_rrules : list RoutingRule;
  mm_logging_method : option Z;
  mm_key : option str;
  mm_batch : option (list Z);
  mm_confirm : list Z;
  mm_confirmation : option Z;
}.
#[export] Instance eta_MultiplexerMessage : Eta MultiplexerMessage := fun r =>
  mkMessage (mm_id r) (mm_sender r) (mm_to r) (mm_report_delivery_error r)
    (mm_include_original_packet_in_report r) (mm_type r) (mm_message r) (mm_compression r) (mm_timestamp r)
    (mm_references r) (mm_workflow r) (mm_override_rrules r) (mm_logging_method r) (mm_key r) (mm_batch r)
    (mm_confirm r) (mm_confirmation r).

(** [Default::default()]: nothing set, of type 0. *)
Definition MultiplexerMessage_default : MultiplexerMessage :=
  mkMessage None None None None None 0 None None None None None [] None None None [] None.

(** The bytes of a [Vec<u8>] and its capacity, which decides what is kept. *)
Record Vec8 := mkVec8 { v_bytes : list Z; v_capacity : Z }.
#[export] Instance eta_Vec8 : Eta Vec8 := fun r =>
  mkVec8 (v_bytes r) (v_capacity r).

Definition Vec8_new : Vec8 := mkVec8 [] 0.
Definition v_len (v : Vec8) : Z := Z.of_nat (length (v_bytes v)).

(** [extend_from_slice]: the capacity at least doubles when it must grow, from
    eight bytes on. *)
Definition Vec8_extend (v : Vec8) (bytes : list Z) : Vec8 :=
  let needed := v_len v + Z.of_nat (length bytes) in
  mkVec8 (v_bytes v ++ bytes)
    (if needed <=? v_capacity v then v_capacity v else Z.max (Z.max (2 * v_capacity v) needed) 8).

Definition Vec8_clear (v : Vec8) : Vec8 := mkVec8 [] (v_capacity v).
Definition Vec8_truncate (v : Vec8) (n : Z) : Vec8 := mkVec8 (take (Z.to_nat n) (v_bytes v)) (v_capacity v).

(** [BodiesEnvelope], with [BodiesBatch] inside it. *)
Record BodiesEnvelope := mkEnvelope {
  be_id : option Z;
  be_sender : option Z;
  be_type : Z;
  be_key : option str;
  be_batch : option (list Vec8);
  be_confirm : list Z;
}.
#[export] Instance eta_BodiesEnvelope : Eta BodiesEnvelope := fun r =>
  mkEnvelope (be_id r) (be_sender r) (be_type r) (be_key r) (be_batch r) (be_confirm r).

Definition BodiesEnvelope_default : BodiesEnvelope := mkEnvelope None None 0 None None [].

Record Confirmation := mkConfirmation { co_processed : list Z; co_refused : list Z; co_failed : list Z }.
#[export] Instance eta_Confirmation : Eta Confirmation := fun r =>
  mkConfirmation (co_processed r) (co_refused r) (co_failed r).

Record KeyFilter := mkKeyFilter { kf_type : Z; kf_pattern : list str }.
#[export] Instance eta_KeyFilter : Eta KeyFilter := fun r =>
  mkKeyFilter (kf_type r) (kf_pattern r).

Record Routing := mkRouting {
  ro_any : option bool;
  ro_all : option bool;
  ro_last_resort : option bool;
}.
#[export] Instance eta_Routing : Eta Routing := fun r =>
  mkRouting (ro_any r) (ro_all r) (ro_last_resort r).

Definition Routing_default : Routing := mkRouting None None None.

Record WelcomeMessage := mkWelcome {
  wm_type : Z;
  wm_id : Z;
  wm_routing : option Routing;
  wm_key_filter : list KeyFilter;
}.
#[export] Instance eta_WelcomeMessage : Eta WelcomeMessage := fun r =>
  mkWelcome (wm_type r) (wm_id r) (wm_routing r) (wm_key_filter r).

Record PeerControl := mkPeerControl { pc_routing : Routing; pc_key_filter : list KeyFilter }.
#[export] Instance eta_PeerControl : Eta PeerControl := fun r =>
  mkPeerControl (pc_routing r) (pc_key_filter r).

Record PeerStatus := mkPeerStatus {
  ps_multiplexer_id : option Z;
  ps_routing : option Routing;
  ps_error : option str;
  ps_key_filter : list KeyFilter;
}.
#[export] Instance eta_PeerStatus : Eta PeerStatus := fun r =>
  mkPeerStatus (ps_multiplexer_id r) (ps_routing r) (ps_error r) (ps_key_filter r).

Record DeliveryError := mkDeliveryError {
  de_packet_id : Z;
  de_failed_type : list Z;
  de_failed_to : option Z;
  de_is_known_type : option bool;
  de_original_message : option MultiplexerMessage;
  de_original_message_omitted : option bool;
}.
#[export] Instance eta_DeliveryError : Eta DeliveryError := fun r =>
  mkDeliveryError (de_packet_id r) (de_failed_type r) (de_failed_to r) (de_is_known_type r)
    (de_original_message r) (de_original_message_omitted r).

#[export] Instance KeyFilter_eq_dec : EqDecision KeyFilter.
Proof. solve_decision. Defined.

(** What is not this repository's code. *)
Class Env := {
  (** The processor, which picks the hash's path. *)
  env_cpu : Cpu;
  (** [log::log_enabled!]. *)
  log_enabled : Z -> bool;
  (** [fork::generation()], the same all through a process. *)
  generation : Z;
  (** prost: [encoded_len], [encode] and [decode] of each message. *)
  message_len : MultiplexerMessage -> Z;
  message_encode : MultiplexerMessage -> list Z;
  message_decode : list Z -> option MultiplexerMessage;
  envelope_len : BodiesEnvelope -> Z;
  envelope_encode : BodiesEnvelope -> list Z;
  batch_decode : list Z -> option (list (list Z));
  confirmation_encode : Confirmation -> list Z;
  confirmation_decode : list Z -> option Confirmation;
  welcome_encode : WelcomeMessage -> list Z;
  welcome_decode : list Z -> option WelcomeMessage;
  control_encode : PeerControl -> list Z;
  status_decode : list Z -> option PeerStatus;
  search_encode : Z -> list Z;
  delivery_error_encode : DeliveryError -> list Z;
  delivery_error_decode : list Z -> option DeliveryError;
}.

Section Encode.
Context {E : Env}.

(** [frame::encode] of a message. *)
Definition encode_message (message : MultiplexerMessage) : option (list Z) :=
  match encode mm_key message_len message_encode env_cpu message with
  | Ok bytes => Some bytes
  | Err _ => None
  end.

(** [frame::encode_into] of a batch's envelope. *)
Definition encode_envelope (envelope : BodiesEnvelope) (buffer : list Z) : option (list Z) :=
  match encode_into envelope_len envelope_encode env_cpu envelope (be_key envelope) buffer with
  | Ok bytes => Some bytes
  | Err _ => None
  end.
End Encode.
