(* ===== verification/CoreTypes.v ===== *)
(** * CoreTypes: the core's state (core/mod.rs and the structures of its parts)

    One record holds what the Rust [Core] holds.  What Rust shares by pointer is
    a store of the core, read by number: a message's tracker ([Arc<Tracker>]),
    a lane ([Arc<Inner>]) and a frame ([Arc<OutFrame>], whose [of_ref] is what
    [Arc::ptr_eq] compares).  Instants and durations are nanoseconds.  What the
    program is told goes into [cr_events], in order. *)
From S2P Require Import Prelude Words Defaults Frame SpanSet Timers LogSummary Records Ordered Messages.
Open Scope Z_scope.

(** ** What the parts share (core/mod.rs) *)

(** [ConnId], [QueryId], [FlushId]: numbers never reused; [TimerKey]. *)
Abbreviation ConnId := Z (only parsing).
Abbreviation QueryId := Z (only parsing).
Abbreviation FlushId := Z (only parsing).
Abbreviation TimerKey := Z (only parsing).
(** A tracker, a lane and a callback of the program's, by number. *)
Abbreviation TrackerId := Z (only parsing).
Abbreviation LaneId := Z (only parsing).
Abbreviation Callback := Z (only parsing).

(** What a connection was asked to connect to: a host and a port. *)
Abbreviation Target := (str * Z)%type.

(** An address: its octets and its port. *)
Abbreviation SocketAddr := (list Z * Z)%type.

Inductive SendState := Queued | Sent | Lost.
#[export] Instance SendState_eq_dec : EqDecision SendState.
Proof. solve_decision. Defined.

Record OutFrame := mkOutFrame {
  of_ref : Z;
  of_bytes : list Z;
  of_head : option (list Z);
  of_id : Z;
  of_type : Z;
  of_pinned : bool;
  of_for_all : bool;
  of_own : bool;
  of_number : Z;
  of_deadline : option Z;
  of_batch : option (list Z);
  of_confirmed : bool;
}.
#[export] Instance eta_OutFrame : Eta OutFrame := fun r =>
  mkOutFrame (of_ref r) (of_bytes r) (of_head r) (of_id r) (of_type r) (of_pinned r) (of_for_all r) (of_own r)
    (of_number r) (of_deadline r) (of_batch r) (of_confirmed r).

Definition wire_length (frame : OutFrame) : Z :=
  match of_head frame with Some head => Z.of_nat (length head) | None => 0 end
  + Z.of_nat (length (of_bytes frame)).

(** An entry of a connection's queue: its tracker, held weakly, and its frame. *)
Abbreviation QueueEntry := (TrackerId * OutFrame)%type.

Definition MAX_TIMEOUT : Z := from_secs 1000000000.

(** [checked_add] does not fail within MAX_TIMEOUT of any clock's reading. *)
Definition deadline_after (now : Z) (timeout : option Z) : option Z :=
  match timeout with
  | Some timeout => if timeout <=? MAX_TIMEOUT then Some (now + timeout) else None
  | None => None
  end.

Inductive Due :=
| DueSendHeartbit (conn : ConnId)
| DueRequireHeartbitSoon (conn : ConnId)
| DueRequireHeartbitNow (conn : ConnId)
| DueReadToTheEnd (conn : ConnId)
| DueConnectDeadline (conn : ConnId)
| DueReconnect (number : Z)
| DueOutboxExpiry
| DueLogSummary
| DueQuery (query : QueryId) (generation : Z)
| DueConnectWait (id : Z)
| DueFlushWait (id : Z)
| DueSendsExpire
| DueDrain
| DueBatches
| DueConfirmations.
#[export] Instance Due_eq_dec : EqDecision Due.
Proof. solve_decision. Defined.

Inductive Action :=
| ActResolve (conn : ConnId) (host : str) (port : Z)
| ActOpen (conn : ConnId) (address : SocketAddr)
| ActCancelConnect (conn : ConnId)
| ActStartReading (conn : ConnId)
| ActWrite (conn : ConnId) (head : option (list Z)) (bytes : list Z)
| ActShutdownWrite (conn : ConnId)
| ActShutdown (conn : ConnId)
| ActClose (conn : ConnId)
| ActCancelResolves.

(** ** A plain send (core/plain.rs) *)

Record Plain := mkPlain {
  pl_body : Vec8;
  pl_length : Z;
  pl_keyed : bool;
  pl_id : Z;
  pl_type : Z;
}.
#[export] Instance eta_Plain : Eta Plain := fun r =>
  mkPlain (pl_body r) (pl_length r) (pl_keyed r) (pl_id r) (pl_type r).

(** ** Deferred work; a command of the class on top is known by its number. *)

Inductive Posted :=
| PostConnectFailed (conn : ConnId) (why : str)
| PostProcessCallbacks
| PostFill
| PostFollowHandover (query : QueryId) (generation : Z) (request : bool)
| PostWriteOutStep
| PostCommand (command : Z)
| PostPlain (plain : Plain) (deadline : option Z)
| PostSendConfirmations.

(** ** The client (core/client/mod.rs) *)

Inductive DropReason := NoRoom | NoConnection | ConnectionLost | ShutDown | NotConfirmed | Failed.
#[export] Instance DropReason_eq_dec : EqDecision DropReason.
Proof. solve_decision. Defined.

Inductive DropLine :=
| IncomingQueueFull | NoOnMessage | RequestsQueueFull | SentNoRoom | SentNoConnection
| SentConnectionLost | SentShutDown | SentNotConfirmed | SentFailed | BatchNotSplit.

(** [DropLine as u32]. *)
Definition DropLine_number (line : DropLine) : Z :=
  match line with
  | IncomingQueueFull => 0 | NoOnMessage => 1 | RequestsQueueFull => 2 | SentNoRoom => 3
  | SentNoConnection => 4 | SentConnectionLost => 5 | SentShutDown => 6 | SentNotConfirmed => 7
  | SentFailed => 8 | BatchNotSplit => 9
  end.

Inductive IncomingMode := Queue | Dispatch.
#[export] Instance IncomingMode_eq_dec : EqDecision IncomingMode.
Proof. solve_decision. Defined.

(** A connection's handle; its live flag is the connection's, by number. *)
Record Wrapper := mkWrapper {
  wr_conn : option ConnId;
  wr_target : Target;
  wr_endpoint : option SocketAddr;
  wr_living : option ConnId;
  wr_owner : Z;
  wr_generation : Z;
}.
#[export] Instance eta_Wrapper : Eta Wrapper := fun r =>
  mkWrapper (wr_conn r) (wr_target r) (wr_endpoint r) (wr_living r) (wr_owner r) (wr_generation r).

Record Incoming := mkIncoming { in_message : MultiplexerMessage; in_connection : Wrapper }.
#[export] Instance eta_Incoming : Eta Incoming := fun r =>
  mkIncoming (in_message r) (in_connection r).

Record ClientState := mkClientState {
  cl_mode : IncomingMode;
  cl_shuts_down : bool;
  cl_routing : Routing;
  cl_key_filters : list (Z * list str);
  cl_key_filters_message : list KeyFilter;
  cl_routing_version : Z;
  cl_acknowledged_callbacks : list Callback;
  cl_enqueued : Z;
  cl_dequeued : Z;
  cl_confirmed : bool;
  cl_confirmed_enqueued : Z;
  cl_acknowledged_version : Z;
  cl_acknowledged_wake : bool;
  cl_incoming : list Incoming;
  cl_incoming_max : Z;
  cl_refusing : bool;
  cl_frames_handled : Z;
  cl_read_drains_wanted : Z;
  cl_drop_lines : LogSummary;
  cl_drop_lines_timer : option TimerKey;
  cl_drop_observer : bool;
  cl_dropped : Z;
  cl_incoming_dropped : Z;
  cl_by_target : list (Target * ConnId);
  cl_reconnects : list (Z * (TimerKey * Target));
  cl_next_reconnect : Z;
  cl_first_connection_over : list Target;
  cl_reached_by_target : list (Target * Z);
  cl_one_multiplexer_said : list (Target * Target);
  cl_closing : list ConnId;
  cl_dropped_while_closing : Z;
  cl_welcome : option OutFrame;
  cl_last_seen : SpanSet;
  cl_heartbit : option OutFrame;
}.
#[export] Instance eta_ClientState : Eta ClientState := fun r =>
  mkClientState (cl_mode r) (cl_shuts_down r) (cl_routing r) (cl_key_filters r) (cl_key_filters_message r)
    (cl_routing_version r) (cl_acknowledged_callbacks r) (cl_enqueued r) (cl_dequeued r) (cl_confirmed r)
    (cl_confirmed_enqueued r) (cl_acknowledged_version r) (cl_acknowledged_wake r) (cl_incoming r)
    (cl_incoming_max r) (cl_refusing r) (cl_frames_handled r) (cl_read_drains_wanted r) (cl_drop_lines r)
    (cl_drop_lines_timer r) (cl_drop_observer r) (cl_dropped r) (cl_incoming_dropped r) (cl_by_target r)
    (cl_reconnects r) (cl_next_reconnect r) (cl_first_connection_over r) (cl_reached_by_target r)
    (cl_one_multiplexer_said r) (cl_closing r) (cl_dropped_while_closing r) (cl_welcome r) (cl_last_seen r)
    (cl_heartbit r).

(** ** A connection (core/connection.rs) *)

Definition DEFAULT_OUT_QUEUE_SIZE : Z := 1024.

Inductive Channel := Free | Busy | Broken.
#[export] Instance Channel_eq_dec : EqDecision Channel.
Proof. solve_decision. Defined.

Record Conn := mkConn {
  cn_target : Target;
  cn_expected_endpoint : option SocketAddr;
  cn_candidates : list SocketAddr;
  cn_next_candidate : Z;
  cn_connecting : bool;
  cn_connect_timed_out : bool;
  cn_connect_deadline : option TimerKey;
  cn_socket_open : bool;
  cn_routing_in_welcome : Z;
  cn_routing_acknowledged : Z;
  cn_routing_request_id : Z;
  cn_peer_type : Z;
  cn_peer_id : Z;
  cn_living : bool;
  cn_shuts_down : bool;
  cn_registered : bool;
  cn_told_gone : bool;
  cn_delivering : bool;
  cn_dropped_while_closing : Z;
  cn_reading : bool;
  cn_send_heartbit_timer : option TimerKey;
  cn_quiet_since : option Z;
  cn_require_heartbit_timer : option TimerKey;
  cn_heard_at : option Z;
  cn_silence_second_wait : bool;
  cn_outgoing : list QueueEntry;
  cn_outgoing_max : Z;
  cn_out : Channel;
  cn_write_in_flight : bool;
  cn_notify_when_idle : bool;
  cn_notify_when_read_drained : bool;
  cn_set_aside : list QueueEntry;
  cn_heartbit : OutFrame;
}.
#[export] Instance eta_Conn : Eta Conn := fun r =>
  mkConn (cn_target r) (cn_expected_endpoint r) (cn_candidates r) (cn_next_candidate r) (cn_connecting r)
    (cn_connect_timed_out r) (cn_connect_deadline r) (cn_socket_open r) (cn_routing_in_welcome r)
    (cn_routing_acknowledged r) (cn_routing_request_id r) (cn_peer_type r) (cn_peer_id r) (cn_living r)
    (cn_shuts_down r) (cn_registered r) (cn_told_gone r) (cn_delivering r) (cn_dropped_while_closing r)
    (cn_reading r) (cn_send_heartbit_timer r) (cn_quiet_since r) (cn_require_heartbit_timer r) (cn_heard_at r)
    (cn_silence_second_wait r) (cn_outgoing r) (cn_outgoing_max r) (cn_out r) (cn_write_in_flight r)
    (cn_notify_when_idle r) (cn_notify_when_read_drained r) (cn_set_aside r) (cn_heartbit r).

Definition Conn_new (target : Target) (heartbit : OutFrame) : Conn :=
  mkConn target None [] 0 false false None false 0 0 0 0 0 false false false false true 0 false
    None None None None false [] 1 Free false false false [] heartbit.

(** ** Lanes (core/lane.rs): what a lane's pointer leads to. *)

Record LaneInner := mkLaneInner {
  la_pinned : bool;
  la_generation : Z;
  la_owner : Z;
  la_connection : option Wrapper;
  la_holds : bool;
}.
#[export] Instance eta_LaneInner : Eta LaneInner := fun r =>
  mkLaneInner (la_pinned r) (la_generation r) (la_owner r) (la_connection r) (la_holds r).

(** ** The outbox (core/outbox/state.rs) *)

(** A key into the slab: an index and a generation. *)
Abbreviation WaitKey := (nat * Z)%type.

Record Waiting := mkWaiting {
  wt_frame : option OutFrame;
  wt_tracker : TrackerId;
  wt_number : Z;
  wt_deadline : option Z;
  wt_on : option ConnId;
  wt_copy : bool;
  wt_all : bool;
  wt_lane : option LaneId;
  wt_over : bool;
}.
#[export] Instance eta_Waiting : Eta Waiting := fun r =>
  mkWaiting (wt_frame r) (wt_tracker r) (wt_number r) (wt_deadline r) (wt_on r) (wt_copy r) (wt_all r)
    (wt_lane r) (wt_over r).

Record Backlog := mkBacklog {
  bl_conn : ConnId;
  bl_waiting : list WaitKey;
  bl_live : Z;
}.
#[export] Instance eta_Backlog : Eta Backlog := fun r =>
  mkBacklog (bl_conn r) (bl_waiting r) (bl_live r).

Inductive SendDone :=
| DoneCallback (callback : Callback)
| DoneSettle (id : Z)
| DoneBatch (ends : list (option SendDone * option TrackerId))
| DoneConfirmed (batch : Z).

Inductive FlushDone := FlushWaitDone (id : Z) | FlushDrain.

Record Flush := mkFlush {
  fl_last_number : Z;
  fl_waiting : Z;
  fl_marks : list (ConnId * TrackerId);
  fl_done : option FlushDone;
  fl_flushed : bool;
  fl_lost : bool;
  fl_confirm_mark : Z;
}.
#[export] Instance eta_Flush : Eta Flush := fun r =>
  mkFlush (fl_last_number r) (fl_waiting r) (fl_marks r) (fl_done r) (fl_flushed r) (fl_lost r)
    (fl_confirm_mark r).

Record Follow := mkFollow {
  fo_done : option SendDone;
  fo_copies : list TrackerId;
  fo_live : Z;
  fo_over : bool;
}.
#[export] Instance eta_Follow : Eta Follow := fun r =>
  mkFollow (fo_done r) (fo_copies r) (fo_live r) (fo_over r).

Record Handover := mkHandover {
  ho_target : Target;
  ho_from : option ConnId;
  ho_to : ConnId;
  ho_to_target : Target;
}.
#[export] Instance eta_Handover : Eta Handover := fun r =>
  mkHandover (ho_target r) (ho_from r) (ho_to r) (ho_to_target r).

Record Outbox := mkOutbox {
  ob_slab : list (option Waiting);
  ob_generations : list Z;
  ob_free : list nat;
  ob_backlogs : list Backlog;
  ob_waiting : Z;
  ob_displaced : list WaitKey;
  ob_held : list WaitKey;
  ob_held_live : Z;
  ob_last_number : Z;
  ob_retries : Z;
  ob_expiring : list (Z * WaitKey);
  ob_compact_at : Z;
  ob_timer : option TimerKey;
  ob_armed : option Z;
  ob_flushes : list FlushId;
  ob_flush_states : gmap FlushId Flush;
  ob_next_flush : Z;
  ob_moved : gmap TrackerId Wrapper;
  ob_moved_compact_at : Z;
  ob_handovers : list Handover;
  ob_follows : gmap TrackerId Z;
  ob_follow_states : gmap Z Follow;
  ob_next_follow : Z;
  ob_follow_events : list (TrackerId * bool);
  ob_drop_events : list (Z * DropReason);
  ob_callbacks_posted : bool;
}.
#[export] Instance eta_Outbox : Eta Outbox := fun r =>
  mkOutbox (ob_slab r) (ob_generations r) (ob_free r) (ob_backlogs r) (ob_waiting r) (ob_displaced r)
    (ob_held r) (ob_held_live r) (ob_last_number r) (ob_retries r) (ob_expiring r) (ob_compact_at r)
    (ob_timer r) (ob_armed r) (ob_flushes r) (ob_flush_states r) (ob_next_flush r) (ob_moved r)
    (ob_moved_compact_at r) (ob_handovers r) (ob_follows r) (ob_follow_states r) (ob_next_follow r)
    (ob_follow_events r) (ob_drop_events r) (ob_callbacks_posted r).

Definition Outbox_default : Outbox :=
  mkOutbox [] [] [] [] 0 [] [] 0 0 0 [] 0 None None [] ∅ 0 ∅ 0 [] ∅ ∅ 0 [] [] false.

(** ** Batching (core/batching.rs) and what it keeps (core/bodies.rs) *)

Record Delivery := mkDelivery {
  dl_batch : bool;
  dl_max_records : Z;
  dl_max_bytes : Z;
  dl_max_delay : Z;
  dl_confirm : bool;
  dl_retry_after : Z;
  dl_timeout : option Z;
}.
#[export] Instance eta_Delivery : Eta Delivery := fun r =>
  mkDelivery (dl_batch r) (dl_max_records r) (dl_max_bytes r) (dl_max_delay r) (dl_confirm r)
    (dl_retry_after r) (dl_timeout r).

Definition Delivery_default : Delivery :=
  mkDelivery false DEFAULT_BATCH_MAX_RECORDS DEFAULT_BATCH_MAX_BYTES 0 false DEFAULT_RETRY_AFTER
    (Some DEFAULT_TIMEOUT).

Inductive BatchMark :=
| MarkNone
| MarkEvent (key : option str)
| MarkBatch (ids : list Z)
| MarkConfirmed.

(** A frame as a caller hands it over. *)
Record FrameIn := mkFrameIn {
  fi_bytes : list Z;
  fi_head : option (list Z);
  fi_id : Z;
  fi_type : Z;
  fi_batch : BatchMark;
}.
#[export] Instance eta_FrameIn : Eta FrameIn := fun r =>
  mkFrameIn (fi_bytes r) (fi_head r) (fi_id r) (fi_type r) (fi_batch r).

Inductive Joining := JoinFrame (frame : FrameIn) | JoinPlain (plain : Plain).

Record BatchRecord := mkBatchRecord {
  br_body : Vec8;
  br_id : Z;
  br_done : option SendDone;
  br_tracker : option TrackerId;
  br_number : Z;
}.
#[export] Instance eta_BatchRecord : Eta BatchRecord := fun r =>
  mkBatchRecord (br_body r) (br_id r) (br_done r) (br_tracker r) (br_number r).

Record Batch := mkBatch {
  ba_type : Z;
  ba_key : option str;
  ba_delivery : Delivery;
  ba_records : list BatchRecord;
  ba_bytes : Z;
  ba_deadline : option Z;
  ba_waits_for_idle : bool;
  ba_due : option Z;
  ba_backoff : Z;
}.
#[export] Instance eta_Batch : Eta Batch := fun r =>
  mkBatch (ba_type r) (ba_key r) (ba_delivery r) (ba_records r) (ba_bytes r) (ba_deadline r)
    (ba_waits_for_idle r) (ba_due r) (ba_backoff r).

Record Bodies := mkBodies { bo_kept : list Vec8; bo_bytes : Z }.
#[export] Instance eta_Bodies : Eta Bodies := fun r =>
  mkBodies (bo_kept r) (bo_bytes r).

Record Batcher := mkBatcher {
  bc_by_type : gmap Z Delivery;
  bc_by_key : gmap Z (gmap str Delivery);
  bc_open : list (Z * Batch);
  bc_unkeyed : gmap Z Z;
  bc_keyed : gmap Z (gmap str Z);
  bc_began : Z;
  bc_waiting_for_idle : list Z;
  bc_by_due : list (Z * Z);
  bc_timer : option TimerKey;
  bc_armed : option Z;
  bc_envelope : BodiesEnvelope;
  bc_bodies : Bodies;
  bc_frames : list Vec8;
}.
#[export] Instance eta_Batcher : Eta Batcher := fun r =>
  mkBatcher (bc_by_type r) (bc_by_key r) (bc_open r) (bc_unkeyed r) (bc_keyed r) (bc_began r)
    (bc_waiting_for_idle r) (bc_by_due r) (bc_timer r) (bc_armed r) (bc_envelope r) (bc_bodies r)
    (bc_frames r).

Definition Batcher_default : Batcher :=
  mkBatcher ∅ ∅ [] ∅ ∅ 0 [] [] None None BodiesEnvelope_default (mkBodies [] 0) [].

(** ** Confirmed sends (core/confirming/) *)

Inductive Confirmed := Processed | Refused | ConfirmedFailed.

Record Followed := mkFollowed {
  fw_index : Z;
  fw_done : option SendDone;
  fw_tracker : option TrackerId;
}.
#[export] Instance eta_Followed : Eta Followed := fun r =>
  mkFollowed (fw_index r) (fw_done r) (fw_tracker r).

Record Confirming := mkConfirming {
  cg_type : Z;
  cg_key : option str;
  cg_delivery : Delivery;
  cg_frame : list Z;
  cg_ids : list Z;
  cg_first_number : Z;
  cg_numbers : list Z;
  cg_followed : list Followed;
  cg_resolved : list Z;
  cg_unresolved : Z;
  cg_run_keys : list Z;
  cg_placed_on : option ConnId;
  cg_frame_state : option TrackerId;
  cg_written : bool;
  cg_retry_at : option Z;
  cg_backoff : Z;
  cg_deadline : option Z;
  cg_due : option Z;
}.
#[export] Instance eta_Confirming : Eta Confirming := fun r =>
  mkConfirming (cg_type r) (cg_key r) (cg_delivery r) (cg_frame r) (cg_ids r) (cg_first_number r)
    (cg_numbers r) (cg_followed r) (cg_resolved r) (cg_unresolved r) (cg_run_keys r) (cg_placed_on r)
    (cg_frame_state r) (cg_written r) (cg_retry_at r) (cg_backoff r) (cg_deadline r) (cg_due r).

Record NumberRun := mkNumberRun {
  rn_batch : Z;
  rn_index : Z;
  rn_count : Z;
  rn_unresolved : Z;
}.
#[export] Instance eta_NumberRun : Eta NumberRun := fun r =>
  mkNumberRun (rn_batch r) (rn_index r) (rn_count r) (rn_unresolved r).

Record Segment := mkSegment { sg_batch : Z; sg_key : Z; sg_begin : Z; sg_end : Z }.
#[export] Instance eta_Segment : Eta Segment := fun r =>
  mkSegment (sg_batch r) (sg_key r) (sg_begin r) (sg_end r).

Record Owed := mkOwed {
  ow_connection : option ConnId;
  ow_processed : list Z;
  ow_refused : list Z;
  ow_failed : list Z;
  ow_count : Z;
}.
#[export] Instance eta_Owed : Eta Owed := fun r =>
  mkOwed (ow_connection r) (ow_processed r) (ow_refused r) (ow_failed r) (ow_count r).

Definition Owed_default : Owed := mkOwed None [] [] [] 0.

Record Confirmer := mkConfirmer {
  cf_last_number : Z;
  cf_runs : list (Z * NumberRun);
  cf_by_id : gmap Z Confirming;
  cf_by_due : list (Z * Z);
  cf_timer : option TimerKey;
  cf_armed : option Z;
  cf_firing : bool;
  cf_unconfirmed : Z;
  cf_sent_again : Z;
  cf_ends : list (SendDone * Z);
  cf_owed : gmap Z Owed;
  cf_owed_count : Z;
  cf_posted : bool;
}.
#[export] Instance eta_Confirmer : Eta Confirmer := fun r =>
  mkConfirmer (cf_last_number r) (cf_runs r) (cf_by_id r) (cf_by_due r) (cf_timer r) (cf_armed r)
    (cf_firing r) (cf_unconfirmed r) (cf_sent_again r) (cf_ends r) (cf_owed r) (cf_owed_count r) (cf_posted r).

Definition Confirmer_default : Confirmer := mkConfirmer 0 [] ∅ [] None None false 0 0 [] ∅ 0 false.

(** ** Queries (core/query.rs) *)

Inductive Outcome :=
| Replied (reply : Incoming)
| TimedOut
| QueryFailed
| QueryNotConnected
| QueryShutDown.

Inductive Stage := StRequest | StSearch | StDirect | StWaiting | StLate.
#[export] Instance Stage_eq_dec : EqDecision Stage.
Proof. solve_decision. Defined.

Record InFlight := mkInFlight {
  if_stage : Stage;
  if_resume : Stage;
  if_direct_to : Z;
  if_sent_via : option Wrapper;
  if_sent_state : option TrackerId;
  if_request_state : option TrackerId;
  if_direct_state : option TrackerId;
  if_prototype : MultiplexerMessage;
  if_timeout : option Z;
  if_deadline : option Z;
  if_lane : option LaneId;
  if_request_id : Z;
  if_search_id : Z;
  if_direct_id : Z;
  if_taken : bool;
  if_pending : list Z;
  if_searched : list Wrapper;
  if_search_ids : list Z;
  if_generation : Z;
  if_listed : bool;
  if_callback : option Callback;
  if_received : option Callback;
  if_timer : option TimerKey;
}.
#[export] Instance eta_InFlight : Eta InFlight := fun r =>
  mkInFlight (if_stage r) (if_resume r) (if_direct_to r) (if_sent_via r) (if_sent_state r)
    (if_request_state r) (if_direct_state r) (if_prototype r) (if_timeout r) (if_deadline r) (if_lane r)
    (if_request_id r) (if_search_id r) (if_direct_id r) (if_taken r) (if_pending r) (if_searched r)
    (if_search_ids r) (if_generation r) (if_listed r) (if_callback r) (if_received r) (if_timer r).

Record Queries := mkQueries {
  qu_in_flight : list (QueryId * InFlight);
  qu_next_query : Z;
  qu_by_id : gmap Z QueryId;
  qu_waiting : list QueryId;
  qu_waiting_ended : Z;
  qu_finished_order : list (Z * Z);
  qu_finished_ids : gset Z;
  qu_retries : Z;
}.
#[export] Instance eta_Queries : Eta Queries := fun r =>
  mkQueries (qu_in_flight r) (qu_next_query r) (qu_by_id r) (qu_waiting r) (qu_waiting_ended r)
    (qu_finished_order r) (qu_finished_ids r) (qu_retries r).

Definition Queries_default : Queries := mkQueries [] 0 ∅ [] 0 [] ∅ 0.

(** ** The threaded client (core/threaded.rs) *)

Record ConnectWaiter := mkConnectWaiter {
  cw_id : Z;
  cw_connection : Wrapper;
  cw_done : option Callback;
  cw_timer : option TimerKey;
}.
#[export] Instance eta_ConnectWaiter : Eta ConnectWaiter := fun r =>
  mkConnectWaiter (cw_id r) (cw_connection r) (cw_done r) (cw_timer r).

Record FlushWait := mkFlushWait {
  fw_id : Z;
  fw_flush : option FlushId;
  fw_wait_done : option Callback;
  fw_timer : option TimerKey;
}.
#[export] Instance eta_FlushWait : Eta FlushWait := fun r =>
  mkFlushWait (fw_id r) (fw_flush r) (fw_wait_done r) (fw_timer r).

Record InHand := mkInHand {
  ih_sender : Z;
  ih_number : Z;
  ih_confirmed : bool;
  ih_made : bool;
}.
#[export] Instance eta_InHand : Eta InHand := fun r =>
  mkInHand (ih_sender r) (ih_number r) (ih_confirmed r) (ih_made r).

Record PendingSend := mkPendingSend { pd_wait : bool; pd_settled : option Callback }.
#[export] Instance eta_PendingSend : Eta PendingSend := fun r =>
  mkPendingSend (pd_wait r) (pd_settled r).

(** [HandedConfirmation] (inbox.rs). *)
Record HandedConfirmation := mkHanded { hc_sender : Z; hc_number : Z; hc_outcome : Confirmed }.
#[export] Instance eta_HandedConfirmation : Eta HandedConfirmation := fun r =>
  mkHanded (hc_sender r) (hc_number r) (hc_outcome r).

(** A queue of messages of the program's is known by its number; a
    subscription whose stream was dropped is gone from the list. *)
Record Threaded := mkThreaded {
  th_on_message : bool;
  th_search_policy : bool;
  th_confirms_itself : bool;
  th_in_hand : InHand;
  th_io_inbox : option (list HandedConfirmation);
  th_inbox : option Z;
  th_subscriptions : list (option Z * Z);
  th_connects : list ConnectWaiter;
  th_flush_waits : list FlushWait;
  th_next_wait : Z;
  th_sends : gmap Z PendingSend;
  th_next_send : Z;
  th_expiring : list (Z * Z);
  th_expiring_compact_at : Z;
  th_expiry_timer : option TimerKey;
  th_expiry_armed : option Z;
  th_shut_down : bool;
  th_drain : option FlushId;
  th_drain_timer : option TimerKey;
  th_write_out_sent : Z;
  th_torn_down : bool;
}.
#[export] Instance eta_Threaded : Eta Threaded := fun r =>
  mkThreaded (th_on_message r) (th_search_policy r) (th_confirms_itself r) (th_in_hand r) (th_io_inbox r)
    (th_inbox r) (th_subscriptions r) (th_connects r) (th_flush_waits r) (th_next_wait r) (th_sends r)
    (th_next_send r) (th_expiring r) (th_expiring_compact_at r) (th_expiry_timer r) (th_expiry_armed r)
    (th_shut_down r) (th_drain r) (th_drain_timer r) (th_write_out_sent r) (th_torn_down r).

Definition Threaded_default : Threaded :=
  mkThreaded false false false (mkInHand 0 0 false false) None None [] [] [] 0 ∅ 0 [] 0 None None
    false None None 0 false.

(** ** What the program is told, and the lines that are counted *)

Inductive Event :=
| EvSendDone (callback : Callback) (written : Z)
| EvSettled (callback : Callback) (written : Z) (not_connected : bool)
| EvDropped (id : Z) (reason : DropReason)
| EvFlushAll (callback : Callback) (flushed : bool)
| EvConnect (callback : Callback) (up : bool)
| EvQuery (callback : Callback) (outcome : Outcome)
| EvReceived (callback : Callback) (sender : Z)
| EvAcknowledged (callback : Callback)
| EvQueuePush (queue : Z) (incoming : Incoming)
| EvQueueClose (queue : Z)
| EvOnMessage (incoming : Incoming)
| EvSearchPolicy (incoming : Incoming)
| EvLines (lines : list Line).

(** ** The core *)

Record Core := mkCore {
  cr_now : Z;
  cr_timers : Timers (Due := Due);
  cr_posted : list Posted;
  cr_actions : list Action;
  cr_ids : Z;
  cr_instance_id : Z;
  cr_peer_type : Z;
  cr_conns : gmap ConnId Conn;
  cr_next_conn : Z;
  cr_by_peer_id : list (Z * ConnId);
  cr_round_robin : list ConnId;
  cr_client : ClientState;
  cr_outbox : Outbox;
  cr_batcher : Batcher;
  cr_confirmer : Confirmer;
  cr_queries : Queries;
  cr_queries_fill_posted : bool;
  cr_threaded : Threaded;
  (** The stores: what each tracker reads, the lanes, the frames' numbers. *)
  cr_trackers : gmap TrackerId SendState;
  cr_next_tracker : Z;
  cr_lanes : gmap LaneId LaneInner;
  cr_next_lane : Z;
  cr_next_ref : Z;
  (** The trackers the calls of the class on top hold. *)
  cr_kept : list TrackerId;
  cr_events : list Event;
}.
#[export] Instance eta_Core : Eta Core := fun r =>
  mkCore (cr_now r) (cr_timers r) (cr_posted r) (cr_actions r) (cr_ids r) (cr_instance_id r) (cr_peer_type r)
    (cr_conns r) (cr_next_conn r) (cr_by_peer_id r) (cr_round_robin r) (cr_client r) (cr_outbox r)
    (cr_batcher r) (cr_confirmer r) (cr_queries r) (cr_queries_fill_posted r) (cr_threaded r) (cr_trackers r)
    (cr_next_tracker r) (cr_lanes r) (cr_next_lane r) (cr_next_ref r) (cr_kept r) (cr_events r).
