(* ===== verification/CoreBase.v ===== *)
(** * CoreBase: the steps every part of the core is made of

    The reads and writes of the core's parts, of its timers and of what it
    shares by pointer; [wrap], the lanes' operations (core/lane.rs) and the
    counts of a tracker's holders. *)
From S2P Require Import Prelude Words Ids Timers LogSummary Records Ordered Messages CoreTypes.
Open Scope Z_scope.

Abbreviation CM A := (M Core A).

(** ** The parts *)

Definition mod_client (f : ClientState -> ClientState) : CM unit := modify (fun c => c <| cr_client ::= f |>).
Definition mod_outbox (f : Outbox -> Outbox) : CM unit := modify (fun c => c <| cr_outbox ::= f |>).
Definition mod_batcher (f : Batcher -> Batcher) : CM unit := modify (fun c => c <| cr_batcher ::= f |>).
Definition mod_confirmer (f : Confirmer -> Confirmer) : CM unit := modify (fun c => c <| cr_confirmer ::= f |>).
Definition mod_queries (f : Queries -> Queries) : CM unit := modify (fun c => c <| cr_queries ::= f |>).
Definition mod_threaded (f : Threaded -> Threaded) : CM unit := modify (fun c => c <| cr_threaded ::= f |>).

Definition get_conn (conn : Z) : CM (option Conn) := gets (fun c => cr_conns c !! conn).

(** [conns.get_mut(&conn)] changed by [f]; nothing for a connection gone. *)
Definition mod_conn (conn : Z) (f : Conn -> Conn) : CM unit :=
  modify (fun c => c <| cr_conns ::= alter f conn |>).

Definition get_now : CM Z := gets cr_now.
Definition push_action (a : Action) : CM unit := modify (fun c => c <| cr_actions ::= fun l => l ++ [a] |>).
Definition push_posted (p : Posted) : CM unit := modify (fun c => c <| cr_posted ::= fun l => l ++ [p] |>).

(** A callback of the program's runs, guarded: what it is told, in order. *)
Definition tell (e : Event) : CM unit := modify (fun c => c <| cr_events ::= fun l => l ++ [e] |>).

(** ** Timers *)

Definition arm (deadline : Z) (due : Due) : CM Z :=
  fun c => let '(t, key) := Timers_arm (cr_timers c) deadline due in (key, c <| cr_timers := t |>).

(** [cancel] and [rearm] of a slot: the slot after. *)
Definition cancel (slot : option Z) : CM (option Z) :=
  fun c => let '(t, slot) := Timers_cancel (cr_timers c) slot in (slot, c <| cr_timers := t |>).

Definition rearm (slot : option Z) (deadline : Z) (due : Due) : CM (option Z) :=
  fun c => let '(t, slot) := Timers_rearm (cr_timers c) slot deadline due in (slot, c <| cr_timers := t |>).

(** ** Ids *)

(** [random64]: [Ids::next], which two turns are enough for ([next_total]). *)
Definition random64 : CM Z :=
  fun c => match next (cr_ids c) with
           | Some (id, counter) => (id, c <| cr_ids := counter |>)
           | None => (0, c)
           end.

(** ** Trackers *)

Definition Tracker_new (state : SendState) : CM Z :=
  fun c => let id := cr_next_tracker c + 1 in
           (id, c <| cr_next_tracker := id |> <| cr_trackers ::= <[id := state]> |>).

Definition tracker_state (c : Core) (tracker : Z) : SendState := default Lost (cr_trackers c !! tracker).
Definition Tracker_get (tracker : Z) : CM SendState := gets (fun c => tracker_state c tracker).
Definition Tracker_set (tracker : Z) (state : SendState) : CM unit :=
  modify (fun c => c <| cr_trackers ::= <[tracker := state]> |>).

(** How many times [tracker] occurs among [l]. *)
Definition occurs (tracker : Z) (l : list Z) : Z :=
  Z.of_nat (length (filter (fun t => t = tracker) l)).

Definition opt_list (o : option Z) : list Z := match o with Some t => [t] | None => [] end.

(** Every strong reference to a tracker the core's parts hold, that of a frame
    queued: a waiting entry's, a flush's marks, a followed send's copies and the
    events noted of them, a query's attempts, a confirmed batch's frame, and
    those the class on top keeps.  (The trackers of the messages inside a batch
    are never queued and never counted.) *)
Definition references (c : Core) : list Z :=
  let o := cr_outbox c in
  omap (fun w => wt_tracker <$> w) (ob_slab o)
  ++ concat (map (fun f : Z * Flush => map snd (fl_marks f.2)) (map_to_list (ob_flush_states o)))
  ++ concat (map (fun f : Z * Follow => fo_copies f.2) (map_to_list (ob_follow_states o)))
  ++ map fst (ob_follow_events o)
  ++ concat (map (fun q : Z * InFlight => opt_list (if_sent_state q.2) ++ opt_list (if_request_state q.2)
                                          ++ opt_list (if_direct_state q.2)) (qu_in_flight (cr_queries c)))
  ++ concat (map (fun b : Z * Confirming => opt_list (cg_frame_state b.2)) (map_to_list (cf_by_id (cr_confirmer c))))
  ++ cr_kept c.

(** [Arc::strong_count], but for the references local to the calls under way,
    which each use of it adds. *)
Definition strong_count (c : Core) (tracker : Z) : Z := occurs tracker (references c).

(** [weak.upgrade()]: a tracker nobody holds is gone. *)
Definition upgrade (tracker : Z) : CM (option Z) :=
  gets (fun c => if 0 <? strong_count c tracker then Some tracker else None).

(** [followed], with [locals] references held by the calls under way. *)
Definition followed (locals : Z) (tracker : Z) : CM bool :=
  gets (fun c => 1 <? strong_count c tracker + locals).

(** ** Frames *)

Definition new_ref : CM Z :=
  fun c => let r := cr_next_ref c + 1 in (r, c <| cr_next_ref := r |>).

(** ** Connections *)

(** [Conn]'s questions. *)
Definition outgoing_len (conn : Conn) : Z := Z.of_nat (length (cn_outgoing conn)).
Definition outgoing_queue_full (conn : Conn) : bool := cn_outgoing_max conn <=? outgoing_len conn.
Definition outgoing_queue_empty (conn : Conn) : bool := bool_decide (cn_outgoing conn = []).
Definition finished (conn : Conn) : bool := cn_shuts_down conn && negb (cn_write_in_flight conn).

Definition living (c : Core) (conn : Z) : bool :=
  match cr_conns c !! conn with Some state => cn_living state | None => false end.
Definition conn_living (conn : Z) : CM bool := gets (fun c => living c conn).

Section Wrap.
Context {E : Env}.

(** [wrap] of a connection, which exists. *)
Definition wrap_of (c : Core) (conn : Z) : Wrapper :=
  match cr_conns c !! conn with
  | Some state =>
      mkWrapper (Some conn) (cn_target state) (cn_expected_endpoint state) (Some conn) (cr_instance_id c) generation
  | None => mkWrapper (Some conn) ([], 0) None None (cr_instance_id c) generation
  end.
Definition wrap (conn : Z) : CM Wrapper := gets (fun c => wrap_of c conn).

Definition wrap_or_gone (conn : Z) (target : Target) : CM Wrapper :=
  gets (fun c => match cr_conns c !! conn with
                 | Some _ => wrap_of c conn
                 | None => mkWrapper (Some conn) target None None (cr_instance_id c) generation
                 end).

(** ** Lanes *)

Definition Lane_new (pinned : bool) : CM Z :=
  fun c => let id := cr_next_lane c + 1 in
           (id, c <| cr_next_lane := id |> <| cr_lanes ::= <[id := mkLaneInner pinned generation 0 None false]> |>).

Definition Lane_seeded (connection : Wrapper) (pinned : bool) : CM Z :=
  fun c => let id := cr_next_lane c + 1 in
           (id, c <| cr_next_lane := id |>
                  <| cr_lanes ::= <[id := mkLaneInner pinned (wr_generation connection) (wr_owner connection)
                                            (Some connection) true]> |>).

Definition inherited (lane : LaneInner) : bool := negb (la_generation lane =? generation).

Definition Lane_pinned (c : Core) (lane : Z) : bool :=
  match cr_lanes c !! lane with Some inner => la_pinned inner | None => false end.

Definition Lane_owner (inner : LaneInner) : option Z := if la_owner inner =? 0 then None else Some (la_owner inner).

Definition Lane_connection (c : Core) (lane : Z) : option Wrapper :=
  match cr_lanes c !! lane with
  | Some inner => if inherited inner then None else la_connection inner
  | None => None
  end.

Definition Lane_holds_connection (c : Core) (lane : Z) : bool :=
  match cr_lanes c !! lane with
  | Some inner => if inherited inner then false else la_holds inner
  | None => false
  end.

(** [Wrapper::live]: the live flag, false once the connection is gone. *)
Definition Wrapper_live (c : Core) (w : Wrapper) : bool :=
  match wr_living w with Some conn => living c conn | None => false end.

Definition Lane_connected (c : Core) (lane : Z) : bool :=
  match cr_lanes c !! lane with
  | Some inner =>
      if inherited inner then false
      else la_holds inner && match la_connection inner with Some w => Wrapper_live c w | None => false end
  | None => false
  end.

Definition Lane_closed (c : Core) (lane : Z) : bool :=
  match cr_lanes c !! lane with
  | Some inner =>
      if inherited inner then true
      else la_pinned inner && la_holds inner
           && negb (match la_connection inner with Some w => Wrapper_live c w | None => false end)
  | None => true
  end.

Definition adopted (inner : LaneInner) (connection : Wrapper) : LaneInner :=
  if inherited inner then inner
  else if la_pinned inner && la_holds inner then inner
  else inner <| la_connection := Some connection |> <| la_holds := true |> <| la_owner := wr_owner connection |>.

Definition Lane_adopt (lane : Z) (connection : Wrapper) : CM unit :=
  modify (fun c => c <| cr_lanes ::= alter (fun inner => adopted inner connection) lane |>).
End Wrap.

Definition is_same_connection (a b : Wrapper) : bool := bool_decide (wr_target a = wr_target b).
