(* ===== verification/ConnQueue.v ===== *)
(** * ConnQueue: a connection's outgoing queue and its heartbeats
    (core/connection.rs)

    The half of a connection that calls nothing of the client's: queueing a
    frame, starting the write of the front, and the timers of the two
    silences.  What a write's end and the connection's shutdown do is in
    [Connection]. *)
From S2P Require Import Prelude Words Defaults Frame Timers Records Ordered Messages CoreTypes CoreBase.
Open Scope Z_scope.

Definition set_living (b : bool) (state : Conn) : Conn := state <| cn_living := b |>.

Definition process_send_queue (conn : Z) : CM unit :=
  let* state := get_conn conn in
  match state with
  | None => ret tt
  | Some state =>
      if negb (bool_decide (cn_out state = Free)) || cn_shuts_down state then ret tt
      else
        match cn_outgoing state with
        | [] => ret tt
        | (_, front) :: _ =>
            mod_conn conn (fun s => s <| cn_out := Busy |> <| cn_write_in_flight := true |>) ;;;
            push_action (ActWrite conn (of_head front) (of_bytes front))
        end
  end.

(** [asap]: right behind the frame being written, [insert(1, ..)], which there
    is while the channel is busy, or in front. *)
Definition queue_asap (out : Channel) (entry : QueueEntry) (queue : list QueueEntry) : list QueueEntry :=
  match out, queue with
  | Busy, front :: rest => front :: entry :: rest
  | _, _ => entry :: queue
  end.

Definition schedule (conn : Z) (frame : OutFrame) (force asap : bool) : CM (option Z) :=
  let* state := get_conn conn in
  match state with
  | None => ret None
  | Some state =>
      if negb (cn_living state) then ret None
      else if outgoing_queue_full state
              && (negb force || (cn_outgoing_max state + FORCED_FRAMES_PAST_FULL_QUEUE <=? outgoing_len state))
      then ret None
      else
        let* tracker := Tracker_new Queued in
        let entry := (tracker, frame) in
        mod_conn conn (fun s => s <| cn_outgoing ::= fun queue =>
          if asap then queue_asap (cn_out state) entry queue else queue ++ [entry] |>) ;;;
        process_send_queue conn ;;;
        ret (Some tracker)
  end.

Definition take_over (conn : Z) (entry : QueueEntry) : CM bool :=
  let* state := get_conn conn in
  match state with
  | None => ret false
  | Some state =>
      if negb (cn_living state) || outgoing_queue_full state then ret false
      else
        mod_conn conn (fun s => s <| cn_outgoing ::= fun queue => queue ++ [entry] |>) ;;;
        process_send_queue conn ;;;
        ret true
  end.

Definition send_heartbit_later (conn : Z) : CM unit :=
  let* now := get_now in
  let* state := get_conn conn in
  match state with
  | None => ret tt
  | Some state =>
      if negb (cn_living state) || negb (outgoing_queue_empty state) then ret tt
      else
        mod_conn conn (fun s => s <| cn_quiet_since := Some now |>) ;;;
        match cn_send_heartbit_timer state with
        | Some _ => ret tt
        | None =>
            let* key := arm (now + HEARTBIT_INTERVAL) (DueSendHeartbit conn) in
            mod_conn conn (fun s => s <| cn_send_heartbit_timer := Some key |>)
        end
  end.

(** The deadline a wait moves on to: [interval] after [since], if that is to
    come. *)
Definition moved_on (since : option Z) (interval now : Z) : option Z :=
  match since with
  | Some since => if now <? since + interval then Some (since + interval) else None
  | None => None
  end.

Definition send_heartbit_now (conn : Z) : CM unit :=
  let* now := get_now in
  let* state := get_conn conn in
  match state with
  | None => ret tt
  | Some state =>
      mod_conn conn (fun s => s <| cn_send_heartbit_timer := None |>) ;;;
      if cn_shuts_down state || negb (cn_living state) then ret tt
      else
        match moved_on (cn_quiet_since state) HEARTBIT_INTERVAL now with
        | Some deadline =>
            let* key := arm deadline (DueSendHeartbit conn) in
            mod_conn conn (fun s => s <| cn_send_heartbit_timer := Some key |>)
        | None => let* _ := schedule conn (cn_heartbit state) true true in ret tt
        end
  end.

Definition require_heartbit_later (conn : Z) : CM unit :=
  let* now := get_now in
  let* state := get_conn conn in
  match state with
  | None => ret tt
  | Some state =>
      mod_conn conn (fun s => s <| cn_heard_at := Some now |>) ;;;
      if bool_decide (is_Some (cn_require_heartbit_timer state)) && negb (cn_silence_second_wait state) then ret tt
      else
        let* slot := rearm (cn_require_heartbit_timer state) (now + NO_HEARTBIT_SO_PREPARE_DROP_INTERVAL)
                       (DueRequireHeartbitSoon conn) in
        mod_conn conn (fun s => s <| cn_silence_second_wait := false |> <| cn_require_heartbit_timer := slot |>)
  end.

Definition require_heartbit_soon (conn : Z) : CM unit :=
  let* now := get_now in
  let* state := get_conn conn in
  match state with
  | None => ret tt
  | Some state =>
      mod_conn conn (fun s => s <| cn_require_heartbit_timer := None |>) ;;;
      if cn_shuts_down state then ret tt
      else
        match moved_on (cn_heard_at state) NO_HEARTBIT_SO_PREPARE_DROP_INTERVAL now with
        | Some deadline =>
            let* key := arm deadline (DueRequireHeartbitSoon conn) in
            mod_conn conn (fun s => s <| cn_require_heartbit_timer := Some key |>)
        | None =>
            let* slot := rearm None (now + NO_HEARTBIT_SO_REALLY_DROP_INTERVAL) (DueRequireHeartbitNow conn) in
            mod_conn conn (fun s => s <| cn_silence_second_wait := true |> <| cn_require_heartbit_timer := slot |>)
        end
  end.

Definition on_frame_started (conn : Z) : CM unit :=
  let* state := get_conn conn in
  match state with
  | Some state => when (cn_reading state && negb (cn_shuts_down state)) (require_heartbit_later conn)
  | None => ret tt
  end.

(** [last_queued]: the entry queued last but the connection's own frames,
    changed by [f]; the tracker it had. *)
Fixpoint last_queued (f : Z -> Z) (reversed : list QueueEntry) : option (Z * list QueueEntry) :=
  match reversed with
  | [] => None
  | (tracker, frame) :: rest =>
      if of_own frame then
        match last_queued f rest with
        | Some (found, rest) => Some (found, (tracker, frame) :: rest)
        | None => None
        end
      else Some (tracker, (f tracker, frame) :: rest)
  end.

(** The connection's answer, [answers_this_peer]. *)
Definition answers_this_peer (message : MultiplexerMessage) : bool :=
  let t := mm_type message in
  if (t =? types.DELIVERY_ERROR) || (t =? types.REQUEST_RECEIVED) || (t =? types.BACKEND_ERROR)
     || (t =? types.RECORDING_STATUS) || (t =? types.RULES_STATUS) || (t =? types.PEER_STATUS) then true
  else if t =? types.PING then negb (default 0 (mm_references message) =? 0)
  else false.
