(* ===== verification/OutboxState.v ===== *)
(** * OutboxState: the outbox's slab, the flushes and the follows
    (core/outbox/state.rs, core/outbox/flush.rs)

    What waits lives in a slab whose keys carry a generation, so that a key
    kept past its entry's end finds nothing.  A flush counts what waits and
    follows the last frame queued on each connection; a followed send hears its
    end in a pass posted once.  A [Vec] used as a stack is the list of its
    elements from the top. *)
From S2P Require Import Prelude Words Defaults Frame Timers LogSummary Records Ordered Messages CoreTypes CoreBase.
From Stdlib Require Ascii String.
Import String.StringSyntax.
Delimit Scope string_scope with string.
Open Scope Z_scope.

(** A text's bytes. *)
Definition text (s : String.string) : list Z :=
  map (fun a => Z.of_N (Ascii.N_of_ascii a)) (String.list_ascii_of_string s).
Arguments text s%_string : simpl never.

(** ** The slab *)

Definition Outbox_store (o : Outbox) (waiting : Waiting) : WaitKey * Outbox :=
  match ob_free o with
  | index :: free =>
      ((index, default 0 (ob_generations o !! index)),
       o <| ob_free := free |> <| ob_slab ::= <[index := Some waiting]> |>)
  | [] =>
      ((length (ob_slab o), 0),
       o <| ob_slab ::= fun slab => slab ++ [Some waiting] |> <| ob_generations ::= fun gs => gs ++ [0] |>)
  end.

Definition Outbox_get (o : Outbox) (key : WaitKey) : option Waiting :=
  match ob_generations o !! key.1 with
  | Some g => if g =? key.2 then mjoin (ob_slab o !! key.1) else None
  | None => None
  end.

(** [get_mut], the entry changed by [f]. *)
Definition Outbox_alter (f : Waiting -> Waiting) (key : WaitKey) (o : Outbox) : Outbox :=
  match Outbox_get o key with
  | Some waiting => o <| ob_slab ::= <[key.1 := Some (f waiting)]> |>
  | None => o
  end.

Definition Outbox_release (key : WaitKey) (o : Outbox) : Outbox :=
  match Outbox_get o key with
  | Some waiting =>
      if wt_over waiting then
        o <| ob_slab ::= <[key.1 := None]> |> <| ob_generations ::= alter (Z.add 1) key.1 |>
          <| ob_free ::= cons key.1 |>
      else o
  | None => o
  end.

(** Whether the entry of [key] still waits. *)
Definition waits (o : Outbox) (key : WaitKey) : bool :=
  match Outbox_get o key with Some waiting => negb (wt_over waiting) | None => false end.

(** [backlog]: the backlog of [conn], and the same changed by [f]. *)
Definition Outbox_backlog (o : Outbox) (conn : Z) : option Backlog :=
  snd <$> list_find (fun b => bl_conn b = conn) (ob_backlogs o).

Fixpoint alter_backlog (f : Backlog -> Backlog) (conn : Z) (backlogs : list Backlog) : list Backlog :=
  match backlogs with
  | [] => []
  | b :: backlogs => if bl_conn b =? conn then f b :: backlogs else b :: alter_backlog f conn backlogs
  end.

(** The first backlog of [conn] taken out. *)
Fixpoint without_backlog (conn : Z) (backlogs : list Backlog) : list Backlog :=
  match backlogs with
  | [] => []
  | b :: backlogs => if bl_conn b =? conn then backlogs else b :: without_backlog conn backlogs
  end.

Definition Outbox_entries (o : Outbox) : Z :=
  Z.of_nat (length (ob_held o)) + Z.of_nat (length (ob_displaced o))
  + foldr (fun b n => Z.of_nat (length (bl_waiting b)) + n) 0 (ob_backlogs o).

Definition waits_for (o : Outbox) (conn : Z) : bool :=
  existsb (fun b => (bl_conn b =? conn) && (0 <? bl_live b)) (ob_backlogs o).

Definition store (waiting : Waiting) : CM WaitKey :=
  fun c => let '(key, o) := Outbox_store (cr_outbox c) waiting in (key, c <| cr_outbox := o |>).
Definition get_waiting (key : WaitKey) : CM (option Waiting) := gets (fun c => Outbox_get (cr_outbox c) key).
Definition mod_waiting (key : WaitKey) (f : Waiting -> Waiting) : CM unit := mod_outbox (Outbox_alter f key).
Definition release (key : WaitKey) : CM unit := mod_outbox (Outbox_release key).
Definition mod_backlog (conn : Z) (f : Backlog -> Backlog) : CM unit :=
  mod_outbox (fun o => o <| ob_backlogs ::= alter_backlog f conn |>).

(** ** Posted callbacks *)

Definition post_callbacks : CM unit :=
  let* posted := gets (fun c => ob_callbacks_posted (cr_outbox c)) in
  if posted : bool then ret tt
  else
    mod_outbox (fun o => o <| ob_callbacks_posted := true |>) ;;;
    push_posted PostProcessCallbacks.

(** ** Flushes *)

(** Every flush in progress changed by [f]. *)
Definition each_flush (f : Flush -> Flush) (o : Outbox) : Outbox :=
  o <| ob_flush_states ::= fun states => foldl (fun states id => alter f id states) states (ob_flushes o) |>.

Definition wait_flushes (number copies : Z) : CM unit :=
  mod_outbox (each_flush (fun f =>
    if number <=? fl_last_number f then f <| fl_waiting ::= fun n => n + copies |> else f)).

Definition flushes_lost (number : Z) : CM unit :=
  mod_outbox (each_flush (fun f =>
    if negb (number =? 0) && (number <=? fl_last_number f) then f <| fl_lost := true |> else f)).

Definition flushes_lost_confirmed (number : Z) : CM unit :=
  mod_outbox (each_flush (fun f =>
    if number <=? fl_confirm_mark f then f <| fl_lost := true |> else f)).

Definition flushing (c : Core) : bool := negb (bool_decide (ob_flushes (cr_outbox c) = [])).

Definition flushed (c : Core) (flush : Z) : bool :=
  match ob_flush_states (cr_outbox c) !! flush with Some f => fl_flushed f | None => false end.

Definition all_written (c : Core) (flush : Z) : bool :=
  match ob_flush_states (cr_outbox c) !! flush with Some f => fl_flushed f && negb (fl_lost f) | None => false end.

Definition end_flush (flush : Z) : CM unit :=
  mod_outbox (fun o => o <| ob_flushes ::= filter (fun each => each <> flush) |>
                         <| ob_flush_states ::= delete flush |>).

(** The mark of the flush on [conn], the last of its messages queued there. *)
Fixpoint set_mark (conn tracker : Z) (marks : list (Z * Z)) : list (Z * Z) :=
  match marks with
  | [] => [(conn, tracker)]
  | (each, t) :: marks => if each =? conn then (each, tracker) :: marks else (each, t) :: set_mark conn tracker marks
  end.

Definition queued (number tracker conn : Z) : CM unit :=
  mod_outbox (each_flush (fun f =>
    if fl_last_number f <? number then f else f <| fl_marks ::= set_mark conn tracker |>)).

(** [first_unconfirmed] (core/confirming/mod.rs). *)
Definition first_unconfirmed (c : Core) : option Z := fst <$> head (cf_runs (cr_confirmer c)).

(** What [check_flushes] makes of one flush: whether it is done, and its state. *)
Definition check_flush (c : Core) (f : Flush) : bool * Flush :=
  let f := f <| fl_marks ::= filter (fun m : Z * Z => tracker_state c m.2 = Queued) |> in
  let confirming := match first_unconfirmed c with Some first => first <=? fl_confirm_mark f | None => false end in
  if (0 <? fl_waiting f) || negb (bool_decide (fl_marks f = [])) || confirming then (false, f)
  else (true, f <| fl_flushed := true |>).

(** The [retain] over the flushes: those that wait on, the states, and those
    that finished, in order. *)
Fixpoint check_each (c : Core) (ids : list Z) (states : gmap Z Flush) : list Z * gmap Z Flush * list Z :=
  match ids with
  | [] => ([], states, [])
  | id :: ids =>
      match states !! id with
      | None => check_each c ids states
      | Some f =>
          let '(done, f) := check_flush c f in
          let '(kept, states, finished) := check_each c ids (<[id := f]> states) in
          if done : bool then (kept, states, id :: finished) else (id :: kept, states, finished)
      end
  end.

(** [end_flush_wait] (core/threaded.rs): a flush_all() call ends. *)
Definition end_flush_wait (id : Z) (flushed : bool) : CM unit :=
  let* wait := gets (fun c => snd <$> list_find (fun w => fw_id w = id) (th_flush_waits (cr_threaded c))) in
  match wait with
  | None => ret tt
  | Some wait =>
      mod_threaded (fun t => t <| th_flush_waits ::= filter (fun w => fw_id w <> id) |>) ;;;
      match fw_flush wait with Some flush => end_flush flush | None => ret tt end ;;;
      let* _ := cancel (fw_timer wait) in
      match fw_wait_done wait with Some done => tell (EvFlushAll done flushed) | None => ret tt end
  end.

(** A finished flush's [done], taken and told. *)
Definition finish_flush (id : Z) : CM unit :=
  let* flush := gets (fun c => ob_flush_states (cr_outbox c) !! id) in
  match flush with
  | None => ret tt
  | Some f =>
      mod_outbox (fun o => o <| ob_flush_states ::= alter (fun f => f <| fl_done := None |>) id |>) ;;;
      match fl_done f with
      | Some (FlushWaitDone wait) => end_flush_wait wait (negb (fl_lost f))
      | Some FlushDrain => push_posted PostWriteOutStep
      | None => ret tt
      end
  end.

Definition check_flushes : CM unit :=
  let* c := gets id in
  let o := cr_outbox c in
  if bool_decide (ob_flushes o = []) || negb (bool_decide (ob_follow_events o = []))
     || negb (bool_decide (ob_drop_events o = [])) || negb (bool_decide (length (cf_ends (cr_confirmer c)) = 0%nat))
  then ret tt
  else
    let '(kept, states, finished) := check_each c (ob_flushes o) (ob_flush_states o) in
    mod_outbox (fun o => o <| ob_flushes := kept |> <| ob_flush_states := states |>) ;;;
    for_each finished finish_flush.

(** ** Follows *)

Definition follow_event (tracker : Z) (written : bool) : CM unit :=
  let* follows := gets (fun c => ob_follows (cr_outbox c) !! tracker) in
  match follows with
  | None => ret tt
  | Some _ =>
      mod_outbox (fun o => o <| ob_follow_events ::= fun l => l ++ [(tracker, written)] |>) ;;;
      post_callbacks
  end.

Definition tracked_message_done (tracker : Z) (written : bool) : CM unit :=
  follow_event tracker written ;;; check_flushes.

Definition follow (copies : list Z) (done : SendDone) : CM unit :=
  mod_outbox (fun o => o <| ob_next_follow ::= Z.add 1 |>) ;;;
  let* id := gets (fun c => ob_next_follow (cr_outbox c)) in
  mod_outbox (fun o => o <| ob_follows ::= fun m => foldl (fun m copy => <[copy := id]> m) m copies |>) ;;;
  let* lost := gets (fun c => filter (fun copy => tracker_state c copy = Lost) copies) in
  mod_outbox (fun o => o <| ob_follow_states ::=
    <[id := mkFollow (Some done) copies (Z.of_nat (length copies)) false]> |>) ;;;
  for_each lost (fun copy => follow_event copy false).

(** ** Drops (core/client/mod.rs) *)

Definition drop_line (reason : DropReason) : DropLine * list Z :=
  match reason with
  | NoRoom => (SentNoRoom, text "message dropped: it waited for room on its connection past its timeout")
  | NoConnection => (SentNoConnection, text "message dropped: it waited for a connection past its timeout")
  | ConnectionLost =>
      (SentConnectionLost, text "message dropped: its connection ended and nothing else could take it")
  | ShutDown => (SentShutDown, text "message dropped: the client shut down before it went")
  | NotConfirmed =>
      (SentNotConfirmed, text "confirmed message given up on: no consumer confirmed it by its deadline")
  | Failed => (SentFailed, text "confirmed message given up on: its consumer's handler failed on it")
  end.

(** [log_summary::INTERVAL]. *)
Definition LOG_INTERVAL : Z := from_secs 1.

Section Drops.
Context {E : Env}.

Definition drop_line_first (kind : Kind) (line : list Z) : CM bool :=
  let* now := get_now in
  let* lines := gets (fun c => cl_drop_lines (cr_client c)) in
  let '(first, lines) := first_line log_enabled lines kind line now in
  match first with
  | None => ret false
  | Some first =>
      mod_client (fun cl => cl <| cl_drop_lines := lines |>) ;;;
      let* timer := gets (fun c => cl_drop_lines_timer (cr_client c)) in
      match timer with
      | Some _ => ret first
      | None =>
          let* key := arm (now + LOG_INTERVAL) DueLogSummary in
          mod_client (fun cl => cl <| cl_drop_lines_timer := Some key |>) ;;;
          ret first
      end
  end.

Definition report_record_drop (id type : Z) (reason : DropReason) : CM unit :=
  mod_client (fun cl => cl <| cl_dropped ::= Z.add 1 |>) ;;;
  let '(line, line_text) := drop_line reason in
  let* _ := drop_line_first (mkKind (DropLine_number line) LEVEL_WARN type 0) line_text in
  let* observed := gets (fun c => cl_drop_observer (cr_client c)) in
  when observed
    (mod_outbox (fun o => o <| ob_drop_events ::= fun l => l ++ [(id, reason)] |>) ;;; post_callbacks).
End Drops.
