(* ===== verification/ConfirmingState.v ===== *)
(** * ConfirmingState: the confirmed sends waiting for their confirmation
    (core/confirming/mod.rs, and the timer of core/confirming/again.rs)

    A batch written waits, found by its envelope's id, until each of its
    messages is resolved; the runs of consecutive numbers among the unresolved
    lead from a number to its batch.  What sends a batch, the first time or
    again, is in [Confirming]. *)
From S2P Require Import Prelude Words Defaults Frame Timers LogSummary Records Ordered Messages CoreTypes CoreBase.
From S2P Require Import OutboxState.
Open Scope Z_scope.

(** ** Flags: one a message, 64 to a word *)

Definition Flags_new (count : Z) : list Z := replicate (Z.to_nat ((count + 63) / 64)) 0.

Definition Flags_set (words : list Z) (index : Z) : list Z :=
  alter (fun word => Z.lor word (Z.shiftl 1 (index mod 64))) (Z.to_nat (index / 64)) words.

(** The [Index] of a flag. *)
Definition Flags_get (words : list Z) (index : Z) : bool :=
  Z.testbit (default 0 (words !! Z.to_nat (index / 64))) (index mod 64).

(** [count_ones] of a word. *)
Definition count_ones (word : Z) : Z := Z.of_nat (length (filter (fun i => Z.testbit word i = true) (seqZ 0 64))).

(** [u64::MAX ^ word], Rust's [!word]. *)
Definition not64 (word : Z) : Z := Z.lxor word (2 ^ 64 - 1).

(** The loop of [set_range]: a turn takes what is left of a word, so a turn a
    flag is enough. *)
Fixpoint set_range_loop (fuel : nat) (words : list Z) (begin end_ newly : Z) : list Z * Z :=
  match fuel with
  | O => (words, newly)
  | S fuel =>
      if begin <? end_ then
        let bit := begin mod 64 in
        let span := Z.min (64 - bit) (end_ - begin) in
        let mask := if span =? 64 then 2 ^ 64 - 1 else shl64 (Z.shiftl 1 span - 1) bit in
        let word := default 0 (words !! Z.to_nat (begin / 64)) in
        set_range_loop fuel (<[Z.to_nat (begin / 64) := Z.lor word mask]> words) (begin + span) end_
          (newly + count_ones (Z.land mask (not64 word)))
      else (words, newly)
  end.

Definition Flags_set_range (words : list Z) (begin end_ : Z) : list Z * Z :=
  set_range_loop (Z.to_nat (end_ - begin)) words begin end_ 0.

(** ** Numbers *)

(** [add_number]: [number] onto (first, count) pairs. *)
Fixpoint add_number (pairs : list Z) (number : Z) : list Z :=
  match pairs with
  | [first; count] => if w64 (first + count) =? number then [first; count + 1] else pairs ++ [number; 1]
  | first :: rest => first :: add_number rest number
  | [] => [number; 1]
  end.

Definition earliest (first second : option Z) : option Z :=
  match first, second with
  | Some first, Some second => Some (Z.min first second)
  | Some first, None => Some first
  | None, second => second
  end.

(** [numbered]: the numbers given, and the pairs of the envelope's [confirm]. *)
Fixpoint number_records (last_number : Z) (pairs : list Z) (records : list BatchRecord) :
    Z * list Z * list BatchRecord :=
  match records with
  | [] => (last_number, pairs, [])
  | record :: records =>
      let '(last_number, record) :=
        if br_number record =? 0 then (last_number + 1, record <| br_number := last_number + 1 |>)
        else (last_number, record) in
      let '(last_number, pairs, records) := number_records last_number (add_number pairs (br_number record)) records in
      (last_number, pairs, record :: records)
  end.

Definition numbered (records : list BatchRecord) : CM (list Z * list BatchRecord) :=
  fun c => let '(last, pairs, records) := number_records (cf_last_number (cr_confirmer c)) [] records in
           ((pairs, records), c <| cr_confirmer ::= fun cf => cf <| cf_last_number := last |> |>).

(** ** One batch waiting *)

Definition cg_count (cg : Confirming) : Z := Z.of_nat (length (cg_ids cg)).

Definition Confirming_number (cg : Confirming) (index : Z) : Z :=
  match cg_numbers cg with
  | [] => cg_first_number cg + index
  | numbers => default 0 (numbers !! Z.to_nat index)
  end.

Definition id_of (cg : Confirming) (index : Z) : Z := default 0 (cg_ids cg !! Z.to_nat index).

(** [take_end]: the end of message [index], taken. *)
Fixpoint take_followed (index : Z) (l : list Followed) : option SendDone * option Z * list Followed :=
  match l with
  | [] => (None, None, [])
  | f :: l =>
      if fw_index f =? index then (fw_done f, fw_tracker f, f <| fw_done := None |> <| fw_tracker := None |> :: l)
      else let '(done, tracker, l) := take_followed index l in (done, tracker, f :: l)
  end.

Definition take_end (cg : Confirming) (index : Z) : option SendDone * option Z * Confirming :=
  let '(done, tracker, l) := take_followed index (cg_followed cg) in (done, tracker, cg <| cg_followed := l |>).

(** ** The runs *)

(** The [while] that grows a run from [index]: its length. *)
Fixpoint run_length (fuel : nat) (cg : Confirming) (first index length_ : Z) : Z :=
  match fuel with
  | O => length_
  | S fuel =>
      if (index + length_ <? cg_count cg) && negb (Flags_get (cg_resolved cg) (index + length_))
         && (Confirming_number cg (index + length_) =? first + length_)
      then run_length fuel cg first index (length_ + 1) else length_
  end.

Fixpoint runs_from (fuel : nat) (batch : Z) (cg : Confirming) (index : Z) : list (Z * NumberRun) :=
  match fuel with
  | O => []
  | S fuel =>
      if index <? cg_count cg then
        if Flags_get (cg_resolved cg) index then runs_from fuel batch cg (index + 1)
        else
          let first := Confirming_number cg index in
          let len := run_length (length (cg_ids cg)) cg first index 1 in
          (first, mkNumberRun batch index len len) :: runs_from fuel batch cg (index + len)
      else []
  end.

(** The runs [rebuild_runs] registers of a batch. *)
Definition runs_of (batch : Z) (cg : Confirming) : list (Z * NumberRun) :=
  if cg_unresolved cg =? 0 then []
  else if (cg_unresolved cg =? cg_count cg) && bool_decide (cg_numbers cg = []) then
    [(cg_first_number cg, mkNumberRun batch 0 (cg_count cg) (cg_count cg))]
  else runs_from (length (cg_ids cg)) batch cg 0.

(** The batch's own runs among [keys] taken out. *)
Definition drop_runs (batch : Z) (keys : list Z) (runs : list (Z * NumberRun)) : list (Z * NumberRun) :=
  foldl (fun runs key =>
    match bt_get key runs with
    | Some run => if rn_batch run =? batch then bt_remove key runs else runs
    | None => runs
    end) runs keys.

Definition rebuild_runs (batch : Z) (cf : Confirmer) : Confirmer :=
  match cf_by_id cf !! batch with
  | None => cf
  | Some cg =>
      let runs := drop_runs batch (cg_run_keys cg) (cf_runs cf) in
      let fresh := runs_of batch cg in
      cf <| cf_runs := foldl (fun runs r => bt_insert r.1 r.2 runs) runs fresh |>
         <| cf_by_id ::= <[batch := cg <| cg_run_keys := map fst fresh |>]> |>
  end.

Definition resolved_in_run (batch number count : Z) (cf : Confirmer) : Confirmer :=
  match bt_last_to number (cf_runs cf) with
  | None => cf
  | Some (key, run) =>
      if negb (rn_batch run =? batch) || (key + rn_count run <=? number) then cf
      else
        let left := rn_unresolved run - Z.min count (rn_unresolved run) in
        if left =? 0 then cf <| cf_runs ::= bt_remove key |>
        else cf <| cf_runs ::= bt_alter (fun run => run <| rn_unresolved := left |>) key |>
  end.

(** ** The timer (core/confirming/again.rs) *)

Definition stop_confirm_timer : CM unit :=
  let* slot := gets (fun c => cf_timer (cr_confirmer c)) in
  let* slot := cancel slot in
  mod_confirmer (fun cf => cf <| cf_timer := slot |> <| cf_armed := None |>).

Definition arm_confirm_timer : CM unit :=
  let* cf := gets cr_confirmer in
  if cf_firing cf then ret tt
  else
    match cf_by_due cf with
    | [] => stop_confirm_timer
    | (first, _) :: _ =>
        if match cf_armed cf with Some armed => armed <=? first | None => false end then ret tt
        else
          mod_confirmer (fun cf => cf <| cf_armed := Some first |>) ;;;
          let* slot := rearm (cf_timer cf) first DueConfirmations in
          mod_confirmer (fun cf => cf <| cf_timer := slot |>)
    end.

Definition confirming_due (batch : Z) : CM unit :=
  let* cf := gets cr_confirmer in
  match cf_by_id cf !! batch with
  | None => ret tt
  | Some cg =>
      let due := earliest (if cg_written cg then cg_retry_at cg else None) (cg_deadline cg) in
      if bool_decide (due = cg_due cg) then ret tt
      else
        mod_confirmer (fun cf => cf <| cf_by_id ::= <[batch := cg <| cg_due := due |>]> |>) ;;;
        match cg_due cg with
        | Some before => mod_confirmer (fun cf => cf <| cf_by_due ::= bs_remove (before, batch) |>)
        | None => ret tt
        end ;;;
        match due with
        | Some due =>
            mod_confirmer (fun cf => cf <| cf_by_due ::= bs_insert (due, batch) |>) ;;;
            when (match cf_armed cf with Some armed => due <? armed | None => true end) arm_confirm_timer
        | None =>
            let* none := gets (fun c => bool_decide (cf_by_due (cr_confirmer c) = [])) in
            when none stop_confirm_timer
        end
  end.

(** ** Resolving *)

Section Resolve.
Context {E : Env}.

Definition confirmed_end (id number type : Z) (tracker : option Z) (done : option SendDone) (processed : bool)
    (reason : DropReason) (report : bool) : CM unit :=
  when (negb processed)
    (flushes_lost_confirmed number ;;; when report (report_record_drop id type reason)) ;;;
  match tracker with
  | Some tracker =>
      let* state := Tracker_get tracker in
      when (bool_decide (state = Queued)) (Tracker_set tracker (if processed then Sent else Lost))
  | None => ret tt
  end ;;;
  match done with
  | Some done => mod_confirmer (fun cf => cf <| cf_ends ::= fun l => l ++ [(done, if processed then 1 else 0)] |>)
  | None => ret tt
  end ;;;
  let* pass := gets (fun c => negb (bool_decide (length (cf_ends (cr_confirmer c)) = 0%nat)) || flushing c) in
  when pass post_callbacks.

(** [resolve_in] of a batch in hand: whether it was unresolved, and the batch. *)
Definition resolve_in (cg : Confirming) (index : Z) (processed : bool) (reason : DropReason) (report : bool) :
    CM (bool * Confirming) :=
  if Flags_get (cg_resolved cg) index then ret (false, cg)
  else
    let cg := cg <| cg_resolved ::= fun words => Flags_set words index |> <| cg_unresolved ::= fun n => n - 1 |> in
    mod_confirmer (fun cf => cf <| cf_unconfirmed ::= fun n => n - 1 |>) ;;;
    let '(done, tracker, cg) := take_end cg index in
    let id := if negb processed && report then id_of cg index else 0 in
    confirmed_end id (Confirming_number cg index) (cg_type cg) tracker done processed reason report ;;;
    ret (true, cg).

(** [for index in indexes { resolve_in(..) }]: how many were unresolved. *)
Definition resolve_each (indexes : list Z) (processed : bool) (reason : DropReason) (report : bool)
    (cg : Confirming) : CM (Z * Confirming) :=
  fold_m indexes (0, cg) (fun '(n, cg) index =>
    let* (newly, cg) := resolve_in cg index processed reason report in
    ret (if newly : bool then n + 1 else n, cg)).

(** [with_batch]: the batch taken out meanwhile. *)
Definition with_batch {R} (batch : Z) (work : Confirming -> CM (R * Confirming)) : CM (option R) :=
  let* cg := gets (fun c => cf_by_id (cr_confirmer c) !! batch) in
  match cg with
  | None => ret None
  | Some cg =>
      mod_confirmer (fun cf => cf <| cf_by_id ::= delete batch |>) ;;;
      let* (result, cg) := work cg in
      mod_confirmer (fun cf => cf <| cf_by_id ::= <[batch := cg]> |>) ;;;
      ret (Some result)
  end.

(** Every message of [cg], [0..count]. *)
Definition every_index (cg : Confirming) : list Z := seqZ 0 (cg_count cg).

Definition forget_resolved (batch : Z) : CM unit :=
  let* cg := gets (fun c => cf_by_id (cr_confirmer c) !! batch) in
  match cg with
  | None => ret tt
  | Some cg =>
      if negb (cg_unresolved cg =? 0) then ret tt
      else
        mod_confirmer (fun cf =>
          cf <| cf_by_id ::= delete batch |>
             <| cf_by_due ::= fun s => match cg_due cg with Some due => bs_remove (due, batch) s | None => s end |>
             <| cf_runs ::= drop_runs batch (cg_run_keys cg) |>) ;;;
        let* none := gets (fun c => bool_decide (cf_by_due (cr_confirmer c) = [])) in
        when none stop_confirm_timer
  end.

Definition confirming_written (batch written : Z) : CM unit :=
  let* waiting := gets (fun c => bool_decide (is_Some (cf_by_id (cr_confirmer c) !! batch))) in
  if negb waiting then ret tt
  else if written =? 0 then
    let* _ := with_batch batch (fun cg => resolve_each (every_index cg) false NoConnection false cg) in
    forget_resolved batch
  else
    let* now := get_now in
    mod_confirmer (fun cf => cf <| cf_by_id ::= alter (fun cg =>
      cg <| cg_written := true |>
         <| cg_retry_at ::= fun at_ => earliest at_ (deadline_after now (Some (dl_retry_after (cg_delivery cg)))) |>)
      batch |>) ;;;
    confirming_due batch.

Definition confirmed_frame_dropped (batch : Z) (reason : DropReason) : CM unit :=
  let* _ := with_batch batch (fun cg => resolve_each (every_index cg) false reason true cg) in
  forget_resolved batch.

(** ** Confirmations *)

(** [as_chunks::<2>]: the pairs, an odd number left over aside. *)
Fixpoint chunks2 (l : list Z) : list (Z * Z) :=
  match l with
  | first :: count :: l => (first, count) :: chunks2 l
  | _ => []
  end.

(** What one pair names among the runs. *)
Definition segments_of (runs : list (Z * NumberRun)) (pair : Z * Z) : list Segment :=
  let '(first, count) := pair in
  let past := first + count in
  if (2 ^ 64 <=? past) || (past <=? first) then []
  else
    let start := match bt_last_to first runs with Some (key, _) => key | None => first end in
    omap (fun r : Z * NumberRun =>
      let '(key, run) := r in
      let from := Z.max first key in
      let to_ := Z.min past (key + rn_count run) in
      if from <? to_ then
        Some (mkSegment (rn_batch run) key (rn_index run + (from - key)) (rn_index run + (to_ - key)))
      else None) (bt_range start past runs).

Definition segments (cf : Confirmer) (pairs : list Z) : list Segment :=
  concat (map (segments_of (cf_runs cf)) (chunks2 pairs)).

Definition resolved_at_once (segment : Segment) (processed : bool) : CM (option Z) :=
  if negb processed then ret None
  else
    let* cg := gets (fun c => cf_by_id (cr_confirmer c) !! sg_batch segment) in
    match cg with
    | None => ret None
    | Some cg =>
        match cg_followed cg with
        | _ :: _ => ret None
        | [] =>
            let '(words, newly) := Flags_set_range (cg_resolved cg) (sg_begin segment) (sg_end segment) in
            mod_confirmer (fun cf =>
              cf <| cf_by_id ::= <[sg_batch segment :=
                      cg <| cg_resolved := words |> <| cg_unresolved ::= fun n => n - newly |>]> |>
                 <| cf_unconfirmed ::= fun n => n - newly |>) ;;;
            let* pass := gets flushing in
            when ((0 <? newly) && pass) post_callbacks ;;;
            ret (Some newly)
        end
    end.

(** One list of a CONFIRMATION, processed or failed: the batches that heard of
    one of their messages, added to [heard]. *)
Definition resolve_list (pairs : list Z) (processed : bool) (reason : DropReason) (heard : list Z) : CM (list Z) :=
  let* found := gets (fun c => segments (cr_confirmer c) pairs) in
  fold_m found heard (fun heard segment =>
    let* at_once := resolved_at_once segment processed in
    let* resolved :=
      match at_once with
      | Some resolved => ret resolved
      | None =>
          let* r := with_batch (sg_batch segment)
                      (resolve_each (seqZ (sg_begin segment) (sg_end segment - sg_begin segment))
                         processed reason true) in
          ret (default 0 r)
      end in
    if 0 <? resolved then
      mod_confirmer (resolved_in_run (sg_batch segment) (sg_key segment) resolved) ;;;
      ret (if bool_decide (last heard = Some (sg_batch segment)) then heard else heard ++ [sg_batch segment])
    else ret heard).

(** The refused messages by batch, those of one batch next to each other
    together. *)
Fixpoint gather_refused (found : list Segment) (refused : list (Z * list Z)) : list (Z * list Z) :=
  match found with
  | [] => refused
  | segment :: found =>
      let indexes := seqZ (sg_begin segment) (sg_end segment - sg_begin segment) in
      gather_refused found
        (match last refused with
         | Some (batch, before) =>
             if batch =? sg_batch segment then removelast refused ++ [(batch, before ++ indexes)]
             else refused ++ [(sg_batch segment, indexes)]
         | None => [(sg_batch segment, indexes)]
         end)
  end.

(** [dedup] of a sorted list. *)
Fixpoint dedup (l : list Z) : list Z :=
  match l with
  | x :: (y :: _) as rest => if x =? y then dedup rest else x :: dedup rest
  | _ => l
  end.

(** The batches waiting, by their first number ([sort_by_key]). *)
Fixpoint insert_by_number (cg : Confirming) (l : list Confirming) : list Confirming :=
  match l with
  | [] => [cg]
  | x :: l' => if Confirming_number x 0 <=? Confirming_number cg 0 then x :: insert_by_number cg l' else cg :: l
  end.

Definition give_up_confirmations (reason : DropReason) : CM unit :=
  let* waiting := gets (fun c => foldl (fun l cg => insert_by_number cg l) []
                                   (map snd (map_to_list (cf_by_id (cr_confirmer c))))) in
  mod_confirmer (fun cf => cf <| cf_by_id := ∅ |>) ;;;
  for_each waiting (fun cg => let* _ := resolve_each (every_index cg) false reason true cg in ret tt) ;;;
  mod_confirmer (fun cf => cf <| cf_runs := [] |> <| cf_by_due := [] |>) ;;;
  stop_confirm_timer.
End Resolve.
