(* ===== verification/Placing.v ===== *)
(** * Placing: how a message is placed, waits and is given up on
    (core/outbox/mod.rs, core/outbox/expiry.rs, parts of core/outbox/handover.rs
    and core/client/mod.rs)

    A message goes into a connection's queue, into the backlog of a full one,
    or is held while none is live.  The references to a tracker that the calls
    under way hold are arguments, [callers], where the code asks how many there
    are. *)
From S2P Require Import Prelude Words Defaults Frame Timers LogSummary Records Ordered Messages CoreTypes CoreBase.
From S2P Require Import ConnQueue OutboxState ConfirmingState.
Open Scope Z_scope.

Section Placing.
Context {E : Env}.

(** ** Drops *)

Definition report_drop (frame : OutFrame) (reason : DropReason) : CM unit :=
  if of_confirmed frame then
    flushes_lost (of_number frame) ;;;
    confirmed_frame_dropped (of_id frame) reason
  else
    let count := match of_batch frame with Some ids => Z.of_nat (length ids) | None => 1 end in
    mod_client (fun cl => cl <| cl_dropped ::= Z.add count |>) ;;;
    let '(line, line_text) := drop_line reason in
    let* _ := drop_line_first (mkKind (DropLine_number line) LEVEL_WARN (of_type frame) 0) line_text in
    flushes_lost (of_number frame) ;;;
    let* observed := gets (fun c => cl_drop_observer (cr_client c)) in
    when observed
      (mod_outbox (fun o => o <| ob_drop_events ::= fun l =>
         l ++ match of_batch frame with
              | Some ids => map (fun id => (id, reason)) ids
              | None => [(of_id frame, reason)]
              end |>) ;;;
       post_callbacks).

Definition give_up_message (callers : Z) (frame : OutFrame) (tracker : option Z) (reason : DropReason) : CM Z :=
  report_drop frame reason ;;;
  match tracker with
  | None => Tracker_new Lost
  | Some tracker =>
      let* state := Tracker_get tracker in
      when (bool_decide (state = Queued))
        (Tracker_set tracker Lost ;;;
         let* f := followed (1 + callers) tracker in
         when f (tracked_message_done tracker false)) ;;;
      ret tracker
  end.

(** ** Deadlines (core/outbox/expiry.rs) *)

Definition held_left : CM unit :=
  mod_outbox (fun o => o <| ob_held_live ::= fun n => n - 1 |>) ;;;
  let* live := gets (fun c => ob_held_live (cr_outbox c)) in
  when (live =? 0) (mod_client (fun cl => cl <| cl_acknowledged_wake := true |>)).

Definition past (deadline : option Z) : CM bool :=
  gets (fun c => match deadline with Some deadline => deadline <=? cr_now c | None => false end).

(** The [while] of [arm_expiry]: entries of messages that left go off the top. *)
Fixpoint drop_top (o : Outbox) (heap : list (Z * WaitKey)) : list (Z * WaitKey) :=
  match heap with
  | [] => []
  | (deadline, key) :: heap' => if waits o key then heap else drop_top o heap'
  end.

Definition arm_expiry : CM unit :=
  mod_outbox (fun o => o <| ob_expiring ::= drop_top o |>) ;;;
  let* o := gets cr_outbox in
  match ob_expiring o with
  | [] =>
      let* slot := cancel (ob_timer o) in
      mod_outbox (fun o => o <| ob_timer := slot |> <| ob_armed := None |>)
  | (next, _) :: _ =>
      if bool_decide (ob_armed o = Some next) then ret tt
      else
        mod_outbox (fun o => o <| ob_armed := Some next |>) ;;;
        let* slot := rearm (ob_timer o) next DueOutboxExpiry in
        mod_outbox (fun o => o <| ob_timer := slot |>)
  end.

(** The heap with [key] due at [deadline], cleared out first when it doubled. *)
Definition expire_push (deadline : Z) (key : WaitKey) (o : Outbox) : Outbox :=
  let o :=
    if Z.max (ob_compact_at o) 64 <=? Z.of_nat (length (ob_expiring o)) then
      let heap := filter (fun e : Z * WaitKey => waits o e.2 = true) (ob_expiring o) in
      o <| ob_expiring := heap |> <| ob_compact_at := Z.max (2 * Z.of_nat (length heap)) 64 |>
    else o in
  o <| ob_expiring ::= bh_push (deadline, key) |>.

Definition expire_at (key : WaitKey) : CM unit :=
  let* waiting := get_waiting key in
  match waiting ≫= wt_deadline with
  | None => ret tt
  | Some deadline =>
      mod_outbox (expire_push deadline key) ;;;
      let* armed := gets (fun c => ob_armed (cr_outbox c)) in
      when (match armed with Some armed => deadline <? armed | None => true end) arm_expiry
  end.

(** [clear_out]'s [retain]: what of [queue] still waits; the rest is freed. *)
Fixpoint retain_waiting (queue : list WaitKey) (o : Outbox) : list WaitKey * Outbox :=
  match queue with
  | [] => ([], o)
  | key :: queue =>
      if waits o key then let '(kept, o) := retain_waiting queue o in (key :: kept, o)
      else retain_waiting queue (Outbox_release key o)
  end.

Definition clear_out (queue : list WaitKey) (live : Z) (o : Outbox) : list WaitKey * Outbox :=
  if negb (live =? 0) && (Z.of_nat (length queue) <? 2 * live + 64) then (queue, o)
  else retain_waiting queue o.

(** What [drop_expired] ends with: the queue the entry is in, cleared out. *)
Definition clear_queue (on : option Z) (o : Outbox) : Outbox :=
  match on with
  | None =>
      let '(queue, o) := clear_out (ob_held o) (ob_held_live o) (o <| ob_held := [] |>) in o <| ob_held := queue |>
  | Some conn =>
      match Outbox_backlog o conn with
      | None => o
      | Some backlog =>
          let '(queue, o) :=
            clear_out (bl_waiting backlog) (bl_live backlog)
              (o <| ob_backlogs ::= alter_backlog (fun b => b <| bl_waiting := [] |>) conn |>) in
          o <| ob_backlogs ::= alter_backlog (fun b => b <| bl_waiting := queue |>) conn |>
      end
  end.

(** A waiting entry's tracker reads LOST, told to whoever follows it: somebody
    besides the entry and the call. *)
Definition lose_tracker (tracker : Z) : CM unit :=
  let* state := Tracker_get tracker in
  when (bool_decide (state = Queued))
    (Tracker_set tracker Lost ;;;
     let* others := gets (fun c => 2 <? strong_count c tracker + 1) in
     when others (tracked_message_done tracker false)).

Definition drop_expired (key : WaitKey) : CM unit :=
  let* waiting := get_waiting key in
  match waiting with
  | None => ret tt
  | Some waiting =>
      let on := wt_on waiting in
      mod_waiting key (fun w => w <| wt_over := true |> <| wt_frame := None |>) ;;;
      match on with
      | Some conn => mod_backlog conn (fun b => b <| bl_live ::= fun n => n - 1 |>)
      | None => held_left
      end ;;;
      mod_outbox (fun o => o <| ob_waiting ::= fun n => n - 1 |>) ;;;
      wait_flushes (wt_number waiting) (-1) ;;;
      let* unregistered := gets (fun c =>
        match on ≫= fun conn => cr_conns c !! conn with Some state => negb (cn_registered state) | None => false end) in
      let held := bool_decide (on = None) in
      match wt_frame waiting with
      | Some frame => report_drop frame (if held || unregistered then NoConnection else NoRoom)
      | None => ret tt
      end ;;;
      lose_tracker (wt_tracker waiting) ;;;
      mod_outbox (clear_queue on)
  end.

Definition drop_held (tracker : Z) : CM unit :=
  let* found := gets (fun c =>
    head (filter (fun key => match Outbox_get (cr_outbox c) key with
                             | Some w => negb (wt_over w) && (wt_tracker w =? tracker)
                             | None => false
                             end = true) (ob_held (cr_outbox c)))) in
  match found with Some key => drop_expired key | None => ret tt end.

Definition remove_backlog (conn : Z) : CM unit :=
  mod_outbox (fun o =>
    match Outbox_backlog o conn with
    | None => o
    | Some backlog =>
        foldl (fun o key => Outbox_release key o) (o <| ob_backlogs ::= without_backlog conn |>) (bl_waiting backlog)
    end).

(** A turn of [expire]'s loop over the heap. *)
Definition expire_turn : CM bool :=
  let* c := gets id in
  match ob_expiring (cr_outbox c) with
  | [] => ret false
  | (deadline, key) :: heap =>
      if cr_now c <? deadline then ret false
      else
        mod_outbox (fun o => o <| ob_expiring := heap |>) ;;;
        when (waits (cr_outbox c) key) (drop_expired key) ;;;
        ret true
  end.

Definition expire : CM unit :=
  mod_outbox (fun o => o <| ob_timer := None |> <| ob_armed := None |>) ;;;
  let* turns := gets (fun c => length (ob_expiring (cr_outbox c))) in
  loop_m turns expire_turn ;;;
  let* empty := gets (fun c => map bl_conn (filter (fun b => bl_live b = 0) (ob_backlogs (cr_outbox c)))) in
  for_each empty remove_backlog ;;;
  arm_expiry ;;;
  check_flushes.

(** ** Placing *)

Definition next_number : CM Z :=
  mod_outbox (fun o => o <| ob_last_number ::= Z.add 1 |>) ;;;
  gets (fun c => ob_last_number (cr_outbox c)).

Definition out_frame (frame : FrameIn) (pinned for_all : bool) (number : Z) (deadline : option Z) : CM OutFrame :=
  let '(bytes, batch, confirmed) :=
    match fi_batch frame with
    | MarkEvent _ => (seal env_cpu (fi_bytes frame), None, false)
    | MarkBatch ids => (fi_bytes frame, Some ids, false)
    | MarkConfirmed => (fi_bytes frame, None, true)
    | MarkNone => (fi_bytes frame, None, false)
    end in
  let* ref := new_ref in
  ret (mkOutFrame ref bytes (fi_head frame) (fi_id frame) (fi_type frame) pinned for_all false number deadline
         batch confirmed).

Definition hold (frame : OutFrame) (tracker : option Z) (number : Z) (deadline : option Z) (all : bool)
    (lane : option Z) : CM Z :=
  let* tracker := match tracker with Some tracker => ret tracker | None => Tracker_new Queued end in
  let* key := store (mkWaiting (Some frame) tracker number deadline None false all lane false) in
  mod_outbox (fun o => o <| ob_held ::= fun l => l ++ [key] |> <| ob_held_live ::= Z.add 1 |>
                         <| ob_waiting ::= Z.add 1 |>) ;;;
  wait_flushes number 1 ;;;
  expire_at key ;;;
  ret tracker.

(** The backlog of [conn] with [key] behind it, one opened when it has none. *)
Definition join_backlog (conn : Z) (key : WaitKey) (o : Outbox) : Outbox :=
  o <| ob_backlogs ::= fun backlogs =>
    match Outbox_backlog o conn with
    | Some _ => alter_backlog (fun b => b <| bl_waiting ::= fun l => l ++ [key] |> <| bl_live ::= Z.add 1 |>)
                  conn backlogs
    | None => backlogs ++ [mkBacklog conn [key] 1]
    end |>.

Definition place_on (callers : Z) (conn : Z) (frame : OutFrame) (tracker : option Z) (number : Z)
    (deadline : option Z) (copy : bool) (lane : option Z) : CM (option Z) :=
  let* live := conn_living conn in
  if negb live then ret None
  else
    let* tracker := match tracker with Some tracker => ret tracker | None => Tracker_new Queued end in
    let* waiting := gets (fun c => match Outbox_backlog (cr_outbox c) conn with
                                   | Some backlog => 0 <? bl_live backlog
                                   | None => false
                                   end) in
    let* taken := if waiting : bool then ret false else take_over conn (tracker, frame) in
    if taken : bool then
      queued number tracker conn ;;; ret (Some tracker)
    else
      let* late := past deadline in
      if late : bool then
        let* tracker := give_up_message callers frame (Some tracker) NoRoom in ret (Some tracker)
      else
        let* key := store (mkWaiting (Some frame) tracker number deadline (Some conn) copy false lane false) in
        mod_outbox (join_backlog conn key) ;;;
        mod_outbox (fun o => o <| ob_waiting ::= Z.add 1 |>) ;;;
        wait_flushes number 1 ;;;
        expire_at key ;;;
        ret (Some tracker).

(** A connection with room and nothing waiting. *)
Definition free_conn (c : Core) (conn : Z) : bool :=
  match cr_conns c !! conn with
  | Some state => cn_living state && negb (outgoing_queue_full state)
  | None => false
  end && negb (waits_for (cr_outbox c) conn).

(** The live one with the least waiting, the first of them. *)
Definition least_waiting (c : Core) : option (Z * Z) :=
  foldl (fun least conn =>
    if negb (living c conn) then least
    else
      let waiting := match Outbox_backlog (cr_outbox c) conn with Some b => bl_live b | None => 0 end in
      match least with
      | None => Some (conn, waiting)
      | Some (_, fewest) => if waiting <? fewest then Some (conn, waiting) else least
      end) None (cr_round_robin c).

Definition choose_connection : CM (option Z) :=
  let* c := gets id in
  if cl_shuts_down (cr_client c) then ret None
  else
    match list_find (fun conn => free_conn c conn = true) (cr_round_robin c) with
    | Some (position, conn) =>
        modify (fun c => c <| cr_round_robin ::= fun l => delete position l ++ [conn] |>) ;;;
        ret (Some conn)
    | None => ret (fst <$> least_waiting c)
    end.

(** ** Where a dead connection's messages went (core/outbox/handover.rs) *)

Fixpoint handed_along (fuel : nat) (c : Core) (target : Target) : option Z :=
  match fuel with
  | O => None
  | S fuel =>
      match list_find (fun h => ho_target h = target) (ob_handovers (cr_outbox c)) with
      | None => None
      | Some (_, entry) => if living c (ho_to entry) then Some (ho_to entry) else handed_along fuel c (ho_to_target entry)
      end
  end.

Definition handed_to (c : Core) (gone : Wrapper) : option Z :=
  if match wr_conn gone with Some own => living c own | None => false end then None
  else handed_along (length (ob_handovers (cr_outbox c))) c (wr_target gone).

Definition live_wrapper (c : Core) (wrapper : Wrapper) : bool :=
  match wr_conn wrapper with Some conn => living c conn | None => false end.

Definition record_moved (tracker : Z) (conn : Wrapper) : CM unit :=
  modify (fun c =>
    let o := cr_outbox c in
    let o :=
      if Z.max (ob_moved_compact_at o) 64 <=? Z.of_nat (size (ob_moved o)) then
        let moved := filter (fun e : Z * Wrapper => 0 < strong_count c e.1) (ob_moved o) in
        o <| ob_moved := moved |> <| ob_moved_compact_at := Z.max (2 * Z.of_nat (size moved)) 64 |>
      else o in
    c <| cr_outbox := o <| ob_moved ::= <[tracker := conn]> |> |>).

Definition followed_connection (tracker : Z) (first : option Wrapper) : CM (option Wrapper) :=
  let* moved := gets (fun c => ob_moved (cr_outbox c) !! tracker) in
  mod_outbox (fun o => o <| ob_moved ::= delete tracker |>) ;;;
  ret (match moved with Some wrapper => Some wrapper | None => first end).

Definition lose (key : WaitKey) : CM unit :=
  let* waiting := get_waiting key in
  match waiting with
  | None => ret tt
  | Some waiting =>
      mod_waiting key (fun w => w <| wt_over := true |>) ;;;
      when (bool_decide (wt_on waiting = None)) held_left ;;;
      mod_outbox (fun o => o <| ob_waiting ::= fun n => n - 1 |>) ;;;
      wait_flushes (wt_number waiting) (-1) ;;;
      let* shuts_down := gets (fun c => cl_shuts_down (cr_client c)) in
      match wt_frame waiting with
      | Some frame => report_drop frame (if shuts_down : bool then ShutDown else ConnectionLost)
      | None => ret tt
      end ;;;
      lose_tracker (wt_tracker waiting)
  end.

(** What [place_now] answers: whether the message was placed, the trackers of
    what was, the connection used, and whether a pinned lane refused it. *)
Record Placed := mkPlaced {
  pc_placed : bool;
  pc_trackers : list Z;
  pc_used : option Wrapper;
  pc_refused : bool;
}.

Definition not_placed : Placed := mkPlaced false [] None false.

(** The connections not registered yet of targets whose first connection is on
    its way. *)
Definition first_connections (c : Core) : list Z :=
  map snd (filter (fun tc : Target * Z =>
    match cr_conns c !! tc.2 with
    | Some state => cn_living state && negb (cn_registered state)
    | None => false
    end = true /\ tc.1 ∉ cl_first_connection_over (cr_client c)) (cl_by_target (cr_client c))).

(** To ALL: every registered connection by peer id, which placing does not
    change, then those whose first connection is still on its way. *)
Definition place_all (callers : Z) (frame : OutFrame) (number : Z) (deadline : option Z) (tracker : option Z) :
    CM Placed :=
  let* registered := gets (fun c => map snd (cr_by_peer_id c)) in
  let* (p, first_tracker) :=
    fold_m registered (not_placed, tracker) (fun '(p, first_tracker) conn =>
      let* live := conn_living conn in
      if negb live then ret (p, first_tracker)
      else
        let* copy := place_on callers conn frame first_tracker number deadline true None in
        let* wrapper := wrap conn in
        ret (mkPlaced true (pc_trackers p ++ opt_list copy)
               (if pc_placed p then pc_used p else Some wrapper) false, None)) in
  let* late := past deadline in
  if pc_placed p && negb late then
    let* first := gets first_connections in
    fold_m first p (fun p conn =>
      let* copy := place_on 0 conn frame None number deadline true None in
      ret (mkPlaced (pc_placed p) (pc_trackers p ++ opt_list copy) (pc_used p) false))
  else ret p.

Definition place_now (callers : Z) (frame : OutFrame) (all : bool) (lane : option Z) (number : Z)
    (deadline : option Z) (tracker : option Z) : CM Placed :=
  let* c := gets id in
  if cl_shuts_down (cr_client c) then ret not_placed
  else if all then place_all callers frame number deadline tracker
  else
    let held := match lane with
                | Some lane => if Lane_holds_connection c lane then Some (lane, Lane_connection c lane) else None
                | None => None
                end in
    let own := match held with
               | Some (_, Some held) => match wr_conn held with
                                        | Some own => if living c own then Some (held, own) else None
                                        | None => None
                                        end
               | _ => None
               end in
    match own with
    | Some (held, own) =>
        let* placed := place_on callers own frame tracker number deadline false lane in
        ret (mkPlaced true (opt_list placed) (Some held) false)
    | None =>
        if match held with Some (lane, _) => Lane_pinned c lane | None => false end
        then ret (mkPlaced false [] None true)
        else
          let handed := match held with Some (_, Some held) => handed_to c held | _ => None end in
          let* conn := match handed with Some conn => ret (Some conn) | None => choose_connection end in
          match conn with
          | None => ret not_placed
          | Some conn =>
              let* placed := place_on callers conn frame tracker number deadline false lane in
              let* wrapper := wrap conn in
              match lane with Some lane => Lane_adopt lane wrapper | None => ret tt end ;;;
              ret (mkPlaced true (opt_list placed) (Some wrapper) false)
          end
    end.

(** [send_at]: whether something may take it, the trackers of what was placed
    or held, and the connection used. *)
Definition send_at (frame : FrameIn) (all : bool) (lane : option Z) (deadline : option Z) (number : Z)
    (done : option SendDone) : CM (bool * list Z * option Wrapper) :=
  let* c := gets id in
  if cl_shuts_down (cr_client c) then ret (false, [], None)
  else
    let lane_pinned := match lane with Some lane => Lane_pinned c lane | None => false end in
    let pinned := negb all && lane_pinned in
    let* number := if negb (number =? 0) then ret number else next_number in
    let* frame := out_frame frame pinned all number deadline in
    let* held_live := gets (fun c => ob_held_live (cr_outbox c)) in
    let* p := if held_live =? 0 then place_now 0 frame all lane number deadline None else ret not_placed in
    let* lane_holds := gets (fun c => match lane with Some lane => Lane_holds_connection c lane | None => false end) in
    if negb (pc_placed p) && (pc_refused p || (negb all && lane_pinned && lane_holds)) then ret (false, [], None)
    else
      let* trackers :=
        if pc_placed p then ret (pc_trackers p)
        else
          let* late := past deadline in
          let* tracker := if late : bool then give_up_message 0 frame None NoConnection
                          else hold frame None number deadline all lane in
          ret [tracker] in
      match done with Some done => follow trackers done | None => ret tt end ;;;
      ret (true, trackers, pc_used p).

(** A turn of [place_held]'s loop over what is held. *)
Definition place_held_turn : CM bool :=
  let* o := gets cr_outbox in
  match ob_held o with
  | [] => ret false
  | key :: rest =>
      let pop := mod_outbox (fun o => o <| ob_held := rest |>) in
      match Outbox_get o key with
      | None => pop ;;; ret true
      | Some waiting =>
          if wt_over waiting then pop ;;; release key ;;; ret true
          else
            match wt_frame waiting with
            | None => ret false
            | Some frame =>
                let tracker := wt_tracker waiting in
                let* p := place_now 1 frame (wt_all waiting) (wt_lane waiting) (wt_number waiting)
                            (wt_deadline waiting) (Some tracker) in
                if negb (pc_placed p) then
                  if pc_refused p then pop ;;; lose key ;;; release key ;;; ret true else ret false
                else
                  pop ;;;
                  let* others := gets (fun c => 2 <? strong_count c tracker + 1) in
                  match pc_used p with
                  | Some placed_on => when (negb (wt_all waiting) && others) (record_moved tracker placed_on)
                  | None => ret tt
                  end ;;;
                  mod_waiting key (fun w => w <| wt_over := true |>) ;;;
                  release key ;;;
                  held_left ;;;
                  mod_outbox (fun o => o <| ob_waiting ::= fun n => n - 1 |>) ;;;
                  wait_flushes (wt_number waiting) (-1) ;;;
                  mod_outbox (fun o => o <| ob_retries ::= Z.add 1 |>) ;;;
                  ret true
            end
      end
  end.

Definition place_held : CM unit :=
  let* turns := gets (fun c => length (ob_held (cr_outbox c))) in
  loop_m turns place_held_turn ;;;
  check_flushes.

(** A turn of [outgoing_queue_has_room]'s loop over the backlog of [conn]. *)
Definition has_room_turn (conn : Z) : CM bool :=
  let* c := gets id in
  match Outbox_backlog (cr_outbox c) conn with
  | None => ret false
  | Some backlog =>
      if bl_live backlog =? 0 then ret false
      else if match cr_conns c !! conn with Some state => outgoing_queue_full state | None => true end then ret false
      else
        match bl_waiting backlog with
        | [] => ret false
        | key :: rest =>
            mod_backlog conn (fun b => b <| bl_waiting := rest |>) ;;;
            match Outbox_get (cr_outbox c) key with
            | None => ret true
            | Some waiting =>
                if wt_over waiting then release key ;;; ret true
                else if match wt_deadline waiting with Some d => d <=? cr_now c | None => false end then
                  drop_expired key ;;; release key ;;; ret true
                else
                  match wt_frame waiting with
                  | None => ret false
                  | Some frame =>
                      mod_waiting key (fun w => w <| wt_over := true |>) ;;;
                      release key ;;;
                      mod_backlog conn (fun b => b <| bl_live ::= fun n => n - 1 |>) ;;;
                      mod_outbox (fun o => o <| ob_waiting ::= fun n => n - 1 |> <| ob_retries ::= Z.add 1 |>) ;;;
                      let* _ := take_over conn (wt_tracker waiting, frame) in
                      wait_flushes (wt_number waiting) (-1) ;;;
                      queued (wt_number waiting) (wt_tracker waiting) conn ;;;
                      ret true
                  end
            end
        end
  end.

Definition outgoing_queue_has_room (conn : Z) : CM unit :=
  let* turns := gets (fun c => match Outbox_backlog (cr_outbox c) conn with
                               | Some backlog => length (bl_waiting backlog)
                               | None => O
                               end) in
  loop_m turns (has_room_turn conn) ;;;
  let* empty := gets (fun c => match Outbox_backlog (cr_outbox c) conn with
                               | Some backlog => bl_live backlog =? 0
                               | None => false
                               end) in
  when empty (remove_backlog conn) ;;;
  check_flushes.

(** ** Shutdown *)

Definition drop_one (key : WaitKey) : CM unit :=
  let* waiting := get_waiting key in
  match waiting with
  | None => ret tt
  | Some waiting =>
      if wt_over waiting then release key
      else
        mod_waiting key (fun w => w <| wt_over := true |>) ;;;
        match wt_frame waiting with Some frame => report_drop frame ShutDown | None => ret tt end ;;;
        lose_tracker (wt_tracker waiting) ;;;
        release key
  end.

Definition drop_outbox : CM unit :=
  let* every := gets (fun c => let o := cr_outbox c in
                               concat (map bl_waiting (ob_backlogs o)) ++ ob_displaced o ++ ob_held o) in
  mod_outbox (fun o => o <| ob_backlogs := [] |> <| ob_displaced := [] |> <| ob_held := [] |>) ;;;
  for_each every drop_one ;;;
  mod_outbox (fun o => o <| ob_held_live := 0 |> <| ob_waiting := 0 |> <| ob_expiring := [] |>) ;;;
  let* slot := gets (fun c => ob_timer (cr_outbox c)) in
  let* slot := cancel slot in
  mod_outbox (fun o => o <| ob_timer := slot |> <| ob_armed := None |>).
End Placing.
