(* ===== verification/Bodies.v ===== *)
(** * Bodies: a batch as frames, and the buffers kept (core/bodies.rs)

    [batch_frame] packs as many records into one envelope as fit, [send_batch]
    sends a batch as such frames, and [wait_for_confirmation]
    (core/confirming/mod.rs) keeps a confirmed one until it is resolved.  A
    frame buffer comes back to its pool when the frame's last holder lets go,
    outside the core: [FramePool_give]. *)
From S2P Require Import Prelude Words Defaults Frame Timers LogSummary Records Ordered Messages CoreTypes CoreBase.
From S2P Require Import ConnQueue OutboxState ConfirmingState Placing.
Open Scope Z_scope.

Definition BODY_KEPT_MAX : Z := 64 * 1024.
Definition BODIES_KEPT_BYTES : Z := 16 * 1024 * 1024.
Definition FRAME_BUFFERS_KEPT : Z := 4.
Definition FRAME_BUFFER_KEPT_MAX : Z := 4 * 1024 * 1024.

(** ** Bodies kept *)

Definition Bodies_give (b : Bodies) (body : Vec8) : Bodies :=
  let capacity := v_capacity body in
  if (capacity =? 0) || (BODY_KEPT_MAX <? capacity) || (BODIES_KEPT_BYTES <? bo_bytes b + capacity) then b
  else mkBodies (Vec8_clear body :: bo_kept b) (bo_bytes b + capacity).

Definition Bodies_take (b : Bodies) : Vec8 * Bodies :=
  match bo_kept b with
  | body :: kept => (body, mkBodies kept (bo_bytes b - v_capacity body))
  | [] => (Vec8_new, b)
  end.

(** [take_all]: every body [other] kept, the first it was given first. *)
Definition Bodies_take_all (b other : Bodies) : Bodies * Bodies :=
  (foldl Bodies_give b (rev (bo_kept other)), mkBodies [] 0).

(** ** Frame buffers kept *)

Definition FramePool_take (pool : list Vec8) : Vec8 * list Vec8 :=
  match pool with
  | buffer :: pool => (buffer, pool)
  | [] => (Vec8_new, [])
  end.

Definition FramePool_give (pool : list Vec8) (buffer : Vec8) : list Vec8 :=
  if (v_capacity buffer =? 0) || (FRAME_BUFFER_KEPT_MAX <? v_capacity buffer) then pool
  else if Z.of_nat (length pool) <? FRAME_BUFFERS_KEPT then Vec8_clear buffer :: pool else pool.

Definition take_body : CM Vec8 :=
  fun c => let '(body, b) := Bodies_take (bc_bodies (cr_batcher c)) in
           (body, c <| cr_batcher ::= fun bc => bc <| bc_bodies := b |> |>).
Definition give_body (body : Vec8) : CM unit :=
  mod_batcher (fun bc => bc <| bc_bodies ::= fun b => Bodies_give b body |>).

(** ** A frame of a batch *)

(** The inner loop of the cut: bodies popped until they cover [excess], each
    back to its record; how many records are left, from the end [end_]. *)
Fixpoint cut_loop (fuel : nat) (messages : list Vec8) (records : list BatchRecord) (end_ : nat) (cut excess : Z) :
    list Vec8 * list BatchRecord * nat :=
  match fuel with
  | O => (messages, records, end_)
  | S fuel =>
      if (1 <? end_)%nat && (cut <? excess) then
        match last messages with
        | None => (messages, records, end_)
        | Some body =>
            cut_loop fuel (removelast messages) (alter (fun r => r <| br_body := body |>) (end_ - 1)%nat records)
              (end_ - 1)%nat (cut + v_len body) excess
        end
      else (messages, records, end_)
  end.

Section Bodies.
Context {E : Env}.

(** The outer loop: cut and measured again until it fits, one left at least. *)
Fixpoint fit_loop (fuel : nat) (envelope : BodiesEnvelope) (records : list BatchRecord) (end_ : nat)
    (max_bytes : Z) (confirm : bool) : CM (BodiesEnvelope * list BatchRecord * nat) :=
  match fuel with
  | O => ret (envelope, records, end_)
  | S fuel =>
      let size := envelope_len envelope in
      if (1 <? end_)%nat && (max_bytes <? size) then
        let '(messages, records, end_) :=
          cut_loop end_ (default [] (be_batch envelope)) records end_ 0 (size - max_bytes) in
        let envelope := envelope <| be_batch := Some messages |> in
        let* (envelope, records) :=
          if confirm then
            let* (pairs, head) := numbered (take end_ records) in
            ret (envelope <| be_confirm := pairs |>, head ++ drop end_ records)
          else ret (envelope, records) in
        fit_loop fuel envelope records end_ max_bytes confirm
      else ret (envelope, records, end_)
  end.

(** The bodies of the frame back to their records, [zip]. *)
Fixpoint bodies_back (records : list BatchRecord) (messages : list Vec8) : list BatchRecord :=
  match records, messages with
  | r :: records, body :: messages => r <| br_body := body |> :: bodies_back records messages
  | _, _ => records
  end.

(** [batch_frame]: how many records fit, the frame if it was made, and the
    records as they are left. *)
Definition batch_frame (id type : Z) (key : option str) (records : list BatchRecord) (max_bytes : Z)
    (confirm : bool) : CM (nat * option (list Z) * list BatchRecord) :=
  let* kept := gets (fun c => bc_envelope (cr_batcher c)) in
  let* sender := gets cr_instance_id in
  let envelope := mkEnvelope (Some id) (Some sender) type key
                    (Some (default [] (be_batch kept) ++ map br_body records)) (be_confirm kept) in
  let records := map (fun r => r <| br_body := Vec8_new |>) records in
  let* (envelope, records) :=
    if confirm then
      let* (pairs, records) := numbered records in
      ret (envelope <| be_confirm := pairs |>, records)
    else ret (envelope, records) in
  let* (envelope, records, end_) := fit_loop (length records) envelope records (length records) max_bytes confirm in
  let* frame :=
    if (1 <? end_)%nat || confirm then
      let* buffer := fun c => let '(buffer, pool) := FramePool_take (bc_frames (cr_batcher c)) in
                              (buffer, c <| cr_batcher ::= fun bc => bc <| bc_frames := pool |> |>) in
      ret (encode_envelope envelope (v_bytes buffer))
    else ret None in
  let messages := default [] (be_batch envelope) in
  let* records :=
    match frame with
    | Some _ => for_each messages give_body ;;; ret records
    | None => ret (bodies_back records messages)
    end in
  mod_batcher (fun bc => bc <| bc_envelope :=
    envelope <| be_confirm := [] |> <| be_key := None |> <| be_batch := Some [] |> |>) ;;;
  ret (end_, frame, records).

Definition alone_frame (body : Vec8) : CM (option (list Z) * list Z) :=
  if BODY_KEPT_MAX <? v_capacity body then ret (Some (head_of env_cpu (v_bytes body)), v_bytes body)
  else
    give_body body ;;;
    ret (None, frame_of_body env_cpu (v_bytes body)).

(** ** Confirmed batches sent (core/confirming/mod.rs) *)

(** The messages someone follows, by their place. *)
Fixpoint followed_of (index : Z) (records : list BatchRecord) : list Followed :=
  match records with
  | [] => []
  | r :: records =>
      match br_done r, br_tracker r with
      | None, None => followed_of (index + 1) records
      | done, tracker => mkFollowed index done tracker :: followed_of (index + 1) records
      end
  end.

(** Whether the records' numbers follow each other from [first]. *)
Fixpoint consecutive (first : Z) (records : list BatchRecord) : bool :=
  match records with
  | [] => true
  | r :: records => (br_number r =? first) && consecutive (first + 1) records
  end.

Definition wait_for_confirmation (frame : FrameIn) (batch : Batch) (records : list BatchRecord) (lane : option Z) :
    CM unit :=
  let id := fi_id frame in
  let count := Z.of_nat (length records) in
  let first_number := match records with r :: _ => br_number r | [] => 0 end in
  let numbers := if consecutive first_number records then [] else map br_number records in
  let cg := mkConfirming (fi_type frame) (ba_key batch) (ba_delivery batch) (fi_bytes frame) (map br_id records)
              first_number numbers (followed_of 0 records) (Flags_new count) count [] None None false None
              (ba_backoff batch) (ba_deadline batch) None in
  mod_confirmer (fun cf => cf <| cf_unconfirmed ::= Z.add count |> <| cf_by_id ::= <[id := cg]> |>) ;;;
  mod_confirmer (rebuild_runs id) ;;;
  let* (_, trackers, used) := send_at frame false lane (ba_deadline batch) 0 (Some (DoneConfirmed id)) in
  mod_confirmer (fun cf => cf <| cf_by_id ::= alter (fun cg =>
    cg <| cg_frame_state := head trackers |> <| cg_placed_on := used ≫= wr_conn |>) id |>) ;;;
  confirming_due id.

Definition cannot_confirm (type : Z) (records : list BatchRecord) : CM unit :=
  for_each records (fun r =>
    confirmed_end (br_id r) (br_number r) type (br_tracker r) (br_done r) false NotConfirmed true).

(** ** A batch sent *)

(** The ends of the messages someone follows. *)
Fixpoint ends_of (records : list BatchRecord) : list (option SendDone * option Z) :=
  match records with
  | [] => []
  | r :: records =>
      match br_done r, br_tracker r with
      | None, None => ends_of records
      | done, tracker => (done, tracker) :: ends_of records
      end
  end.

(** The [while] of [send_batch] over the records from [begin] on. *)
Fixpoint send_records (fuel : nat) (batch : Batch) (lane : option Z) (records : list BatchRecord) : CM unit :=
  match fuel, records with
  | S fuel, first :: _ =>
      let type := ba_type batch in
      let confirm := dl_confirm (ba_delivery batch) in
      let* (end_, envelope_frame, records) :=
        if (1 <? length records)%nat || confirm then
          let* id := random64 in
          let* (fit, bytes, records) :=
            batch_frame id type (ba_key batch) records (dl_max_bytes (ba_delivery batch)) confirm in
          let mark := if confirm then MarkConfirmed else MarkBatch (map br_id (take fit records)) in
          ret (fit, (fun bytes => mkFrameIn bytes None id type mark) <$> bytes, records)
        else ret (length records, None, records) in
      if confirm then
        match envelope_frame with
        | Some frame => wait_for_confirmation frame batch (take end_ records) lane
        | None => cannot_confirm type (take end_ records)
        end ;;;
        send_records fuel batch lane (drop end_ records)
      else
        match envelope_frame with
        | Some frame =>
            let ends := ends_of (take end_ records) in
            let done := match ends with [] => None | _ => Some (DoneBatch ends) end in
            let* _ := send_at frame false lane (ba_deadline batch) 0 done in
            send_records fuel batch lane (drop end_ records)
        | None =>
            match records with
            | [] => ret tt
            | record :: rest =>
                let done := match br_tracker record with
                            | None => br_done record
                            | Some tracker => Some (DoneBatch [(br_done record, Some tracker)])
                            end in
                let* (head, bytes) := alone_frame (br_body record) in
                let* _ := send_at (mkFrameIn bytes head (br_id record) type MarkNone) false lane (ba_deadline batch) 0
                            done in
                send_records fuel batch lane rest
            end
        end
  | _, _ => ret tt
  end.

Definition send_batch (batch : Batch) (idle : option Z) : CM unit :=
  let* lane :=
    match idle with
    | None => ret None
    | Some conn =>
        let* live := conn_living conn in
        if live : bool then
          let* wrapper := wrap conn in
          let* lane := Lane_seeded wrapper false in
          ret (Some lane)
        else ret None
    end in
  send_records (length (ba_records batch)) batch lane (ba_records batch).
End Bodies.
