(* ===== verification/Batching.v ===== *)
(** * Batching: the deliveries set and the batches open (core/batching.rs)

    A plain event goes by the delivery set for its key or its type: into the
    open batch of its group, alone, or kept until confirmed.  A batch goes when
    it is full, at its delay or deadline, when a connection has nothing left to
    write, or ahead of anything that must not overtake it. *)
From S2P Require Import Prelude Words Defaults Frame Timers LogSummary Records Ordered Messages CoreTypes CoreBase.
From S2P Require Import ConnQueue OutboxState ConfirmingState Placing Bodies.
Open Scope Z_scope.

(** ** Checks *)

(** The values of the enums the protocol names. *)
Definition logging_value (v : Z) : bool := (v =? 1) || (v =? 2) || (v =? 3).
Definition compression_value (v : Z) : bool := (v =? 0) || (v =? 1).

Definition known (f : Z -> bool) (d : Z) (v : option Z) : Z :=
  match v with Some v => if f v then v else d | None => d end.

Definition plain_event (message : MultiplexerMessage) : bool :=
  (default 0 (mm_to message) =? 0)
  && (default 0 (mm_references message) =? 0)
  && negb (default false (mm_report_delivery_error message))
  && negb (default false (mm_include_original_packet_in_report message))
  && match mm_override_rrules message with [] => true | _ => false end
  && (known logging_value 3 (mm_logging_method message) =? 3)
  && (known compression_value 0 (mm_compression message) =? 0)
  && match mm_batch message with None => true | Some _ => false end.

Definition check_delivery (type : Z) (key : option str) (delivery : Delivery) : result unit Error :=
  if type <=? types.MAX_MULTIPLEXER_META_PACKET then Err InvalidArgument
  else if match key with Some key => MAX_KEY_SIZE <? Z.of_nat (length key) | None => false end
  then Err InvalidArgument
  else if (dl_max_records delivery <? 1) || (MAX_BATCH_RECORDS <? dl_max_records delivery) then Err InvalidArgument
  else if (dl_max_bytes delivery <? 1) || (MAX_MESSAGE_SIZE <? dl_max_bytes delivery) then Err InvalidArgument
  else if MAX_TIMEOUT <? dl_max_delay delivery then Err InvalidArgument
  else if dl_confirm delivery && ((dl_retry_after delivery =? 0) || (MAX_TIMEOUT <? dl_retry_after delivery))
  then Err InvalidArgument
  else
    match dl_timeout delivery with
    | Some timeout =>
        let least := if dl_batch delivery then dl_max_delay delivery else 0 in
        if timeout <=? least then Err InvalidArgument else Ok tt
    | None => Ok tt
    end.

(** ** Plain sends (core/plain.rs) *)

(** [from_utf8] of a key that was a [String]'s once does not fail. *)
Definition Plain_key (plain : Plain) : option str :=
  if pl_keyed plain then Some (drop (Z.to_nat (pl_length plain)) (v_bytes (pl_body plain))) else None.

Definition into_body (plain : Plain) : Vec8 := Vec8_truncate (pl_body plain) (pl_length plain).

(** ** What joins a batch *)

Definition Joining_type (joining : Joining) : Z :=
  match joining with JoinFrame frame => fi_type frame | JoinPlain plain => pl_type plain end.

Definition Joining_key (joining : Joining) : option str :=
  match joining with
  | JoinFrame frame => match fi_batch frame with MarkEvent key => key | _ => None end
  | JoinPlain plain => Plain_key plain
  end.

Definition Joining_bytes (joining : Joining) : Z :=
  match joining with
  | JoinFrame frame => Z.of_nat (length (fi_bytes frame)) - Z.of_nat HEADER_LENGTH
  | JoinPlain plain => pl_length plain
  end.

(** ** The settings and the groups *)

Definition Batcher_find (bc : Batcher) (type : Z) (key : option str) : option Z :=
  match key with
  | None => bc_unkeyed bc !! type
  | Some key => bc_keyed bc !! type ≫= fun keys => keys !! key
  end.

Definition configured (bc : Batcher) : bool :=
  negb (bool_decide (bc_by_type bc = ∅)) || negb (bool_decide (size (bc_by_key bc) = 0%nat)).

Definition delivery_of (bc : Batcher) (type : Z) (key : option str) : option Delivery :=
  match key ≫= fun key => bc_by_key bc !! type ≫= fun keys => keys !! key with
  | Some delivery => Some delivery
  | None => bc_by_type bc !! type
  end.

Definition delivery_for (bc : Batcher) (frame : FrameIn) : option Delivery :=
  match fi_batch frame with MarkEvent key => delivery_of bc (fi_type frame) key | _ => None end.

(** Whether the batcher's earliest time is up by [now]. *)
Definition batch_due (bc : Batcher) (now : Z) : bool :=
  match bc_by_due bc with (due, _) :: _ => due <=? now | [] => false end.

Definition needs_loop_for (bc : Batcher) (type : Z) (key : option str) (bytes : Z) (all lane : bool) (now : Z) : bool :=
  if all || lane then true
  else
    match delivery_of bc type key with
    | None => true
    | Some delivery =>
        if negb (dl_batch delivery) || (dl_max_delay delivery =? 0) || batch_due bc now then true
        else
          let '(records, held) :=
            match Batcher_find bc type key ≫= fun began => bt_get began (bc_open bc) with
            | Some batch => (Z.of_nat (length (ba_records batch)), ba_bytes batch)
            | None => (0, 0)
            end in
          (dl_max_records delivery <=? records + 1) || (dl_max_bytes delivery <=? held + bytes)
    end.

Definition send_needs_loop (bc : Batcher) (frame : FrameIn) (all lane : bool) (now : Z) : bool :=
  match fi_batch frame with
  | MarkEvent key =>
      needs_loop_for bc (fi_type frame) key (Z.of_nat (length (fi_bytes frame)) - Z.of_nat HEADER_LENGTH) all lane now
  | _ => true
  end.

Definition plain_needs_loop (bc : Batcher) (plain : Plain) (now : Z) : bool :=
  needs_loop_for bc (pl_type plain) (Plain_key plain) (pl_length plain) false false now.

(** [Batch::at_once]. *)
Definition Batch_at_once (type : Z) (key : option str) (delivery : Delivery) (records : list BatchRecord)
    (bytes backoff : Z) (deadline : option Z) : Batch :=
  mkBatch type key delivery records bytes deadline false None backoff.

(** The group's entry, forgotten: a type with no key left goes. *)
Definition forget_group (type : Z) (key : option str) (bc : Batcher) : Batcher :=
  match key with
  | None => bc <| bc_unkeyed ::= delete type |>
  | Some key =>
      match bc_keyed bc !! type with
      | None => bc
      | Some keys =>
          let keys := delete key keys in
          if bool_decide (keys = ∅) then bc <| bc_keyed ::= delete type |>
          else bc <| bc_keyed ::= <[type := keys]> |>
      end
  end.

Definition note_group (type : Z) (key : option str) (began : Z) (bc : Batcher) : Batcher :=
  match key with
  | None => bc <| bc_unkeyed ::= <[type := began]> |>
  | Some key => bc <| bc_keyed ::= <[type := <[key := began]> (default ∅ (bc_keyed bc !! type))]> |>
  end.

(** ** The timer *)

Definition arm_batch_timer : CM unit :=
  let* bc := gets cr_batcher in
  match bc_by_due bc with
  | [] => ret tt
  | (first, _) :: _ =>
      if match bc_armed bc with Some armed => armed <=? first | None => false end then ret tt
      else
        mod_batcher (fun bc => bc <| bc_armed := Some first |>) ;;;
        let* slot := rearm (bc_timer bc) first DueBatches in
        mod_batcher (fun bc => bc <| bc_timer := slot |>)
  end.

Definition stop_batch_timer : CM unit :=
  let* slot := gets (fun c => bc_timer (cr_batcher c)) in
  let* slot := cancel slot in
  mod_batcher (fun bc => bc <| bc_timer := slot |> <| bc_armed := None |>).

Definition due_at (began due : Z) : CM unit :=
  let* bc := gets cr_batcher in
  match bt_get began (bc_open bc) with
  | None => ret tt
  | Some batch =>
      mod_batcher (fun bc =>
        bc <| bc_open ::= bt_alter (fun b => b <| ba_due := Some due |>) began |>
           <| bc_by_due ::= fun s =>
                bs_insert (due, began)
                  (match ba_due batch with Some before => bs_remove (before, began) s | None => s end) |>) ;;;
      when (match bc_armed bc with Some armed => due <? armed | None => true end) arm_batch_timer
  end.

Section Batching.
Context {E : Env}.

(** ** Batches that go *)

Definition close_batch (began : Z) (idle : option Z) : CM unit :=
  let* bc := gets cr_batcher in
  match bt_get began (bc_open bc) with
  | None => ret tt
  | Some batch =>
      mod_batcher (fun bc =>
        (forget_group (ba_type batch) (ba_key batch) (bc <| bc_open ::= bt_remove began |>))
          <| bc_waiting_for_idle ::= fun s => if ba_waits_for_idle batch then bs_remove began s else s |>) ;;;
      match ba_due batch with
      | Some due =>
          mod_batcher (fun bc => bc <| bc_by_due ::= bs_remove (due, began) |>) ;;;
          let* none := gets (fun c => bool_decide (bc_by_due (cr_batcher c) = [])) in
          when none stop_batch_timer
      | None => ret tt
      end ;;;
      send_batch batch idle
  end.

Definition close_batches : CM unit :=
  let* opened := gets (fun c => length (bc_open (cr_batcher c))) in
  loop_m opened
    (let* first := gets (fun c => head (bc_open (cr_batcher c))) in
     match first with
     | Some (began, _) => close_batch began None ;;; ret true
     | None => ret false
     end).

Definition close_on_its_own (began : Z) : CM unit :=
  let* waiting := gets (fun c => bc_waiting_for_idle (cr_batcher c)) in
  for_each (if bool_decide (began ∈ waiting) then waiting else bs_insert began waiting)
    (fun each => close_batch each None).

Definition idle_or_none (c : Core) : bool :=
  let registered := omap (fun e : Z * Z => (fun state => (e.2, state)) <$> cr_conns c !! e.2) (cr_by_peer_id c) in
  let live := filter (fun e : Z * Conn => cn_living e.2 = true) registered in
  existsb (fun e : Z * Conn => outgoing_queue_empty e.2 && negb (waits_for (cr_outbox c) e.1)) live
  || bool_decide (length live = 0%nat).

Definition wait_for_idle : CM unit :=
  let* registered := gets (fun c => map snd (cr_by_peer_id c)) in
  for_each registered (fun conn =>
    mod_conn conn (fun s => if cn_living s then s <| cn_notify_when_idle := true |> else s)).

Definition close_idle_batches (idle : option Z) : CM unit :=
  let* waiting := gets (fun c => bc_waiting_for_idle (cr_batcher c)) in
  for_each waiting (fun began => close_batch began idle).

Definition outgoing_queue_idle (conn : Z) : CM unit := close_idle_batches (Some conn).

Definition close_idle_batches_if_idle : CM unit :=
  let* go := gets (fun c => negb (bool_decide (bc_waiting_for_idle (cr_batcher c) = [])) && idle_or_none c) in
  when go (close_idle_batches None).

Definition batch_timer_fired : CM unit :=
  mod_batcher (fun bc => bc <| bc_timer := None |> <| bc_armed := None |>) ;;;
  let* due := gets (fun c =>
    map snd (take_while (fun e : Z * Z => e.1 <=? cr_now c) (bc_by_due (cr_batcher c)))) in
  for_each due close_on_its_own ;;;
  arm_batch_timer.

Definition stop_batching : CM unit := close_batches ;;; stop_batch_timer.

(** ** Batches that open *)

Definition open_batch (type : Z) (key : option str) (delivery : Delivery) : CM Z :=
  let* now := get_now in
  let deadline := deadline_after now (dl_timeout delivery) in
  mod_batcher (fun bc => bc <| bc_began ::= Z.add 1 |>) ;;;
  let* began := gets (fun c => bc_began (cr_batcher c)) in
  let waits_for_idle := dl_max_delay delivery =? 0 in
  mod_batcher (fun bc =>
    (note_group type key began bc)
      <| bc_open ::= bt_insert began (mkBatch type key delivery [] 0 deadline waits_for_idle None 0) |>) ;;;
  (if waits_for_idle then
     mod_batcher (fun bc => bc <| bc_waiting_for_idle ::= bs_insert began |>) ;;;
     match deadline with Some deadline => due_at began deadline | None => ret tt end ;;;
     wait_for_idle
   else due_at began (now + dl_max_delay delivery)) ;;;
  ret began.

(** [record_of]; [keeps]: the caller keeps the trackers. *)
Definition record_of (joining : Joining) (keeps : bool) (done : option SendDone) : CM BatchRecord :=
  let* (body, id) :=
    match joining with
    | JoinPlain plain => ret (into_body plain, pl_id plain)
    | JoinFrame frame =>
        let* body := take_body in
        ret (Vec8_extend body (drop HEADER_LENGTH (fi_bytes frame)), fi_id frame)
    end in
  let* tracker := if keeps then let* tracker := Tracker_new Queued in ret (Some tracker) else ret None in
  ret (mkBatchRecord body id done tracker 0).

(** [frame_of_plain] (core/plain.rs). *)
Definition frame_of_plain (plain : Plain) : CM FrameIn :=
  let* (head, bytes) := alone_frame (into_body plain) in
  ret (mkFrameIn bytes head (pl_id plain) (pl_type plain) MarkNone).

(** Whether a message joining the open batch of its group finds no room there. *)
Definition no_room (delivery : Delivery) (bytes : Z) (batch : Batch) : bool :=
  (dl_max_records delivery <=? Z.of_nat (length (ba_records batch))) || (dl_max_bytes delivery <? ba_bytes batch + bytes).

Definition join_batch (began : Z) (joining : Joining) (delivery : Delivery) (keeps : bool) (done : option SendDone) :
    CM (list Z) :=
  let* record := record_of joining keeps done in
  mod_batcher (fun bc => bc <| bc_open ::=
    bt_alter (fun b => b <| ba_bytes ::= Z.add (Joining_bytes joining) |>
                         <| ba_records ::= fun l => l ++ [record] |>) began |>) ;;;
  let* batch := gets (fun c => bt_get began (bc_open (cr_batcher c))) in
  when (match batch with
        | Some batch => (dl_max_records delivery <=? Z.of_nat (length (ba_records batch)))
                        || (dl_max_bytes delivery <=? ba_bytes batch)
        | None => false
        end) (close_on_its_own began) ;;;
  ret (opt_list (br_tracker record)).

(** [batch]: whether it was taken, and the trackers the caller keeps. *)
Definition batch_message (joining : Joining) (delivery : Delivery) (keeps : bool) (done : option SendDone) :
    CM (bool * list Z) :=
  let bytes := Joining_bytes joining in
  let type := Joining_type joining in
  let key := Joining_key joining in
  let* opened := gets (fun c => if dl_batch delivery then Batcher_find (cr_batcher c) type key else None) in
  let* full := gets (fun c => match opened ≫= fun began => bt_get began (bc_open (cr_batcher c)) with
                              | Some batch => no_room delivery bytes batch
                              | None => false
                              end) in
  let* opened := match opened with
                 | Some began => if full : bool then close_on_its_own began ;;; ret None else ret (Some began)
                 | None => ret None
                 end in
  match opened with
  | Some began => let* trackers := join_batch began joining delivery keeps done in ret (true, trackers)
  | None =>
      let* idle := gets idle_or_none in
      if negb (dl_batch delivery) || (dl_max_bytes delivery <=? bytes) || ((dl_max_delay delivery =? 0) && idle) then
        close_batches ;;;
        let* now := get_now in
        let deadline := deadline_after now (dl_timeout delivery) in
        if dl_confirm delivery then
          let* record := record_of joining keeps done in
          send_batch (Batch_at_once type key delivery [record] bytes 0 deadline) None ;;;
          ret (true, opt_list (br_tracker record))
        else
          let* frame := match joining with JoinFrame frame => ret frame | JoinPlain plain => frame_of_plain plain end in
          let* (sent, trackers, _) := send_at frame false None deadline 0 done in
          ret (sent, trackers)
      else
        let* began := open_batch type key delivery in
        let* trackers := join_batch began joining delivery keeps done in
        ret (true, trackers)
  end.

(** ** The settings changed *)

Definition set_delivery (type : Z) (key : option str) (delivery : Delivery) : CM (result unit Error) :=
  match check_delivery type key delivery with
  | Err e => ret (Err e)
  | Ok _ =>
      close_batches ;;;
      mod_batcher (fun bc =>
        match key with
        | None => bc <| bc_by_type ::= <[type := delivery]> |>
        | Some key => bc <| bc_by_key ::= <[type := <[key := delivery]> (default ∅ (bc_by_key bc !! type))]> |>
        end) ;;;
      ret (Ok tt)
  end.

Definition clear_delivery (type : Z) (key : option str) : CM unit :=
  close_batches ;;;
  mod_batcher (fun bc =>
    match key with
    | None => bc <| bc_by_type ::= delete type |> <| bc_by_key ::= delete type |>
    | Some key =>
        match bc_by_key bc !! type with
        | None => bc
        | Some keys =>
            let keys := delete key keys in
            if bool_decide (size keys = 0%nat) then bc <| bc_by_key ::= delete type |>
            else bc <| bc_by_key ::= <[type := keys]> |>
        end
    end).

Definition batches_open (c : Core) : bool := negb (bool_decide (length (bc_open (cr_batcher c)) = 0%nat)).
End Batching.
