(* ===== verification/Confirming.v ===== *)
(** * Confirming: confirmed sends sent again, and both sides' confirmations
    (core/confirming/again.rs, owed.rs, and [on_confirmation] of mod.rs)

    The producer's half resolves what a CONFIRMATION names and sends again what
    nothing confirmed; the consumer's half gathers what it owes each producer. *)
From S2P Require Import Prelude Words Defaults Frame Timers LogSummary Records Ordered Messages CoreTypes CoreBase.
From S2P Require Import ConnQueue OutboxState ConfirmingState Placing Bodies Batching.
Open Scope Z_scope.

Definition BACKOFF_FIRST : Z := from_millis 100.
Definition BACKOFF_MOST : Z := from_secs 1.
Definition OWED_KEPT : Z := 4096.

Definition hands_out_as_it_comes (c : Core) : bool :=
  bool_decide (cl_mode (cr_client c) = Dispatch) || cl_refusing (cr_client c).

Section Confirming.
Context {E : Env}.

(** ** Sent again (core/confirming/again.rs) *)

(** The bodies of a batch read back out of its frame. *)
Definition bodies_of_frame (cg : Confirming) : option (list (list Z)) :=
  message_decode (drop HEADER_LENGTH (cg_frame cg)) ≫= fun envelope =>
  mm_batch envelope ≫= fun inside =>
  batch_decode inside ≫= fun bodies =>
  if Z.of_nat (length bodies) =? cg_count cg then Some bodies else None.

(** The loop over [indexes]: the batch in hand, the records that go again and
    their bytes. *)
Definition again_records (late : bool) (bodies : list (list Z)) (indexes : list Z) (cg : Confirming) :
    CM (Confirming * list BatchRecord * Z) :=
  fold_m indexes (cg, [], 0) (fun '(cg, records, bytes) index =>
    if Flags_get (cg_resolved cg) index then ret (cg, records, bytes)
    else if late then
      let* (_, cg) := resolve_in cg index false NotConfirmed true in ret (cg, records, bytes)
    else
      let cg := cg <| cg_resolved ::= fun words => Flags_set words index |> <| cg_unresolved ::= fun n => n - 1 |> in
      mod_confirmer (fun cf => cf <| cf_unconfirmed ::= fun n => n - 1 |>) ;;;
      let* body := take_body in
      let body := Vec8_extend body (default [] (bodies !! Z.to_nat index)) in
      let '(done, tracker, cg) := take_end cg index in
      ret (cg, records ++ [mkBatchRecord body (id_of cg index) done tracker (Confirming_number cg index)],
           bytes + v_len body)).

(** A frame that does not read back: what would go again is given up on. *)
Definition give_up_unread (batch : Z) (indexes : list Z) (cg : Confirming) : CM unit :=
  let* cg := fold_m indexes cg (fun cg index =>
    let number := Confirming_number cg index in
    let* (newly, cg) := resolve_in cg index false NotConfirmed true in
    when newly (mod_confirmer (resolved_in_run batch number 1)) ;;;
    ret cg) in
  mod_confirmer (fun cf => cf <| cf_by_id ::= <[batch := cg]> |>) ;;;
  forget_resolved batch.

Definition send_again (batch : Z) (indexes : list Z) : CM unit :=
  let* cg := gets (fun c => cf_by_id (cr_confirmer c) !! batch) in
  match cg with
  | None => ret tt
  | Some cg =>
      mod_confirmer (fun cf => cf <| cf_by_id ::= delete batch |>) ;;;
      let* late := past (cg_deadline cg) in
      match if late : bool then Some [] else bodies_of_frame cg with
      | None => give_up_unread batch indexes cg
      | Some bodies =>
          let* (cg, records, bytes) := again_records late bodies indexes cg in
          mod_confirmer (fun cf => cf <| cf_by_id ::= <[batch := cg]> |>) ;;;
          mod_confirmer (rebuild_runs batch) ;;;
          forget_resolved batch ;;;
          match records with
          | [] => ret tt
          | _ =>
              mod_confirmer (fun cf => cf <| cf_sent_again ::= Z.add (Z.of_nat (length records)) |>) ;;;
              send_batch (Batch_at_once (cg_type cg) (cg_key cg) (cg_delivery cg) records bytes (cg_backoff cg)
                            (cg_deadline cg)) None
          end
      end
  end.

Definition send_unresolved_again (batch : Z) : CM unit :=
  let* cg := gets (fun c => cf_by_id (cr_confirmer c) !! batch) in
  match cg with
  | None => ret tt
  | Some cg =>
      send_again batch (filter (fun index => Flags_get (cg_resolved cg) index = false) (every_index cg))
  end.

(** One batch whose time came. *)
Definition confirm_due_batch (now batch : Z) : CM unit :=
  let* cg := gets (fun c => cf_by_id (cr_confirmer c) !! batch) in
  let late := match cg ≫= cg_deadline with Some deadline => deadline <=? now | None => false end in
  when late (let* _ := with_batch batch (fun cg => resolve_each (every_index cg) false NotConfirmed true cg) in ret tt) ;;;
  let* cg := gets (fun c => cf_by_id (cr_confirmer c) !! batch) in
  match cg with
  | None => ret tt
  | Some cg =>
      if cg_unresolved cg =? 0 then forget_resolved batch
      else if cg_written cg && match cg_retry_at cg with Some at_ => at_ <=? now | None => false end then
        send_unresolved_again batch
      else confirming_due batch
  end.

Definition confirm_timer_fired : CM unit :=
  mod_confirmer (fun cf => cf <| cf_timer := None |> <| cf_armed := None |> <| cf_firing := true |>) ;;;
  let* now := get_now in
  let* due := gets (fun c => map snd (take_while (fun e : Z * Z => e.1 <=? now) (cf_by_due (cr_confirmer c)))) in
  for_each due (confirm_due_batch now) ;;;
  mod_confirmer (fun cf => cf <| cf_firing := false |>) ;;;
  arm_confirm_timer.

(** The back-off after one more DELIVERY_ERROR. *)
Definition next_backoff (backoff : Z) : Z := if backoff =? 0 then BACKOFF_FIRST else Z.min (backoff * 2) BACKOFF_MOST.

Definition confirmed_batch_not_taken (envelope_id : Z) : CM bool :=
  let* now := get_now in
  let* cg := gets (fun c => cf_by_id (cr_confirmer c) !! envelope_id) in
  match cg with
  | None => ret false
  | Some cg =>
      let backoff := next_backoff (cg_backoff cg) in
      mod_confirmer (fun cf => cf <| cf_by_id ::=
        <[envelope_id := cg <| cg_backoff := backoff |> <| cg_written := true |>
                            <| cg_retry_at := Some (now + backoff) |>]> |>) ;;;
      confirming_due envelope_id ;;;
      ret true
  end.

(** ** A CONFIRMATION (core/confirming/mod.rs) *)

(** A batch that heard of one of its messages. *)
Definition heard_of (now batch : Z) : CM unit :=
  let* cg := gets (fun c => cf_by_id (cr_confirmer c) !! batch) in
  match cg with
  | None => ret tt
  | Some cg =>
      if cg_unresolved cg =? 0 then forget_resolved batch
      else
        mod_confirmer (fun cf => cf <| cf_by_id ::=
          <[batch := cg <| cg_backoff := 0 |>
                        <| cg_retry_at ::= fun at_ =>
                             if cg_written cg then deadline_after now (Some (dl_retry_after (cg_delivery cg)))
                             else at_ |>]> |>) ;;;
        confirming_due batch
  end.

Definition on_confirmation (message : MultiplexerMessage) : CM unit :=
  match mm_message message ≫= confirmation_decode with
  | None => ret tt
  | Some confirmation =>
      let* heard := resolve_list (co_processed confirmation) true NotConfirmed [] in
      let* heard := resolve_list (co_failed confirmation) false Failed heard in
      let* refused := gets (fun c => gather_refused (segments (cr_confirmer c) (co_refused confirmation)) []) in
      for_each refused (fun r : Z * list Z => send_again r.1 r.2) ;;;
      let* now := get_now in
      for_each (dedup (sort_list heard)) (heard_of now)
  end.

(** ** What a consumer owes (core/confirming/owed.rs) *)

Definition send_owed (producer : Z) : CM unit :=
  let* owed := gets (fun c => cf_owed (cr_confirmer c) !! producer) in
  match owed with
  | None => ret tt
  | Some owed =>
      mod_confirmer (fun cf =>
        cf <| cf_owed_count ::= fun n => n - ow_count owed |>
           <| cf_owed ::= <[producer := mkOwed (ow_connection owed) [] [] [] 0]> |>) ;;;
      let payload := confirmation_encode (mkConfirmation (ow_processed owed) (ow_refused owed) (ow_failed owed)) in
      let* id := random64 in
      let* sender := gets cr_instance_id in
      let message := MultiplexerMessage_default
        <| mm_id := Some id |> <| mm_sender := Some sender |> <| mm_to := Some producer |>
        <| mm_type := types.CONFIRMATION |> <| mm_report_delivery_error := Some false |>
        <| mm_message := Some payload |> in
      match encode_message message with
      | None => ret tt
      | Some bytes =>
          let* lane :=
            match ow_connection owed with
            | None => ret None
            | Some conn =>
                let* live := conn_living conn in
                if live : bool then
                  let* wrapper := wrap conn in
                  let* lane := Lane_seeded wrapper false in
                  ret (Some lane)
                else ret None
            end in
          let* now := get_now in
          let* _ := send_at (mkFrameIn bytes None id types.CONFIRMATION MarkNone) false lane
                      (deadline_after now (Some DEFAULT_TIMEOUT)) 0 None in
          ret tt
      end
  end.

(** The numbers of one outcome with [number] added. *)
Definition owe (outcome : Confirmed) (number : Z) (owed : Owed) : Owed :=
  let owed := match outcome with
              | Processed => owed <| ow_processed ::= fun l => add_number l number |>
              | Refused => owed <| ow_refused ::= fun l => add_number l number |>
              | ConfirmedFailed => owed <| ow_failed ::= fun l => add_number l number |>
              end in
  owed <| ow_count ::= Z.add 1 |>.

Definition confirm (sender number : Z) (outcome : Confirmed) : CM unit :=
  if number =? 0 then ret tt
  else
    let* owed := gets (fun c => owe outcome number (default Owed_default (cf_owed (cr_confirmer c) !! sender))) in
    mod_confirmer (fun cf => cf <| cf_owed ::= <[sender := owed]> |> <| cf_owed_count ::= Z.add 1 |>) ;;;
    when (CONFIRMATIONS_GATHERED_MAX <=? ow_count owed) (send_owed sender).

Definition send_confirmations : CM unit :=
  let* count := gets (fun c => cf_owed_count (cr_confirmer c)) in
  if count =? 0 then ret tt
  else
    let* producers := gets (fun c =>
      map fst (filter (fun e : Z * Owed => 0 < ow_count e.2) (map_to_list (cf_owed (cr_confirmer c))))) in
    for_each producers send_owed ;;;
    mod_confirmer (fun cf =>
      if OWED_KEPT <? Z.of_nat (size (cf_owed cf)) then
        cf <| cf_owed ::= filter (fun e : Z * Owed => 0 < ow_count e.2) |>
      else cf).

Definition confirmed_batch_from (conn producer : Z) : CM unit :=
  mod_confirmer (fun cf => cf <| cf_owed ::=
    <[producer := (default Owed_default (cf_owed cf !! producer)) <| ow_connection := Some conn |>]> |>).

Definition confirm_handed (handed : list HandedConfirmation) : CM unit :=
  let* torn_down := gets (fun c => th_torn_down (cr_threaded c)) in
  if bool_decide (length handed = 0%nat) || torn_down then ret tt
  else
    for_each handed (fun h => confirm (hc_sender h) (hc_number h) (hc_outcome h)) ;;;
    let* posted := gets (fun c => cf_posted (cr_confirmer c)) in
    when (negb posted)
      (mod_confirmer (fun cf => cf <| cf_posted := true |>) ;;; push_posted PostSendConfirmations).

Definition send_confirmations_posted : CM unit :=
  mod_confirmer (fun cf => cf <| cf_posted := false |>) ;;;
  let* torn_down := gets (fun c => th_torn_down (cr_threaded c)) in
  when (negb torn_down) send_confirmations.

(** ** A connection closed (core/confirming/again.rs) *)

(** Whether a batch placed on the connection was written and is not all
    resolved. *)
Definition goes_again (c : Core) (conn : Z) (cg : Confirming) : bool :=
  bool_decide (cg_placed_on cg = Some conn)
  && (cg_written cg || match cg_frame_state cg with
                       | Some tracker => bool_decide (tracker_state c tracker = Sent)
                       | None => false
                       end)
  && (0 <? cg_unresolved cg).

Definition confirmations_on_closed (conn : Z) : CM unit :=
  let* again := gets (fun c =>
    sort_list (map (fun e : Z * Confirming => (Confirming_number e.2 0, e.1))
                 (filter (fun e : Z * Confirming => goes_again c conn e.2 = true)
                    (map_to_list (cf_by_id (cr_confirmer c)))))) in
  mod_confirmer (fun cf => cf <| cf_by_id ::= fmap (fun cg =>
    if bool_decide (cg_placed_on cg = Some conn) then cg <| cg_placed_on := None |> else cg) |>) ;;;
  for_each again (fun e => send_unresolved_again e.2) ;;;
  let* go := gets (fun c => negb (cf_owed_count (cr_confirmer c) =? 0) && hands_out_as_it_comes c
                            && negb (cl_shuts_down (cr_client c))) in
  when go send_confirmations.
End Confirming.
