(* ===== verification/Sending.v ===== *)
(** * Sending: the ends of sends, flushes, and how a client sends
    (core/outbox/flush.rs, core/outbox/mod.rs, core/plain.rs, and the threaded
    client's sends of core/threaded.rs) *)
From S2P Require Import Prelude Words Defaults Frame Timers LogSummary Records Ordered Messages CoreTypes CoreBase.
From S2P Require Import ConnQueue OutboxState ConfirmingState Placing Bodies Batching Confirming.
Open Scope Z_scope.

(** ** A flushing send's end (core/threaded.rs) *)

Definition settle_send (id written : Z) (not_connected : bool) : CM unit :=
  let* pending := gets (fun c => th_sends (cr_threaded c) !! id) in
  match pending with
  | None => ret tt
  | Some pending =>
      mod_threaded (fun t => t <| th_sends ::= delete id |>) ;;;
      match pd_settled pending with
      | Some settled => tell (EvSettled settled written not_connected)
      | None => ret tt
      end
  end.

Section Sending.
Context {E : Env}.

(** ** A send's end *)

(** A batched message's tracker reads SENT or LOST. *)
Definition end_tracker (tracker : option Z) (written : Z) : CM unit :=
  match tracker with
  | Some tracker =>
      let* state := Tracker_get tracker in
      when (bool_decide (state = Queued)) (Tracker_set tracker (if 0 <? written then Sent else Lost))
  | None => ret tt
  end.

(** [end_send], with [end_batch] (core/bodies.rs) inside it. *)
Fixpoint end_send (done : SendDone) (written : Z) : CM unit :=
  match done with
  | DoneCallback callback => tell (EvSendDone callback written)
  | DoneSettle id => settle_send id written (written =? 0)
  | DoneBatch ends =>
      (fix end_batch (ends : list (option SendDone * option Z)) : CM unit :=
         match ends with
         | [] => ret tt
         | (done, tracker) :: ends =>
             end_tracker tracker written ;;;
             match done with Some done => end_send done written | None => ret tt end ;;;
             end_batch ends
         end) ends
  | DoneConfirmed batch => confirming_written batch written
  end.

Definition end_follow (id written : Z) : CM unit :=
  let* follow := gets (fun c => ob_follow_states (cr_outbox c) !! id) in
  match follow with
  | None => ret tt
  | Some follow =>
      mod_outbox (fun o => o <| ob_follow_states ::= delete id |>) ;;;
      if fo_over follow then ret tt
      else
        mod_outbox (fun o => o <| ob_follows ::= fun m =>
          foldl (fun m copy => if bool_decide (m !! copy = Some id) then delete copy m else m) m (fo_copies follow) |>) ;;;
        match fo_done follow with Some done => end_send done written | None => ret tt end
  end.

(** What [process_follows] makes of one event. *)
Definition process_follow (event : Z * bool) : CM unit :=
  let '(tracker, written) := event in
  let* id := gets (fun c => ob_follows (cr_outbox c) !! tracker) in
  match id with
  | None => ret tt
  | Some id =>
      mod_outbox (fun o => o <| ob_follows ::= delete tracker |>) ;;;
      let* follow := gets (fun c => ob_follow_states (cr_outbox c) !! id) in
      match follow with
      | None => ret tt
      | Some follow =>
          mod_outbox (fun o => o <| ob_follow_states ::= alter (fun f => f <| fo_live ::= fun n => n - 1 |>) id |>) ;;;
          if written : bool then end_follow id 1
          else if fo_live follow - 1 =? 0 then end_follow id 0
          else ret tt
      end
  end.

Definition process_follows : CM unit :=
  let* events := gets (fun c => ob_follow_events (cr_outbox c)) in
  mod_outbox (fun o => o <| ob_follow_events := [] |>) ;;;
  for_each events process_follow ;;;
  check_flushes.

(** [tell_drops] (core/client/mod.rs): an observer taken away ends it. *)
Definition tell_drops : CM unit :=
  let* events := gets (fun c => ob_drop_events (cr_outbox c)) in
  mod_outbox (fun o => o <| ob_drop_events := [] |>) ;;;
  let* observed := gets (fun c => cl_drop_observer (cr_client c)) in
  when observed (for_each events (fun e => tell (EvDropped e.1 e.2))).

(** [run_confirmed_ends] (core/confirming/mod.rs). *)
Definition run_confirmed_ends : CM unit :=
  let* ends := gets (fun c => cf_ends (cr_confirmer c)) in
  mod_confirmer (fun cf => cf <| cf_ends := [] |>) ;;;
  for_each ends (fun e : SendDone * Z => end_send e.1 e.2).

Definition process_callbacks : CM unit :=
  tell_drops ;;;
  run_confirmed_ends ;;;
  process_follows.

(** [run_posted] of [ProcessCallbacks] (core/mod.rs). *)
Definition run_process_callbacks : CM unit :=
  mod_outbox (fun o => o <| ob_callbacks_posted := false |>) ;;;
  process_callbacks.

Definition end_follows : CM unit :=
  tell_drops ;;;
  run_confirmed_ends ;;;
  mod_outbox (fun o => o <| ob_follow_events := [] |>) ;;;
  let* leftover := gets (fun c => map fst (map_to_list (ob_follow_states (cr_outbox c)))) in
  for_each leftover (fun id => end_follow id 0) ;;;
  check_flushes.

(** ** Flushes *)

Definition track_last_queued (conn : Z) : CM (option Z) :=
  let* found := gets (fun c => cr_conns c !! conn ≫= fun state => last_queued id (rev (cn_outgoing state))) in
  match found with
  | None => ret None
  | Some (tracker, _) =>
      let* upgraded := upgrade tracker in
      match upgraded with
      | Some tracker => ret (Some tracker)
      | None =>
          let* tracker := Tracker_new Queued in
          mod_conn conn (fun s => s <| cn_outgoing ::= fun queue =>
            match last_queued (fun _ => tracker) (rev queue) with
            | Some (_, reversed) => rev reversed
            | None => queue
            end |>) ;;;
          ret (Some tracker)
      end
  end.

(** The second half of [begin_flush]: the flush and its marks. *)
Definition open_flush (lost : bool) (done : option FlushDone) : CM Z :=
  mod_outbox (fun o => o <| ob_next_flush ::= Z.add 1 |>) ;;;
  let* id := gets (fun c => ob_next_flush (cr_outbox c)) in
  let* registered := gets (fun c => map snd (cr_by_peer_id c)) in
  let* marks := fold_m registered [] (fun marks conn =>
    let* live := conn_living conn in
    if live : bool then
      let* tracker := track_last_queued conn in
      ret (match tracker with Some tracker => marks ++ [(conn, tracker)] | None => marks end)
    else ret marks) in
  let* confirm_mark := gets (fun c => cf_last_number (cr_confirmer c)) in
  mod_outbox (fun o =>
    o <| ob_flush_states ::=
           <[id := mkFlush (ob_last_number o) (ob_waiting o) marks done false lost confirm_mark]> |>
      <| ob_flushes ::= fun l => l ++ [id] |>) ;;;
  ret id.

Definition begin_flush (done : option FlushDone) : CM Z :=
  let* dropped := gets (fun c => cl_dropped (cr_client c)) in
  close_batches ;;;
  send_confirmations ;;;
  let* lost := gets (fun c => negb (cl_dropped (cr_client c) =? dropped)) in
  let* noted := gets (fun c => negb (bool_decide (ob_follow_events (cr_outbox c) = []))
                               || negb (bool_decide (ob_drop_events (cr_outbox c) = []))
                               || negb (bool_decide (length (cf_ends (cr_confirmer c)) = 0%nat))) in
  when noted process_callbacks ;;;
  let* id := open_flush lost done in
  check_flushes ;;;
  ret id.

(** ** How a client sends *)

Definition schedule_one (frame : FrameIn) (pinned : bool) (timeout : option Z) (number : Z) (lane : option Z) :
    CM (option (Z * Wrapper)) :=
  close_batches ;;;
  let* handed := gets (fun c =>
    match lane with
    | Some lane =>
        if negb (bool_decide (length (ob_handovers (cr_outbox c)) = 0%nat)) && Lane_holds_connection c lane
        then Lane_connection c lane ≫= handed_to c else None
    | None => None
    end) in
  let* conn := match handed with Some conn => ret (Some conn) | None => choose_connection end in
  match conn with
  | None => ret None
  | Some conn =>
      let* used := wrap conn in
      let* number := if negb (number =? 0) then ret number else next_number in
      let* now := get_now in
      let deadline := deadline_after now timeout in
      let* frame := out_frame frame pinned false number deadline in
      let* tracker := place_on 0 conn frame None number deadline false lane in
      ret ((fun tracker => (tracker, used)) <$> tracker)
  end.

Definition schedule_on (frame : FrameIn) (pinned : bool) (wrapper : Wrapper) (timeout : option Z) (number : Z)
    (lane : option Z) : CM (option Z) :=
  match wr_conn wrapper with
  | None => ret None
  | Some conn =>
      let* gone := gets (fun c => cl_shuts_down (cr_client c) || negb (living c conn)) in
      if gone : bool then ret None
      else
        close_batches ;;;
        let* number := if negb (number =? 0) then ret number else next_number in
        let* now := get_now in
        let deadline := deadline_after now timeout in
        let* frame := out_frame frame pinned false number deadline in
        place_on 0 conn frame None number deadline false lane
  end.

(** The copies' trackers and the connections used. *)
Definition schedule_all (frame : FrameIn) (timeout : option Z) (number : Z) : CM (list (Z * Wrapper)) :=
  let* shuts_down := gets (fun c => cl_shuts_down (cr_client c)) in
  if shuts_down : bool then ret []
  else
    close_batches ;;;
    let* number := if negb (number =? 0) then ret number else next_number in
    let* now := get_now in
    let deadline := deadline_after now timeout in
    let* frame := out_frame frame false true number deadline in
    let* registered := gets (fun c => map snd (cr_by_peer_id c)) in
    fold_m registered [] (fun copies conn =>
      let* live := conn_living conn in
      if negb live then ret copies
      else
        let* tracker := place_on 0 conn frame None number deadline true None in
        match tracker with
        | None => ret copies
        | Some tracker => let* wrapper := wrap conn in ret (copies ++ [(tracker, wrapper)])
        end).

(** [send]: whether something may take it, the trackers, the connection used. *)
Definition send (frame : FrameIn) (all : bool) (lane : option Z) (timeout : option Z) (number : Z) (keeps : bool)
    (done : option SendDone) (may_batch : bool) : CM (bool * list Z * option Wrapper) :=
  let* c := gets id in
  if cl_shuts_down (cr_client c) then ret (false, [], None)
  else
    let delivery := if may_batch && negb all && bool_decide (lane = None) then delivery_for (cr_batcher c) frame
                    else None in
    if match delivery with Some d => dl_batch d || dl_confirm d | None => false end then
      match delivery with
      | Some delivery =>
          let* (taken, trackers) := batch_message (JoinFrame frame) delivery keeps done in
          ret (taken, trackers, None)
      | None => ret (false, [], None)
      end
    else
      let timeout := match delivery with Some delivery => dl_timeout delivery | None => timeout end in
      close_batches ;;;
      let* now := get_now in
      send_at frame all lane (deadline_after now timeout) number done.

(** ** Plain sends (core/plain.rs) *)

Definition send_plain (plain : Plain) (timeout : option Z) (number : Z) : CM bool :=
  let* c := gets id in
  if cl_shuts_down (cr_client c) then give_body (pl_body plain) ;;; ret false
  else
    let delivery := delivery_of (cr_batcher c) (pl_type plain) (Plain_key plain) in
    if match delivery with Some d => dl_batch d || dl_confirm d | None => false end then
      match delivery with
      | Some delivery => let* (taken, _) := batch_message (JoinPlain plain) delivery false None in ret taken
      | None => ret false
      end
    else
      let timeout := match delivery with Some delivery => dl_timeout delivery | None => timeout end in
      close_batches ;;;
      let* now := get_now in
      let* frame := frame_of_plain plain in
      let* (sent, _, _) := send_at frame false None (deadline_after now timeout) number None in
      ret sent.

(** What a drop report reads of a send that was not placed. *)
Definition report_frame (id type number : Z) (all : bool) : OutFrame :=
  mkOutFrame 0 [] None id type false all false number None None false.

(** [saturating_duration_since]. *)
Definition left_until (deadline : option Z) (now : Z) : option Z :=
  (fun deadline => Z.max 0 (deadline - now)) <$> deadline.

Definition place_plain (plain : Plain) (deadline : option Z) : CM unit :=
  let* number := next_number in
  let report := report_frame (pl_id plain) (pl_type plain) number false in
  let* torn_down := gets (fun c => th_torn_down (cr_threaded c)) in
  if torn_down : bool then
    report_drop report ShutDown ;;;
    give_body (pl_body plain)
  else
    let* now := get_now in
    let* sent := send_plain plain (left_until deadline now) number in
    when (negb sent) (report_drop report ConnectionLost).

(** ** The threaded client's sends (core/threaded.rs) *)

(** The [while] of [arm_send_expiry]. *)
Fixpoint drop_settled (sends : gmap Z PendingSend) (heap : list (Z * Z)) : list (Z * Z) :=
  match heap with
  | [] => []
  | (deadline, id) :: heap' =>
      if match sends !! id with Some send => pd_wait send | None => false end then heap
      else drop_settled sends heap'
  end.

Definition arm_send_expiry : CM unit :=
  mod_threaded (fun t => t <| th_expiring ::= drop_settled (th_sends t) |>) ;;;
  let* t := gets cr_threaded in
  match th_expiring t with
  | [] =>
      let* slot := cancel (th_expiry_timer t) in
      mod_threaded (fun t => t <| th_expiry_timer := slot |> <| th_expiry_armed := None |>)
  | (next, _) :: _ =>
      if bool_decide (th_expiry_armed t = Some next) then ret tt
      else
        mod_threaded (fun t => t <| th_expiry_armed := Some next |>) ;;;
        let* slot := rearm (th_expiry_timer t) next DueSendsExpire in
        mod_threaded (fun t => t <| th_expiry_timer := slot |>)
  end.

Definition expire_send_push (id deadline : Z) (t : Threaded) : Threaded :=
  let t :=
    if Z.max (th_expiring_compact_at t) 64 <=? Z.of_nat (length (th_expiring t)) then
      let heap := filter (fun e : Z * Z => is_Some (th_sends t !! e.2)) (th_expiring t) in
      t <| th_expiring := heap |> <| th_expiring_compact_at := Z.max (2 * Z.of_nat (length heap)) 64 |>
    else t in
  t <| th_expiring ::= bh_push (deadline, id) |>.

Definition expire_send_at (id : Z) (deadline : option Z) : CM unit :=
  match deadline with
  | None => ret tt
  | Some deadline =>
      mod_threaded (expire_send_push id deadline) ;;;
      let* armed := gets (fun c => th_expiry_armed (cr_threaded c)) in
      when (match armed with Some armed => deadline <? armed | None => true end) arm_send_expiry
  end.

Definition any_live_connection (c : Core) : bool := existsb (fun e : Z * Z => living c e.2) (cr_by_peer_id c).

(** A turn of [sends_expire]'s loop; settling changes no connection, so whether
    one is live is the same at every turn. *)
Definition sends_expire_turn : CM bool :=
  let* c := gets id in
  match th_expiring (cr_threaded c) with
  | [] => ret false
  | (deadline, id) :: heap =>
      if cr_now c <? deadline then ret false
      else
        mod_threaded (fun t => t <| th_expiring := heap |>) ;;;
        when (bool_decide (is_Some (th_sends (cr_threaded c) !! id)))
          (settle_send id 0 (negb (any_live_connection c))) ;;;
        ret true
  end.

Definition sends_expire : CM unit :=
  mod_threaded (fun t => t <| th_expiry_timer := None |> <| th_expiry_armed := None |>) ;;;
  let* turns := gets (fun c => length (th_expiring (cr_threaded c))) in
  loop_m turns sends_expire_turn ;;;
  arm_send_expiry.

Definition place_send (frame : FrameIn) (all : bool) (lane : option Z) (deadline : option Z) (wait : bool)
    (settled : option Z) : CM unit :=
  let* number := next_number in
  let report := report_frame (fi_id frame) (fi_type frame) number all in
  let* torn_down := gets (fun c => th_torn_down (cr_threaded c)) in
  if torn_down : bool then
    report_drop report ShutDown ;;;
    match settled with Some settled => tell (EvSettled settled 0 true) | None => ret tt end
  else
    let* send_id :=
      match settled with
      | None => ret None
      | Some settled =>
          mod_threaded (fun t => t <| th_next_send ::= Z.add 1 |>) ;;;
          let* id := gets (fun c => th_next_send (cr_threaded c)) in
          mod_threaded (fun t => t <| th_sends ::= <[id := mkPendingSend wait (Some settled)]> |>) ;;;
          when wait (expire_send_at id deadline) ;;;
          ret (Some id)
      end in
    let* now := get_now in
    let left := left_until deadline now in
    let timeout := if wait then (fun left => left + ROOM_GRACE_SECONDS) <$> left else left in
    let* (sent, _, _) := send frame all lane timeout number false (DoneSettle <$> send_id) (negb wait) in
    when (negb sent)
      (report_drop report ConnectionLost ;;;
       match send_id with Some id => settle_send id 0 true | None => ret tt end).

(** ** A flush_all() call (core/threaded.rs) *)

Definition begin_flush_all (timeout : option Z) (done : Z) : CM unit :=
  let* torn_down := gets (fun c => th_torn_down (cr_threaded c)) in
  if torn_down : bool then tell (EvFlushAll done true)
  else
    mod_threaded (fun t => t <| th_next_wait ::= Z.add 1 |>) ;;;
    let* id := gets (fun c => th_next_wait (cr_threaded c)) in
    mod_threaded (fun t => t <| th_flush_waits ::= fun l => l ++ [mkFlushWait id None (Some done) None] |>) ;;;
    let* flush := begin_flush (Some (FlushWaitDone id)) in
    let* waits := gets (fun c => existsb (fun w => fw_id w =? id) (th_flush_waits (cr_threaded c))) in
    if negb waits then end_flush flush
    else
      let change f := mod_threaded (fun t => t <| th_flush_waits ::=
                        map (fun w => if fw_id w =? id then f w else w) |>) in
      change (fun w => w <| fw_flush := Some flush |>) ;;;
      let* now := get_now in
      match deadline_after now timeout with
      | Some deadline =>
          let* key := arm deadline (DueFlushWait id) in
          change (fun w => w <| fw_timer := Some key |>)
      | None => ret tt
      end.

Definition flush_wait_expired (id : Z) : CM unit :=
  mod_threaded (fun t => t <| th_flush_waits ::=
    map (fun w => if fw_id w =? id then w <| fw_timer := None |> else w) |>) ;;;
  end_flush_wait id false.
End Sending.
