(* ===== verification/Handover.v ===== *)
(** * Handover: what a dead connection had not written (core/outbox/handover.rs)

    The unwritten queue of a connection that shuts down goes whole and in order
    to one other live connection, then what waited for it; with none live it is
    held. *)
From S2P Require Import Prelude Words Defaults Frame Timers LogSummary Records Ordered Messages CoreTypes CoreBase.
From S2P Require Import ConnQueue OutboxState ConfirmingState Placing Bodies Batching.
Open Scope Z_scope.

Section Handover.
Context {E : Env}.

Definition held_whole (c : Core) (frame : OutFrame) : bool :=
  existsb (fun key =>
    match Outbox_get (cr_outbox c) key with
    | Some waiting => negb (wt_over waiting)
                      && match wt_frame waiting with Some held => of_ref held =? of_ref frame | None => false end
    | None => false
    end) (ob_held (cr_outbox c)).

Definition supersede (tracker : option Z) : CM unit :=
  match tracker with
  | None => ret tt
  | Some tracker =>
      let* state := Tracker_get tracker in
      when (bool_decide (state = Queued))
        (Tracker_set tracker Lost ;;;
         let* f := followed 1 tracker in
         when f (tracked_message_done tracker false))
  end.

(** The handover of [target], changed or added. *)
Fixpoint set_handover (h : Handover) (l : list Handover) : list Handover :=
  match l with
  | [] => [h]
  | each :: l => if bool_decide (ho_target each = ho_target h) then h :: l else each :: set_handover h l
  end.

Definition successor (dead : Z) : CM (option Z) :=
  let* c := gets id in
  match cr_conns c !! dead with
  | None => ret None
  | Some state =>
      let target := cn_target state in
      let kept := match list_find (fun h => ho_target h = target) (ob_handovers (cr_outbox c)) with
                  | Some (_, entry) =>
                      if bool_decide (ho_from entry = Some dead) && living c (ho_to entry) then Some (ho_to entry)
                      else None
                  | None => None
                  end in
      match kept with
      | Some to_ => ret (Some to_)
      | None =>
          let* conn := choose_connection in
          match conn with
          | None => ret None
          | Some conn =>
              let* to_target := gets (fun c => wr_target (wrap_of c conn)) in
              mod_outbox (fun o => o <| ob_handovers ::= set_handover (mkHandover target (Some dead) conn to_target) |>) ;;;
              ret (Some conn)
          end
      end
  end.

Definition displace (conn : Z) : CM unit :=
  mod_outbox (fun o =>
    match Outbox_backlog o conn with
    | None => o
    | Some backlog =>
        foldl (fun o key => if waits o key then o <| ob_displaced ::= fun l => l ++ [key] |> else Outbox_release key o)
          (o <| ob_backlogs ::= without_backlog conn |>) (bl_waiting backlog)
    end).

Definition rehold (key : WaitKey) (all : bool) : CM unit :=
  mod_waiting key (fun w => w <| wt_on := None |> <| wt_copy := false |> <| wt_all := all |>) ;;;
  mod_outbox (fun o => o <| ob_held ::= fun l => l ++ [key] |> <| ob_held_live ::= Z.add 1 |>).

(** One entry of the dead connection's queue: what is left of it. *)
Definition orphan_entry (conn : option Z) (shuts_down : bool) (entry : QueueEntry) : CM (list QueueEntry) :=
  let '(weak, frame) := entry in
  if of_pinned frame || shuts_down then ret [entry]
  else
    let* tracker := upgrade weak in
    let deadline := of_deadline frame in
    let* late := past deadline in
    if of_for_all frame then
      let* whole := gets (fun c => held_whole c frame) in
      if bool_decide (is_Some conn) then ret [entry]
      else if whole : bool then supersede tracker ;;; ret []
      else if late : bool then ret [entry]
      else let* _ := hold frame tracker (of_number frame) deadline true None in ret []
    else
      match conn with
      | None =>
          if late : bool then ret [entry]
          else let* _ := hold frame tracker (of_number frame) deadline false None in ret []
      | Some conn =>
          mod_outbox (fun o => o <| ob_retries ::= Z.add 1 |>) ;;;
          let* tracker := match tracker with Some tracker => ret tracker | None => Tracker_new Queued end in
          let* followed_before := followed 1 tracker in
          let* placed := place_on 1 conn frame (Some tracker) (of_number frame) deadline false None in
          match placed with
          | None => ret [entry]
          | Some placed =>
              let* state := Tracker_get placed in
              when (negb (bool_decide (state = Lost)) && followed_before)
                (let* wrapper := wrap conn in record_moved tracker wrapper) ;;;
              ret []
          end
      end.

(** One entry that waited for the dead connection. *)
Definition replace_one (conn : option Z) (shuts_down : bool) (key : WaitKey) : CM unit :=
  let* waiting := get_waiting key in
  match waiting with
  | None => ret tt
  | Some waiting =>
      if wt_over waiting then release key
      else
        match wt_frame waiting with
        | None => ret tt
        | Some frame =>
            if of_pinned frame || shuts_down then lose key ;;; release key
            else if wt_copy waiting then
              let* whole := gets (fun c => held_whole c frame) in
              if bool_decide (is_Some conn) then lose key ;;; release key
              else if whole : bool then
                mod_waiting key (fun w => w <| wt_over := true |>) ;;;
                mod_outbox (fun o => o <| ob_waiting ::= fun n => n - 1 |>) ;;;
                wait_flushes (wt_number waiting) (-1) ;;;
                supersede (Some (wt_tracker waiting)) ;;;
                release key
              else rehold key true
            else
              match conn with
              | None => rehold key false
              | Some conn =>
                  let tracker := wt_tracker waiting in
                  mod_waiting key (fun w => w <| wt_over := true |>) ;;;
                  release key ;;;
                  mod_outbox (fun o => o <| ob_waiting ::= fun n => n - 1 |>) ;;;
                  wait_flushes (wt_number waiting) (-1) ;;;
                  mod_outbox (fun o => o <| ob_retries ::= Z.add 1 |>) ;;;
                  let* followed_before := followed 1 tracker in
                  let* _ := place_on 1 conn frame (Some tracker) (wt_number waiting) (wt_deadline waiting) false
                              (wt_lane waiting) in
                  let* wrapper := wrap conn in
                  when followed_before (record_moved tracker wrapper) ;;;
                  match wt_lane waiting with Some lane => Lane_adopt lane wrapper | None => ret tt end
              end
        end
  end.

Definition replace_displaced (conn : option Z) : CM unit :=
  let* shuts_down := gets (fun c => cl_shuts_down (cr_client c)) in
  let* displaced := gets (fun c => ob_displaced (cr_outbox c)) in
  mod_outbox (fun o => o <| ob_displaced := [] |>) ;;;
  for_each displaced (replace_one conn shuts_down) ;;;
  check_flushes.

(** [handle_orphaned_outgoing_messages]: what is left of the queue. *)
Definition handle_orphaned_outgoing_messages (dead : Z) (outgoing : list QueueEntry) : CM (list QueueEntry) :=
  let* none := gets (fun c => bool_decide (length outgoing = 0%nat) && bool_decide (ob_displaced (cr_outbox c) = [])) in
  let* conn := if none : bool then ret None else successor dead in
  let* shuts_down := gets (fun c => cl_shuts_down (cr_client c)) in
  let* leftover := fold_m outgoing [] (fun leftover entry =>
    let* more := orphan_entry conn shuts_down entry in ret (leftover ++ more)) in
  for_each leftover (fun entry : QueueEntry =>
    report_drop entry.2 (if shuts_down : bool then ShutDown else ConnectionLost)) ;;;
  replace_displaced conn ;;;
  close_idle_batches_if_idle ;;;
  ret leftover.
End Handover.
