(* ===== verification/Query.v ===== *)
(** * Query: the query state machine (core/query.rs)

    A query sends its request, searches for a backend when nothing answers, and
    sends the request again directly to the one found; it waits for a
    connection when none is live and, at its last stage, for a late reply. *)
From S2P Require Import Prelude Words Defaults Frame Timers LogSummary Records Ordered Messages CoreTypes CoreBase.
From S2P Require Import ConnQueue OutboxState ConfirmingState Placing Bodies Batching Confirming Sending.
Open Scope Z_scope.

(** The ids of ended queries kept at most. *)
Definition FINISHED_IDS_KEPT : Z := 2 ^ 17.

Definition addressed (q : InFlight) : bool := negb (default 0 (mm_to (if_prototype q)) =? 0).
Definition q_pinned (c : Core) (q : InFlight) : bool :=
  match if_lane q with Some lane => Lane_pinned c lane | None => false end.

Definition get_query (query : Z) : CM (option InFlight) := gets (fun c => bt_get query (qu_in_flight (cr_queries c))).
Definition mod_query (query : Z) (f : InFlight -> InFlight) : CM unit :=
  mod_queries (fun q => q <| qu_in_flight ::= bt_alter f query |>).

(** [attempt_ids]. *)
Definition attempt_ids (q : InFlight) : list Z := filter (fun id => id <> 0) [if_request_id q; if_direct_id q].

Definition forget_finished_ids (q : Queries) : Queries := q <| qu_finished_ids := ∅ |> <| qu_finished_order := [] |>.

Section Query.
Context {E : Env}.

(** [check_size_sent_again]: the request, its sender filled in. *)
Definition check_size_sent_again (request : MultiplexerMessage) (sender : Z) : MultiplexerMessage * result unit Error :=
  let request := if default 0 (mm_sender request) =? 0 then request <| mm_sender := Some sender |> else request in
  let largest := request <| mm_id := Some (2 ^ 64 - 1) |>
    <| mm_to ::= fun to_ => if default 0 to_ =? 0 then Some (2 ^ 64 - 1) else to_ |>
    <| mm_report_delivery_error := Some true |> in
  let size := message_len largest in
  (request, match check_key_size (mm_key request) with Err e => Err e | Ok _ => check_message_size size end).

(** ** Messages out *)

Definition attempt_frame (prototype : MultiplexerMessage) (id : Z) : option FrameIn :=
  let request := prototype <| mm_id := Some id |> in
  (fun bytes => mkFrameIn bytes None id (mm_type request) MarkNone) <$> encode_message request.

(** What [schedule_through] answers: the tracker and the connection used, or
    whether a pinned lane refused. *)
Definition schedule_through (frame : FrameIn) (lane : option Z) (timeout : option Z) :
    CM (option (Z * Wrapper) * bool) :=
  let* c := gets id in
  let pinned := match lane with Some lane => Lane_pinned c lane | None => false end in
  let held := match lane with
              | Some lane => if Lane_holds_connection c lane then Some (Lane_connection c lane) else None
              | None => None
              end in
  let* on_held := match held with
                  | Some (Some held) =>
                      let* tracker := schedule_on frame pinned held timeout 0 lane in
                      ret ((fun tracker => (tracker, held)) <$> tracker)
                  | _ => ret None
                  end in
  match on_held with
  | Some placed => ret (Some placed, false)
  | None =>
      if bool_decide (is_Some held) && pinned then ret (None, true)
      else
        let* placed := schedule_one frame pinned timeout 0 lane in
        match lane, placed with
        | Some lane, Some (_, used) => Lane_adopt lane used
        | _, _ => ret tt
        end ;;;
        ret (placed, false)
  end.

Definition stage_timeout (c : Core) (q : InFlight) : option Z :=
  if negb (addressed q) then if_timeout q else left_until (if_deadline q) (cr_now c).

(** ** The end *)

(** The [while] of [remember_finished]. *)
Fixpoint forget_oldest (now : Z) (order : list (Z * Z)) (ids : gset Z) : list (Z * Z) * gset Z :=
  match order with
  | [] => ([], ids)
  | (oldest, kept) :: rest =>
      if (now <? kept) && (Z.of_nat (length order) <? FINISHED_IDS_KEPT) then (order, ids)
      else forget_oldest now rest (ids ∖ {[oldest]})
  end.

Definition remember_finished (now id until : Z) (q : Queries) : Queries :=
  let '(order, ids) := forget_oldest now (qu_finished_order q) (qu_finished_ids q) in
  let q := q <| qu_finished_order := order |> <| qu_finished_ids := ids |> in
  if (id =? 0) || bool_decide (id ∈ ids) then q
  else q <| qu_finished_ids := {[id]} ∪ ids |> <| qu_finished_order ::= fun l => l ++ [(id, until)] |>.

Definition clear_out_waiting (q : Queries) : Queries :=
  let live := Z.of_nat (length (qu_waiting q)) - qu_waiting_ended q in
  if negb (live =? 0) && (qu_waiting_ended q <? live + 64) then q
  else q <| qu_waiting ::= filter (fun query => bt_has query (qu_in_flight q) = true) |> <| qu_waiting_ended := 0 |>.

Definition finish (query : Z) (outcome : Outcome) : CM unit :=
  let* q := get_query query in
  match q with
  | None => ret tt
  | Some q =>
      mod_queries (fun qs => qs <| qu_in_flight ::= bt_remove query |>) ;;;
      let* _ := cancel (if_timer q) in
      let* c := gets id in
      let kept := match if_timeout q with
                  | Some timeout =>
                      if (DEFAULT_TIMEOUT <? timeout) && (timeout <=? MAX_TIMEOUT) then 2 * timeout
                      else 2 * DEFAULT_TIMEOUT
                  | None => 2 * DEFAULT_TIMEOUT
                  end in
      let ids := if_request_id q :: (if if_direct_id q =? 0 then [] else [if_direct_id q]) ++ if_search_ids q in
      for_each ids (fun id =>
        mod_queries (fun qs => qs <| qu_by_id ::= delete id |>) ;;;
        when (bool_decide (cl_mode (cr_client c) = Dispatch))
          (mod_queries (remember_finished (cr_now c) id (cr_now c + kept)))) ;;;
      match outcome, if_lane q with
      | Replied reply, Some lane => Lane_adopt lane (in_connection reply)
      | _, _ => ret tt
      end ;;;
      match if_callback q with Some callback => tell (EvQuery callback outcome) | None => ret tt end ;;;
      when (if_listed q)
        (mod_queries (fun qs => clear_out_waiting (qs <| qu_waiting_ended ::= Z.add 1 |>)))
  end.

Definition arm_query (query : Z) (timeout : option Z) : CM unit :=
  let* now := get_now in
  let* q := get_query query in
  match q with
  | None => ret tt
  | Some q =>
      let generation := if_generation q + 1 in
      let* slot := match deadline_after now timeout with
                   | Some deadline => rearm (if_timer q) deadline (DueQuery query generation)
                   | None => cancel (if_timer q)
                   end in
      mod_query query (fun q => q <| if_generation := generation |> <| if_timer := slot |>)
  end.

Definition wait_for_connection (query : Z) (resume : Stage) : CM unit :=
  let* q := get_query query in
  match q with
  | None => ret tt
  | Some q =>
      mod_query query (fun q => q <| if_stage := StWaiting |> <| if_resume := resume |> <| if_listed := true |>) ;;;
      when (negb (if_listed q)) (mod_queries (fun qs => qs <| qu_waiting ::= fun l => l ++ [query] |>))
  end.

(** ** The stages *)

Definition start_request (query : Z) (keep_deadline : bool) : CM unit :=
  let* down := gets (fun c => cl_shuts_down (cr_client c) || th_shut_down (cr_threaded c)) in
  if down : bool then finish query QueryShutDown
  else
    let* q := get_query query in
    match q with
    | None => ret tt
    | Some q =>
        let* request_id := if if_request_id q =? 0 then random64 else ret (if_request_id q) in
        let* timeout := gets (fun c => stage_timeout c q) in
        mod_query query (fun q => q <| if_request_id := request_id |>) ;;;
        match attempt_frame (if_prototype q) request_id with
        | None => finish query QueryFailed
        | Some frame =>
            let* (placed, refused) := schedule_through frame (if_lane q) timeout in
            match placed with
            | None =>
                if refused : bool then finish query QueryNotConnected
                else
                  wait_for_connection query StRequest ;;;
                  when (negb keep_deadline) (arm_query query (if_timeout q))
            | Some (tracker, used) =>
                mod_query query (fun q => q <| if_sent_via := Some used |> <| if_sent_state := Some tracker |>
                                            <| if_request_state := Some tracker |> <| if_stage := StRequest |>) ;;;
                mod_queries (fun qs => qs <| qu_by_id ::= <[request_id := query]> |>) ;;;
                when (negb keep_deadline) (arm_query query (if_timeout q))
            end
        end
    end.

Definition start_query (prototype : MultiplexerMessage) (timeout : option Z) (lane : option Z) (done : Z)
    (received : option Z) : CM Z :=
  let* instance_id := gets cr_instance_id in
  let* now := get_now in
  let prototype := if default 0 (mm_sender prototype) =? 0 then prototype <| mm_sender := Some instance_id |>
                   else prototype in
  let prototype := if default 0 (mm_to prototype) =? 0 then prototype
                   else prototype <| mm_report_delivery_error := Some true |> in
  mod_queries (fun qs => qs <| qu_next_query ::= Z.add 1 |>) ;;;
  let* query := gets (fun c => qu_next_query (cr_queries c)) in
  let q := mkInFlight StRequest StRequest 0 None None None None prototype timeout (deadline_after now timeout) lane
             0 0 0 false [] [] [] 0 false (Some done) received None in
  mod_queries (fun qs => qs <| qu_in_flight ::= bt_insert query q |>) ;;;
  start_request query false ;;;
  ret query.

(** The message of the search, or of the PING that locates an addressee. *)
Definition search_message (q : InFlight) (id instance_id : Z) : MultiplexerMessage :=
  let message := MultiplexerMessage_default <| mm_id := Some id |> <| mm_sender := Some instance_id |>
                                            <| mm_message := Some [] |> in
  if addressed q then
    message <| mm_type := types.PING |> <| mm_to := mm_to (if_prototype q) |>
            <| mm_report_delivery_error := Some true |>
  else
    message <| mm_type := types.BACKEND_FOR_PACKET_SEARCH |>
            <| mm_message := Some (search_encode (mm_type (if_prototype q))) |>
            <| mm_key := mm_key (if_prototype q) |>.

Definition search (query : Z) (keep_deadline : bool) : CM unit :=
  let* q := get_query query in
  match q with
  | None => ret tt
  | Some q =>
      let* time_left := gets (fun c => stage_timeout c q) in
      if addressed q && bool_decide (time_left = Some 0) then finish query TimedOut
      else
        when (negb keep_deadline) (arm_query query time_left) ;;;
        let* id := random64 in
        let* instance_id := gets cr_instance_id in
        let message := search_message q id instance_id in
        match encode_message message with
        | None => finish query QueryFailed
        | Some bytes =>
            let frame := mkFrameIn bytes None id (mm_type message) MarkNone in
            let wait := match time_left with Some t => if t =? 0 then if_timeout q else Some t | None => if_timeout q end in
            let* pinned := gets (fun c => q_pinned c q) in
            let* (sent, refused) :=
              if pinned : bool then
                let* (placed, refused) := schedule_through frame (if_lane q) wait in
                ret (match placed with Some (_, used) => [used] | None => [] end, refused)
              else
                let* copies := schedule_all frame wait 0 in
                ret (map snd copies, false) in
            if refused : bool then finish query QueryNotConnected
            else
              match sent with
              | [] => wait_for_connection query StSearch
              | _ =>
                  mod_query query (fun q => q <| if_search_id := id |> <| if_search_ids ::= fun l => l ++ [id] |>
                                              <| if_searched := sent |> <| if_stage := StSearch |>) ;;;
                  mod_queries (fun qs => qs <| qu_by_id ::= <[id := query]> |>)
              end
        end
  end.

(** [answered]: whether the search went through [connection], which then counts
    no more. *)
Definition answered (query : Z) (connection : Wrapper) : CM bool :=
  let* q := get_query query in
  match q with
  | None => ret false
  | Some q =>
      match list_find (fun each => is_same_connection each connection = true) (if_searched q) with
      | Some (position, _) =>
          mod_query query (fun q => q <| if_searched ::= delete position |>) ;;; ret true
      | None => ret false
      end
  end.

(** What may still answer: the request when it may have been taken, the direct
    request when its connection went, unless the client gave it up. *)
Definition late_attempts (c : Core) (q : InFlight) (direct : bool) : list Z :=
  let given_up (tracker : option Z) :=
    match tracker with Some t => bool_decide (tracker_state c t = Lost) | None => false end in
  (if if_taken q && negb (given_up (if_request_state q)) then [if_request_id q] else [])
  ++ (if direct && negb (given_up (if_direct_state q)) then [if_direct_id q] else []).

Definition wait_late (query : Z) (direct : bool) : CM unit :=
  let* q := get_query query in
  match q with
  | None => ret tt
  | Some q =>
      let* pending := gets (fun c => late_attempts c q direct) in
      mod_query query (fun q => q <| if_pending := pending |>) ;;;
      match pending with
      | [] => finish query QueryFailed
      | _ => mod_query query (fun q => q <| if_stage := StLate |>)
      end
  end.

Definition send_direct (query : Z) (preferred : option Wrapper) (keep_deadline : bool) : CM unit :=
  let* q := get_query query in
  match q with
  | None => ret tt
  | Some q =>
      let* time_left := gets (fun c => stage_timeout c q) in
      let request := (if_prototype q) <| mm_id := Some (if_direct_id q) |> <| mm_to := Some (if_direct_to q) |>
                                      <| mm_report_delivery_error := Some true |> in
      match encode_message request with
      | None => finish query QueryFailed
      | Some bytes =>
          let frame := mkFrameIn bytes None (if_direct_id q) (mm_type request) MarkNone in
          let* pinned := gets (fun c => q_pinned c q) in
          when (negb keep_deadline) (arm_query query time_left) ;;;
          let* on_preferred :=
            match preferred with
            | Some preferred =>
                let* tracker := schedule_on frame pinned preferred time_left 0 None in
                ret ((fun tracker => (tracker, preferred)) <$> tracker)
            | None => ret None
            end in
          match on_preferred, if_lane q with
          | Some (_, used), Some lane => Lane_adopt lane used
          | _, _ => ret tt
          end ;;;
          let* (placed, refused) :=
            match on_preferred with
            | Some placed => ret (Some placed, false)
            | None => schedule_through frame (if_lane q) time_left
            end in
          if refused : bool then finish query QueryNotConnected
          else
            match placed with
            | None => wait_for_connection query StDirect
            | Some (tracker, used) =>
                mod_query query (fun q => q <| if_sent_via := Some used |> <| if_sent_state := Some tracker |>
                                            <| if_direct_state := Some tracker |> <| if_stage := StDirect |>) ;;;
                mod_queries (fun qs => qs <| qu_by_id ::= <[if_direct_id q := query]> |>)
            end
      end
  end.

Definition direct (query : Z) (ping : Incoming) : CM unit :=
  let* id := random64 in
  let* q := get_query query in
  match q with
  | None => ret tt
  | Some _ =>
      mod_query query (fun q => q <| if_direct_to := default 0 (mm_sender (in_message ping)) |> <| if_direct_id := id |>) ;;;
      send_direct query (Some (in_connection ping)) false
  end.

Definition refused_attempt (query id : Z) : CM unit :=
  let* q := get_query query in
  match q with
  | None => ret tt
  | Some q =>
      when (id =? if_request_id q) (mod_query query (fun q => q <| if_taken := false |>)) ;;;
      match if_stage q with
      | StRequest => when (id =? if_request_id q) (search query false)
      | StDirect => when (id =? if_direct_id q) (wait_late query false)
      | StLate =>
          let pending := filter (fun each => each <> id) (if_pending q) in
          mod_query query (fun q => q <| if_pending := pending |>) ;;;
          match pending with [] => finish query QueryFailed | _ => ret tt end
      | _ => ret tt
      end
  end.

Definition advance (query : Z) (incoming : Incoming) : CM unit :=
  let* q := get_query query in
  match q with
  | None => ret tt
  | Some q =>
      let message := in_message incoming in
      let references := default 0 (mm_references message) in
      let to_a_search := bool_decide (references ∈ if_search_ids q) in
      let delivery_error := mm_type message =? types.DELIVERY_ERROR in
      if negb to_a_search then
        if delivery_error then refused_attempt query references else finish query (Replied incoming)
      else if negb (bool_decide (if_stage q = StSearch)) || negb (references =? if_search_id q) then ret tt
      else if delivery_error then
        let* _ := answered query (in_connection incoming) in
        let* q := get_query query in
        when (match q with Some q => bool_decide (length (if_searched q) = 0%nat) | None => false end)
          (wait_late query false)
      else when (mm_type message =? types.PING) (direct query incoming)
  end.

Definition acknowledged (query : Z) (message : MultiplexerMessage) : CM unit :=
  let* q := get_query query in
  match q with
  | None => ret tt
  | Some q =>
      if bool_decide (default 0 (mm_references message) ∈ if_search_ids q) then ret tt
      else
        match if_received q with
        | Some received => tell (EvReceived received (default 0 (mm_sender message)))
        | None => ret tt
        end
  end.

Definition query_takes (incoming : Incoming) : CM (option Incoming) :=
  let message := in_message incoming in
  let references := default 0 (mm_references message) in
  if references =? 0 then ret (Some incoming)
  else
    let* c := gets id in
    match qu_by_id (cr_queries c) !! references with
    | Some query =>
        (if mm_type message =? types.REQUEST_RECEIVED then acknowledged query message else advance query incoming) ;;;
        ret None
    | None =>
        if bool_decide (cl_mode (cr_client c) = Dispatch)
           && bool_decide (references ∈ qu_finished_ids (cr_queries c))
        then ret None else ret (Some incoming)
    end.

(** ** Deadlines and connections *)

Definition query_deadline (query generation : Z) : CM unit :=
  let* q := get_query query in
  match q with
  | None => ret tt
  | Some q =>
      if negb (if_generation q =? generation) then ret tt
      else
        mod_query query (fun q => q <| if_timer := None |>) ;;;
        match if_stage q with
        | StRequest => mod_query query (fun q => q <| if_taken := true |>) ;;; search query false
        | StWaiting => finish query QueryNotConnected
        | _ => finish query TimedOut
        end
  end.

Definition restart_waiting_queries : CM unit :=
  let* pass := gets (fun c => qu_waiting (cr_queries c)) in
  mod_queries (fun qs => qs <| qu_waiting := [] |> <| qu_waiting_ended := 0 |>) ;;;
  for_each pass (fun query =>
    let* q := get_query query in
    match q with
    | None => ret tt
    | Some q =>
        mod_query query (fun q => q <| if_listed := false |>) ;;;
        if negb (bool_decide (if_stage q = StWaiting)) then ret tt
        else
          mod_queries (fun qs => qs <| qu_retries ::= Z.add 1 |>) ;;;
          match if_resume q with
          | StSearch => search query true
          | StDirect => send_direct query None true
          | _ => start_request query true
          end
    end).

Definition post_fill : CM unit :=
  let* posted := gets cr_queries_fill_posted in
  if posted : bool then ret tt
  else modify (fun c => c <| cr_queries_fill_posted := true |>) ;;; push_posted PostFill.

Definition fill : CM unit :=
  modify (fun c => c <| cr_queries_fill_posted := false |>) ;;;
  let* go := gets (fun c => negb (cl_shuts_down (cr_client c)) && negb (th_shut_down (cr_threaded c))
                            && negb (bool_decide (qu_waiting (cr_queries c) = []))) in
  when go restart_waiting_queries.

Definition follow_handover (query : Z) : CM unit :=
  let* q := get_query query in
  match q with
  | None => ret tt
  | Some q => push_posted (PostFollowHandover query (if_generation q) (bool_decide (if_stage q = StRequest)))
  end.

Definition lost (query : Z) : CM unit :=
  let* q := get_query query in
  match q with
  | None => ret tt
  | Some q =>
      let* pinned := gets (fun c => q_pinned c q) in
      if pinned : bool then finish query QueryNotConnected
      else if bool_decide (if_stage q = StRequest) then
        mod_query query (fun q => q <| if_taken := true |>) ;;; search query false
      else wait_late query true
  end.

Definition followed_handover (query generation : Z) (request : bool) : CM unit :=
  let* q := get_query query in
  match q with
  | None => ret tt
  | Some q =>
      let stage := if request then StRequest else StDirect in
      if negb (if_generation q =? generation) || negb (bool_decide (if_stage q = stage)) then ret tt
      else
        match if_sent_state q with
        | None => ret tt
        | Some state =>
            let* read := Tracker_get state in
            if bool_decide (read = Lost) then if request then search query false else wait_late query false
            else
              let* where_to := followed_connection state (if_sent_via q) in
              let* live := gets (fun c => match where_to with Some w => live_wrapper c w | None => false end) in
              if negb live then lost query else mod_query query (fun q => q <| if_sent_via := where_to |>)
        end
  end.

(** What one query makes of a connection going down. *)
Definition query_on_down (connection : Wrapper) (query : Z) : CM unit :=
  let* q := get_query query in
  match q with
  | None => ret tt
  | Some q =>
      let* c := gets id in
      let pinned := q_pinned c q in
      match if_stage q with
      | StRequest | StDirect =>
          when (match if_sent_via q with Some via => is_same_connection via connection | None => false end)
            (let unwritten := match if_sent_state q with
                              | Some state => bool_decide (tracker_state c state = Queued)
                              | None => false
                              end in
             if negb pinned && unwritten then follow_handover query else lost query)
      | StSearch =>
          if pinned then
            let* through := answered query connection in
            when through (finish query QueryNotConnected)
          else ret tt
      | StLate =>
          let lane_lost := match if_lane q ≫= Lane_connection c with
                           | Some held => is_same_connection held connection
                           | None => false
                           end in
          when (pinned && lane_lost) (finish query QueryNotConnected)
      | StWaiting => ret tt
      end
  end.

Definition queries_on_connection (connection : Wrapper) (up : bool) : CM unit :=
  if up then post_fill
  else
    let* queries := gets (fun c => map fst (qu_in_flight (cr_queries c))) in
    for_each queries (query_on_down connection).

Definition finish_every_query : CM unit :=
  let* queries := gets (fun c => map fst (qu_in_flight (cr_queries c))) in
  for_each queries (fun query => finish query QueryShutDown) ;;;
  mod_queries (fun qs => qs <| qu_waiting := [] |> <| qu_waiting_ended := 0 |>).
End Query.
