(* ===== verification/Connection.v ===== *)
(** * Connection: a connection's life (core/connection.rs, and what it tells the
    client: core/client/routing.rs, parts of core/client/connect.rs and
    core/client/mod.rs)

    The end of a write, the shutdown and what it hands back, reading to the
    end; and, since a connection coming or going changes it, whether every
    connection confirmed the client's routing. *)
From S2P Require Import Prelude Words Defaults Frame Timers LogSummary Records Ordered Messages CoreTypes CoreBase.
From S2P Require Import ConnQueue OutboxState ConfirmingState Placing Bodies Batching Confirming Sending Handover.
From S2P Require Import Query.
Open Scope Z_scope.

(** ** The routing acknowledged (core/client/routing.rs) *)

Definition all_confirmed (c : Core) : bool :=
  forallb (fun e : Target * Z =>
    match cr_conns c !! e.2 with
    | Some state =>
        if cn_living state then
          cn_registered state && (cn_routing_acknowledged state =? cl_routing_version (cr_client c))
        else true
    | None => true
    end) (cl_by_target (cr_client c)).

Definition routing_acknowledged (c : Core) : bool :=
  cl_confirmed (cr_client c) && (cl_confirmed_enqueued (cr_client c) <=? cl_dequeued (cr_client c)) && all_confirmed c.

Definition run_acknowledged_callbacks : CM unit :=
  let* c := gets id in
  if bool_decide (cl_acknowledged_callbacks (cr_client c) = []) || cl_shuts_down (cr_client c)
     || negb (routing_acknowledged c)
  then ret tt
  else
    mod_client (fun cl => cl <| cl_acknowledged_callbacks := [] |>) ;;;
    for_each (cl_acknowledged_callbacks (cr_client c)) (fun callback => tell (EvAcknowledged callback)).

Definition change_acknowledged : CM unit :=
  mod_client (fun cl => cl <| cl_acknowledged_wake := true |>) ;;;
  let* mode := gets (fun c => cl_mode (cr_client c)) in
  when (bool_decide (mode = Dispatch)) run_acknowledged_callbacks.

Definition update_confirmation : CM unit :=
  let* every := gets all_confirmed in
  if negb every then mod_client (fun cl => cl <| cl_confirmed := false |>)
  else
    mod_client (fun cl =>
      if cl_confirmed cl then cl
      else cl <| cl_confirmed := true |> <| cl_confirmed_enqueued := cl_enqueued cl |>) ;;;
    let* tell_of_it := gets (fun c =>
      routing_acknowledged c
      && (negb (cl_acknowledged_version (cr_client c) =? cl_routing_version (cr_client c))
          || negb (bool_decide (cl_acknowledged_callbacks (cr_client c) = [])))) in
    when tell_of_it
      (mod_client (fun cl => cl <| cl_acknowledged_version := cl_routing_version cl |>) ;;; change_acknowledged).

Definition acknowledged_by_receive : CM unit :=
  let* tell_of_it := gets (fun c =>
    negb (cl_acknowledged_version (cr_client c) =? cl_routing_version (cr_client c)) && routing_acknowledged c) in
  when tell_of_it
    (mod_client (fun cl => cl <| cl_acknowledged_version := cl_routing_version cl |>) ;;; change_acknowledged).

Definition take_acknowledged_wake : CM bool :=
  let* wake := gets (fun c => cl_acknowledged_wake (cr_client c)) in
  mod_client (fun cl => cl <| cl_acknowledged_wake := false |>) ;;;
  ret wake.

(** A [Routing]'s flags, the protocol's defaults read for what is not set. *)
Definition routing_flags (r : Routing) : bool * bool * bool :=
  (default true (ro_any r), default true (ro_all r), default false (ro_last_resort r)).

Definition same_routing (first second : Routing) : bool := bool_decide (routing_flags first = routing_flags second).

Definition check_key_filters (filters : list (Z * list str)) : result unit Error :=
  if existsb (fun f : Z * list str =>
       (f.1 <=? types.MAX_MULTIPLEXER_META_PACKET)
       || existsb (fun pattern : str => MAX_KEY_PATTERN_SIZE <? Z.of_nat (length pattern)) f.2) filters
  then Err InvalidArgument else Ok tt.

Section Connection.
Context {E : Env}.

Definition send_routing (conn : Z) : CM unit :=
  let* c := gets id in
  let* request_id := random64 in
  let payload := control_encode (mkPeerControl (cl_routing (cr_client c)) (cl_key_filters_message (cr_client c))) in
  let message := MultiplexerMessage_default
    <| mm_id := Some request_id |> <| mm_sender := Some (cr_instance_id c) |> <| mm_type := types.PEER_CONTROL |>
    <| mm_message := Some payload |> in
  match encode_message message with
  | None => ret tt
  | Some bytes =>
      let* ref := new_ref in
      let frame := mkOutFrame ref bytes None request_id types.PEER_CONTROL true false true 0 None None false in
      let* state := get_conn conn in
      match state with
      | None => ret tt
      | Some _ =>
          mod_conn conn (fun s => s <| cn_routing_request_id := request_id |>) ;;;
          let* _ := schedule conn frame true false in ret tt
      end
  end.

Definition routing_changed : CM unit :=
  mod_client (fun cl => cl <| cl_routing_version ::= Z.add 1 |> <| cl_confirmed := false |> <| cl_welcome := None |>) ;;;
  let* registered := gets (fun c => map snd (cr_by_peer_id c)) in
  for_each registered (fun conn => let* live := conn_living conn in when live (send_routing conn)) ;;;
  update_confirmation.

Definition set_routing (routing : Routing) (acknowledged_cb : option Z) : CM unit :=
  mod_client (fun cl => cl <| cl_routing := routing |>
    <| cl_acknowledged_callbacks ::= fun l => l ++ opt_list acknowledged_cb |>) ;;;
  routing_changed.

Definition set_key_filters (filters : list (Z * list str)) (acknowledged_cb : option Z) : CM (result unit Error) :=
  match check_key_filters filters with
  | Err e => ret (Err e)
  | Ok _ =>
      mod_client (fun cl => cl
        <| cl_acknowledged_callbacks ::= fun l => l ++ opt_list acknowledged_cb |>
        <| cl_key_filters_message := map (fun f : Z * list str => mkKeyFilter f.1 f.2) filters |>
        <| cl_key_filters := filters |>) ;;;
      routing_changed ;;;
      ret (Ok tt)
  end.

(** Whether [message] answers the last PEER_CONTROL sent on the connection with
    what is in effect here. *)
Definition confirms_routing (cl : ClientState) (state : Conn) (message : MultiplexerMessage) : bool :=
  match mm_message message ≫= status_decode with
  | None => false
  | Some status =>
      bool_decide (ps_error status = None)
      && (default 0 (mm_references message) =? cn_routing_request_id state)
      && same_routing (default Routing_default (ps_routing status)) (cl_routing cl)
      && bool_decide (ps_key_filter status = cl_key_filters_message cl)
  end.

Definition on_peer_status (conn : Z) (message : MultiplexerMessage) : CM unit :=
  let* c := gets id in
  match cr_conns c !! conn with
  | None => ret tt
  | Some state =>
      when (confirms_routing (cr_client c) state message)
        (mod_conn conn (fun s => s <| cn_routing_acknowledged := cl_routing_version (cr_client c) |>) ;;;
         update_confirmation)
  end.

(** ** What the client hears *)

(** [end_connect] (core/threaded.rs). *)
Definition end_connect (id : Z) (up : bool) : CM unit :=
  let* waiter := gets (fun c => snd <$> list_find (fun w => cw_id w = id) (th_connects (cr_threaded c))) in
  match waiter with
  | None => ret tt
  | Some waiter =>
      mod_threaded (fun t => t <| th_connects ::= filter (fun w => cw_id w <> id) |>) ;;;
      let* _ := cancel (cw_timer waiter) in
      match cw_done waiter with Some done => tell (EvConnect done up) | None => ret tt end
  end.

Definition on_connection (connection : Wrapper) (up : bool) : CM unit :=
  let* ended := gets (fun c =>
    map cw_id (filter (fun w => is_same_connection (cw_connection w) connection = true) (th_connects (cr_threaded c)))) in
  for_each ended (fun id => end_connect id up) ;;;
  queries_on_connection connection up.

Definition close_socket (conn : Z) : CM unit :=
  let* state := get_conn conn in
  match state with
  | Some state =>
      when (cn_socket_open state)
        (mod_conn conn (fun s => s <| cn_socket_open := false |>) ;;; push_action (ActClose conn))
  | None => ret tt
  end.

Definition unregister_connection (conn : Z) : CM unit :=
  let* c := gets id in
  match cr_conns c !! conn with
  | None => ret tt
  | Some state =>
      if bool_decide (bt_get (cn_peer_id state) (cr_by_peer_id c) = Some conn) then
        modify (fun c => c <| cr_by_peer_id ::= bt_remove (cn_peer_id state) |>
                           <| cr_round_robin ::= filter (fun each => each <> conn) |>)
      else ret tt
  end.

Definition connection_destroyed (conn : Z) : CM unit :=
  let* state := get_conn conn in
  match state with
  | None => ret tt
  | Some state =>
      when (negb (cn_shuts_down state)) (mod_client (fun cl => cl <| cl_closing ::= fun l => l ++ [conn] |>)) ;;;
      let target := cn_target state in
      displace conn ;;;
      let* still_wanted := gets (fun c => bool_decide (bt_get target (cl_by_target (cr_client c)) = Some conn)) in
      when still_wanted
        (mod_client (fun cl => cl <| cl_by_target ::= bt_remove target |>
                                  <| cl_first_connection_over ::= bs_insert target |>)) ;;;
      let* shuts_down := gets (fun c => cl_shuts_down (cr_client c)) in
      when (negb shuts_down && still_wanted)
        (mod_client (fun cl => cl <| cl_next_reconnect ::= Z.add 1 |>) ;;;
         let* number := gets (fun c => cl_next_reconnect (cr_client c)) in
         let* now := get_now in
         let* key := arm (now + AUTO_RECONNECT_TIME) (DueReconnect number) in
         mod_client (fun cl => cl <| cl_reconnects ::= bt_insert number (key, target) |>)) ;;;
      let* wrapper := gets (fun c =>
        mkWrapper None target (cr_conns c !! conn ≫= cn_expected_endpoint) None (cr_instance_id c) generation) in
      on_connection wrapper false ;;;
      let* shuts_down := gets (fun c => cl_shuts_down (cr_client c)) in
      when (negb shuts_down) update_confirmation
  end.

Definition connection_closed (conn : Z) : CM unit :=
  close_socket conn ;;;
  confirmations_on_closed conn ;;;
  let* state := get_conn conn in
  match state with
  | None => ret tt
  | Some state =>
      mod_client (fun cl => cl <| cl_dropped_while_closing ::= Z.add (cn_dropped_while_closing state) |>)
  end.

(** ** The shutdown (core/connection.rs) *)

Definition forget_if_finished (conn : Z) : CM unit :=
  modify (fun c => match cr_conns c !! conn with
                   | Some state => if finished state then c <| cr_conns ::= delete conn |> else c
                   | None => c
                   end).

Definition give_up_entries (conn : Z) (entries : list QueueEntry) : CM unit :=
  let* entries := handle_orphaned_outgoing_messages conn (filter (fun e : QueueEntry => of_own e.2 = false) entries) in
  for_each entries (fun entry : QueueEntry =>
    let* tracker := upgrade entry.1 in
    match tracker with
    | Some tracker => Tracker_set tracker Lost ;;; tracked_message_done tracker false
    | None => ret tt
    end).

Definition orphan_outgoing_messages (conn : Z) : CM unit :=
  let* state := get_conn conn in
  match state with
  | None => ret tt
  | Some state =>
      let '(aside, entries) :=
        match cn_outgoing state with
        | front :: rest => if cn_write_in_flight state then ([front], rest) else ([], front :: rest)
        | [] => ([], [])
        end in
      mod_conn conn (fun s => s <| cn_set_aside ::= fun l => l ++ aside |> <| cn_outgoing := [] |>) ;;;
      give_up_entries conn entries
  end.

Definition settle_set_aside (conn written : Z) (failed : bool) : CM unit :=
  let* state := get_conn conn in
  match state with
  | None => ret tt
  | Some state =>
      match cn_set_aside state with
      | [] => ret tt
      | entry :: rest =>
          mod_conn conn (fun s => s <| cn_set_aside := rest |>) ;;;
          if negb failed && (written =? wire_length entry.2) then
            let* tracker := upgrade entry.1 in
            match tracker with
            | Some tracker => Tracker_set tracker Sent ;;; tracked_message_done tracker true
            | None => ret tt
            end
          else give_up_entries conn [entry]
      end
  end.

Definition tell_client_gone (conn : Z) : CM unit :=
  let* state := get_conn conn in
  match state with
  | None => ret tt
  | Some state =>
      if cn_told_gone state then ret tt
      else
        mod_conn conn (fun s => s <| cn_told_gone := true |>) ;;;
        when (cn_registered state) (unregister_connection conn) ;;;
        connection_destroyed conn
  end.

Definition shutdown_connection (conn : Z) : CM unit :=
  let* state := get_conn conn in
  match state with
  | None => ret tt
  | Some state =>
      if cn_shuts_down state then ret tt
      else
        mod_conn conn (fun s => set_living false (s <| cn_shuts_down := true |>)
                                  <| cn_notify_when_read_drained := false |>) ;;;
        when (cn_notify_when_read_drained state)
          (mod_client (fun cl => cl <| cl_read_drains_wanted ::= fun n => n - 1 |>)) ;;;
        tell_client_gone conn ;;;
        let* state := get_conn conn in
        match state with
        | None => ret tt
        | Some state =>
            mod_conn conn (fun s => s <| cn_registered := false |> <| cn_outgoing_max := 0 |>
                                      <| cn_reading := false |> <| cn_out := Broken |>) ;;;
            let* t1 := cancel (cn_send_heartbit_timer state) in
            let* t2 := cancel (cn_require_heartbit_timer state) in
            let* t3 := cancel (cn_connect_deadline state) in
            mod_conn conn (fun s => s <| cn_send_heartbit_timer := t1 |> <| cn_require_heartbit_timer := t2 |>
                                      <| cn_connect_deadline := t3 |>) ;;;
            when (cn_socket_open state) (push_action (ActShutdown conn)) ;;;
            orphan_outgoing_messages conn ;;;
            connection_closed conn ;;;
            forget_if_finished conn
        end
  end.

Definition read_to_the_end (conn bound : Z) (deliver : bool) : CM unit :=
  let* now := get_now in
  let* state := get_conn conn in
  match state with
  | None => ret tt
  | Some _ =>
      mod_conn conn (fun s => (set_living false s) <| cn_out := Broken |> <| cn_delivering := deliver |>) ;;;
      tell_client_gone conn ;;;
      orphan_outgoing_messages conn ;;;
      let* state := get_conn conn in
      match state with
      | None => ret tt
      | Some state =>
          push_action (ActShutdownWrite conn) ;;;
          let* t2 := cancel (cn_require_heartbit_timer state) in
          let* t1 := rearm (cn_send_heartbit_timer state) (now + bound) (DueReadToTheEnd conn) in
          mod_conn conn (fun s => s <| cn_require_heartbit_timer := t2 |> <| cn_send_heartbit_timer := t1 |>)
      end
  end.

Definition read_to_the_end_bound (conn : Z) : CM unit :=
  let* state := get_conn conn in
  match state with
  | None => ret tt
  | Some state =>
      mod_conn conn (fun s => s <| cn_send_heartbit_timer := None |>) ;;;
      when (negb (cn_shuts_down state)) (shutdown_connection conn)
  end.

Definition write_failed (conn : Z) : CM unit :=
  let* state := get_conn conn in
  match state with
  | None => ret tt
  | Some state =>
      if cn_shuts_down state || cn_told_gone state then ret tt
      else if negb (cn_registered state) then shutdown_connection conn
      else read_to_the_end conn HEARTBIT_INTERVAL true
  end.

Definition close_gracefully (conn bound : Z) : CM bool :=
  let* state := get_conn conn in
  match state with
  | None => ret false
  | Some state =>
      if cn_shuts_down state || cn_told_gone state then ret false
      else if negb (cn_registered state) then shutdown_connection conn ;;; ret false
      else read_to_the_end conn bound false ;;; ret true
  end.

Definition require_heartbit_now (conn : Z) : CM unit :=
  let* state := get_conn conn in
  match state with
  | None => ret tt
  | Some state =>
      mod_conn conn (fun s => s <| cn_require_heartbit_timer := None |>) ;;;
      when (negb (cn_shuts_down state)) (shutdown_connection conn)
  end.

Definition on_read_end (conn : Z) : CM unit :=
  let* state := get_conn conn in
  match state with
  | None => ret tt
  | Some state => if negb (cn_reading state) || cn_shuts_down state then ret tt else shutdown_connection conn
  end.

(** ** The end of a write *)

(** The frame written is the queue's front: it leaves, its tracker reads SENT,
    and the next write starts. *)
Definition write_ended (conn : Z) (was_full : bool) (tracker : Z) : CM unit :=
  let* tracker := upgrade tracker in
  match tracker with
  | Some tracker => Tracker_set tracker Sent ;;; tracked_message_done tracker true
  | None => ret tt
  end ;;;
  send_heartbit_later conn ;;;
  process_send_queue conn ;;;
  let* state := get_conn conn in
  let has_room := match state with Some state => negb (outgoing_queue_full state) | None => false end in
  when (was_full && has_room) (outgoing_queue_has_room conn) ;;;
  let* state := get_conn conn in
  match state with
  | Some state =>
      when (cn_notify_when_idle state && outgoing_queue_empty state)
        (mod_conn conn (fun s => s <| cn_notify_when_idle := false |>) ;;; outgoing_queue_idle conn)
  | None => ret tt
  end.

Definition on_write_done (conn written : Z) (failed : bool) : CM unit :=
  let* state := get_conn conn in
  match state with
  | None => ret tt
  | Some state =>
      mod_conn conn (fun s => s <| cn_write_in_flight := false |>) ;;;
      if bool_decide (cn_out state = Broken) then
        settle_set_aside conn written failed ;;;
        forget_if_finished conn
      else
        let whole := match cn_outgoing state with front :: _ => wire_length front.2 =? written | [] => false end in
        if failed || (written =? 0) || negb whole then write_failed conn
        else
          match cn_outgoing state with
          | [] => mod_conn conn (fun s => s <| cn_out := Free |>)
          | (tracker, _) :: rest =>
              mod_conn conn (fun s => s <| cn_out := Free |> <| cn_outgoing := rest |>) ;;;
              write_ended conn (outgoing_queue_full state) tracker
          end
  end.
End Connection.
