(* ===== verification/Client.v ===== *)
(** * Client: what arrives and where it goes (core/client/mod.rs, the rest of
    core/client/connect.rs and core/connection.rs, core/threaded.rs)

    A frame read is the connection's own, a query's, or the program's; a batch
    is split into its messages.  [Program] is the program's part of it: what its
    callbacks answer, which may depend on everything it was told before. *)
From S2P Require Import Prelude Words Defaults Frame SpanSet Timers Endpoint LogSummary Records Ordered Messages.
From S2P Require Import CoreTypes CoreBase ConnQueue OutboxState ConfirmingState Placing Bodies Batching Confirming.
From S2P Require Import Sending Handover Query Connection.
From Stdlib Require String.
Import String.StringSyntax.
Open Scope Z_scope.

Class Program := {
  (** Whether the search policy says yes; one that panics says no. *)
  policy_says : list Event -> Incoming -> bool;
  (** Whether on_message returns rather than panics, and what it confirms. *)
  on_message_returns : list Event -> Incoming -> bool;
  on_message_confirms : list Event -> Incoming -> list HandedConfirmation;
}.

(** ** InHand (core/threaded.rs) *)

Definition InHand_note (sender number : Z) (h : InHand) : InHand :=
  h <| ih_made := true |>
    <| ih_confirmed ::= fun b => if (number =? ih_number h) && (sender =? ih_sender h) then true else b |>.
Definition InHand_hold (sender number : Z) (h : InHand) : InHand :=
  h <| ih_sender := sender |> <| ih_number := number |> <| ih_confirmed := false |>.
Definition InHand_release (h : InHand) : bool * InHand :=
  (ih_confirmed h, h <| ih_number := 0 |> <| ih_confirmed := false |>).
Definition InHand_take_made (h : InHand) : bool * InHand := (ih_made h, h <| ih_made := false |>).

Section Client.
Context {E : Env} {P : Program}.

(** ** The frames every connection sends *)

Definition heartbit_frame (ref instance_id : Z) : OutFrame :=
  let message := MultiplexerMessage_default <| mm_id := Some 0 |> <| mm_type := types.HEARTBIT |>
                                            <| mm_sender := Some instance_id |> in
  mkOutFrame ref (default [] (encode_message message)) None 0 types.HEARTBIT false false true 0 None None false.

Definition heartbit : CM OutFrame :=
  let* kept := gets (fun c => cl_heartbit (cr_client c)) in
  match kept with
  | Some frame => ret frame
  | None =>
      let* ref := new_ref in
      let* instance_id := gets cr_instance_id in
      let frame := heartbit_frame ref instance_id in
      mod_client (fun cl => cl <| cl_heartbit := Some frame |>) ;;;
      ret frame
  end.

Definition welcome_frame : CM OutFrame :=
  let* c := gets id in
  match cl_welcome (cr_client c) with
  | Some welcome => ret welcome
  | None =>
      let* ref := new_ref in
      let welcome := mkWelcome (cr_peer_type c) (cr_instance_id c) (Some (cl_routing (cr_client c)))
                       (cl_key_filters_message (cr_client c)) in
      let message := MultiplexerMessage_default
        <| mm_id := Some 0 |> <| mm_sender := Some (cr_instance_id c) |> <| mm_type := types.CONNECTION_WELCOME |>
        <| mm_message := Some (welcome_encode welcome) |> in
      let frame := mkOutFrame ref (default [] (encode_message message)) None 0 types.CONNECTION_WELCOME
                     false false true 0 None None false in
      mod_client (fun cl => cl <| cl_welcome := Some frame |>) ;;;
      ret frame
  end.

Definition start_connection (conn : Z) : CM unit :=
  let* welcome := welcome_frame in
  let* state := get_conn conn in
  match state with
  | None => ret tt
  | Some _ =>
      mod_conn conn (fun s => (set_living true s) <| cn_reading := true |>) ;;;
      push_action (ActStartReading conn) ;;;
      let* scheduled := schedule conn welcome true true in
      match scheduled with
      | Some _ => send_heartbit_later conn ;;; require_heartbit_later conn
      | None => shutdown_connection conn
      end
  end.

(** ** Connecting (core/client/connect.rs) *)

Definition try_next_candidate (conn : Z) : CM unit :=
  let* now := get_now in
  let* state := get_conn conn in
  match state with
  | None => ret tt
  | Some state =>
      match cn_candidates state !! Z.to_nat (cn_next_candidate state) with
      | None => shutdown_connection conn
      | Some address =>
          let* slot := rearm (cn_connect_deadline state) (now + CONNECT_ATTEMPT_SECONDS) (DueConnectDeadline conn) in
          mod_conn conn (fun s => s <| cn_next_candidate ::= Z.add 1 |> <| cn_expected_endpoint := Some address |>
                                    <| cn_socket_open := true |> <| cn_connecting := true |>
                                    <| cn_connect_deadline := slot |>) ;;;
          push_action (ActOpen conn address)
      end
  end.

(** [on_resolved]: the addresses, none for a target that does not resolve. *)
Definition on_resolved (conn : Z) (candidates : list SocketAddr) : CM unit :=
  let* state := get_conn conn in
  match state with
  | None => ret tt
  | Some state =>
      if cn_shuts_down state then ret tt
      else
        match candidates with
        | [] => shutdown_connection conn
        | _ =>
            mod_conn conn (fun s => s <| cn_candidates := candidates |> <| cn_next_candidate := 0 |>) ;;;
            try_next_candidate conn
        end
  end.

Definition connect_deadline (conn : Z) : CM unit :=
  let* state := get_conn conn in
  match state with
  | None => ret tt
  | Some state =>
      mod_conn conn (fun s => s <| cn_connect_deadline := None |>) ;;;
      when (cn_connecting state)
        (mod_conn conn (fun s => s <| cn_connect_timed_out := true |>) ;;; push_action (ActCancelConnect conn))
  end.

Definition connected (conn : Z) (ok : bool) : CM unit :=
  let* version := gets (fun c => cl_routing_version (cr_client c)) in
  let* state := get_conn conn in
  match state with
  | None => ret tt
  | Some state =>
      let* slot := cancel (cn_connect_deadline state) in
      mod_conn conn (fun s => s <| cn_connecting := false |> <| cn_connect_timed_out := false |>
                                <| cn_connect_deadline := slot |>) ;;;
      if ok then
        mod_conn conn (fun s => s <| cn_routing_in_welcome := version |>) ;;;
        start_connection conn
      else when (negb (cn_shuts_down state)) (try_next_candidate conn)
  end.

Definition open_failed (conn : Z) (why : str) : CM unit := push_posted (PostConnectFailed conn why).

(** The pairs of targets said to reach one multiplexer, each once. *)
Definition say_one_multiplexer (target : Target) (id : Z) (cl : ClientState) : ClientState :=
  foldl (fun cl (e : Target * Z) =>
    let '(reached, each) := e in
    if negb (each =? id) || bool_decide (reached = target) then cl
    else
      let said := if key_ltb reached target then (reached, target) else (target, reached) in
      if bool_decide (said ∈ cl_one_multiplexer_said cl) then cl
      else cl <| cl_one_multiplexer_said ::= fun l => l ++ [said] |>) cl (cl_reached_by_target cl).

(** Whether a newcomer that claims the id of [previous] is refused. *)
Definition refuses (newcomer previous : Conn) : bool :=
  match fst <$> cn_expected_endpoint newcomer, fst <$> cn_expected_endpoint previous with
  | None, _ => true
  | Some new, Some old => negb (bool_decide (new = old)) && cn_living previous
  | _, _ => false
  end.

Definition record_registration (conn id : Z) : CM unit :=
  modify (fun c => c <| cr_by_peer_id ::= bt_insert id conn |> <| cr_round_robin ::= cons conn |>) ;;;
  mod_conn conn (fun s => s <| cn_outgoing_max := DEFAULT_OUT_QUEUE_SIZE |>).

Definition register_connection (conn : Z) (welcome : WelcomeMessage) : CM unit :=
  let* state := get_conn conn in
  match state with
  | None => ret tt
  | Some state =>
      mod_client (fun cl => (say_one_multiplexer (cn_target state) (wm_id welcome) cl)
                              <| cl_reached_by_target ::= bt_insert (cn_target state) (wm_id welcome) |>) ;;;
      let* c := gets id in
      if negb (wm_type welcome =? PEER_MULTIPLEXER) then shutdown_connection conn
      else if wm_id welcome =? cr_instance_id c then shutdown_connection conn
      else
        let previous := match bt_get (wm_id welcome) (cr_by_peer_id c) with
                        | Some previous => if previous =? conn then None
                                           else (fun s => (previous, s)) <$> cr_conns c !! previous
                        | None => None
                        end in
        match previous with
        | Some (previous, old) =>
            if refuses state old then shutdown_connection conn
            else shutdown_connection previous ;;; record_registration conn (wm_id welcome)
        | None => record_registration conn (wm_id welcome)
        end
  end.

Definition after_connection_registration (conn : Z) : CM unit :=
  let* version := gets (fun c => cl_routing_version (cr_client c)) in
  let* state := get_conn conn in
  match state with
  | None => ret tt
  | Some state =>
      mod_conn conn (fun s => s <| cn_routing_acknowledged := cn_routing_in_welcome state |>) ;;;
      when (negb (cn_routing_in_welcome state =? version)) (send_routing conn) ;;;
      update_confirmation ;;;
      mod_client (fun cl => cl <| cl_first_connection_over ::= bs_insert (cn_target state) |>) ;;;
      outgoing_queue_has_room conn ;;;
      place_held ;;;
      close_idle_batches (Some conn) ;;;
      let* wrapper := wrap conn in
      on_connection wrapper true
  end.

(** ** Messages for the program (core/threaded.rs) *)

Definition answer_ping (incoming : Incoming) : CM unit :=
  let message := in_message incoming in
  let payload := default [] (mm_message message) in
  let* id := random64 in
  let* instance_id := gets cr_instance_id in
  let pong := MultiplexerMessage_default
    <| mm_id := Some id |> <| mm_sender := Some instance_id |> <| mm_to := mm_sender message |>
    <| mm_references := mm_id message |> <| mm_type := types.PING |> <| mm_message := Some payload |> in
  let pong :=
    if MAX_MESSAGE_SIZE <? message_len pong then
      pong <| mm_type := types.BACKEND_ERROR |>
           <| mm_message := Some (text "the echo of a "
                ++ (if mm_type message =? types.PING then text "PING" else text "search")
                ++ text " of " ++ digits 20 (Z.of_nat (length payload))
                ++ text " bytes would be over MAX_MESSAGE_SIZE") |>
    else pong in
  match encode_message pong with
  | None => ret tt
  | Some bytes =>
      let frame := mkFrameIn bytes None id (mm_type pong) MarkNone in
      let* on_its_own := schedule_on frame false (in_connection incoming) (Some DEFAULT_TIMEOUT) 0 None in
      match on_its_own with
      | Some _ => ret tt
      | None => let* _ := schedule_one frame false (Some DEFAULT_TIMEOUT) 0 None in ret tt
      end
  end.

Definition take_io_confirmations : CM unit :=
  let* t := gets cr_threaded in
  let '(made, in_hand) := InHand_take_made (th_in_hand t) in
  if negb made then ret tt
  else
    mod_threaded (fun t => t <| th_in_hand := in_hand |> <| th_io_inbox ::= fmap (fun _ => []) |>) ;;;
    confirm_handed (default [] (th_io_inbox t)).

(** on_message runs: what it is told, and the confirmations its handles give on
    the io thread. *)
Definition run_on_message (incoming : Incoming) : CM bool :=
  let* told := gets cr_events in
  tell (EvOnMessage incoming) ;;;
  for_each (on_message_confirms told incoming) (fun h =>
    mod_threaded (fun t => t <| th_in_hand ::= InHand_note (hc_sender h) (hc_number h) |>
                             <| th_io_inbox ::= fmap (fun l => l ++ [h]) |>)) ;;;
  ret (on_message_returns told incoming).

(** on_message of a confirmed batch's message: confirmed at its return, unless
    it did so itself or the program confirms for itself. *)
Definition on_message_confirmed (incoming : Incoming) (sender number : Z) : CM unit :=
  mod_threaded (fun t => t <| th_in_hand ::= InHand_hold sender number |>) ;;;
  let* returned := run_on_message incoming in
  let* confirmed := gets (fun c => (InHand_release (th_in_hand (cr_threaded c))).1) in
  mod_threaded (fun t => t <| th_in_hand ::= fun h => (InHand_release h).2 |>) ;;;
  take_io_confirmations ;;;
  let* itself := gets (fun c => th_confirms_itself (cr_threaded c)) in
  when (negb itself && negb confirmed)
    (confirm sender number (if returned : bool then Processed else ConfirmedFailed)).

(** Whether the program answers a PING, or a search it has a policy for. *)
Definition answers (incoming : Incoming) : CM bool :=
  let* policy := gets (fun c => th_search_policy (cr_threaded c)) in
  if negb (mm_type (in_message incoming) =? types.BACKEND_FOR_PACKET_SEARCH) then ret true
  else if negb policy then ret false
  else
    let* told := gets cr_events in
    tell (EvSearchPolicy incoming) ;;;
    ret (policy_says told incoming).

Definition on_unmatched (incoming : Incoming) : CM unit :=
  let message := in_message incoming in
  let type := mm_type message in
  let sender := default 0 (mm_sender message) in
  let number := default 0 (mm_confirmation message) in
  if type =? types.REQUEST_RECEIVED then ret tt
  else if (type =? types.PING) || (type =? types.BACKEND_FOR_PACKET_SEARCH) then
    if negb (default 0 (mm_references message) =? 0) then ret tt
    else let* answer := answers incoming in when answer (answer_ping incoming)
  else
    let* t := gets cr_threaded in
    let wanted := filter (fun s : option Z * Z => match s.1 with Some w => w =? type | None => true end = true)
                    (th_subscriptions t) in
    for_each wanted (fun s => tell (EvQueuePush s.2 incoming)) ;;;
    match th_inbox t with Some queue => tell (EvQueuePush queue incoming) | None => ret tt end ;;;
    let delivered := negb (bool_decide (length wanted = 0%nat)) || bool_decide (is_Some (th_inbox t)) in
    if th_on_message t then
      if number =? 0 then let* _ := run_on_message incoming in ret tt
      else on_message_confirmed incoming sender number
    else if delivered then ret tt
    else
      when (negb (th_confirms_itself t)) (confirm sender number ConfirmedFailed) ;;;
      let* _ := drop_line_first (mkKind (DropLine_number NoOnMessage) LEVEL_WARN type 0)
                  (text "messages of type " ++ digits 10 type ++ text " dropped: this client has no on_message callback") in
      ret tt.

Definition dispatch_incoming (incoming : Incoming) : CM unit :=
  let* left_over := query_takes incoming in
  match left_over with Some incoming => on_unmatched incoming | None => ret tt end.

(** ** Leaving *)

Definition refuse (incoming : Incoming) : CM unit :=
  let message := in_message incoming in
  match mm_confirmation message with
  | Some number => confirm (default 0 (mm_sender message)) number Refused
  | None =>
      let id := default 0 (mm_id message) in
      if negb (default 0 (mm_references message) =? 0) then ret tt
      else if bool_decide (mm_report_delivery_error message = Some false)
              || (mm_type message <=? types.MAX_MULTIPLEXER_META_PACKET) then ret tt
      else
        let* peer_type := gets cr_peer_type in
        let* instance_id := gets cr_instance_id in
        let error := mkDeliveryError id [peer_type] None None None None in
        let* refusal_id := random64 in
        let refusal := MultiplexerMessage_default
          <| mm_id := Some refusal_id |> <| mm_sender := Some instance_id |> <| mm_type := types.DELIVERY_ERROR |>
          <| mm_to := mm_sender message |> <| mm_references := Some id |> <| mm_workflow := mm_workflow message |>
          <| mm_message := Some (delivery_error_encode error) |> in
        match encode_message refusal with
        | None => ret tt
        | Some bytes =>
            let* lane := Lane_seeded (in_connection incoming) false in
            let* _ := send (mkFrameIn bytes None refusal_id types.DELIVERY_ERROR MarkNone) false (Some lane)
                        (Some DEFAULT_TIMEOUT) 0 false None false in
            ret tt
        end
  end.

Definition refuse_arrivals : CM unit := mod_client (fun cl => cl <| cl_refusing := true |>).

Definition next_incoming_message : CM (option Incoming) :=
  let* incoming := gets (fun c => cl_incoming (cr_client c)) in
  match incoming with
  | [] => ret None
  | next :: rest =>
      mod_client (fun cl => cl <| cl_incoming := rest |> <| cl_dequeued ::= Z.add 1 |>) ;;;
      ret (Some next)
  end.

Definition refuse_unread : CM unit :=
  let* turns := gets (fun c => length (cl_incoming (cr_client c))) in
  loop_m turns
    (let* next := next_incoming_message in
     match next with Some incoming => refuse incoming ;;; ret true | None => ret false end).

(** ** What arrives *)

Definition incoming_full (cl : ClientState) : bool := cl_incoming_max cl <=? Z.of_nat (length (cl_incoming cl)).

(** A queue with no room drops [count] messages; the copy that comes through
    another multiplexer is new again. *)
Definition drop_full (count : Z) : CM unit :=
  mod_client (fun cl => cl <| cl_last_seen ::= SpanSet_forget_last |> <| cl_incoming_dropped ::= Z.add count |>) ;;;
  let* _ := drop_line_first (mkKind (DropLine_number IncomingQueueFull) LEVEL_WARN 0 0)
              (text "incoming_queue_full, dropping") in
  ret tt.

(** One message of a batch, or an error split from one, handed out as the mode
    says. *)
Definition hand_out (incoming : Incoming) : CM unit :=
  let* mode := gets (fun c => cl_mode (cr_client c)) in
  match mode with
  | Dispatch => dispatch_incoming incoming
  | Queue =>
      let* left_over := query_takes incoming in
      match left_over with
      | None => ret tt
      | Some incoming =>
          let* refusing := gets (fun c => cl_refusing (cr_client c)) in
          if refusing : bool then refuse incoming
          else mod_client (fun cl => cl <| cl_incoming ::= fun l => l ++ [incoming] |> <| cl_enqueued ::= Z.add 1 |>)
      end
  end.

(** Whether the whole batch is dropped for want of room. *)
Definition batch_refused (cl : ClientState) : bool :=
  bool_decide (cl_mode cl = Queue) && negb (cl_refusing cl) && incoming_full cl.

(** The next number of a confirmed batch: [pairs] is what is left of its
    [confirm], [past] how many of the first pair went. *)
Fixpoint next_confirm (pairs : list Z) (past : Z) : Z * list Z * Z :=
  match pairs with
  | first :: count :: rest =>
      if count <=? past then next_confirm rest 0 else (w64 (first + past), pairs, past + 1)
  | _ => (0, pairs, past)
  end.

(** [insert] of an id among those seen: whether it is new. *)
Definition see (id : Z) : CM bool :=
  let* seen := gets (fun c => SpanSet_insert (cl_last_seen (cr_client c)) id) in
  mod_client (fun cl => cl <| cl_last_seen := seen.2 |>) ;;;
  ret seen.1.

(** One body of a batch of [type] and [key]. *)
Definition split_one (type producer : Z) (key : option str) (connection : Wrapper) (body : list Z) (number : Z) :
    CM unit :=
  let belongs (m : MultiplexerMessage) :=
    negb (default 0 (mm_id m) =? 0) && plain_event m && (mm_type m =? type) && bool_decide (mm_key m = key) in
  match match message_decode body with Some m => if belongs m then Some m else None | None => None end with
  | None =>
      let* _ := drop_line_first (mkKind (DropLine_number BatchNotSplit) LEVEL_WARN type 1)
                  (text "a message in a batch that arrived dropped: no plain event of the batch's type and key") in
      confirm producer number ConfirmedFailed
  | Some message =>
      let message := message <| mm_confirmation := if number =? 0 then None else Some number |> in
      let* fresh := if number =? 0 then see (default 0 (mm_id message)) else ret true in
      when fresh (hand_out (mkIncoming message connection))
  end.

Definition split_batch (conn : Z) (envelope : MultiplexerMessage) : CM unit :=
  let type := mm_type envelope in
  let decoded := match mm_batch envelope ≫= batch_decode with
                 | Some batch =>
                     if (types.MAX_MULTIPLEXER_META_PACKET <? type)
                        && (Z.of_nat (length batch) <=? MAX_BATCH_RECORDS) then Some batch else None
                 | None => None
                 end in
  match decoded with
  | None =>
      let* _ := drop_line_first (mkKind (DropLine_number BatchNotSplit) LEVEL_WARN type 0)
                  (text "a batch that arrived dropped: of a protocol type, not decoding, or of more than MAX_BATCH_RECORDS messages") in
      ret tt
  | Some batch =>
      let* no_room := gets (fun c => batch_refused (cr_client c)) in
      if no_room : bool then drop_full (Z.of_nat (length batch))
      else
        mod_client (fun cl => cl <| cl_frames_handled ::= Z.add (Z.max 0 (Z.of_nat (length batch) - 1)) |>) ;;;
        let numbers := mm_confirm envelope in
        let confirmed := 2 <=? Z.of_nat (length numbers) in
        let producer := default 0 (mm_sender envelope) in
        when confirmed (confirmed_batch_from conn producer) ;;;
        let* connection := wrap conn in
        let* _ := fold_m batch (numbers, 0) (fun '(pairs, past) body =>
          let '(number, pairs, past) := if confirmed then next_confirm pairs past else (0, pairs, past) in
          split_one type producer (mm_key envelope) connection body number ;;;
          ret (pairs, past)) in
        let* as_it_comes := gets hands_out_as_it_comes in
        when (confirmed && as_it_comes)
          (let* state := get_conn conn in
           match state with
           | Some state =>
               mod_conn conn (fun s => s <| cn_notify_when_read_drained := true |>) ;;;
               when (negb (cn_notify_when_read_drained state))
                 (mod_client (fun cl => cl <| cl_read_drains_wanted ::= Z.add 1 |>))
           | None => ret tt
           end)
  end.

(** One DELIVERY_ERROR for a message of a batch that came back. *)
Definition split_error_one (error : MultiplexerMessage) (report : DeliveryError) (connection : Wrapper)
    (body : list Z) : CM unit :=
  match message_decode body with
  | None => ret tt
  | Some message =>
      let id := default 0 (mm_id message) in
      if id =? 0 then ret tt
      else
        let* told_id := random64 in
        let each := report <| de_packet_id := id |> <| de_original_message := Some message |> in
        let told := MultiplexerMessage_default
          <| mm_id := Some told_id |> <| mm_sender := mm_sender error |> <| mm_to := mm_to error |>
          <| mm_report_delivery_error := Some false |> <| mm_type := types.DELIVERY_ERROR |>
          <| mm_references := Some id |> <| mm_workflow := mm_workflow message |>
          <| mm_message := Some (delivery_error_encode each) |> in
        hand_out (mkIncoming told connection)
  end.

(** [split_delivery_error]: false, and nothing done, for one of no batch. *)
Definition split_delivery_error (conn : Z) (error : MultiplexerMessage) : CM bool :=
  let found :=
    mm_message error ≫= fun payload =>
    delivery_error_decode payload ≫= fun report =>
    de_original_message report ≫= fun original =>
    mm_batch original ≫= fun batch =>
    batch_decode batch ≫= fun batch =>
    if Z.of_nat (length batch) <=? MAX_BATCH_RECORDS then Some (report, batch) else None in
  match found with
  | None => ret false
  | Some (report, batch) =>
      let* no_room := gets (fun c => batch_refused (cr_client c)) in
      if no_room : bool then drop_full (Z.of_nat (length batch)) ;;; ret true
      else
        mod_client (fun cl => cl <| cl_frames_handled ::= Z.add (Z.max 0 (Z.of_nat (length batch) - 1)) |>) ;;;
        let report := report <| de_original_message := None |> in
        let* connection := wrap conn in
        for_each batch (split_error_one error report connection) ;;;
        ret true
  end.

(** Only a confirmed batch's message has a number for its confirmation: one a sender put there is cleared. *)
Definition clear_confirmation (message : MultiplexerMessage) : MultiplexerMessage :=
  match mm_confirmation message with
  | Some _ => message <| mm_confirmation := None |>
  | None => message
  end.

(** A message that is neither the protocol's nor a batch, handed out. *)
Definition hand_out_alone (conn : Z) (message : MultiplexerMessage) : CM unit :=
  let* connection := wrap conn in
  let incoming := mkIncoming (clear_confirmation message) connection in
  let* mode := gets (fun c => cl_mode (cr_client c)) in
  match mode with
  | Dispatch => dispatch_incoming incoming
  | Queue =>
      let* left_over := query_takes incoming in
      match left_over with
      | None => ret tt
      | Some incoming =>
          let* cl := gets cr_client in
          if cl_refusing cl then refuse incoming
          else if incoming_full cl then drop_full 1
          else mod_client (fun cl => cl <| cl_incoming ::= fun l => l ++ [incoming] |> <| cl_enqueued ::= Z.add 1 |>)
      end
  end.

Definition handle_message (conn : Z) (message : MultiplexerMessage) : CM unit :=
  mod_client (fun cl => cl <| cl_frames_handled ::= Z.add 1 |>) ;;;
  if mm_type message =? types.PEER_STATUS then on_peer_status conn message
  else
    let id := default 0 (mm_id message) in
    if id =? 0 then ret tt
    else if mm_type message =? types.CONFIRMATION then on_confirmation message
    else
      let* fresh := see id in
      if negb fresh then ret tt
      else if bool_decide (is_Some (mm_batch message)) then split_batch conn message
      else if mm_type message =? types.DELIVERY_ERROR then
        let references := default 0 (mm_references message) in
        let* again := if references =? 0 then ret false else confirmed_batch_not_taken references in
        if again : bool then ret tt
        else
          let* split := split_delivery_error conn message in
          if split : bool then ret tt else hand_out_alone conn message
      else hand_out_alone conn message.

Definition read_drained : CM unit :=
  let* go := gets (fun c => hands_out_as_it_comes c && negb (cl_shuts_down (cr_client c))) in
  when go send_confirmations.

Definition on_read_drained (conn : Z) : CM unit :=
  let* wanted := gets (fun c => cl_read_drains_wanted (cr_client c)) in
  if wanted =? 0 then ret tt
  else
    let* state := get_conn conn in
    match state with
    | None => ret tt
    | Some state =>
        if negb (cn_reading state) || cn_shuts_down state then ret tt
        else
          mod_conn conn (fun s => s <| cn_notify_when_read_drained := false |>) ;;;
          when (cn_notify_when_read_drained state)
            (mod_client (fun cl => cl <| cl_read_drains_wanted ::= fun n => n - 1 |>) ;;; read_drained)
    end.

(** ** Frames read (core/connection.rs) *)

Definition receive_internal_message (conn : Z) (message : MultiplexerMessage) : CM bool :=
  let* state := get_conn conn in
  let registered := match state with Some state => cn_registered state | None => false end in
  if mm_type message =? types.CONNECTION_WELCOME then
    (if registered then shutdown_connection conn
     else
       match mm_message message ≫= welcome_decode with
       | None => shutdown_connection conn
       | Some welcome =>
           mod_conn conn (fun s => s <| cn_peer_id := wm_id welcome |> <| cn_peer_type := wm_type welcome |>) ;;;
           register_connection conn welcome ;;;
           let* state := get_conn conn in
           if match state with Some state => cn_shuts_down state | None => true end then ret tt
           else
             mod_conn conn (fun s => s <| cn_registered := true |>) ;;;
             after_connection_registration conn
       end) ;;;
    ret true
  else if mm_type message =? types.HEARTBIT then
    when (negb registered) (shutdown_connection conn) ;;; ret true
  else ret false.

Definition on_frame (conn : Z) (body : list Z) : CM unit :=
  let* state := get_conn conn in
  match state with
  | None => ret tt
  | Some state =>
      if negb (cn_reading state) || cn_shuts_down state then ret tt
      else
        require_heartbit_later conn ;;;
        if negb (cn_delivering state) then
          match message_decode body with
          | Some dropped =>
              when (negb (mm_type dropped =? types.HEARTBIT) && negb (answers_this_peer dropped))
                (mod_conn conn (fun s => s <| cn_dropped_while_closing ::= Z.add 1 |>))
          | None => ret tt
          end
        else
          match message_decode body with
          | None => shutdown_connection conn
          | Some message =>
              let* internal := receive_internal_message conn message in
              if internal : bool then ret tt
              else
                let* state := get_conn conn in
                if negb (match state with Some state => cn_registered state | None => false end)
                then shutdown_connection conn
                else handle_message conn message
          end
  end.

(** ** The client's end *)

Definition log_summary_tick : CM unit :=
  let* now := get_now in
  let* said := gets (fun c => say (cl_drop_lines (cr_client c)) false now) in
  let '(more, lines, summary) := said in
  mod_client (fun cl => cl <| cl_drop_lines_timer := None |> <| cl_drop_lines := summary |>) ;;;
  tell (EvLines lines) ;;;
  when more
    (let* key := arm (now + LOG_INTERVAL) DueLogSummary in
     mod_client (fun cl => cl <| cl_drop_lines_timer := Some key |>)).

Definition flush_drop_lines : CM unit :=
  let* now := get_now in
  let* slot := gets (fun c => cl_drop_lines_timer (cr_client c)) in
  let* slot := cancel slot in
  let* said := gets (fun c => say (cl_drop_lines (cr_client c)) true now) in
  let '(_, lines, summary) := said in
  mod_client (fun cl => cl <| cl_drop_lines_timer := slot |> <| cl_drop_lines := summary |>) ;;;
  tell (EvLines lines).

Definition shutdown_client : CM unit :=
  let* down := gets (fun c => cl_shuts_down (cr_client c)) in
  if down : bool then ret tt
  else
    stop_batching ;;;
    send_confirmations ;;;
    mod_client (fun cl => cl <| cl_shuts_down := true |>) ;;;
    push_action ActCancelResolves ;;;
    let* reconnects := gets (fun c => cl_reconnects (cr_client c)) in
    mod_client (fun cl => cl <| cl_reconnects := [] |>) ;;;
    for_each reconnects (fun r : Z * (Z * Target) => let* _ := cancel (Some r.2.1) in ret tt) ;;;
    let* targets := gets (fun c => map snd (cl_by_target (cr_client c))) in
    for_each targets (fun conn => let* _ := close_gracefully conn CLOSE_READ_SECONDS in ret tt) ;;;
    drop_outbox ;;;
    give_up_confirmations ShutDown ;;;
    mod_client (fun cl => cl <| cl_acknowledged_callbacks := [] |>) ;;;
    flush_drop_lines.

Definition connection_live_or_coming (c : Core) : bool :=
  let cl := cr_client c in
  if cl_shuts_down cl then false
  else if negb (bool_decide (length (cl_reconnects cl) = 0%nat)) then true
  else existsb (fun e : Target * Z =>
    match cr_conns c !! e.2 with Some state => negb (cn_shuts_down state) | None => false end) (cl_by_target cl).

Definition closing : CM bool :=
  modify (fun c => c <| cr_client ::= fun cl =>
    cl <| cl_closing ::= filter (fun conn => is_Some (cr_conns c !! conn)) |> |>) ;;;
  gets (fun c => negb (bool_decide (cl_closing (cr_client c) = []))).

(** ** The threaded client's end (core/threaded.rs) *)

Definition teardown : CM unit :=
  let* torn_down := gets (fun c => th_torn_down (cr_threaded c)) in
  if torn_down : bool then ret tt
  else
    mod_threaded (fun t => t <| th_torn_down := true |>) ;;;
    let* t := gets cr_threaded in
    let* drain_timer := cancel (th_drain_timer t) in
    mod_threaded (fun t => t <| th_drain_timer := drain_timer |> <| th_drain := None |>) ;;;
    match th_drain t with Some drain => end_flush drain | None => ret tt end ;;;
    let* expiry_timer := cancel (th_expiry_timer t) in
    mod_threaded (fun t => t <| th_expiring := [] |> <| th_expiry_timer := expiry_timer |>
                             <| th_expiry_armed := None |>) ;;;
    let* waiting := gets (fun c => map fw_id (th_flush_waits (cr_threaded c))) in
    for_each waiting (fun id => end_flush_wait id false) ;;;
    shutdown_client ;;;
    let* t := gets cr_threaded in
    match th_inbox t with Some queue => tell (EvQueueClose queue) | None => ret tt end ;;;
    mod_threaded (fun t => t <| th_subscriptions := [] |>) ;;;
    for_each (th_subscriptions t) (fun s : option Z * Z => tell (EvQueueClose s.2)).

Definition write_out : CM unit :=
  let* last_number := gets (fun c => ob_last_number (cr_outbox c)) in
  let* previous := gets (fun c => th_drain (cr_threaded c)) in
  mod_threaded (fun t => t <| th_write_out_sent := last_number |> <| th_drain := None |>) ;;;
  match previous with Some previous => end_flush previous | None => ret tt end ;;;
  let* drain := begin_flush (Some FlushDrain) in
  mod_threaded (fun t => t <| th_drain := Some drain |>).

Definition write_out_step : CM unit :=
  let* c := gets id in
  if th_torn_down (cr_threaded c) then ret tt
  else if negb (ob_last_number (cr_outbox c) =? th_write_out_sent (cr_threaded c)) then write_out
  else teardown.

Definition drain_expired : CM unit :=
  mod_threaded (fun t => t <| th_drain_timer := None |>) ;;; teardown.

Definition begin_shutdown (timeout : option Z) : CM unit :=
  mod_threaded (fun t => t <| th_shut_down := true |>) ;;;
  finish_every_query ;;;
  let* waiting := gets (fun c => map cw_id (th_connects (cr_threaded c))) in
  for_each waiting (fun id => end_connect id false) ;;;
  if bool_decide (timeout = Some 0) then teardown
  else
    write_out ;;;
    let* now := get_now in
    match deadline_after now timeout with
    | Some deadline =>
        let* slot := gets (fun c => th_drain_timer (cr_threaded c)) in
        let* slot := rearm slot deadline DueDrain in
        mod_threaded (fun t => t <| th_drain_timer := slot |>)
    | None => ret tt
    end.

Definition connect_wait_expired (id : Z) : CM unit :=
  mod_threaded (fun t => t <| th_connects ::=
    map (fun w => if cw_id w =? id then w <| cw_timer := None |> else w) |>) ;;;
  end_connect id false.

Definition register_inbox (queue : Z) : CM unit :=
  let* torn_down := gets (fun c => th_torn_down (cr_threaded c)) in
  if torn_down : bool then tell (EvQueueClose queue)
  else mod_threaded (fun t => t <| th_inbox := Some queue |>).

Definition register_subscription (type queue : Z) : CM unit :=
  let* torn_down := gets (fun c => th_torn_down (cr_threaded c)) in
  if torn_down : bool then tell (EvQueueClose queue)
  else mod_threaded (fun t => t <| th_subscriptions ::= fun l => l ++ [(Some type, queue)] |>).
End Client.
