(* ===== verification/Connect.v ===== *)
(** * Connect: the targets of a client (core/client/connect.rs and start_connect of core/threaded.rs)

    A target keeps one connection at a time; one that ends is tried again by
    its reconnect, until it is dropped. *)
From S2P Require Import Prelude Words Defaults Frame SpanSet Timers Endpoint IpAddr LogSummary Records Ordered.
From S2P Require Import Messages CoreTypes CoreBase ConnQueue OutboxState ConfirmingState Placing Bodies Batching.
From S2P Require Import Confirming Sending Handover Query Connection Client.
Open Scope Z_scope.

Section Connect.
Context {E : Env}.

Definition live_connection (c : Core) (target : Target) : option Z :=
  conn ← bt_get target (cl_by_target (cr_client c));
  state ← cr_conns c !! conn;
  if cn_shuts_down state then None else Some conn.

Definition new_conn_id : CM Z :=
  fun c => let id := cr_next_conn c + 1 in (id, c <| cr_next_conn := id |>).

Definition resolve_and_start (conn : Z) : CM unit :=
  let* state := get_conn conn in
  match state with
  | Some state => push_action (ActResolve conn (cn_target state).1 (cn_target state).2)
  | None => ret tt
  end.

(** The connection [async_connect] makes, of a new number. *)
Definition add_conn (target : Target) : CM Z :=
  let* conn := new_conn_id in
  let* heartbit := heartbit in
  modify (fun c => c <| cr_conns ::= <[conn := Conn_new target heartbit]> |>) ;;;
  ret conn.

(** [async_connect]: the connection, [None] once the client shut down. *)
Definition async_connect (host : str) (port : Z) : CM (option Z) :=
  let* down := gets (fun c => cl_shuts_down (cr_client c)) in
  if down : bool then ret None
  else
    let target := target_of host port in
    let* live := gets (fun c => live_connection c target) in
    match live with
    | Some live => ret (Some live)
    | None =>
        let* old := gets (fun c => bt_get target (cl_by_target (cr_client c))) in
        match old with Some old => shutdown_connection old | None => ret tt end ;;;
        let* conn := add_conn target in
        mod_client (fun cl => cl <| cl_by_target ::= bt_insert target conn |>) ;;;
        match parse_ip target.1 with
        | Some address =>
            mod_conn conn (fun s => s <| cn_candidates := [(octets_of address, port)] |>) ;;;
            try_next_candidate conn
        | None => resolve_and_start conn
        end ;;;
        ret (Some conn)
    end.

(** [reconnect_after_timeout]: its target connects again unless dropped. *)
Definition reconnect_after_timeout (number : Z) : CM unit :=
  let* kept := gets (fun c => bt_get number (cl_reconnects (cr_client c))) in
  match kept with
  | None => ret tt
  | Some (_, target) =>
      mod_client (fun cl => cl <| cl_reconnects ::= bt_remove number |>) ;;;
      let* c := gets id in
      if cl_shuts_down (cr_client c) then ret tt
      else
        match bt_get target (cl_by_target (cr_client c)) with
        | Some _ => ret tt
        | None => let* _ := async_connect target.1 target.2 in ret tt
        end
  end.

(** [disconnect]: whether the client had the target. *)
Definition disconnect (host : str) (port : Z) : CM (option bool) :=
  let* down := gets (fun c => cl_shuts_down (cr_client c)) in
  if down : bool then ret None
  else
    let target := target_of host port in
    let* reconnects := gets (fun c =>
      filter (fun r : Z * (Z * Target) => r.2.2 = target) (cl_reconnects (cr_client c))) in
    for_each reconnects (fun r : Z * (Z * Target) =>
      mod_client (fun cl => cl <| cl_reconnects ::= bt_remove r.1 |>) ;;;
      let* _ := cancel (Some r.2.1) in ret tt) ;;;
    let* conn := gets (fun c => bt_get target (cl_by_target (cr_client c))) in
    mod_client (fun cl => cl <| cl_by_target ::= bt_remove target |>
                             <| cl_first_connection_over ::= bs_remove target |>
                             <| cl_reached_by_target ::= bt_remove target |>) ;;;
    match conn with
    | Some conn => let* _ := close_gracefully conn CLOSE_READ_SECONDS in ret tt
    | None => ret tt
    end ;;;
    ret (Some (negb (bool_decide (reconnects = [])) || bool_decide (is_Some conn))).

(** [start_connect]: the wait of a connect() call. *)
Definition start_connect (host : str) (port : Z) (timeout : option Z) (done : Z) : CM unit :=
  let* shut := gets (fun c => th_shut_down (cr_threaded c)) in
  if shut : bool then tell (EvConnect done false)
  else
    let* conn := async_connect host port in
    match conn with
    | None => tell (EvConnect done false)
    | Some conn =>
        let* state := get_conn conn in
        match state with
        | None => tell (EvConnect done false)
        | Some state =>
            if cn_shuts_down state || cn_registered state then
              tell (EvConnect done (cn_registered state && negb (cn_shuts_down state)))
            else
              mod_threaded (fun t => t <| th_next_wait ::= Z.add 1 |>) ;;;
              let* id := gets (fun c => th_next_wait (cr_threaded c)) in
              let* now := get_now in
              let* timer :=
                match deadline_after now timeout with
                | Some deadline => let* key := arm deadline (DueConnectWait id) in ret (Some key)
                | None => ret None
                end in
              let* connection := wrap conn in
              mod_threaded (fun t => t <| th_connects ::= fun l =>
                l ++ [mkConnectWaiter id connection (Some done) timer] |>)
        end
    end.
End Connect.
