(* ===== verification/Run.v ===== *)
(** * Run: the core's steps (core/mod.rs and driver.rs)

    [Core_new] is a client's core as it begins; [run_one_timer] and [run_posted]
    run the timer due first and a piece of posted work; [run_ready] hands the
    core what the driver found ready, as [Driver::run] does, the queue itself
    left to the driver.  A command of the class on top is the operation it
    stands for, [run_command]. *)
From S2P Require Import Prelude Words Defaults Frame Ids SpanSet Timers Endpoint IpAddr LogSummary Records Ordered.
From S2P Require Import Messages CoreTypes CoreBase ConnQueue OutboxState ConfirmingState Placing Bodies Batching.
From S2P Require Import Confirming Sending Handover Query Connection Client Connect.
Open Scope Z_scope.

Definition ClientState_new (mode : IncomingMode) : ClientState :=
  mkClientState mode false Routing_default [] [] 0 [] 0 0 false 0 0 false [] DEFAULT_INCOMING_QUEUE_MAX_SIZE false 0 0
    LogSummary_default None false 0 0 [] [] 0 [] [] [] [] 0 None (SpanSet_new 2048) None.

(** [Core::new], its id the first of [ids]. *)
Definition Core_new (peer_type ids : Z) (mode : IncomingMode) (now : Z) : Core :=
  let '(instance_id, ids) := default (0, ids) (next ids) in
  mkCore now Timers_default [] [] ids instance_id peer_type ∅ 0 [] [] (ClientState_new mode) Outbox_default
    Batcher_default Confirmer_default Queries_default false Threaded_default ∅ 0 ∅ 0 0 [] [].

Section Run.
Context {E : Env} {P : Program}.

Definition run_due (due : Due) : CM unit :=
  match due with
  | DueSendHeartbit conn => send_heartbit_now conn
  | DueRequireHeartbitSoon conn => require_heartbit_soon conn
  | DueRequireHeartbitNow conn => require_heartbit_now conn
  | DueReadToTheEnd conn => read_to_the_end_bound conn
  | DueConnectDeadline conn => connect_deadline conn
  | DueReconnect number => reconnect_after_timeout number
  | DueOutboxExpiry => expire
  | DueLogSummary => log_summary_tick
  | DueQuery query generation => query_deadline query generation
  | DueConnectWait id => connect_wait_expired id
  | DueFlushWait id => flush_wait_expired id
  | DueSendsExpire => sends_expire
  | DueDrain => drain_expired
  | DueBatches => batch_timer_fired
  | DueConfirmations => confirm_timer_fired
  end.

(** [run_one_timer]: true when one ran. *)
Definition run_one_timer : CM bool :=
  let* due := fun c => let '(t, due) := take_due (cr_timers c) (cr_now c) in (due, c <| cr_timers := t |>) in
  match due with
  | None => ret false
  | Some (_, due) => run_due due ;;; ret true
  end.

Context (run_command : Z -> CM unit).

Definition run_posted (posted : Posted) : CM unit :=
  match posted with
  | PostConnectFailed conn why => connected conn false
  | PostProcessCallbacks =>
      mod_outbox (fun o => o <| ob_callbacks_posted := false |>) ;;;
      process_callbacks
  | PostFill => fill
  | PostFollowHandover query generation request => followed_handover query generation request
  | PostWriteOutStep => write_out_step
  | PostCommand command => run_command command
  | PostPlain plain deadline => place_plain plain deadline
  | PostSendConfirmations => send_confirmations_posted
  end.

Definition has_work (c : Core) : bool :=
  negb (bool_decide (length (cr_posted c) = 0%nat)) || any_armed (cr_timers c).

(** What the driver finds ready. *)
Inductive Ready :=
| ReadyPosted (posted : Posted)
| ReadyConnected (conn : Z) (ok : bool)
| ReadyWriteDone (conn written : Z) (failed : bool)
| ReadyResolved (conn : Z) (candidates : list SocketAddr)
| ReadyFrame (conn : Z) (body : list Z) (drained : bool)
| ReadyStarted (conn : Z)
| ReadyEnd (conn : Z)
| ReadyTimers.

Definition run_ready (ready : Ready) : CM unit :=
  match ready with
  | ReadyPosted posted => run_posted posted
  | ReadyConnected conn ok => connected conn ok
  | ReadyWriteDone conn written failed => on_write_done conn written failed
  | ReadyResolved conn candidates => on_resolved conn candidates
  | ReadyFrame conn body drained => on_frame conn body ;;; when drained (on_read_drained conn)
  | ReadyStarted conn => on_frame_started conn
  | ReadyEnd conn => on_read_end conn
  | ReadyTimers => let* _ := run_one_timer in ret tt
  end.
End Run.
