(* ===== verification/Concrete.v ===== *)
(** * Concrete: an environment and a client to evaluate the core on

    The examples run the core's operations on a client of their own, with a
    simple encoding in place of the wire's. *)
From S2P Require Import Prelude Words Defaults Frame Ids SpanSet Timers LogSummary Records Ordered Messages Xxh3.
From S2P Require Import Xxh3Simd Xxh3Paths CoreTypes CoreBase Client Connect Run.
Open Scope Z_scope.

(** An envelope as its bodies, each after its length. *)
Definition demo_bodies (bodies : list Vec8) : list Z :=
  concat (map (fun v => Z.of_nat (length (v_bytes v)) mod 256 :: v_bytes v) bodies).

#[export] Instance demo_env : Env := {|
  env_cpu := mkCpu false false false;
  log_enabled := fun _ => true;
  generation := 0;
  message_len := fun m => Z.of_nat (length (default [] (mm_message m))) + 1;
  message_encode := fun m => mm_type m mod 256 :: default [] (mm_message m);
  message_decode := fun bytes =>
    match bytes with
    | type :: body => Some (MultiplexerMessage_default <| mm_type := type |> <| mm_message := Some body |>)
    | [] => None
    end;
  envelope_len := fun e => Z.of_nat (length (demo_bodies (default [] (be_batch e)))) + 1;
  envelope_encode := fun e => be_type e mod 256 :: demo_bodies (default [] (be_batch e));
  batch_decode := fun bytes => Some [bytes];
  confirmation_encode := fun c => co_processed c;
  confirmation_decode := fun bytes => Some (mkConfirmation bytes [] []);
  welcome_encode := fun w => [wm_type w mod 256];
  welcome_decode := fun bytes => match bytes with [type; id] => Some (mkWelcome type id None []) | _ => None end;
  control_encode := fun _ => [];
  status_decode := fun _ => None;
  search_encode := fun type => [type mod 256];
  delivery_error_encode := fun _ => [];
  delivery_error_decode := fun _ => None;
|}.

#[export] Instance demo_program : Program := {|
  policy_says := fun _ _ => true;
  on_message_returns := fun _ _ => true;
  on_message_confirms := fun _ _ => [];
|}.

(** A client of peer type 200 at time 0. *)
Definition demo_core : Core := Core_new 200 12345 Queue 0.
