(* ===== verification/Stable.v ===== *)
(** * Stable: the operations that leave an invariant alone

    An invariant of the core's connections and of what waits in its outbox is
    proved operation by operation.  [quiet] says that two states look the same
    to such an invariant; [Quiet I] is an invariant that cannot tell quiet states
    apart, and [Stable I] one that also survives the few operations that queue,
    place and release messages.  From those the rest of the core follows, one
    lemma per operation, all by [pres_tac]. *)
From S2P Require Import Prelude Words Defaults Frame SpanSet Timers Endpoint IpAddr LogSummary Records Ordered Messages.
From S2P Require Import CoreTypes CoreBase ConnQueue OutboxState ConfirmingState Placing Bodies Batching Confirming.
From S2P Require Import Sending Handover Query Connection Client Connect Run.
Open Scope Z_scope.

(** ** What an invariant looks at *)

(** A connection but for its timers, its bookkeeping and the trackers of its frames. *)
Definition conn_view (s : Conn) :=
  (cn_living s, cn_shuts_down s, cn_connecting s, cn_told_gone s, cn_registered s, cn_reading s,
   (cn_out s, cn_write_in_flight s, map snd (cn_outgoing s), cn_outgoing_max s, cn_candidates s)).

Lemma frames_length (q q' : list QueueEntry) : map snd q = map snd q' -> length q = length q'.
Proof. intros H. by rewrite <- (length_map snd q), H, length_map. Qed.

(** The outbox's slab, queues and counts. *)
Definition ob_view (o : Outbox) :=
  (ob_slab o, ob_generations o, ob_free o, ob_backlogs o, ob_displaced o, ob_held o, ob_held_live o, ob_waiting o,
   ob_next_flush o).

(** What a flush counts. *)
Definition flush_view (f : Flush) := (fl_last_number f, fl_waiting f).

(** A flush may end, none begins or counts otherwise. *)
Definition flushes_quiet (o o' : Outbox) : Prop :=
  ob_flushes o' `sublist_of` ob_flushes o
  /\ forall id, id ∈ ob_flushes o' -> flush_view <$> ob_flush_states o' !! id = flush_view <$> ob_flush_states o !! id.

(** What the core asks of its driver and is answered later: the addresses of a
    name, a socket, the write of a frame. *)
Definition asks (a : Action) : bool :=
  match a with ActResolve _ _ _ | ActOpen _ _ | ActWrite _ _ _ => true | _ => false end.

(** The answer the driver itself posts. *)
Definition answers_open (p : Posted) : bool := match p with PostConnectFailed _ _ => true | _ => false end.

Definition asked (c : Core) : list Action * list Posted :=
  (filter (fun a => asks a = true) (cr_actions c), filter (fun p => answers_open p = true) (cr_posted c)).

Definition quiet (c c' : Core) : Prop :=
  cr_conns c' = cr_conns c /\ ob_view (cr_outbox c') = ob_view (cr_outbox c)
  /\ flushes_quiet (cr_outbox c) (cr_outbox c') /\ asked c' = asked c /\ cr_next_conn c <= cr_next_conn c'.

Lemma flushes_quiet_refl o : flushes_quiet o o.
Proof. by split. Qed.

Lemma quiet_rest c c' :
  cr_conns c' = cr_conns c -> cr_outbox c' = cr_outbox c -> asked c' = asked c -> cr_next_conn c <= cr_next_conn c' ->
  quiet c c'.
Proof. intros H1 H2 H3 H4. split_and!; [done | by rewrite H2 | rewrite H2; apply flushes_quiet_refl | done | done]. Qed.

Class Quiet (I : Core -> Prop) := {
  st_quiet c c' : quiet c c' -> I c -> I c';
  st_conn conn f : (forall s, conn_view (f s) = conn_view s) -> pres I (mod_conn conn f);
}.

(** Every state change that is none of the connections' or the outbox's. *)
Ltac quiet_tac :=
  let c := fresh "c" in let Hc := fresh "Hc" in
  intros c Hc; refine (st_quiet c _ _ Hc); apply quiet_rest; repeat case_match; reflexivity.

Lemma each_flush_quiet f o :
  (forall fl, flush_view (f fl) = flush_view fl) -> ob_view (each_flush f o) = ob_view o /\ flushes_quiet o (each_flush f o).
Proof.
  intros Hf. split; [done|]. split; [done|]. intros id Hid. cbn [each_flush upd ob_flush_states].
  generalize (ob_flushes o) as ids. intros ids. revert id Hid. generalize (ob_flush_states o) as states.
  induction ids as [|id' ids IH]; intros states id Hid; [done|]. cbn [foldl]. rewrite IH by done.
  destruct (decide (id = id')) as [->|Hne]; [|by rewrite lookup_alter_ne].
  rewrite lookup_alter_eq. destruct (states !! id'); simpl; [by rewrite Hf|done].
Qed.

Lemma check_flush_view c f : flush_view (check_flush c f).2 = flush_view f.
Proof. unfold check_flush. by case_match. Qed.

Lemma check_each_view c ids states i :
  flush_view <$> (check_each c ids states).1.2 !! i = flush_view <$> states !! i.
Proof.
  revert states. induction ids as [|id ids IH]; intros states; cbn [check_each]; [done|].
  destruct (states !! id) as [f|] eqn:Hid; [|done]. pose proof (check_flush_view c f) as Hv.
  destruct (check_flush c f) as [done_ f']. specialize (IH (<[id := f']> states)).
  destruct (check_each c ids _) as [[kept states'] finished]. cbn [fst snd] in *.
  transitivity (flush_view <$> <[id := f']> states !! i); [by destruct done_|].
  destruct (decide (i = id)) as [->|]; [|by rewrite lookup_insert_ne].
  rewrite lookup_insert_eq, Hid. simpl. by rewrite Hv.
Qed.

Lemma check_each_kept c ids states : (check_each c ids states).1.1 `sublist_of` ids.
Proof.
  revert states. induction ids as [|id ids IH]; intros states; cbn [check_each]; [done|].
  destruct (states !! id) as [f|]; [|by constructor].
  destruct (check_flush c f) as [done_ f']. specialize (IH (<[id := f']> states)).
  destruct (check_each c ids _) as [[kept states'] finished]. cbn [fst snd] in *. by destruct done_; constructor.
Qed.

Lemma last_queued_frames f reversed found rest :
  last_queued f reversed = Some (found, rest) -> map snd rest = map snd reversed.
Proof.
  revert rest. induction reversed as [|[tracker frame] reversed IH]; intros rest; cbn [last_queued]; [done|].
  destruct (of_own frame); [|by intros [= _ <-]].
  destruct (last_queued f reversed) as [[found2 rest2]|] eqn:Hq; [|done]. intros [= <- <-]. simpl. f_equal. by apply IH.
Qed.
Section Quiet.
Context {E : Env} (I : Core -> Prop) `{!Quiet I}.

Lemma pres_rest {A} (m : CM A) :
  (forall c, cr_conns (m c).2 = cr_conns c /\ cr_outbox (m c).2 = cr_outbox c /\ asked (m c).2 = asked c
             /\ cr_next_conn c <= cr_next_conn (m c).2) ->
  pres I m.
Proof. intros H c Hc. destruct (H c) as (? & ? & ? & ?). apply (st_quiet c); [by apply quiet_rest | done]. Qed.

Lemma pres_outbox f :
  (forall o, ob_view (f o) = ob_view o /\ flushes_quiet o (f o)) -> pres I (mod_outbox f).
Proof. intros H c Hc. destruct (H (cr_outbox c)). apply (st_quiet c); [by split_and! | done]. Qed.

Ltac rest_tac := apply pres_rest; intros ?; repeat case_match; split_and!; reflexivity.
Ltac outbox_tac := apply pres_outbox; intros ?; split; [reflexivity | split; [reflexivity | intros ? ?; reflexivity]].
Ltac conn_tac := apply st_conn; intros ?; repeat case_match; reflexivity.
#[local] Hint Extern 1 (pres I (mod_outbox _)) => outbox_tac : pres.
#[local] Hint Extern 1 (pres I (mod_conn _ _)) => conn_tac : pres.
#[local] Hint Extern 1 (pres I (modify _)) => rest_tac : pres.

(** *** The base operations *)

Lemma mod_client_pres f : pres I (mod_client f).
Proof. unfold mod_client. rest_tac. Qed.
Lemma mod_batcher_pres f : pres I (mod_batcher f).
Proof. unfold mod_batcher. rest_tac. Qed.
Lemma mod_confirmer_pres f : pres I (mod_confirmer f).
Proof. unfold mod_confirmer. rest_tac. Qed.
Lemma mod_queries_pres f : pres I (mod_queries f).
Proof. unfold mod_queries. rest_tac. Qed.
Lemma mod_threaded_pres f : pres I (mod_threaded f).
Proof. unfold mod_threaded. rest_tac. Qed.
Lemma push_action_pres a : asks a = false -> pres I (push_action a).
Proof.
  intros Ha. apply pres_rest. intros c. split_and!; [reflexivity|reflexivity| |reflexivity]. unfold asked.
  cbn [push_action modify snd upd cr_actions cr_posted]. rewrite filter_app, filter_cons, Ha, filter_nil, app_nil_r. done.
Qed.
Lemma push_posted_pres p : answers_open p = false -> pres I (push_posted p).
Proof.
  intros Hp. apply pres_rest. intros c. split_and!; [reflexivity|reflexivity| |reflexivity]. unfold asked.
  cbn [push_posted modify snd upd cr_actions cr_posted]. rewrite filter_app, filter_cons, Hp, filter_nil, app_nil_r. done.
Qed.
#[local] Hint Extern 1 (asks _ = false) => reflexivity : pres.
#[local] Hint Extern 1 (answers_open _ = false) => reflexivity : pres.
Lemma tell_pres e : pres I (tell e).
Proof. unfold tell. rest_tac. Qed.
Lemma arm_pres deadline due : pres I (arm deadline due).
Proof. unfold arm. rest_tac. Qed.
Lemma cancel_pres slot : pres I (cancel slot).
Proof. unfold cancel. rest_tac. Qed.
Lemma rearm_pres slot deadline due : pres I (rearm slot deadline due).
Proof. unfold rearm. rest_tac. Qed.
Lemma random64_pres : pres I random64.
Proof. unfold random64. rest_tac. Qed.
Lemma Tracker_new_pres state : pres I (Tracker_new state).
Proof. unfold Tracker_new. rest_tac. Qed.
Lemma Tracker_set_pres tracker state : pres I (Tracker_set tracker state).
Proof. unfold Tracker_set. rest_tac. Qed.
Lemma new_ref_pres : pres I new_ref.
Proof. unfold new_ref. rest_tac. Qed.
Lemma Lane_new_pres pinned : pres I (Lane_new pinned).
Proof. unfold Lane_new. rest_tac. Qed.
Lemma Lane_seeded_pres connection pinned : pres I (Lane_seeded connection pinned).
Proof. unfold Lane_seeded. rest_tac. Qed.
Lemma Lane_adopt_pres lane connection : pres I (Lane_adopt lane connection).
Proof. unfold Lane_adopt. rest_tac. Qed.
#[local] Hint Resolve mod_client_pres mod_batcher_pres mod_confirmer_pres mod_queries_pres mod_threaded_pres
  push_action_pres push_posted_pres tell_pres arm_pres cancel_pres rearm_pres random64_pres Tracker_new_pres
  Tracker_set_pres new_ref_pres Lane_new_pres Lane_seeded_pres Lane_adopt_pres : pres.
Lemma get_conn_pres conn : pres I (get_conn conn).
Proof. unfold get_conn. pres_tac. Qed.
Lemma get_now_pres : pres I get_now.
Proof. unfold get_now. pres_tac. Qed.
Lemma Tracker_get_pres tracker : pres I (Tracker_get tracker).
Proof. unfold Tracker_get. pres_tac. Qed.
Lemma upgrade_pres tracker : pres I (upgrade tracker).
Proof. unfold upgrade. pres_tac. Qed.
Lemma followed_pres locals tracker : pres I (followed locals tracker).
Proof. unfold followed. pres_tac. Qed.
Lemma conn_living_pres conn : pres I (conn_living conn).
Proof. unfold conn_living. pres_tac. Qed.
Lemma wrap_pres conn : pres I (wrap conn).
Proof. unfold wrap. pres_tac. Qed.
Lemma wrap_or_gone_pres conn target : pres I (wrap_or_gone conn target).
Proof. unfold wrap_or_gone. pres_tac. Qed.
Lemma get_waiting_pres key : pres I (get_waiting key).
Proof. unfold get_waiting. pres_tac. Qed.
#[local] Hint Resolve get_conn_pres get_now_pres Tracker_get_pres upgrade_pres followed_pres conn_living_pres
  wrap_pres wrap_or_gone_pres get_waiting_pres : pres.

(** *** Timers of a connection, flushes and follows *)

Lemma send_heartbit_later_pres conn : pres I (send_heartbit_later conn).
Proof. unfold send_heartbit_later. pres_tac. Qed.
Lemma require_heartbit_later_pres conn : pres I (require_heartbit_later conn).
Proof. unfold require_heartbit_later. pres_tac. Qed.
Lemma require_heartbit_soon_pres conn : pres I (require_heartbit_soon conn).
Proof. unfold require_heartbit_soon. pres_tac. Qed.
#[local] Hint Resolve require_heartbit_later_pres : pres.
Lemma on_frame_started_pres conn : pres I (on_frame_started conn).
Proof. unfold on_frame_started. pres_tac. Qed.
Lemma post_callbacks_pres : pres I post_callbacks.
Proof. unfold post_callbacks. pres_tac. Qed.
Lemma flushes_lost_pres number : pres I (flushes_lost number).
Proof. unfold flushes_lost. apply pres_outbox. intros o. apply each_flush_quiet. intros f. by case_match. Qed.
Lemma flushes_lost_confirmed_pres number : pres I (flushes_lost_confirmed number).
Proof. unfold flushes_lost_confirmed. apply pres_outbox. intros o. apply each_flush_quiet. intros f. by case_match. Qed.
Lemma queued_pres number tracker conn : pres I (queued number tracker conn).
Proof. unfold queued. apply pres_outbox. intros o. apply each_flush_quiet. intros f. by case_match. Qed.
Lemma end_flush_pres flush : pres I (end_flush flush).
Proof.
  apply pres_outbox. intros o. split; [done|]. split; [apply sublist_filter|].
  intros id [Hne Hid]%list_elem_of_filter. simpl. by rewrite lookup_delete_ne.
Qed.
#[local] Hint Resolve post_callbacks_pres flushes_lost_pres flushes_lost_confirmed_pres queued_pres end_flush_pres : pres.
Lemma end_flush_wait_pres id flushed : pres I (end_flush_wait id flushed).
Proof. unfold end_flush_wait. pres_tac. Qed.
#[local] Hint Resolve end_flush_wait_pres : pres.
Lemma finish_flush_pres id : pres I (finish_flush id).
Proof.
  unfold finish_flush. pres_tac. apply pres_outbox. intros o. split; [done|]. split; [done|]. intros i Hi. simpl.
  destruct (decide (i = id)) as [->|]; [|by rewrite lookup_alter_ne].
  rewrite lookup_alter_eq. by destruct (ob_flush_states o !! id).
Qed.
#[local] Hint Resolve finish_flush_pres : pres.
Lemma check_flushes_pres : pres I check_flushes.
Proof.
  intros c Hc. unfold check_flushes, bind at 1, gets, id. destruct (_ || _); [done|].
  pose proof (check_each_view c (ob_flushes (cr_outbox c)) (ob_flush_states (cr_outbox c))) as Hv.
  pose proof (check_each_kept c (ob_flushes (cr_outbox c)) (ob_flush_states (cr_outbox c))) as Hk.
  destruct (check_each c _ _) as [[kept states] finished]. cbn [fst snd] in *.
  unfold bind. cbn [mod_outbox modify]. apply pres_for_each; [intros; apply finish_flush_pres|].
  apply (st_quiet c); [|done]. split_and!; [done|done| |done|done]. split; [apply Hk|]. intros id Hid. apply Hv.
Qed.
#[local] Hint Resolve check_flushes_pres : pres.
Lemma follow_event_pres tracker written : pres I (follow_event tracker written).
Proof. unfold follow_event. pres_tac. Qed.
#[local] Hint Resolve follow_event_pres : pres.
Lemma tracked_message_done_pres tracker written : pres I (tracked_message_done tracker written).
Proof. unfold tracked_message_done. pres_tac. Qed.
#[local] Hint Resolve tracked_message_done_pres : pres.
Lemma follow_pres copies done : pres I (follow copies done).
Proof. unfold follow. pres_tac. Qed.
#[local] Hint Resolve follow_pres : pres.
Lemma drop_line_first_pres kind line : pres I (drop_line_first kind line).
Proof. unfold drop_line_first. pres_tac. Qed.
#[local] Hint Resolve drop_line_first_pres : pres.
Lemma report_record_drop_pres id type reason : pres I (report_record_drop id type reason).
Proof. unfold report_record_drop. pres_tac. Qed.
#[local] Hint Resolve report_record_drop_pres : pres.

(** *** Confirmed batches *)

Lemma numbered_pres records : pres I (numbered records).
Proof. unfold numbered. rest_tac. Qed.
Lemma stop_confirm_timer_pres : pres I stop_confirm_timer.
Proof. unfold stop_confirm_timer. pres_tac. Qed.
#[local] Hint Resolve stop_confirm_timer_pres : pres.
Lemma arm_confirm_timer_pres : pres I arm_confirm_timer.
Proof. unfold arm_confirm_timer. pres_tac. Qed.
#[local] Hint Resolve arm_confirm_timer_pres : pres.
Lemma confirming_due_pres batch : pres I (confirming_due batch).
Proof. unfold confirming_due. pres_tac. Qed.
#[local] Hint Resolve confirming_due_pres : pres.
Lemma confirmed_end_pres id number type tracker done processed reason report : pres I (confirmed_end id number type tracker done processed reason report).
Proof. unfold confirmed_end. pres_tac. Qed.
#[local] Hint Resolve confirmed_end_pres : pres.
Lemma resolve_in_pres cg index processed reason report : pres I (resolve_in cg index processed reason report).
Proof. unfold resolve_in. pres_tac. Qed.
#[local] Hint Resolve resolve_in_pres : pres.
Lemma resolve_each_pres indexes processed reason report cg : pres I (resolve_each indexes processed reason report cg).
Proof. unfold resolve_each. pres_tac. Qed.
#[local] Hint Resolve resolve_each_pres : pres.
Lemma with_batch_pres {R} batch (work : Confirming -> CM (R * Confirming)) :
  (forall cg, pres I (work cg)) -> pres I (with_batch batch work).
Proof. intros Hw. unfold with_batch. pres_tac. Qed.
#[local] Hint Extern 1 (pres I (with_batch _ _)) => apply with_batch_pres; intros : pres.
Lemma forget_resolved_pres batch : pres I (forget_resolved batch).
Proof. unfold forget_resolved. pres_tac. Qed.
#[local] Hint Resolve forget_resolved_pres : pres.
Lemma confirming_written_pres batch written : pres I (confirming_written batch written).
Proof. unfold confirming_written. pres_tac. Qed.
#[local] Hint Resolve confirming_written_pres : pres.
Lemma confirmed_frame_dropped_pres batch reason : pres I (confirmed_frame_dropped batch reason).
Proof. unfold confirmed_frame_dropped. pres_tac. Qed.
#[local] Hint Resolve confirmed_frame_dropped_pres : pres.
Lemma resolved_at_once_pres segment processed : pres I (resolved_at_once segment processed).
Proof. unfold resolved_at_once. pres_tac. Qed.
#[local] Hint Resolve resolved_at_once_pres : pres.
Lemma resolve_list_pres pairs processed reason heard : pres I (resolve_list pairs processed reason heard).
Proof. unfold resolve_list. pres_tac. Qed.
#[local] Hint Resolve resolve_list_pres : pres.
Lemma give_up_confirmations_pres reason : pres I (give_up_confirmations reason).
Proof. unfold give_up_confirmations. pres_tac. Qed.
#[local] Hint Resolve give_up_confirmations_pres : pres.

(** *** Drops, deadlines and where a message may go *)

Lemma report_drop_pres frame reason : pres I (report_drop frame reason).
Proof. unfold report_drop. pres_tac. Qed.
#[local] Hint Resolve report_drop_pres : pres.
Lemma give_up_message_pres callers frame tracker reason : pres I (give_up_message callers frame tracker reason).
Proof. unfold give_up_message. pres_tac. Qed.
#[local] Hint Resolve give_up_message_pres : pres.
Lemma past_pres deadline : pres I (past deadline).
Proof. unfold past. pres_tac. Qed.
#[local] Hint Resolve past_pres : pres.
Lemma arm_expiry_pres : pres I arm_expiry.
Proof. unfold arm_expiry. pres_tac. Qed.
#[local] Hint Resolve arm_expiry_pres : pres.
Lemma expire_at_pres key : pres I (expire_at key).
Proof. unfold expire_at. pres_tac. apply pres_outbox. intros o. unfold expire_push. by case_match; split. Qed.
#[local] Hint Resolve expire_at_pres : pres.
Lemma lose_tracker_pres tracker : pres I (lose_tracker tracker).
Proof. unfold lose_tracker. pres_tac. Qed.
#[local] Hint Resolve lose_tracker_pres : pres.
Lemma next_number_pres : pres I next_number.
Proof. unfold next_number. pres_tac. Qed.
#[local] Hint Resolve next_number_pres : pres.
Lemma out_frame_pres frame pinned for_all number deadline : pres I (out_frame frame pinned for_all number deadline).
Proof. unfold out_frame. pres_tac. Qed.
#[local] Hint Resolve out_frame_pres : pres.
Lemma choose_connection_pres : pres I choose_connection.
Proof. unfold choose_connection. pres_tac. Qed.
#[local] Hint Resolve choose_connection_pres : pres.
Lemma record_moved_pres tracker conn : pres I (record_moved tracker conn).
Proof. unfold record_moved. intros c Hc. apply (st_quiet c); [|done]. cbn. by case_match; split_and!. Qed.
#[local] Hint Resolve record_moved_pres : pres.
Lemma followed_connection_pres tracker first : pres I (followed_connection tracker first).
Proof. unfold followed_connection. pres_tac. Qed.
#[local] Hint Resolve followed_connection_pres : pres.
Lemma track_last_queued_pres conn : pres I (track_last_queued conn).
Proof.
  unfold track_last_queued. pres_tac. apply st_conn. intros s. unfold conn_view. simpl.
  destruct (last_queued _ (rev (cn_outgoing s))) as [[found reversed]|] eqn:Hq; [|done].
  apply last_queued_frames in Hq. by rewrite map_rev, Hq, <- map_rev, rev_involutive.
Qed.
End Quiet.
#[export] Hint Resolve mod_client_pres mod_batcher_pres mod_confirmer_pres mod_queries_pres mod_threaded_pres
  push_action_pres push_posted_pres tell_pres arm_pres cancel_pres rearm_pres random64_pres Tracker_new_pres
  Tracker_set_pres new_ref_pres Lane_new_pres Lane_seeded_pres Lane_adopt_pres get_conn_pres get_now_pres
  Tracker_get_pres upgrade_pres followed_pres conn_living_pres wrap_pres wrap_or_gone_pres get_waiting_pres
  send_heartbit_later_pres require_heartbit_later_pres require_heartbit_soon_pres on_frame_started_pres
  post_callbacks_pres flushes_lost_pres flushes_lost_confirmed_pres queued_pres end_flush_pres end_flush_wait_pres
  finish_flush_pres check_flushes_pres follow_event_pres tracked_message_done_pres follow_pres
  drop_line_first_pres report_record_drop_pres numbered_pres stop_confirm_timer_pres arm_confirm_timer_pres
  confirming_due_pres confirmed_end_pres resolve_in_pres resolve_each_pres forget_resolved_pres
  confirming_written_pres confirmed_frame_dropped_pres resolved_at_once_pres resolve_list_pres
  give_up_confirmations_pres report_drop_pres give_up_message_pres past_pres arm_expiry_pres expire_at_pres
  lose_tracker_pres next_number_pres out_frame_pres choose_connection_pres record_moved_pres
  followed_connection_pres track_last_queued_pres : pres.
#[export] Hint Extern 1 (asks _ = false) => reflexivity : pres.
#[export] Hint Extern 1 (answers_open _ = false) => reflexivity : pres.

(** An invariant that does not look at what the driver is asked. *)
Class Blind (I : Core -> Prop) :=
  st_blind c c' : cr_conns c' = cr_conns c -> cr_outbox c' = cr_outbox c -> cr_next_conn c <= cr_next_conn c' -> I c -> I c'.

Section Blind.
Context (I : Core -> Prop) `{!Blind I}.
Lemma any_action_pres a : pres I (push_action a).
Proof. intros c Hc. by apply (st_blind c). Qed.
Lemma resolve_and_start_pres conn : pres I (resolve_and_start conn).
Proof. intros c Hc. unfold resolve_and_start, bind, get_conn, gets. case_match; [by apply any_action_pres|done]. Qed.
Lemma open_failed_pres conn why : pres I (open_failed conn why).
Proof. intros c Hc. by apply (st_blind c). Qed.
End Blind.

(** An invariant that placing a message on a connection keeps. *)
Class Placing {E : Env} (I : Core -> Prop) := {
  placing_quiet :: Quiet I;
  st_place_on callers conn frame tracker number deadline copy lane :
    pres I (place_on callers conn frame tracker number deadline copy lane);
}.
#[export] Hint Resolve st_place_on : pres.

Section Placing.
Context {E : Env} (I : Core -> Prop) `{!Placing I}.
#[local] Hint Extern 1 (Quiet I) => exact _ : pres.

Lemma place_all_pres callers frame number deadline tracker : pres I (place_all callers frame number deadline tracker).
Proof. unfold place_all. pres_tac. Qed.
#[local] Hint Resolve place_all_pres : pres.
Lemma place_now_pres callers frame all lane number deadline tracker : pres I (place_now callers frame all lane number deadline tracker).
Proof. unfold place_now. pres_tac. Qed.
End Placing.
#[export] Hint Resolve place_all_pres place_now_pres : pres.

(** An invariant that the operations on queues, backlogs and what is held keep. *)
Class Stable {E : Env} (I : Core -> Prop) := {
  stable_placing :: Placing I;
  st_schedule conn frame force asap : pres I (schedule conn frame force asap);
  st_take_over conn entry : pres I (take_over conn entry);
  st_hold frame tracker number deadline all lane : pres I (hold frame tracker number deadline all lane);
  st_drop_held tracker : pres I (drop_held tracker);
  st_place_held : pres I place_held;
  st_has_room conn : pres I (outgoing_queue_has_room conn);
  st_replace_displaced conn : pres I (replace_displaced conn);
  st_drop_outbox : pres I drop_outbox;
  st_open_flush lost done : pres I (open_flush lost done);
}.
#[export] Hint Resolve st_schedule st_take_over st_hold st_drop_held st_place_held st_has_room
  st_replace_displaced st_drop_outbox st_open_flush : pres.

Section Stable.
Context {E : Env} (I : Core -> Prop) `{!Stable I}.

Ltac rest_tac := apply pres_rest; [exact _ | intros ?; repeat case_match; split_and!; reflexivity].
Ltac outbox_tac := apply pres_outbox; [exact _ | intros ?; split; [reflexivity | split; [reflexivity | intros ? ?; reflexivity]]].
Ltac conn_tac := apply st_conn; intros ?; repeat case_match; reflexivity.
#[local] Hint Extern 1 (pres I (mod_outbox _)) => outbox_tac : pres.
#[local] Hint Extern 1 (pres I (mod_conn _ _)) => conn_tac : pres.
#[local] Hint Extern 1 (pres I (modify _)) => rest_tac : pres.
#[local] Hint Extern 1 (pres I (with_batch _ _)) => apply with_batch_pres; [exact _ | intros] : pres.
#[local] Hint Extern 1 (Quiet I) => exact _ : pres.
#[local] Hint Extern 1 (Placing I) => exact _ : pres.

(** *** Placing and batches *)

Lemma send_at_pres frame all lane deadline number done : pres I (send_at frame all lane deadline number done).
Proof. unfold send_at. pres_tac. Qed.
#[local] Hint Resolve send_at_pres : pres.
Lemma take_body_pres : pres I take_body.
Proof. unfold take_body. rest_tac. Qed.
Lemma give_body_pres body : pres I (give_body body).
Proof. unfold give_body. pres_tac. Qed.
#[local] Hint Resolve take_body_pres give_body_pres : pres.
Lemma fit_loop_pres fuel envelope records end_ max_bytes confirm :
  pres I (fit_loop fuel envelope records end_ max_bytes confirm).
Proof. revert envelope records end_. induction fuel; intros; cbn [fit_loop]; pres_tac. Qed.
#[local] Hint Resolve fit_loop_pres : pres.
Lemma batch_frame_pres id type key records max_bytes confirm : pres I (batch_frame id type key records max_bytes confirm).
Proof. unfold batch_frame. pres_tac. rest_tac. Qed.
#[local] Hint Resolve batch_frame_pres : pres.
Lemma alone_frame_pres body : pres I (alone_frame body).
Proof. unfold alone_frame. pres_tac. Qed.
#[local] Hint Resolve alone_frame_pres : pres.
Lemma wait_for_confirmation_pres frame batch records lane : pres I (wait_for_confirmation frame batch records lane).
Proof. unfold wait_for_confirmation. pres_tac. Qed.
#[local] Hint Resolve wait_for_confirmation_pres : pres.
Lemma cannot_confirm_pres type records : pres I (cannot_confirm type records).
Proof. unfold cannot_confirm. pres_tac. Qed.
#[local] Hint Resolve cannot_confirm_pres : pres.
Lemma send_records_pres fuel batch lane records : pres I (send_records fuel batch lane records).
Proof. revert records. induction fuel; intros; cbn [send_records]; pres_tac. Qed.
#[local] Hint Resolve send_records_pres : pres.
Lemma send_batch_pres batch idle : pres I (send_batch batch idle).
Proof. unfold send_batch. pres_tac. Qed.
#[local] Hint Resolve send_batch_pres : pres.
Lemma arm_batch_timer_pres : pres I arm_batch_timer.
Proof. unfold arm_batch_timer. pres_tac. Qed.
#[local] Hint Resolve arm_batch_timer_pres : pres.
Lemma stop_batch_timer_pres : pres I stop_batch_timer.
Proof. unfold stop_batch_timer. pres_tac. Qed.
#[local] Hint Resolve stop_batch_timer_pres : pres.
Lemma due_at_pres began due : pres I (due_at began due).
Proof. unfold due_at. pres_tac. Qed.
#[local] Hint Resolve due_at_pres : pres.
Lemma close_batch_pres began idle : pres I (close_batch began idle).
Proof. unfold close_batch. pres_tac. Qed.
#[local] Hint Resolve close_batch_pres : pres.
Lemma close_batches_pres : pres I close_batches.
Proof. unfold close_batches. pres_tac. Qed.
#[local] Hint Resolve close_batches_pres : pres.
Lemma close_on_its_own_pres began : pres I (close_on_its_own began).
Proof. unfold close_on_its_own. pres_tac. Qed.
#[local] Hint Resolve close_on_its_own_pres : pres.
Lemma wait_for_idle_pres : pres I wait_for_idle.
Proof. unfold wait_for_idle. pres_tac. Qed.
#[local] Hint Resolve wait_for_idle_pres : pres.
Lemma close_idle_batches_pres idle : pres I (close_idle_batches idle).
Proof. unfold close_idle_batches. pres_tac. Qed.
#[local] Hint Resolve close_idle_batches_pres : pres.
Lemma outgoing_queue_idle_pres conn : pres I (outgoing_queue_idle conn).
Proof. unfold outgoing_queue_idle. pres_tac. Qed.
#[local] Hint Resolve outgoing_queue_idle_pres : pres.
Lemma close_idle_batches_if_idle_pres : pres I close_idle_batches_if_idle.
Proof. unfold close_idle_batches_if_idle. pres_tac. Qed.
#[local] Hint Resolve close_idle_batches_if_idle_pres : pres.
Lemma batch_timer_fired_pres : pres I batch_timer_fired.
Proof. unfold batch_timer_fired. pres_tac. Qed.
#[local] Hint Resolve batch_timer_fired_pres : pres.
Lemma stop_batching_pres : pres I stop_batching.
Proof. unfold stop_batching. pres_tac. Qed.
#[local] Hint Resolve stop_batching_pres : pres.
Lemma open_batch_pres type key delivery : pres I (open_batch type key delivery).
Proof. unfold open_batch. pres_tac. Qed.
#[local] Hint Resolve open_batch_pres : pres.
Lemma record_of_pres joining keeps done : pres I (record_of joining keeps done).
Proof. unfold record_of. pres_tac. Qed.
#[local] Hint Resolve record_of_pres : pres.
Lemma frame_of_plain_pres plain : pres I (frame_of_plain plain).
Proof. unfold frame_of_plain. pres_tac. Qed.
#[local] Hint Resolve frame_of_plain_pres : pres.
Lemma join_batch_pres began joining delivery keeps done : pres I (join_batch began joining delivery keeps done).
Proof. unfold join_batch. pres_tac. Qed.
#[local] Hint Resolve join_batch_pres : pres.
Lemma batch_message_pres joining delivery keeps done : pres I (batch_message joining delivery keeps done).
Proof. unfold batch_message. pres_tac. Qed.
#[local] Hint Resolve batch_message_pres : pres.
Lemma set_delivery_pres type key delivery : pres I (set_delivery type key delivery).
Proof. unfold set_delivery. pres_tac. Qed.
#[local] Hint Resolve set_delivery_pres : pres.
Lemma clear_delivery_pres type key : pres I (clear_delivery type key).
Proof. unfold clear_delivery. pres_tac. Qed.
#[local] Hint Resolve clear_delivery_pres : pres.

(** *** Confirming *)

Lemma again_records_pres late bodies indexes cg : pres I (again_records late bodies indexes cg).
Proof. unfold again_records. pres_tac. Qed.
#[local] Hint Resolve again_records_pres : pres.
Lemma give_up_unread_pres batch indexes cg : pres I (give_up_unread batch indexes cg).
Proof. unfold give_up_unread. pres_tac. Qed.
#[local] Hint Resolve give_up_unread_pres : pres.
Lemma send_again_pres batch indexes : pres I (send_again batch indexes).
Proof. unfold send_again. pres_tac. Qed.
#[local] Hint Resolve send_again_pres : pres.
Lemma send_unresolved_again_pres batch : pres I (send_unresolved_again batch).
Proof. unfold send_unresolved_again. pres_tac. Qed.
#[local] Hint Resolve send_unresolved_again_pres : pres.
Lemma confirm_due_batch_pres now batch : pres I (confirm_due_batch now batch).
Proof. unfold confirm_due_batch. pres_tac. Qed.
#[local] Hint Resolve confirm_due_batch_pres : pres.
Lemma confirm_timer_fired_pres : pres I confirm_timer_fired.
Proof. unfold confirm_timer_fired. pres_tac. Qed.
#[local] Hint Resolve confirm_timer_fired_pres : pres.
Lemma confirmed_batch_not_taken_pres envelope_id : pres I (confirmed_batch_not_taken envelope_id).
Proof. unfold confirmed_batch_not_taken. pres_tac. Qed.
#[local] Hint Resolve confirmed_batch_not_taken_pres : pres.
Lemma heard_of_pres now batch : pres I (heard_of now batch).
Proof. unfold heard_of. pres_tac. Qed.
#[local] Hint Resolve heard_of_pres : pres.
Lemma on_confirmation_pres message : pres I (on_confirmation message).
Proof. unfold on_confirmation. pres_tac. Qed.
#[local] Hint Resolve on_confirmation_pres : pres.
Lemma send_owed_pres producer : pres I (send_owed producer).
Proof. unfold send_owed. pres_tac. Qed.
#[local] Hint Resolve send_owed_pres : pres.
Lemma confirm_pres sender number outcome : pres I (confirm sender number outcome).
Proof. unfold confirm. pres_tac. Qed.
#[local] Hint Resolve confirm_pres : pres.
Lemma send_confirmations_pres : pres I send_confirmations.
Proof. unfold send_confirmations. pres_tac. Qed.
#[local] Hint Resolve send_confirmations_pres : pres.
Lemma confirmed_batch_from_pres conn producer : pres I (confirmed_batch_from conn producer).
Proof. unfold confirmed_batch_from. pres_tac. Qed.
#[local] Hint Resolve confirmed_batch_from_pres : pres.
Lemma confirm_handed_pres handed : pres I (confirm_handed handed).
Proof. unfold confirm_handed. pres_tac. Qed.
#[local] Hint Resolve confirm_handed_pres : pres.
Lemma send_confirmations_posted_pres : pres I send_confirmations_posted.
Proof. unfold send_confirmations_posted. pres_tac. Qed.
#[local] Hint Resolve send_confirmations_posted_pres : pres.
Lemma confirmations_on_closed_pres conn : pres I (confirmations_on_closed conn).
Proof. unfold confirmations_on_closed. pres_tac. Qed.
#[local] Hint Resolve confirmations_on_closed_pres : pres.

(** *** Sends, flushes and their ends *)

Lemma settle_send_pres id written not_connected : pres I (settle_send id written not_connected).
Proof. unfold settle_send. pres_tac. Qed.
Lemma end_tracker_pres tracker written : pres I (end_tracker tracker written).
Proof. unfold end_tracker. pres_tac. Qed.
#[local] Hint Resolve settle_send_pres end_tracker_pres : pres.
Lemma end_send_pres done_ written : pres I (end_send done_ written).
Proof.
  revert done_. fix IH 1. intros [callback|id|ends|batch]; cbn [end_send]; [clear IH; pres_tac|clear IH; pres_tac| |clear IH; pres_tac].
  induction ends as [|[done_ tracker] ends IHe]; [apply pres_ret|]. pres_tac.
Qed.
#[local] Hint Resolve end_send_pres : pres.
Lemma end_follow_pres id written : pres I (end_follow id written).
Proof. unfold end_follow. pres_tac. Qed.
#[local] Hint Resolve end_follow_pres : pres.
Lemma process_follow_pres event : pres I (process_follow event).
Proof. unfold process_follow. pres_tac. Qed.
#[local] Hint Resolve process_follow_pres : pres.
Lemma process_follows_pres : pres I process_follows.
Proof. unfold process_follows. pres_tac. Qed.
#[local] Hint Resolve process_follows_pres : pres.
Lemma tell_drops_pres : pres I tell_drops.
Proof. unfold tell_drops. pres_tac. Qed.
#[local] Hint Resolve tell_drops_pres : pres.
Lemma run_confirmed_ends_pres : pres I run_confirmed_ends.
Proof. unfold run_confirmed_ends. pres_tac. Qed.
#[local] Hint Resolve run_confirmed_ends_pres : pres.
Lemma process_callbacks_pres : pres I process_callbacks.
Proof. unfold process_callbacks. pres_tac. Qed.
#[local] Hint Resolve process_callbacks_pres : pres.
Lemma run_process_callbacks_pres : pres I run_process_callbacks.
Proof. unfold run_process_callbacks. pres_tac. Qed.
#[local] Hint Resolve run_process_callbacks_pres : pres.
Lemma end_follows_pres : pres I end_follows.
Proof. unfold end_follows. pres_tac. Qed.
#[local] Hint Resolve end_follows_pres : pres.
Lemma begin_flush_pres done : pres I (begin_flush done).
Proof. unfold begin_flush. pres_tac. Qed.
#[local] Hint Resolve begin_flush_pres : pres.
Lemma schedule_one_pres frame pinned timeout number lane : pres I (schedule_one frame pinned timeout number lane).
Proof. unfold schedule_one. pres_tac. Qed.
#[local] Hint Resolve schedule_one_pres : pres.
Lemma schedule_on_pres frame pinned wrapper timeout number lane : pres I (schedule_on frame pinned wrapper timeout number lane).
Proof. unfold schedule_on. pres_tac. Qed.
#[local] Hint Resolve schedule_on_pres : pres.
Lemma schedule_all_pres frame timeout number : pres I (schedule_all frame timeout number).
Proof. unfold schedule_all. pres_tac. Qed.
#[local] Hint Resolve schedule_all_pres : pres.
Lemma send_pres frame all lane timeout number keeps done may_batch : pres I (send frame all lane timeout number keeps done may_batch).
Proof. unfold send. pres_tac. Qed.
#[local] Hint Resolve send_pres : pres.
Lemma send_plain_pres plain timeout number : pres I (send_plain plain timeout number).
Proof. unfold send_plain. pres_tac. Qed.
#[local] Hint Resolve send_plain_pres : pres.
Lemma place_plain_pres plain deadline : pres I (place_plain plain deadline).
Proof. unfold place_plain. pres_tac. Qed.
#[local] Hint Resolve place_plain_pres : pres.
Lemma arm_send_expiry_pres : pres I arm_send_expiry.
Proof. unfold arm_send_expiry. pres_tac. Qed.
#[local] Hint Resolve arm_send_expiry_pres : pres.
Lemma expire_send_at_pres id deadline : pres I (expire_send_at id deadline).
Proof. unfold expire_send_at. pres_tac. Qed.
#[local] Hint Resolve expire_send_at_pres : pres.
Lemma sends_expire_turn_pres : pres I sends_expire_turn.
Proof. unfold sends_expire_turn. pres_tac. Qed.
#[local] Hint Resolve sends_expire_turn_pres : pres.
Lemma sends_expire_pres : pres I sends_expire.
Proof. unfold sends_expire. pres_tac. Qed.
#[local] Hint Resolve sends_expire_pres : pres.
Lemma place_send_pres frame all lane deadline wait settled : pres I (place_send frame all lane deadline wait settled).
Proof. unfold place_send. pres_tac. Qed.
#[local] Hint Resolve place_send_pres : pres.
Lemma begin_flush_all_pres timeout done : pres I (begin_flush_all timeout done).
Proof. unfold begin_flush_all. pres_tac. Qed.
#[local] Hint Resolve begin_flush_all_pres : pres.
Lemma flush_wait_expired_pres id : pres I (flush_wait_expired id).
Proof. unfold flush_wait_expired. pres_tac. Qed.
#[local] Hint Resolve flush_wait_expired_pres : pres.

(** *** Handover *)

Lemma supersede_pres tracker : pres I (supersede tracker).
Proof. unfold supersede. pres_tac. Qed.
#[local] Hint Resolve supersede_pres : pres.
Lemma successor_pres dead : pres I (successor dead).
Proof. unfold successor. pres_tac. Qed.
#[local] Hint Resolve successor_pres : pres.
Lemma orphan_entry_pres conn shuts_down entry : pres I (orphan_entry conn shuts_down entry).
Proof. unfold orphan_entry. pres_tac. Qed.
#[local] Hint Resolve orphan_entry_pres : pres.
Lemma handle_orphaned_outgoing_messages_pres dead outgoing : pres I (handle_orphaned_outgoing_messages dead outgoing).
Proof. unfold handle_orphaned_outgoing_messages. pres_tac. Qed.
#[local] Hint Resolve handle_orphaned_outgoing_messages_pres : pres.

(** *** Queries *)

Lemma get_query_pres query : pres I (get_query query).
Proof. unfold get_query. pres_tac. Qed.
#[local] Hint Resolve get_query_pres : pres.
Lemma mod_query_pres query f : pres I (mod_query query f).
Proof. unfold mod_query. pres_tac. Qed.
#[local] Hint Resolve mod_query_pres : pres.
Lemma schedule_through_pres frame lane timeout : pres I (schedule_through frame lane timeout).
Proof. unfold schedule_through. pres_tac. Qed.
#[local] Hint Resolve schedule_through_pres : pres.
Lemma finish_pres query outcome : pres I (finish query outcome).
Proof. unfold finish. pres_tac. Qed.
#[local] Hint Resolve finish_pres : pres.
Lemma arm_query_pres query timeout : pres I (arm_query query timeout).
Proof. unfold arm_query. pres_tac. Qed.
#[local] Hint Resolve arm_query_pres : pres.
Lemma wait_for_connection_pres query resume : pres I (wait_for_connection query resume).
Proof. unfold wait_for_connection. pres_tac. Qed.
#[local] Hint Resolve wait_for_connection_pres : pres.
Lemma start_request_pres query keep_deadline : pres I (start_request query keep_deadline).
Proof. unfold start_request. pres_tac. Qed.
#[local] Hint Resolve start_request_pres : pres.
Lemma start_query_pres prototype timeout lane done received : pres I (start_query prototype timeout lane done received).
Proof. unfold start_query. pres_tac. Qed.
#[local] Hint Resolve start_query_pres : pres.
Lemma search_pres query keep_deadline : pres I (search query keep_deadline).
Proof. unfold search. pres_tac. Qed.
#[local] Hint Resolve search_pres : pres.
Lemma answered_pres query connection : pres I (answered query connection).
Proof. unfold answered. pres_tac. Qed.
#[local] Hint Resolve answered_pres : pres.
Lemma wait_late_pres query direct : pres I (wait_late query direct).
Proof. unfold wait_late. pres_tac. Qed.
#[local] Hint Resolve wait_late_pres : pres.
Lemma send_direct_pres query preferred keep_deadline : pres I (send_direct query preferred keep_deadline).
Proof. unfold send_direct. pres_tac. Qed.
#[local] Hint Resolve send_direct_pres : pres.
Lemma direct_pres query ping : pres I (direct query ping).
Proof. unfold direct. pres_tac. Qed.
#[local] Hint Resolve direct_pres : pres.
Lemma refused_attempt_pres query id : pres I (refused_attempt query id).
Proof. unfold refused_attempt. pres_tac. Qed.
#[local] Hint Resolve refused_attempt_pres : pres.
Lemma advance_pres query incoming : pres I (advance query incoming).
Proof. unfold advance. pres_tac. Qed.
#[local] Hint Resolve advance_pres : pres.
Lemma acknowledged_pres query message : pres I (acknowledged query message).
Proof. unfold acknowledged. pres_tac. Qed.
#[local] Hint Resolve acknowledged_pres : pres.
Lemma query_takes_pres incoming : pres I (query_takes incoming).
Proof. unfold query_takes. pres_tac. Qed.
#[local] Hint Resolve query_takes_pres : pres.
Lemma query_deadline_pres query generation : pres I (query_deadline query generation).
Proof. unfold query_deadline. pres_tac. Qed.
#[local] Hint Resolve query_deadline_pres : pres.
Lemma restart_waiting_queries_pres : pres I restart_waiting_queries.
Proof. unfold restart_waiting_queries. pres_tac. Qed.
#[local] Hint Resolve restart_waiting_queries_pres : pres.
Lemma post_fill_pres : pres I post_fill.
Proof. unfold post_fill. pres_tac. Qed.
#[local] Hint Resolve post_fill_pres : pres.
Lemma fill_pres : pres I fill.
Proof. unfold fill. pres_tac. Qed.
#[local] Hint Resolve fill_pres : pres.
Lemma follow_handover_pres query : pres I (follow_handover query).
Proof. unfold follow_handover. pres_tac. Qed.
#[local] Hint Resolve follow_handover_pres : pres.
Lemma lost_pres query : pres I (lost query).
Proof. unfold lost. pres_tac. Qed.
#[local] Hint Resolve lost_pres : pres.
Lemma followed_handover_pres query generation request : pres I (followed_handover query generation request).
Proof. unfold followed_handover. pres_tac. Qed.
#[local] Hint Resolve followed_handover_pres : pres.
Lemma query_on_down_pres connection query : pres I (query_on_down connection query).
Proof. unfold query_on_down. pres_tac. Qed.
#[local] Hint Resolve query_on_down_pres : pres.
Lemma queries_on_connection_pres connection up : pres I (queries_on_connection connection up).
Proof. unfold queries_on_connection. pres_tac. Qed.
#[local] Hint Resolve queries_on_connection_pres : pres.
Lemma finish_every_query_pres : pres I finish_every_query.
Proof. unfold finish_every_query. pres_tac. Qed.
#[local] Hint Resolve finish_every_query_pres : pres.

(** *** Routing, and what the client hears of its connections *)

Lemma run_acknowledged_callbacks_pres : pres I run_acknowledged_callbacks.
Proof. unfold run_acknowledged_callbacks. pres_tac. Qed.
#[local] Hint Resolve run_acknowledged_callbacks_pres : pres.
Lemma change_acknowledged_pres : pres I change_acknowledged.
Proof. unfold change_acknowledged. pres_tac. Qed.
#[local] Hint Resolve change_acknowledged_pres : pres.
Lemma update_confirmation_pres : pres I update_confirmation.
Proof. unfold update_confirmation. pres_tac. Qed.
#[local] Hint Resolve update_confirmation_pres : pres.
Lemma acknowledged_by_receive_pres : pres I acknowledged_by_receive.
Proof. unfold acknowledged_by_receive. pres_tac. Qed.
#[local] Hint Resolve acknowledged_by_receive_pres : pres.
Lemma take_acknowledged_wake_pres : pres I take_acknowledged_wake.
Proof. unfold take_acknowledged_wake. pres_tac. Qed.
#[local] Hint Resolve take_acknowledged_wake_pres : pres.
Lemma send_routing_pres conn : pres I (send_routing conn).
Proof. unfold send_routing. pres_tac. Qed.
#[local] Hint Resolve send_routing_pres : pres.
Lemma routing_changed_pres : pres I routing_changed.
Proof. unfold routing_changed. pres_tac. Qed.
#[local] Hint Resolve routing_changed_pres : pres.
Lemma set_routing_pres routing acknowledged_cb : pres I (set_routing routing acknowledged_cb).
Proof. unfold set_routing. pres_tac. Qed.
#[local] Hint Resolve set_routing_pres : pres.
Lemma set_key_filters_pres filters acknowledged_cb : pres I (set_key_filters filters acknowledged_cb).
Proof. unfold set_key_filters. pres_tac. Qed.
#[local] Hint Resolve set_key_filters_pres : pres.
Lemma on_peer_status_pres conn message : pres I (on_peer_status conn message).
Proof. unfold on_peer_status. pres_tac. Qed.
#[local] Hint Resolve on_peer_status_pres : pres.
Lemma end_connect_pres id up : pres I (end_connect id up).
Proof. unfold end_connect. pres_tac. Qed.
#[local] Hint Resolve end_connect_pres : pres.
Lemma on_connection_pres connection up : pres I (on_connection connection up).
Proof. unfold on_connection. pres_tac. Qed.
#[local] Hint Resolve on_connection_pres : pres.
Lemma close_socket_pres conn : pres I (close_socket conn).
Proof. unfold close_socket. pres_tac. Qed.
#[local] Hint Resolve close_socket_pres : pres.
Lemma unregister_connection_pres conn : pres I (unregister_connection conn).
Proof. unfold unregister_connection. pres_tac. Qed.
#[local] Hint Resolve unregister_connection_pres : pres.
Lemma connection_closed_pres conn : pres I (connection_closed conn).
Proof. unfold connection_closed. pres_tac. Qed.
#[local] Hint Resolve connection_closed_pres : pres.
Lemma give_up_entries_pres conn entries : pres I (give_up_entries conn entries).
Proof. unfold give_up_entries. pres_tac. Qed.
#[local] Hint Resolve give_up_entries_pres : pres.
Lemma settle_set_aside_pres conn written failed : pres I (settle_set_aside conn written failed).
Proof. unfold settle_set_aside. pres_tac. Qed.
#[local] Hint Resolve settle_set_aside_pres : pres.
Lemma send_heartbit_now_pres conn : pres I (send_heartbit_now conn).
Proof. unfold send_heartbit_now. pres_tac. Qed.
End Stable.
#[export] Hint Resolve send_at_pres take_body_pres give_body_pres fit_loop_pres
  batch_frame_pres alone_frame_pres wait_for_confirmation_pres cannot_confirm_pres send_records_pres
  send_batch_pres arm_batch_timer_pres stop_batch_timer_pres due_at_pres close_batch_pres close_batches_pres
  close_on_its_own_pres wait_for_idle_pres close_idle_batches_pres outgoing_queue_idle_pres
  close_idle_batches_if_idle_pres batch_timer_fired_pres stop_batching_pres open_batch_pres record_of_pres
  frame_of_plain_pres join_batch_pres batch_message_pres set_delivery_pres clear_delivery_pres again_records_pres
  give_up_unread_pres send_again_pres send_unresolved_again_pres confirm_due_batch_pres confirm_timer_fired_pres
  confirmed_batch_not_taken_pres heard_of_pres on_confirmation_pres send_owed_pres confirm_pres
  send_confirmations_pres confirmed_batch_from_pres confirm_handed_pres send_confirmations_posted_pres
  confirmations_on_closed_pres settle_send_pres end_tracker_pres end_send_pres end_follow_pres process_follow_pres
  process_follows_pres tell_drops_pres run_confirmed_ends_pres process_callbacks_pres run_process_callbacks_pres
  end_follows_pres begin_flush_pres schedule_one_pres schedule_on_pres schedule_all_pres
  send_pres send_plain_pres place_plain_pres arm_send_expiry_pres expire_send_at_pres sends_expire_turn_pres
  sends_expire_pres place_send_pres begin_flush_all_pres flush_wait_expired_pres supersede_pres successor_pres
  orphan_entry_pres handle_orphaned_outgoing_messages_pres get_query_pres mod_query_pres schedule_through_pres
  finish_pres arm_query_pres wait_for_connection_pres start_request_pres start_query_pres search_pres
  answered_pres wait_late_pres send_direct_pres direct_pres refused_attempt_pres advance_pres acknowledged_pres
  query_takes_pres query_deadline_pres restart_waiting_queries_pres post_fill_pres fill_pres follow_handover_pres
  lost_pres followed_handover_pres query_on_down_pres queries_on_connection_pres finish_every_query_pres
  run_acknowledged_callbacks_pres change_acknowledged_pres update_confirmation_pres acknowledged_by_receive_pres
  take_acknowledged_wake_pres send_routing_pres routing_changed_pres set_routing_pres set_key_filters_pres
  on_peer_status_pres end_connect_pres on_connection_pres close_socket_pres unregister_connection_pres
  connection_closed_pres give_up_entries_pres settle_set_aside_pres
  send_heartbit_now_pres : pres.

(** An invariant that holds while a dead connection's messages are displaced. *)
Class Displacing {E : Env} (I : Core -> Prop) := {
  displacing_stable :: Stable I;
  st_displace conn : pres I (displace conn);
}.
#[export] Hint Resolve st_displace : pres.

Section Displacing.
Context {E : Env} (I : Core -> Prop) `{!Displacing I}.
#[local] Hint Extern 1 (Quiet I) => exact _ : pres.
#[local] Hint Extern 1 (Stable I) => exact _ : pres.
#[local] Hint Extern 1 (Placing I) => exact _ : pres.

Lemma connection_destroyed_pres conn : pres I (connection_destroyed conn).
Proof. unfold connection_destroyed. pres_tac. Qed.
End Displacing.
#[export] Hint Resolve connection_destroyed_pres : pres.

(** An invariant that the end of a connection keeps too, and the end of the
    messages past their deadlines. *)
Class Closing {E : Env} (I : Core -> Prop) := {
  closing_stable :: Stable I;
  st_shutdown conn : pres I (shutdown_connection conn);
  st_close_gracefully conn bound : pres I (close_gracefully conn bound);
  st_expire : pres I expire;
}.
#[export] Hint Resolve st_expire st_shutdown st_close_gracefully : pres.

Section Closing.
Context {E : Env} {P : Program} (I : Core -> Prop) `{!Closing I}.

Ltac rest_tac := apply pres_rest; [exact _ | intros ?; repeat case_match; split_and!; reflexivity].
Ltac outbox_tac := apply pres_outbox; [exact _ | intros ?; split; [reflexivity | split; [reflexivity | intros ? ?; reflexivity]]].
Ltac conn_tac := apply st_conn; intros ?; repeat case_match; reflexivity.
#[local] Hint Extern 1 (pres I (mod_outbox _)) => outbox_tac : pres.
#[local] Hint Extern 1 (pres I (mod_conn _ _)) => conn_tac : pres.
#[local] Hint Extern 1 (pres I (modify _)) => rest_tac : pres.
#[local] Hint Extern 1 (Quiet I) => exact _ : pres.
#[local] Hint Extern 1 (Stable I) => exact _ : pres.
#[local] Hint Extern 1 (Placing I) => exact _ : pres.

(** *** Timers of a connection's end *)

Lemma read_to_the_end_bound_pres conn : pres I (read_to_the_end_bound conn).
Proof. unfold read_to_the_end_bound. pres_tac. Qed.
#[local] Hint Resolve read_to_the_end_bound_pres : pres.
Lemma require_heartbit_now_pres conn : pres I (require_heartbit_now conn).
Proof. unfold require_heartbit_now. pres_tac. Qed.
#[local] Hint Resolve require_heartbit_now_pres : pres.
Lemma on_read_end_pres conn : pres I (on_read_end conn).
Proof. unfold on_read_end. pres_tac. Qed.
#[local] Hint Resolve on_read_end_pres : pres.

(** *** What arrives *)

Lemma heartbit_pres : pres I heartbit.
Proof. unfold heartbit. pres_tac. Qed.
#[local] Hint Resolve heartbit_pres : pres.
Lemma welcome_frame_pres : pres I welcome_frame.
Proof. unfold welcome_frame. pres_tac. Qed.
#[local] Hint Resolve welcome_frame_pres : pres.
Lemma connect_deadline_pres conn : pres I (connect_deadline conn).
Proof. unfold connect_deadline. pres_tac. Qed.
#[local] Hint Resolve connect_deadline_pres : pres.
Lemma after_connection_registration_pres conn : pres I (after_connection_registration conn).
Proof. unfold after_connection_registration. pres_tac. Qed.
#[local] Hint Resolve after_connection_registration_pres : pres.
Lemma answer_ping_pres incoming : pres I (answer_ping incoming).
Proof. unfold answer_ping. pres_tac. Qed.
#[local] Hint Resolve answer_ping_pres : pres.
Lemma take_io_confirmations_pres : pres I take_io_confirmations.
Proof. unfold take_io_confirmations. pres_tac. Qed.
#[local] Hint Resolve take_io_confirmations_pres : pres.
Lemma run_on_message_pres incoming : pres I (run_on_message incoming).
Proof. unfold run_on_message. pres_tac. Qed.
#[local] Hint Resolve run_on_message_pres : pres.
Lemma on_message_confirmed_pres incoming sender number : pres I (on_message_confirmed incoming sender number).
Proof. unfold on_message_confirmed. pres_tac. Qed.
#[local] Hint Resolve on_message_confirmed_pres : pres.
Lemma answers_pres incoming : pres I (answers incoming).
Proof. unfold answers. pres_tac. Qed.
#[local] Hint Resolve answers_pres : pres.
Lemma on_unmatched_pres incoming : pres I (on_unmatched incoming).
Proof. unfold on_unmatched. pres_tac. Qed.
#[local] Hint Resolve on_unmatched_pres : pres.
Lemma dispatch_incoming_pres incoming : pres I (dispatch_incoming incoming).
Proof. unfold dispatch_incoming. pres_tac. Qed.
#[local] Hint Resolve dispatch_incoming_pres : pres.
Lemma refuse_pres incoming : pres I (refuse incoming).
Proof. unfold refuse. pres_tac. Qed.
#[local] Hint Resolve refuse_pres : pres.
Lemma refuse_arrivals_pres : pres I refuse_arrivals.
Proof. unfold refuse_arrivals. pres_tac. Qed.
#[local] Hint Resolve refuse_arrivals_pres : pres.
Lemma next_incoming_message_pres : pres I next_incoming_message.
Proof. unfold next_incoming_message. pres_tac. Qed.
#[local] Hint Resolve next_incoming_message_pres : pres.
Lemma refuse_unread_pres : pres I refuse_unread.
Proof. unfold refuse_unread. pres_tac. Qed.
#[local] Hint Resolve refuse_unread_pres : pres.
Lemma drop_full_pres count : pres I (drop_full count).
Proof. unfold drop_full. pres_tac. Qed.
#[local] Hint Resolve drop_full_pres : pres.
Lemma hand_out_pres incoming : pres I (hand_out incoming).
Proof. unfold hand_out. pres_tac. Qed.
#[local] Hint Resolve hand_out_pres : pres.
Lemma see_pres id : pres I (see id).
Proof. unfold see. pres_tac. Qed.
#[local] Hint Resolve see_pres : pres.
Lemma split_one_pres type producer key connection body number : pres I (split_one type producer key connection body number).
Proof. unfold split_one. pres_tac. Qed.
#[local] Hint Resolve split_one_pres : pres.
Lemma split_batch_pres conn envelope : pres I (split_batch conn envelope).
Proof. unfold split_batch. pres_tac. Qed.
#[local] Hint Resolve split_batch_pres : pres.
Lemma split_error_one_pres error report connection body : pres I (split_error_one error report connection body).
Proof. unfold split_error_one. pres_tac. Qed.
#[local] Hint Resolve split_error_one_pres : pres.
Lemma split_delivery_error_pres conn error : pres I (split_delivery_error conn error).
Proof. unfold split_delivery_error. pres_tac. Qed.
#[local] Hint Resolve split_delivery_error_pres : pres.
Lemma hand_out_alone_pres conn message : pres I (hand_out_alone conn message).
Proof. unfold hand_out_alone. pres_tac. Qed.
#[local] Hint Resolve hand_out_alone_pres : pres.
Lemma handle_message_pres conn message : pres I (handle_message conn message).
Proof. unfold handle_message. pres_tac. Qed.
#[local] Hint Resolve handle_message_pres : pres.
Lemma read_drained_pres : pres I read_drained.
Proof. unfold read_drained. pres_tac. Qed.
#[local] Hint Resolve read_drained_pres : pres.
Lemma on_read_drained_pres conn : pres I (on_read_drained conn).
Proof. unfold on_read_drained. pres_tac. Qed.
#[local] Hint Resolve on_read_drained_pres : pres.
Lemma log_summary_tick_pres : pres I log_summary_tick.
Proof. unfold log_summary_tick. pres_tac. Qed.
#[local] Hint Resolve log_summary_tick_pres : pres.
Lemma flush_drop_lines_pres : pres I flush_drop_lines.
Proof. unfold flush_drop_lines. pres_tac. Qed.
#[local] Hint Resolve flush_drop_lines_pres : pres.
Lemma shutdown_client_pres : pres I shutdown_client.
Proof. unfold shutdown_client. pres_tac. Qed.
#[local] Hint Resolve shutdown_client_pres : pres.
Lemma closing_pres : pres I closing.
Proof. unfold closing. pres_tac. Qed.
#[local] Hint Resolve closing_pres : pres.
Lemma teardown_pres : pres I teardown.
Proof. unfold teardown. pres_tac. Qed.
#[local] Hint Resolve teardown_pres : pres.
Lemma write_out_pres : pres I write_out.
Proof. unfold write_out. pres_tac. Qed.
#[local] Hint Resolve write_out_pres : pres.
Lemma write_out_step_pres : pres I write_out_step.
Proof. unfold write_out_step. pres_tac. Qed.
#[local] Hint Resolve write_out_step_pres : pres.
Lemma drain_expired_pres : pres I drain_expired.
Proof. unfold drain_expired. pres_tac. Qed.
#[local] Hint Resolve drain_expired_pres : pres.
Lemma begin_shutdown_pres timeout : pres I (begin_shutdown timeout).
Proof. unfold begin_shutdown. pres_tac. Qed.
#[local] Hint Resolve begin_shutdown_pres : pres.
Lemma connect_wait_expired_pres id : pres I (connect_wait_expired id).
Proof. unfold connect_wait_expired. pres_tac. Qed.
#[local] Hint Resolve connect_wait_expired_pres : pres.
Lemma register_inbox_pres queue : pres I (register_inbox queue).
Proof. unfold register_inbox. pres_tac. Qed.
#[local] Hint Resolve register_inbox_pres : pres.
Lemma register_subscription_pres type queue : pres I (register_subscription type queue).
Proof. unfold register_subscription. pres_tac. Qed.
#[local] Hint Resolve register_subscription_pres : pres.
Lemma new_conn_id_pres : pres I new_conn_id.
Proof. apply pres_rest; [exact _|]. intros c. unfold new_conn_id. cbn [snd upd cr_conns cr_outbox cr_next_conn]. split_and!; [done|done|done|lia]. Qed.
#[local] Hint Resolve new_conn_id_pres : pres.
Lemma disconnect_pres host port : pres I (disconnect host port).
Proof. unfold disconnect. pres_tac. Qed.
#[local] Hint Resolve disconnect_pres : pres.
End Closing.
#[export] Hint Resolve read_to_the_end_bound_pres require_heartbit_now_pres on_read_end_pres heartbit_pres
  welcome_frame_pres connect_deadline_pres after_connection_registration_pres answer_ping_pres
  take_io_confirmations_pres run_on_message_pres on_message_confirmed_pres answers_pres on_unmatched_pres
  dispatch_incoming_pres refuse_pres refuse_arrivals_pres next_incoming_message_pres refuse_unread_pres
  drop_full_pres hand_out_pres see_pres split_one_pres split_batch_pres split_error_one_pres
  split_delivery_error_pres hand_out_alone_pres handle_message_pres read_drained_pres on_read_drained_pres
  log_summary_tick_pres flush_drop_lines_pres shutdown_client_pres closing_pres teardown_pres write_out_pres
  write_out_step_pres drain_expired_pres begin_shutdown_pres connect_wait_expired_pres register_inbox_pres
  register_subscription_pres new_conn_id_pres disconnect_pres : pres.

(** ** Two invariants at once *)

#[export] Instance and_quiet I J `{!Quiet I, !Quiet J} : Quiet (fun c => I c /\ J c).
Proof.
  split; [|intros; apply pres_and; by apply st_conn]. intros c c' Hq [? ?]. split; by apply (st_quiet c).
Qed.
#[export] Instance and_placing {E : Env} I J `{!Placing I, !Placing J} : Placing (fun c => I c /\ J c).
Proof. split; [exact _|]. intros. apply pres_and; apply st_place_on. Qed.
#[export] Instance and_stable {E : Env} I J `{!Stable I, !Stable J} : Stable (fun c => I c /\ J c).
Proof.
  split; [exact _|..]; intros; apply pres_and;
    first [apply st_schedule | apply st_take_over | apply st_hold | apply st_drop_held | apply st_place_held
          | apply st_has_room | apply st_replace_displaced | apply st_drop_outbox | apply st_open_flush].
Qed.
#[export] Instance and_displacing {E : Env} I J `{!Displacing I, !Displacing J} : Displacing (fun c => I c /\ J c).
Proof. split; [exact _|]. intros. apply pres_and; apply st_displace. Qed.
