(* ===== verification/StableRun.v ===== *)
(** * StableRun: invariants that do not look inside the connections

    [Whole I] is an invariant that survives any change of the connections there
    are, a new one, and the ends of them; it then survives everything a run of the
    core is made of, up to the driver's steps. *)
From S2P Require Import Prelude Words Defaults Frame SpanSet Timers Endpoint IpAddr LogSummary Records Ordered Messages.
From S2P Require Import CoreTypes CoreBase ConnQueue OutboxState ConfirmingState Placing Bodies Batching Confirming.
From S2P Require Import Sending Handover Query Connection Client Connect Run Stable.
Open Scope Z_scope.

Class Whole {E : Env} (I : Core -> Prop) := {
  whole_closing :: Closing I;
  whole_blind :: Blind I;
  st_conns c c' :
    c' = c <| cr_conns := cr_conns c' |> -> (forall conn, is_Some (cr_conns c' !! conn) -> is_Some (cr_conns c !! conn)) ->
    I c -> I c';
  st_add_conn target : pres I (add_conn target);
  st_read_to_the_end conn bound deliver : pres I (read_to_the_end conn bound deliver);
}.
#[export] Hint Resolve st_add_conn st_read_to_the_end : pres.

Section Whole.
Context {E : Env} {P : Program} (I : Core -> Prop) `{!Whole I}.
#[local] Hint Extern 1 (Quiet I) => exact _ : pres.
#[local] Hint Extern 1 (Placing I) => exact _ : pres.
#[local] Hint Extern 1 (Stable I) => exact _ : pres.
#[local] Hint Extern 1 (Closing I) => exact _ : pres.
#[local] Hint Extern 1 (Blind I) => exact _ : pres.
#[local] Hint Resolve any_action_pres resolve_and_start_pres open_failed_pres : pres.

Lemma any_conn_pres conn f : pres I (mod_conn conn f).
Proof.
  intros c Hc. apply (st_conns c); [done| |done]. intros conn'. cbn [mod_conn modify snd upd cr_conns].
  destruct (decide (conn' = conn)) as [->|]; [rewrite lookup_alter_eq; by destruct (cr_conns c !! conn)|].
  by rewrite lookup_alter_ne.
Qed.
Lemma forget_if_finished_pres conn : pres I (forget_if_finished conn).
Proof.
  intros c Hc. unfold forget_if_finished, modify. cbn [snd]. repeat case_match; [|done..].
  apply (st_conns c); [done| |done]. intros conn' [s' Hs']. cbn [upd cr_conns] in Hs'.
  apply lookup_delete_Some in Hs' as [_ Hs']. by exists s'.
Qed.
#[local] Hint Resolve any_conn_pres forget_if_finished_pres : pres.
#[local] Hint Extern 2 (pres I (modify _)) => (apply pres_rest; [exact _|intros ?; repeat case_match; split_and!; reflexivity]) : pres.

Lemma process_send_queue_pres conn : pres I (process_send_queue conn).
Proof. unfold process_send_queue. pres_tac. Qed.
#[local] Hint Resolve process_send_queue_pres : pres.
Lemma write_ended_pres conn was_full tracker : pres I (write_ended conn was_full tracker).
Proof. unfold write_ended. pres_tac. Qed.
Lemma write_failed_pres conn : pres I (write_failed conn).
Proof. unfold write_failed. pres_tac. Qed.
#[local] Hint Resolve write_ended_pres write_failed_pres : pres.
Lemma on_write_done_pres conn written failed : pres I (on_write_done conn written failed).
Proof. unfold on_write_done. pres_tac. Qed.
Lemma try_next_candidate_pres conn : pres I (try_next_candidate conn).
Proof. unfold try_next_candidate. pres_tac. Qed.
#[local] Hint Resolve on_write_done_pres try_next_candidate_pres : pres.
Lemma on_resolved_pres conn candidates : pres I (on_resolved conn candidates).
Proof. unfold on_resolved. pres_tac. Qed.
Lemma start_connection_pres conn : pres I (start_connection conn).
Proof. unfold start_connection. pres_tac. Qed.
#[local] Hint Resolve on_resolved_pres start_connection_pres : pres.
Lemma connected_pres conn ok : pres I (connected conn ok).
Proof. unfold connected. pres_tac. Qed.
Lemma record_registration_pres conn id : pres I (record_registration conn id).
Proof. unfold record_registration. pres_tac. Qed.
#[local] Hint Resolve connected_pres record_registration_pres : pres.
Lemma register_connection_pres conn welcome : pres I (register_connection conn welcome).
Proof. unfold register_connection. pres_tac. Qed.
#[local] Hint Resolve register_connection_pres : pres.
Lemma receive_internal_message_pres conn message : pres I (receive_internal_message conn message).
Proof. unfold receive_internal_message. pres_tac. Qed.
#[local] Hint Resolve receive_internal_message_pres : pres.
Lemma on_frame_pres conn body : pres I (on_frame conn body).
Proof. unfold on_frame. pres_tac. Qed.
Lemma async_connect_pres host port : pres I (async_connect host port).
Proof. unfold async_connect. pres_tac. Qed.
#[local] Hint Resolve on_frame_pres async_connect_pres : pres.
Lemma reconnect_after_timeout_pres number : pres I (reconnect_after_timeout number).
Proof. unfold reconnect_after_timeout. pres_tac. Qed.
Lemma start_connect_pres host port timeout done_ : pres I (start_connect host port timeout done_).
Proof. unfold start_connect. pres_tac. Qed.
#[local] Hint Resolve reconnect_after_timeout_pres start_connect_pres : pres.
Lemma run_due_pres due : pres I (run_due due).
Proof. destruct due; cbn [run_due]; pres_tac. Qed.
#[local] Hint Resolve run_due_pres : pres.
Lemma run_one_timer_pres : pres I run_one_timer.
Proof.
  unfold run_one_timer. apply pres_bind; [|intros; pres_tac]. apply pres_rest; [exact _|]. intros c. by destruct (take_due _ _).
Qed.
#[local] Hint Resolve run_one_timer_pres : pres.

Lemma run_posted_pres run_command posted :
  (forall command, pres I (run_command command)) -> pres I (run_posted run_command posted).
Proof. intros Hc. destruct posted; cbn [run_posted]; pres_tac. apply pres_outbox; [exact _|]. by intros o; split; [|split]. Qed.

Lemma run_ready_pres run_command ready :
  (forall command, pres I (run_command command)) -> pres I (run_ready run_command ready).
Proof. intros Hc. destruct ready; cbn [run_ready]; try (by apply run_posted_pres); pres_tac. Qed.
End Whole.
#[export] Hint Resolve async_connect_pres start_connect_pres run_one_timer_pres on_frame_pres on_write_done_pres : pres.
