(* ===== verification/ConnIds.v ===== *)
(** * ConnIds: which connections there are

    An invariant that asks of a connection only how its socket stands and what
    is at the front of its queue ([Fronted]) survives whatever places messages,
    once it survives the few operations that queue a frame and start a write;
    if it survives a connection's end too ([Ending]), it survives what is read.
    One that asks only how the socket stands ([ChannelOnly]) needs only the start
    of a write; one that asks only which connections exist ([DomOnly]) survives
    every operation but those that make and forget one.  Two such: a connection
    under way is still there ([has_conn]), and the connections' numbers are given
    in order ([conn_ids]), so that a new one is no other's. *)
From S2P Require Import Prelude Words Defaults Frame SpanSet Timers Endpoint IpAddr LogSummary Records Ordered Messages.
From S2P Require Import CoreTypes CoreBase ConnQueue OutboxState ConfirmingState Placing Bodies Batching Confirming.
From S2P Require Import Sending Handover Query Connection Client Connect Run Stable StableRun.
Open Scope Z_scope.

(** How a connection's socket stands. *)
Definition channel_view (s : Conn) := (cn_connecting s, cn_candidates s, cn_out s, cn_write_in_flight s).

(** And the frame at the front of its queue. *)
Definition front_view (s : Conn) := (channel_view s, snd <$> head (cn_outgoing s)).

(** An invariant of how the sockets stand and of the frames at the fronts. *)
Class Fronted {E : Env} (I : Core -> Prop) := {
  fr_rest c c' :
    cr_conns c' = cr_conns c -> asked c' = asked c -> cr_next_conn c <= cr_next_conn c' -> I c -> I c';
  fr_conn conn f : (forall s, front_view (f s) = front_view s) -> pres I (mod_conn conn f);
  fr_process_send_queue conn : pres I (process_send_queue conn);
  fr_schedule conn frame force asap : pres I (schedule conn frame force asap);
  fr_take_over conn entry : pres I (take_over conn entry);
}.

Section Fronted.
Context {E : Env} (I : Core -> Prop) `{!Fronted I}.

#[export] Instance fr_quiet : Quiet I.
Proof.
  split.
  - intros c c' (H & _ & _ & Ha & Hn). by apply (fr_rest c).
  - intros conn f Hf. apply fr_conn. intros s. specialize (Hf s). unfold conn_view in Hf. injection Hf as _ _ H3 _ _ _ H7 H8 H9 _ H11.
    unfold front_view, channel_view. rewrite H3, H7, H8, H11. f_equal.
    destruct (cn_outgoing (f s)), (cn_outgoing s); try done. cbn in H9 |- *. congruence.
Qed.

Lemma fr_outbox f : pres I (mod_outbox f).
Proof. intros c Hc. by apply (fr_rest c). Qed.
Lemma fr_store w : pres I (store w).
Proof. intros c Hc. unfold store. destruct (Outbox_store _ _). by apply (fr_rest c). Qed.
#[local] Hint Resolve fr_outbox fr_store fr_process_send_queue fr_schedule fr_take_over : pres.
#[local] Hint Extern 1 (pres I (mod_conn _ _)) => (apply fr_conn; intros ?; repeat case_match; reflexivity) : pres.
#[local] Hint Extern 1 (Quiet _) => exact _ : pres.
Lemma fr_waiting key f : pres I (mod_waiting key f).
Proof. apply fr_outbox. Qed.
Lemma fr_release key : pres I (release key).
Proof. apply fr_outbox. Qed.
Lemma fr_backlog conn f : pres I (mod_backlog conn f).
Proof. apply fr_outbox. Qed.
Lemma fr_wait_flushes number copies : pres I (wait_flushes number copies).
Proof. apply fr_outbox. Qed.
Lemma fr_remove_backlog conn : pres I (remove_backlog conn).
Proof. apply fr_outbox. Qed.
#[local] Hint Resolve fr_waiting fr_release fr_backlog fr_wait_flushes fr_remove_backlog : pres.
Lemma fr_held_left : pres I held_left.
Proof. unfold held_left. pres_tac. Qed.
#[local] Hint Resolve fr_held_left : pres.
Lemma fr_drop_expired key : pres I (drop_expired key).
Proof. unfold drop_expired. pres_tac. Qed.
Lemma fr_lose key : pres I (lose key).
Proof. unfold lose. pres_tac. Qed.
Lemma fr_rehold key all : pres I (rehold key all).
Proof. unfold rehold. pres_tac. Qed.
Lemma fr_supersede tracker : pres I (supersede tracker).
Proof. unfold supersede. pres_tac. Qed.
#[local] Hint Resolve fr_drop_expired fr_lose fr_rehold fr_supersede : pres.

#[export] Instance fr_placing : Placing I.
Proof. split; [exact _|]. intros. unfold place_on. pres_tac. Qed.
#[local] Hint Extern 1 (Placing _) => exact _ : pres.

#[export] Instance fr_stable : Stable I.
Proof.
  split; try exact _; intros.
  - apply fr_schedule.
  - apply fr_take_over.
  - unfold hold. pres_tac.
  - unfold drop_held. pres_tac.
  - unfold place_held, place_held_turn. pres_tac.
  - unfold outgoing_queue_has_room, has_room_turn. pres_tac.
  - unfold replace_displaced, replace_one. pres_tac.
  - unfold drop_outbox, drop_one. pres_tac.
  - unfold open_flush. pres_tac.
Qed.

#[export] Instance fr_displacing : Displacing I.
Proof. split; [exact _|]. intros. apply fr_outbox. Qed.

Lemma fr_expire : pres I expire.
Proof. unfold expire, expire_turn. pres_tac. Qed.
End Fronted.

(** An invariant of how the sockets stand alone. *)
Class ChannelOnly (I : Core -> Prop) := {
  ch_rest c c' :
    cr_conns c' = cr_conns c -> asked c' = asked c -> cr_next_conn c <= cr_next_conn c' -> I c -> I c';
  ch_conn conn f : (forall s, channel_view (f s) = channel_view s) -> pres I (mod_conn conn f);
  ch_process_send_queue conn : pres I (process_send_queue conn);
}.

#[export] Instance ch_fronted {E : Env} I `{!ChannelOnly I} : Fronted I.
Proof.
  assert (Hq : forall conn f, (forall s, channel_view (f s) = channel_view s) ->
    pres I (mod_conn conn f ;;; process_send_queue conn)).
  { intros conn f Hf. apply pres_bind; [by apply ch_conn|intros _; apply ch_process_send_queue]. }
  assert (Ht : forall state, pres I (Tracker_new state)) by (intros state c Hc; by apply (ch_rest c)).
  split; [apply ch_rest| |apply ch_process_send_queue| |].
  - intros conn f Hf. apply ch_conn. intros s. specialize (Hf s). unfold front_view in Hf. congruence.
  - intros. unfold schedule, get_conn. pose proof (ch_process_send_queue (I := I)). pres_tac; by apply ch_conn.
  - intros. unfold take_over, get_conn. pose proof (ch_process_send_queue (I := I)). pres_tac; by apply ch_conn.
Qed.

(** An invariant that a connection's end keeps too. *)
Class Ending {E : Env} (I : Core -> Prop) := {
  ed_fronted :: Fronted I;
  ed_forget conn : pres I (forget_if_finished conn);
  ed_shutdown conn : pres I (shutdown_connection conn);
  ed_read_to_the_end conn bound deliver : pres I (read_to_the_end conn bound deliver);
}.

Section Ending.
Context {E : Env} {P : Program} (I : Core -> Prop) `{!Ending I}.
#[local] Hint Extern 1 (Quiet _) => exact _ : pres.
#[local] Hint Extern 1 (Placing _) => exact _ : pres.
#[local] Hint Extern 1 (Stable _) => exact _ : pres.
#[local] Hint Extern 1 (Displacing _) => exact _ : pres.
#[local] Hint Extern 1 (Fronted _) => exact _ : pres.
#[local] Hint Resolve fr_process_send_queue ed_forget ed_shutdown ed_read_to_the_end : pres.
#[local] Hint Extern 1 (pres I (mod_conn _ _)) => (apply fr_conn; intros ?; repeat case_match; reflexivity) : pres.

Lemma en_shutdown conn : pres I (shutdown_connection conn).
Proof. apply ed_shutdown. Qed.

#[export] Instance en_closing : Closing I.
Proof. split; [exact _|apply ed_shutdown| |apply fr_expire; exact _]. intros. unfold close_gracefully. pres_tac. Qed.
#[local] Hint Extern 1 (Closing _) => exact _ : pres.

Lemma en_write_ended conn was_full tracker : pres I (write_ended conn was_full tracker).
Proof. unfold write_ended. pres_tac. Qed.
Lemma en_write_failed conn : pres I (write_failed conn).
Proof. unfold write_failed. pres_tac. Qed.
Lemma en_start_connection conn : pres I (start_connection conn).
Proof. unfold start_connection. pres_tac. Qed.
Lemma en_record_registration conn id : pres I (record_registration conn id).
Proof. unfold record_registration. pres_tac. apply pres_rest; [exact _|]. intros c. by split_and!. Qed.
#[local] Hint Resolve en_record_registration : pres.
Lemma en_register_connection conn welcome : pres I (register_connection conn welcome).
Proof. unfold register_connection. pres_tac. Qed.
#[local] Hint Resolve en_register_connection : pres.
Lemma en_receive_internal conn message : pres I (receive_internal_message conn message).
Proof. unfold receive_internal_message. pres_tac. Qed.
#[local] Hint Resolve en_receive_internal : pres.
Lemma en_on_frame conn body : pres I (on_frame conn body).
Proof. unfold on_frame. pres_tac. Qed.
End Ending.

(** One that a channel broken or a queue given up does not concern. *)
Class Enduring (I : Core -> Prop) := {
  en_channel :: ChannelOnly I;
  en_conn conn f :
    (forall s, cn_connecting (f s) = cn_connecting s /\ cn_candidates (f s) = cn_candidates s
               /\ cn_write_in_flight (f s) = cn_write_in_flight s /\ (cn_out (f s) = Free -> cn_out s = Free)) ->
    pres I (mod_conn conn f);
  en_forget conn : pres I (forget_if_finished conn);
}.

Section Enduring.
Context {E : Env} (I : Core -> Prop) `{!Enduring I}.
#[local] Hint Extern 1 (Quiet _) => exact _ : pres.
#[local] Hint Extern 1 (Placing _) => exact _ : pres.
#[local] Hint Extern 1 (Stable _) => exact _ : pres.
#[local] Hint Extern 1 (Displacing _) => exact _ : pres.
#[local] Hint Resolve en_forget : pres.
#[local] Hint Extern 1 (pres I (mod_conn _ _)) => (apply en_conn; intros ?; repeat case_match; by split_and!) : pres.

Lemma en_tell_client_gone conn : pres I (tell_client_gone conn).
Proof. unfold tell_client_gone. pres_tac. Qed.
Lemma en_orphan conn : pres I (orphan_outgoing_messages conn).
Proof. unfold orphan_outgoing_messages. pres_tac. Qed.
#[local] Hint Resolve en_tell_client_gone en_orphan : pres.

#[export] Instance en_ending : Ending I.
Proof.
  split; [exact _|apply en_forget| |].
  - intros. unfold shutdown_connection. pres_tac.
  - intros. unfold read_to_the_end. pres_tac.
Qed.
End Enduring.

Class DomOnly (I : Core -> Prop) :=
  st_dom c c' : (forall conn, is_Some (cr_conns c' !! conn) <-> is_Some (cr_conns c !! conn)) ->
    cr_next_conn c <= cr_next_conn c' -> I c -> I c'.

Section DomOnly.
Context (I : Core -> Prop) `{!DomOnly I}.

Lemma dom_conn conn f : pres I (mod_conn conn f).
Proof.
  intros c Hc. apply (st_dom c); [|done|done]. intros conn'. cbn [mod_conn modify snd upd cr_conns].
  destruct (decide (conn' = conn)) as [->|]; [rewrite lookup_alter_eq; by destruct (cr_conns c !! conn)|].
  by rewrite lookup_alter_ne.
Qed.

#[export] Instance dom_blind : Blind I.
Proof. intros c c' H _ Hn. apply (st_dom c); [by intros; rewrite H|done]. Qed.

#[export] Instance dom_channel : ChannelOnly I.
Proof.
  split; [|intros; apply dom_conn|].
  - intros c c' H _ Hn. apply (st_dom c); [by intros; rewrite H|done].
  - intros conn. unfold process_send_queue. pres_step; [apply pres_gets|]. pres_tac; [apply dom_conn|apply any_action_pres; exact _].
Qed.
End DomOnly.

(** [conn] is not forgotten while it ends. *)
Definition has_conn (conn : Z) (c : Core) : Prop := is_Some (cr_conns c !! conn).
#[export] Instance has_conn_dom conn : DomOnly (has_conn conn).
Proof. intros c c' H _. apply H. Qed.

(** The connections' numbers are given in order. *)
Definition conn_ids (c : Core) : Prop := forall conn, is_Some (cr_conns c !! conn) -> conn <= cr_next_conn c.
#[export] Instance conn_ids_dom : DomOnly conn_ids.
Proof. intros c c' H Hn Hc conn Hs. apply H in Hs. specialize (Hc conn Hs). lia. Qed.

Section ConnIds.
Context {E : Env}.
#[local] Hint Extern 1 (Quiet _) => exact _ : pres.
#[local] Hint Extern 1 (Placing _) => exact _ : pres.
#[local] Hint Extern 1 (Stable _) => exact _ : pres.
#[local] Hint Extern 1 (Displacing _) => exact _ : pres.

Lemma ids_conns c c' :
  c' = c <| cr_conns := cr_conns c' |> -> (forall conn, is_Some (cr_conns c' !! conn) -> is_Some (cr_conns c !! conn)) ->
  conn_ids c -> conn_ids c'.
Proof. intros Heq H Hc conn Hs. rewrite Heq. apply Hc, H, Hs. Qed.

Lemma ids_conn conn f : pres conn_ids (mod_conn conn f).
Proof. apply dom_conn. exact _. Qed.
Lemma ids_forget conn : pres conn_ids (forget_if_finished conn).
Proof.
  intros c Hc. unfold forget_if_finished, modify. cbn [snd]. repeat case_match; [|done..].
  apply (ids_conns c); [done| |done]. intros conn' [s' Hs']. cbn [upd cr_conns] in Hs'.
  apply lookup_delete_Some in Hs' as [_ Hs']. by exists s'.
Qed.
#[local] Hint Resolve ids_conn ids_forget : pres.
#[export] Instance ids_enduring : Enduring conn_ids.
Proof. split; [exact _|intros; apply ids_conn|apply ids_forget]. Qed.

(** What making a connection does. *)
Lemma add_conn_eq target c :
  exists h, let '(conn, c') := add_conn target c in
    conn = cr_next_conn c + 1 /\ cr_next_conn c' = conn /\ cr_outbox c' = cr_outbox c
    /\ cr_conns c' = <[conn := Conn_new target h]> (cr_conns c).
Proof.
  assert (Hh : forall c, cr_conns (heartbit c).2 = cr_conns c /\ cr_outbox (heartbit c).2 = cr_outbox c
                         /\ cr_next_conn (heartbit c).2 = cr_next_conn c).
  { intros c0. unfold heartbit, bind, gets. by destruct (cl_heartbit (cr_client c0)). }
  unfold add_conn, bind, new_conn_id. specialize (Hh (c <| cr_next_conn := cr_next_conn c + 1 |>)).
  destruct (heartbit _) as [h c2]. destruct Hh as (H1 & H2 & H3). cbn [snd] in *. exists h.
  cbn [modify ret upd cr_conns cr_outbox cr_next_conn] in *. rewrite H1, H2, H3. done.
Qed.

#[export] Instance ids_whole : Whole conn_ids.
Proof.
  split; [exact _|exact _|apply ids_conns| |intros; apply ed_read_to_the_end]. intros target c Hc.
  destruct (add_conn_eq target c) as [h Ha]. destruct (add_conn target c) as [conn c']. destruct Ha as (-> & Hn & _ & Hs).
  intros conn'. cbn [snd]. rewrite Hn, Hs. destruct (decide (conn' = cr_next_conn c + 1)) as [->|Hne]; [done|].
  rewrite lookup_insert_ne by done. intros Hs'. specialize (Hc conn' Hs'). lia.
Qed.
End ConnIds.
