(* ===== verification/ConnSpec.v ===== *)
(** * ConnSpec: no connection stalls

    The invariant of a client's connections: one that is live and has frames
    queued is writing the first of them, one with nothing queued writes nothing,
    its queue is within its bound, and nothing is queued on a connection that
    was not started or has shut down.  [conns_ok e] is that invariant but for
    the connections [e] names, which the operation under way is still changing;
    it is [Stable] and [Closing] for every such [e]. *)
From S2P Require Import Prelude Words Defaults Frame SpanSet Timers Endpoint IpAddr LogSummary Records Ordered Messages.
From S2P Require Import CoreTypes CoreBase ConnQueue OutboxState ConfirmingState Placing Bodies Batching Confirming.
From S2P Require Import Sending Handover Query Connection Client Connect Run Stable.
Open Scope Z_scope.

(** What an operation under way is still changing: connections being shut down,
    those that stay dead meanwhile, one whose next write is still to start,
    and those that stay started meanwhile. *)
Record Ex := mkEx { ex_closing : gset Z; ex_dead : gset Z; ex_stalled : gset Z; ex_started : gset Z }.
#[export] Instance eta_Ex : Eta Ex := fun r => mkEx (ex_closing r) (ex_dead r) (ex_stalled r) (ex_started r).

Definition no_ex : Ex := mkEx ∅ ∅ ∅ ∅.

(** A connection no socket of which ever opened. *)
Definition unstarted (s : Conn) : Prop := cn_connecting s = true \/ cn_candidates s = [].

(** The queue's front is being written, or there is nothing to write. *)
Definition channel_ok (stalled : Prop) (s : Conn) : Prop :=
  (cn_out s = Busy /\ cn_write_in_flight s = true /\ 0 < outgoing_len s)
  \/ (cn_out s = Free /\ cn_write_in_flight s = false /\ (outgoing_len s = 0 \/ stalled)).

Record live_ok (e : Ex) (conn : Z) (s : Conn) : Prop := {
  lo_dead : conn ∉ ex_dead e;
  lo_down : cn_shuts_down s = false;
  lo_started : ~ unstarted s;
  lo_gone : cn_told_gone s = false;
  lo_max : 1 <= cn_outgoing_max s <= DEFAULT_OUT_QUEUE_SIZE;
  lo_len : outgoing_len s <= cn_outgoing_max s + FORCED_FRAMES_PAST_FULL_QUEUE;
  lo_channel : channel_ok (conn ∈ ex_stalled e) s;
}.

Record fresh_ok (e : Ex) (conn : Z) (s : Conn) : Prop := {
  fo_started : conn ∉ ex_started e;
  fo_reading : cn_reading s = false;
  fo_registered : cn_registered s = false;
  fo_in_flight : cn_write_in_flight s = false;
  fo_queue : outgoing_len s = 0;
  fo_state : cn_shuts_down s = false -> cn_out s = Free /\ cn_outgoing_max s = 1 /\ cn_told_gone s = false;
}.

Record conn_ok (e : Ex) (conn : Z) (s : Conn) : Prop := {
  co_live : cn_living s = true -> live_ok e conn s;
  co_fresh : unstarted s -> fresh_ok e conn s;
  co_closing : cn_connecting s = true -> cn_shuts_down s = true -> conn ∈ ex_closing e;
  co_down : conn ∈ ex_closing e -> cn_shuts_down s = true;
  co_candidates : cn_connecting s = true -> cn_candidates s <> [];
}.

Definition conns_ok (e : Ex) (c : Core) : Prop := forall conn s, cr_conns c !! conn = Some s -> conn_ok e conn s.

(** ** Changing one connection *)

Lemma conn_ok_view e conn s s' : conn_view s' = conn_view s -> conn_ok e conn s -> conn_ok e conn s'.
Proof.
  unfold conn_view. intros [= H1 H2 H3 H4 H5 H6 H7 H8 H9 H10 H11] [Hl Hf Hc Hd Hcd].
  assert (Hlen : outgoing_len s' = outgoing_len s) by (unfold outgoing_len; by rewrite (frames_length _ _ H9)).
  assert (Hu : unstarted s' <-> unstarted s) by (unfold unstarted; rewrite H3, H11; done).
  split.
  - rewrite H1. intros Hl'. destruct (Hl Hl') as [? ? ? ? ? ? Hch]. split; rewrite ?Hu, ?H2, ?H4, ?H10, ?Hlen; try done.
    unfold channel_ok in *. by rewrite H7, H8, Hlen.
  - rewrite Hu. intros Hu'. destruct (Hf Hu'). split; rewrite ?H5, ?H6, ?H8, ?Hlen, ?H2, ?H7, ?H10, ?H4; done.
  - by rewrite H2, H3.
  - by rewrite H2.
  - by rewrite H3, H11.
Qed.

(** Nothing changes for the other connections between [e] and [e']. *)
Definition ex_others (conn : Z) (e e' : Ex) : Prop :=
  forall conn' s, conn' <> conn -> conn_ok e conn' s -> conn_ok e' conn' s.

Lemma mod_conn_eq conn f c : cr_conns (mod_conn conn f c).2 !! conn = f <$> cr_conns c !! conn.
Proof. apply lookup_alter_eq. Qed.
Lemma mod_conn_ne conn conn' f c : conn' <> conn -> cr_conns (mod_conn conn f c).2 !! conn' = cr_conns c !! conn'.
Proof. intros H. by apply lookup_alter_ne. Qed.

Lemma mod_conn_ok e e' conn f c :
  conns_ok e c -> ex_others conn e e' ->
  (forall s, cr_conns c !! conn = Some s -> conn_ok e conn s -> conn_ok e' conn (f s)) ->
  conns_ok e' (mod_conn conn f c).2.
Proof.
  intros Hc He Hf conn' s'. simpl. destruct (decide (conn' = conn)) as [->|Hne].
  - rewrite lookup_alter_eq. destruct (cr_conns c !! conn) as [s|] eqn:Hs; [|done].
    intros [= <-]. apply Hf; [done|]. by apply Hc.
  - rewrite lookup_alter_ne by done. intros Hs. apply He; [done|]. by apply Hc.
Qed.

Lemma ex_others_refl conn e : ex_others conn e e.
Proof. by intros conn' s. Qed.

Lemma conns_ok_conns e c c' : cr_conns c' = cr_conns c -> conns_ok e c -> conns_ok e c'.
Proof. intros H Hc conn s. rewrite H. apply Hc. Qed.

#[export] Instance conns_blind e : Blind (conns_ok e).
Proof. intros c c' H _ _. by apply conns_ok_conns. Qed.

#[export] Instance conns_quiet e : Quiet (conns_ok e).
Proof.
  split.
  - intros c c' (H & _). by apply conns_ok_conns.
  - intros conn f Hf c Hc. eapply mod_conn_ok; [done|apply ex_others_refl|]. intros s _. by apply conn_ok_view.
Qed.

(** ** The queue *)

Definition stall (conn : Z) (e : Ex) : Ex := e <| ex_stalled ::= fun s => {[conn]} ∪ s |>.

Lemma stall_others conn e : ex_others conn e (stall conn e) /\ ex_others conn (stall conn e) e.
Proof.
  split; intros conn' s Hne [Hl Hf Hc Hd Hcd]; split; try done; intros H.
  - destruct (Hl H) as [? ? ? ? ? ? Hch]. split; try done. unfold channel_ok in *. set_solver.
  - by destruct (Hf H).
  - destruct (Hl H) as [? ? ? ? ? ? Hch]. split; try done. unfold channel_ok in *. set_solver.
  - by destruct (Hf H).
Qed.

Lemma conns_ok_others conn e e' c :
  ex_others conn e e' -> (forall s, cr_conns c !! conn = Some s -> conn_ok e conn s -> conn_ok e' conn s) ->
  conns_ok e c -> conns_ok e' c.
Proof.
  intros He Hs Hc conn' s H. destruct (decide (conn' = conn)) as [->|]; [|apply He; [done|]; by apply Hc].
  apply Hs; [done|]. by apply Hc.
Qed.

(** A write starts for the front of a queue that has one. *)
Lemma process_send_queue_ok e conn c :
  conns_ok (stall conn e) c -> conns_ok e (process_send_queue conn c).2.
Proof.
  intros Hc. unfold process_send_queue, bind, get_conn, gets.
  assert (Hsame : (forall s, cr_conns c !! conn = Some s -> conn_ok (stall conn e) conn s -> conn_ok e conn s) ->
                  conns_ok e c) by (intros H; eapply conns_ok_others; [apply stall_others|exact H|done]).
  destruct (cr_conns c !! conn) as [s|] eqn:Hs; [|by apply Hsame].
  destruct (negb (bool_decide (cn_out s = Free)) || cn_shuts_down s) eqn:Hbusy.
  - apply Hsame. intros s' [= <-] [Hl Hf Hcl Hdn Hcd]. split; [|by intros H; destruct (Hf H)|done|done|done].
    intros Hlive. destruct (Hl Hlive) as [? Hd ? ? ? ? Hch]. split; try done.
    rewrite Hd, orb_false_r, negb_true_iff, bool_decide_eq_false in Hbusy.
    destruct Hch as [?|[? _]]; [by left|done].
  - rewrite orb_false_iff, negb_false_iff, bool_decide_eq_true in Hbusy. destruct Hbusy as [Hfree Hdown].
    destruct (cn_outgoing s) as [|[t front] rest] eqn:Hq.
    + apply Hsame. intros s' [= <-] [Hl Hf Hcl Hdn Hcd]. split; [|by intros H; destruct (Hf H)|done|done|done].
      intros Hlive. destruct (Hl Hlive) as [? ? ? ? ? ? Hch]. split; try done.
      destruct Hch as [(? & _)|(? & ? & _)]; [congruence|]. right. split_and!; [done|done|left].
      unfold outgoing_len. by rewrite Hq.
    + assert (Hpos : 0 < outgoing_len s) by (unfold outgoing_len; rewrite Hq; simpl; lia).
      eapply conns_ok_conns with (c := (mod_conn conn _ c).2); [reflexivity|].
      eapply mod_conn_ok; [done|apply stall_others|]. intros s' Hs'.
      rewrite Hs in Hs'. injection Hs' as <-. intros [Hl Hf Hcl Hdn Hcd]. split; simpl; [|intros H; destruct (Hf H); lia|done|done|done].
      intros Hlive. destruct (Hl Hlive). split; try done. by left.
Qed.

(** One more frame on a live queue with room for it. *)
Lemma queue_grows e conn s s' :
  conn_ok e conn s -> cn_living s = true ->
  outgoing_len s' = outgoing_len s + 1 -> outgoing_len s < cn_outgoing_max s + FORCED_FRAMES_PAST_FULL_QUEUE ->
  conn_view s' = conn_view (s <| cn_outgoing := cn_outgoing s' |>) ->
  conn_ok (stall conn e) conn s'.
Proof.
  intros [Hl Hf Hcl Hdn Hcd] Hlive Hlen Hroom Hv. destruct (Hl Hlive) as [? Hd Hu ? ? ? Hch].
  eapply conn_ok_view; [exact Hv|].
  assert (Hlen' : outgoing_len (s <| cn_outgoing := cn_outgoing s' |>) = outgoing_len s + 1) by exact Hlen.
  split; [|by intros|intros _; cbn; by rewrite Hd|done|done].
  intros _. split; rewrite ?Hlen'; try done; [cbn; lia|].
  unfold channel_ok in *. rewrite Hlen'. destruct Hch as [(? & ? & ?)|(? & ? & _)]; [left|right]; split_and!; try done;
    [lia|right; set_solver].
Qed.

Lemma schedule_ok e conn frame force asap : pres (conns_ok e) (schedule conn frame force asap).
Proof.
  intros c Hc. unfold schedule, bind at 1, get_conn, gets.
  destruct (cr_conns c !! conn) as [s|] eqn:Hs; [|done].
  destruct (cn_living s) eqn:Hlive; [|done]. cbn [negb].
  destruct (outgoing_queue_full s && _) eqn:Hfull; [done|].
  unfold bind at 1. cbn [Tracker_new]. unfold bind.
  set (c1 := c <| cr_next_tracker := _ |> <| cr_trackers ::= _ |>).
  match goal with |- context [mod_conn conn ?f c1] => assert (Hc2 : conns_ok (stall conn e) (mod_conn conn f c1).2) end.
  { eapply mod_conn_ok; [by eapply conns_ok_conns; [|exact Hc]|apply stall_others|].
    intros s' Hs' Hok. change (cr_conns c1) with (cr_conns c) in Hs'. rewrite Hs in Hs'. injection Hs' as <-.
    eapply queue_grows; [done|done| | |reflexivity].
    - unfold outgoing_len. simpl. destruct asap; [destruct (cn_out s), (cn_outgoing s)|]; simpl; rewrite ?length_app; simpl; lia.
    - unfold outgoing_queue_full in Hfull. rewrite andb_false_iff, orb_false_iff, Z.leb_gt in Hfull.
      pose proof (lo_max _ _ _ (co_live _ _ _ Hok Hlive)). unfold FORCED_FRAMES_PAST_FULL_QUEUE in *. lia. }
  destruct (mod_conn conn _ c1) as [[] c2]. apply process_send_queue_ok in Hc2. revert Hc2. cbn [snd].
  by destruct (process_send_queue conn c2) as [[] c3].
Qed.

Lemma take_over_ok e conn entry : pres (conns_ok e) (take_over conn entry).
Proof.
  intros c Hc. unfold take_over, bind at 1, get_conn, gets.
  destruct (cr_conns c !! conn) as [s|] eqn:Hs; [|done].
  destruct (negb (cn_living s) || outgoing_queue_full s) eqn:Hfull; [done|].
  rewrite orb_false_iff, negb_false_iff in Hfull. destruct Hfull as [Hlive Hfull].
  unfold bind.
  match goal with |- context [mod_conn conn ?f c] => assert (Hc2 : conns_ok (stall conn e) (mod_conn conn f c).2) end.
  { eapply mod_conn_ok; [done|apply stall_others|].
    intros s' Hs' Hok. rewrite Hs in Hs'. injection Hs' as <-.
    eapply queue_grows; [done|done| | |reflexivity].
    - unfold outgoing_len. simpl. rewrite length_app. simpl. lia.
    - unfold outgoing_queue_full in Hfull. rewrite Z.leb_gt in Hfull. unfold FORCED_FRAMES_PAST_FULL_QUEUE in *. lia. }
  destruct (mod_conn conn _ c) as [[] c2]. apply process_send_queue_ok in Hc2. revert Hc2. cbn [snd].
  by destruct (process_send_queue conn c2) as [[] c3].
Qed.

Section Stable.
Context {E : Env} (e : Ex).

#[local] Hint Resolve schedule_ok take_over_ok : pres.
#[local] Hint Extern 1 (Quiet _) => exact _ : pres.
#[local] Hint Extern 1 (Placing _) => exact _ : pres.
#[local] Hint Extern 1 (pres (conns_ok _) (modify _)) => (intros ? ?; done) : pres.

(** The outbox's own bookkeeping is nothing to the connections. *)
Lemma mod_outbox_ok f : pres (conns_ok e) (mod_outbox f).
Proof. by intros c Hc. Qed.
#[local] Hint Resolve mod_outbox_ok : pres.

Lemma store_ok waiting : pres (conns_ok e) (store waiting).
Proof. intros c Hc. unfold store. destruct (Outbox_store _ _). by eapply conns_ok_conns. Qed.
Lemma mod_waiting_ok key f : pres (conns_ok e) (mod_waiting key f).
Proof. apply mod_outbox_ok. Qed.
Lemma release_ok key : pres (conns_ok e) (release key).
Proof. apply mod_outbox_ok. Qed.
Lemma mod_backlog_ok conn f : pres (conns_ok e) (mod_backlog conn f).
Proof. apply mod_outbox_ok. Qed.
Lemma wait_flushes_ok number copies : pres (conns_ok e) (wait_flushes number copies).
Proof. apply mod_outbox_ok. Qed.
#[local] Hint Resolve store_ok mod_waiting_ok release_ok mod_backlog_ok wait_flushes_ok : pres.

Lemma held_left_ok : pres (conns_ok e) held_left.
Proof. unfold held_left. pres_tac. Qed.
#[local] Hint Resolve held_left_ok : pres.
Lemma drop_expired_ok key : pres (conns_ok e) (drop_expired key).
Proof. unfold drop_expired. pres_tac. Qed.
Lemma remove_backlog_ok conn : pres (conns_ok e) (remove_backlog conn).
Proof. apply mod_outbox_ok. Qed.
#[local] Hint Resolve drop_expired_ok remove_backlog_ok : pres.
Lemma expire_turn_ok : pres (conns_ok e) expire_turn.
Proof. unfold expire_turn. pres_tac. Qed.
Lemma hold_ok frame tracker number deadline all lane : pres (conns_ok e) (hold frame tracker number deadline all lane).
Proof. unfold hold. pres_tac. Qed.
Lemma place_on_ok callers conn frame tracker number deadline copy lane :
  pres (conns_ok e) (place_on callers conn frame tracker number deadline copy lane).
Proof. unfold place_on. pres_tac. Qed.
Lemma lose_ok key : pres (conns_ok e) (lose key).
Proof. unfold lose. pres_tac. Qed.
Lemma rehold_ok key all : pres (conns_ok e) (rehold key all).
Proof. unfold rehold. pres_tac. Qed.
#[local] Hint Resolve expire_turn_ok hold_ok place_on_ok lose_ok rehold_ok : pres.
Lemma supersede_ok tracker : pres (conns_ok e) (supersede tracker).
Proof. unfold supersede. pres_tac. Qed.
Lemma place_held_turn_ok : pres (conns_ok e) place_held_turn.
Proof. unfold place_held_turn, place_now, place_all. pres_tac. Qed.
Lemma has_room_turn_ok conn : pres (conns_ok e) (has_room_turn conn).
Proof. unfold has_room_turn. pres_tac. Qed.
#[local] Hint Resolve supersede_ok place_held_turn_ok has_room_turn_ok : pres.
Lemma replace_one_ok conn shuts_down key : pres (conns_ok e) (replace_one conn shuts_down key).
Proof. unfold replace_one. pres_tac. Qed.
Lemma drop_one_ok key : pres (conns_ok e) (drop_one key).
Proof. unfold drop_one. pres_tac. Qed.
#[local] Hint Resolve replace_one_ok drop_one_ok : pres.

#[export] Instance conns_placing : Placing (conns_ok e).
Proof. split; [exact _|]. by eauto with pres nocore. Qed.

#[export] Instance conns_stable : Stable (conns_ok e).
Proof.
  split; try exact _; try (by eauto with pres nocore).
  - intros tracker. unfold drop_held. pres_tac.
  - unfold place_held. pres_tac.
  - intros conn. unfold outgoing_queue_has_room. pres_tac.
  - intros conn. unfold replace_displaced. pres_tac.
  - unfold drop_outbox. pres_tac.
  - intros lost done_. unfold open_flush. pres_tac.
Qed.

#[export] Instance conns_displacing : Displacing (conns_ok e).
Proof. split; [exact _|]. by eauto with pres nocore. Qed.

Lemma expire_ok : pres (conns_ok e) expire.
Proof. unfold expire. pres_tac. Qed.
End Stable.

(** ** The end of a connection *)

(** [conn] is shutting down: it has said so, and is dead for good. *)
Definition shut (conn : Z) (e : Ex) : Ex :=
  e <| ex_closing ::= fun s => {[conn]} ∪ s |> <| ex_dead ::= fun s => {[conn]} ∪ s |>.

(** [conn] stays dead, and started, until the operation ends. *)
Definition fades (conn : Z) (e : Ex) : Ex :=
  e <| ex_dead ::= fun s => {[conn]} ∪ s |> <| ex_started ::= fun s => {[conn]} ∪ s |>.

Lemma ex_others_sets conn e e' :
  (forall conn', conn' <> conn -> (conn' ∈ ex_closing e <-> conn' ∈ ex_closing e')
     /\ (conn' ∈ ex_dead e <-> conn' ∈ ex_dead e') /\ (conn' ∈ ex_stalled e <-> conn' ∈ ex_stalled e')
     /\ (conn' ∈ ex_started e <-> conn' ∈ ex_started e')) ->
  ex_others conn e e'.
Proof.
  intros Hs conn' s Hne [Hl Hf Hcl Hdn Hcd]. destruct (Hs conn' Hne) as (H1 & H2 & H3 & H4). split.
  - intros H. destruct (Hl H) as [? ? ? ? ? ? Hch]. split; try done; [by rewrite <- H2|].
    unfold channel_ok in *. by rewrite <- H3.
  - intros H. destruct (Hf H). split; try done. by rewrite <- H4.
  - by rewrite <- H1.
  - by rewrite <- H1.
  - done.
Qed.

Lemma shut_others conn e : ex_others conn e (shut conn e) /\ ex_others conn (shut conn e) e.
Proof. split; apply ex_others_sets; set_solver. Qed.
Lemma fades_others conn e : ex_others conn e (fades conn e) /\ ex_others conn (fades conn e) e.
Proof. split; apply ex_others_sets; set_solver. Qed.

Lemma shut_dead conn e : conn ∈ ex_dead (shut conn e).
Proof. set_solver. Qed.
Lemma shut_closing conn e : conn ∈ ex_closing (shut conn e).
Proof. set_solver. Qed.
Lemma fades_dead conn e : conn ∈ ex_dead (fades conn e).
Proof. set_solver. Qed.
Lemma fades_started conn e : conn ∈ ex_started (fades conn e).
Proof. set_solver. Qed.

Lemma dead_not_living e conn s : conn ∈ ex_dead e -> conn_ok e conn s -> cn_living s = false.
Proof. intros Hd [Hl _ _ _ _]. destruct (cn_living s) eqn:H; [|done]. by destruct (Hl eq_refl). Qed.

Section Closing.
Context {E : Env} {P : Program}.

#[local] Hint Extern 1 (Quiet _) => exact _ : pres.
#[local] Hint Extern 1 (Placing _) => exact _ : pres.
#[local] Hint Extern 1 (Stable _) => exact _ : pres.
#[local] Hint Extern 1 (Displacing _) => exact _ : pres.

Lemma unregister_ok e conn : pres (conns_ok e) (unregister_connection conn).
Proof. apply unregister_connection_pres. exact _. Qed.

Lemma tell_client_gone_ok e conn :
  conn ∈ ex_dead e -> conn ∈ ex_closing e \/ conn ∈ ex_started e -> pres (conns_ok e) (tell_client_gone conn).
Proof.
  intros Hdead Hwhy. unfold tell_client_gone. pres_tac. intros c' Hc'.
  eapply mod_conn_ok; [done|apply ex_others_refl|]. intros s' _ Hok.
  pose proof (dead_not_living _ _ _ Hdead Hok) as Hlive. destruct Hok as [Hl Hf Hcl Hdn Hcd].
  split; [|intros Hu; destruct (Hf Hu); split; try done; simpl|done|done|done].
  - simpl. by rewrite Hlive.
  - destruct Hwhy as [Hw|Hw]; [by rewrite (Hdn Hw)|done].
Qed.

Lemma orphan_ok e conn : conn ∈ ex_dead e -> pres (conns_ok e) (orphan_outgoing_messages conn).
Proof.
  intros Hdead. unfold orphan_outgoing_messages. pres_tac. intros c' Hc'.
  eapply mod_conn_ok; [done|apply ex_others_refl|]. intros s' _ Hok.
  pose proof (dead_not_living _ _ _ Hdead Hok) as Hlive. destruct Hok as [Hl Hf Hcl Hdn Hcd].
  split; [|intros Hu; destruct (Hf Hu); by split|done|done|done]. simpl. by rewrite Hlive.
Qed.

(** [conns_ok] but for whether [conn] is live. *)
Definition muted (e : Ex) (conn : Z) (c : Core) : Prop :=
  forall conn' s, cr_conns c !! conn' = Some s -> conn_ok e conn' (if decide (conn' = conn) then set_living false s else s).

Lemma conns_ok_muted e conn c : conns_ok e c -> muted e conn c.
Proof.
  intros Hc conn' s Hs. destruct (Hc _ _ Hs) as [Hl Hf Hcl Hdn Hcd]. destruct (decide (conn' = conn)); [|by split].
  split; [done|intros Hu; by destruct (Hf Hu)|done|done|done].
Qed.

(** A change that leaves [conn] dead. *)
Lemma mod_muted e e' conn f c :
  muted e conn c -> ex_others conn e e' ->
  (forall s, conn_ok e conn (set_living false s) -> conn_ok e' conn (f s)) ->
  conns_ok e' (mod_conn conn f c).2.
Proof.
  intros Hc He Hf conn' s'. simpl. destruct (decide (conn' = conn)) as [->|Hne].
  - rewrite lookup_alter_eq. destruct (cr_conns c !! conn) as [s|] eqn:Hs; [|done].
    intros [= <-]. apply Hf. specialize (Hc _ _ Hs). by rewrite decide_True in Hc.
  - rewrite lookup_alter_ne by done. intros Hs. apply He; [done|]. specialize (Hc _ _ Hs). by rewrite decide_False in Hc.
Qed.

Lemma forget_if_finished_ok e conn : leads (conns_ok (shut conn e)) (conns_ok e) (forget_if_finished conn).
Proof.
  intros c Hc. unfold forget_if_finished, modify. cbn [snd].
  assert (Hothers : forall conn' s, conn' <> conn -> cr_conns c !! conn' = Some s -> conn_ok e conn' s).
  { intros conn' s Hne Hs. apply (proj2 (shut_others conn e)); [done|]. by apply Hc. }
  destruct (cr_conns c !! conn) as [s|] eqn:Hs.
  2:{ intros conn' s' Hs'. apply Hothers; [|done]. intros ->. congruence. }
  destruct (finished s) eqn:Hfin; intros conn' s'; simpl.
  { intros [Hne Hs']%lookup_delete_Some. by apply Hothers. }
  intros Hs'. destruct (decide (conn' = conn)) as [->|]; [|by apply Hothers]. rewrite Hs in Hs'. injection Hs' as <-.
  pose proof (Hc _ _ Hs) as Hok. pose proof (dead_not_living _ _ _ (shut_dead conn e) Hok) as Hlive.
  destruct Hok as [Hl Hf Hcl Hdn Hcd]. unfold finished in Hfin. rewrite Hdn in Hfin by apply shut_closing.
  split; [by rewrite Hlive|intros Hu; by destruct (Hf Hu)| |intros _; apply Hdn, shut_closing|done].
  intros Hcon _. exfalso. destruct (Hf (or_introl Hcon)) as [? ? ? Hfl ? ?]. by rewrite Hfl in Hfin.
Qed.

(** The connection as its shutdown leaves it once the client heard. *)
Lemma shut_down_mod_ok e conn s :
  conn ∈ ex_dead e -> conn ∈ ex_closing e -> conn_ok e conn s ->
  conn_ok e conn (s <| cn_registered := false |> <| cn_outgoing_max := 0 |> <| cn_reading := false |> <| cn_out := Broken |>).
Proof.
  intros Hdead Hclosing Hok. pose proof (dead_not_living _ _ _ Hdead Hok) as Hlive. destruct Hok as [Hl Hf Hcl Hdn Hcd].
  split; [simpl; by rewrite Hlive|intros Hu; destruct (Hf Hu); split; try done; simpl; by rewrite Hdn|done|done|done].
Qed.

Lemma shutdown_ok e conn c :
  muted e conn c -> (forall s, cr_conns c !! conn = Some s -> cn_shuts_down s = true -> conns_ok e c) ->
  conns_ok e (shutdown_connection conn c).2.
Proof.
  intros Hm Hdown. unfold shutdown_connection, bind at 1, get_conn at 1, gets at 1.
  destruct (cr_conns c !! conn) as [s|] eqn:Hs.
  2:{ intros conn' s' Hs'. cbn [ret snd] in Hs'. specialize (Hm _ _ Hs'). rewrite decide_False in Hm by (intros ->; congruence). done. }
  destruct (cn_shuts_down s) eqn:Hsd; [by apply (Hdown s)|].
  unfold bind at 1.
  match goal with |- context [mod_conn conn ?f c] => assert (Hc1 : conns_ok (shut conn e) (mod_conn conn f c).2) end.
  { apply (mod_muted e); [done|apply shut_others|]. intros s' [Hl Hf Hcl Hdn Hcd].
    split; [done|intros Hu; destruct (Hf Hu); by split|intros; apply shut_closing|done|done]. }
  destruct (mod_conn conn _ c) as [[] c1]. cbn [snd] in Hc1.
  refine (leads_then (conns_ok (shut conn e)) (conns_ok e) _ _ _ _ _ _ c1 Hc1); [pres_tac|intros _].
  apply leads_then; [apply tell_client_gone_ok; [apply shut_dead|left; apply shut_closing]|intros _].
  apply leads_gets. intros state. destruct state as [s2|].
  2:{ apply leads_ret. intros c2 [Hc2 Hnone]. eapply conns_ok_others; [apply shut_others| |done]. congruence. }
  apply (leads_weaken _ (conns_ok (shut conn e)) _ (conns_ok e)); [by intros c2 [? _]|done|].
  apply leads_then; [|intros _].
  { intros c2 Hc2. eapply mod_conn_ok; [done|apply ex_others_refl|]. intros s' _.
    apply shut_down_mod_ok; [apply shut_dead|apply shut_closing]. }
  do 3 (apply leads_then; [pres_tac|intros ?]).
  apply leads_then; [apply st_conn; done|intros _].
  apply leads_then; [pres_tac|intros _].
  apply leads_then; [apply orphan_ok, shut_dead|intros _].
  apply leads_then; [pres_tac|intros _]. apply forget_if_finished_ok.
Qed.

Lemma fades_weaken e conn c : conns_ok (fades conn e) c -> conns_ok e c.
Proof.
  intros Hc. eapply conns_ok_others; [apply fades_others| |exact Hc]. intros s _ Hok.
  pose proof (dead_not_living _ _ _ (fades_dead conn e) Hok) as Hlive. destruct Hok as [Hl Hf Hcl Hdn Hcd].
  split; [by rewrite Hlive| |done|done|done]. intros Hu. destruct (Hf Hu) as [Hst ? ? ? ? ?]. destruct Hst. apply fades_started.
Qed.

Lemma read_to_the_end_ok e conn bound deliver c :
  muted e conn c -> (forall s, cr_conns c !! conn = Some s -> ~ unstarted s) ->
  conns_ok e (read_to_the_end conn bound deliver c).2.
Proof.
  intros Hm Hst. apply (fades_weaken _ conn). unfold read_to_the_end, bind at 1 2, get_conn at 1, gets at 1.
  cbn [get_now gets]. destruct (cr_conns c !! conn) as [s|] eqn:Hs.
  2:{ intros conn' s' Hs'. cbn [ret snd] in Hs'. assert (Hne : conn' <> conn) by (intros ->; congruence).
      apply fades_others; [done|]. specialize (Hm _ _ Hs'). by rewrite decide_False in Hm. }
  unfold bind at 1.
  match goal with |- context [mod_conn conn ?f c] => assert (Hc1 : conns_ok (fades conn e) (mod_conn conn f c).2) end.
  { intros conn' s'. simpl. destruct (decide (conn' = conn)) as [->|Hne].
    - rewrite lookup_alter_eq, Hs. intros [= <-]. specialize (Hm _ _ Hs). rewrite decide_True in Hm by done.
      destruct Hm as [Hl Hf Hcl Hdn Hcd]. split; [done|intros Hu; by destruct (Hst s)|done|done|done].
    - rewrite lookup_alter_ne by done. intros Hs'. apply fades_others; [done|].
      specialize (Hm _ _ Hs'). by rewrite decide_False in Hm. }
  destruct (mod_conn conn _ c) as [[] c1]. cbn [snd] in Hc1. revert c1 Hc1.
  match goal with |- forall c1, conns_ok ?e' c1 -> conns_ok ?e' (?m c1).2 => change (pres (conns_ok e') m) end.
  apply pres_bind; [apply tell_client_gone_ok; [apply fades_dead|right; apply fades_started]|intros _].
  apply pres_bind; [apply orphan_ok, fades_dead|intros _]. pres_tac. by apply st_conn.
Qed.

Lemma muted_started e conn c s :
  muted e conn c -> cr_conns c !! conn = Some s -> cn_registered s = true -> ~ unstarted s.
Proof.
  intros Hm Hs Hr Hu. specialize (Hm _ _ Hs). rewrite decide_True in Hm by done.
  destruct Hm as [_ Hf _ _ _]. destruct (Hf Hu) as [? ? Hreg ? ? ?]. simpl in Hreg. congruence.
Qed.

Lemma write_failed_ok e conn c :
  muted e conn c ->
  (forall s, cr_conns c !! conn = Some s -> cn_shuts_down s = true \/ cn_told_gone s = true -> conns_ok e c) ->
  conns_ok e (write_failed conn c).2.
Proof.
  intros Hm Hover. unfold write_failed, bind at 1, get_conn, gets.
  destruct (cr_conns c !! conn) as [s|] eqn:Hs.
  2:{ intros conn' s' Hs'. cbn [ret snd] in Hs'. specialize (Hm _ _ Hs').
      rewrite decide_False in Hm by (intros ->; congruence). done. }
  destruct (cn_shuts_down s || cn_told_gone s) eqn:Ho; [apply (Hover s eq_refl); by apply orb_true_iff|].
  apply orb_false_iff in Ho as [Hd Hg].
  destruct (cn_registered s) eqn:Hr; cbn [negb].
  - apply read_to_the_end_ok; [done|]. intros s' Hs'. rewrite Hs in Hs'. injection Hs' as <-. by eapply muted_started.
  - apply shutdown_ok; [done|]. intros s' Hs' Hd'. rewrite Hs in Hs'. injection Hs' as <-. congruence.
Qed.

Lemma close_gracefully_ok e conn bound : pres (conns_ok e) (close_gracefully conn bound).
Proof.
  intros c Hc. pose proof (conns_ok_muted e conn c Hc) as Hm. unfold close_gracefully, bind at 1, get_conn, gets.
  destruct (cr_conns c !! conn) as [s|] eqn:Hs; [|done].
  destruct (cn_shuts_down s || cn_told_gone s); [done|].
  destruct (cn_registered s) eqn:Hr; cbn [negb]; unfold bind.
  - pose proof (read_to_the_end_ok e conn bound false c Hm) as H.
    destruct (read_to_the_end conn bound false c) as [[] c']. apply H.
    intros s' Hs'. rewrite Hs in Hs'. injection Hs' as <-. by eapply muted_started.
  - pose proof (shutdown_ok e conn c Hm) as H. destruct (shutdown_connection conn c) as [[] c']. by apply H.
Qed.

#[export] Instance conns_closing e : Closing (conns_ok e).
Proof.
  split; [exact _|intros conn c Hc|apply close_gracefully_ok|apply expire_ok]. apply shutdown_ok; [by apply conns_ok_muted|done].
Qed.
#[local] Hint Extern 1 (Closing _) => exact _ : pres.

Lemma forget_pres e conn : pres (conns_ok e) (forget_if_finished conn).
Proof.
  intros c Hc conn' s'. unfold forget_if_finished, modify. simpl. repeat case_match; simpl; [|apply Hc|apply Hc].
  intros [_ Hs']%lookup_delete_Some. by apply Hc.
Qed.

(** ** The end of a write *)

(** A written front leaves, and the next write starts. *)
Lemma write_ended_ok e conn was_full tracker :
  leads (conns_ok (stall conn e)) (conns_ok e) (write_ended conn was_full tracker).
Proof.
  unfold write_ended. apply leads_then; [pres_tac|intros ?]. apply leads_then; [pres_tac|intros _].
  apply leads_then; [pres_tac|intros _]. apply (leads_bind _ (conns_ok e)); [intros c Hc; by apply process_send_queue_ok|].
  intros _.
  match goal with |- leads ?I ?I ?m => change (pres I m) end.
  pres_tac. by apply st_conn.
Qed.

Lemma front_leaves_ok e conn s front rest :
  conn_ok e conn s -> cn_outgoing s = front :: rest ->
  conn_ok (stall conn e) conn (s <| cn_write_in_flight := false |> <| cn_out := Free |> <| cn_outgoing := rest |>).
Proof.
  intros [Hl Hf Hcl Hdn Hcd] Hq.
  assert (Hlen : outgoing_len s = Z.of_nat (length rest) + 1) by (unfold outgoing_len; rewrite Hq; simpl; lia).
  split; [|intros Hu; destruct (Hf Hu); lia|done|done|done]. intros Hlive. destruct (Hl Hlive) as [? ? ? ? ? ? Hch].
  split; try done; [unfold outgoing_len at 1; simpl; lia|]. right. split_and!; [done|done|right; set_solver].
Qed.

Lemma on_write_done_ok e conn written failed : pres (conns_ok e) (on_write_done conn written failed).
Proof.
  intros c Hc. unfold on_write_done, bind at 1, get_conn, gets.
  destruct (cr_conns c !! conn) as [s|] eqn:Hs; [|done]. pose proof (Hc _ _ Hs) as Hok.
  unfold bind at 1. set (f := fun s : Conn => s <| cn_write_in_flight := false |>).
  assert (Hquiet : forall s, cn_living s = false -> conn_ok e conn s -> conn_ok e conn (f s)).
  { intros s' Hl [? Hf ? ? ?]. split; [simpl; by rewrite Hl|intros Hu; destruct (Hf Hu); by split|done|done|done]. }
  assert (Hdead : cn_living s = false -> conns_ok e (mod_conn conn f c).2).
  { intros Hl. eapply mod_conn_ok; [done|apply ex_others_refl|]. intros s' Hs'. rewrite Hs in Hs'.
    injection Hs' as <-. by apply Hquiet. }
  assert (Hm : muted e conn (mod_conn conn f c).2).
  { intros conn' s'. simpl. destruct (decide (conn' = conn)) as [->|Hne].
    - rewrite lookup_alter_eq, Hs. intros [= <-]. apply (Hquiet (set_living false s)); [done|].
      pose proof (conns_ok_muted e conn c Hc conn s Hs) as Hmu. by rewrite decide_True in Hmu.
    - rewrite lookup_alter_ne by done. apply Hc. }
  assert (Hs1 : cr_conns (mod_conn conn f c).2 !! conn = Some (f s)) by (simpl; by rewrite lookup_alter_eq, Hs).
  case_bool_decide as Hout.
  - assert (Hlive : cn_living s = false).
    { destruct (cn_living s) eqn:Hl; [|done]. destruct Hok as [Hlo _ _ _ _]. destruct (Hlo Hl) as [? ? ? ? ? ? Hch].
      destruct Hch as [(? & _)|(? & _)]; congruence. }
    specialize (Hdead Hlive). destruct (mod_conn conn f c) as [[] c1]. cbn [snd] in Hdead.
    refine (pres_bind (conns_ok e) _ _ _ _ _ _ c1 Hdead); [pres_tac|intros _; apply forget_pres].
  - destruct (failed || (written =? 0) || negb _) eqn:Hfail.
    + destruct (mod_conn conn f c) as [[] c1]. cbn [snd] in *. apply write_failed_ok; [done|].
      intros s' Hs' Hover. rewrite Hs1 in Hs'. injection Hs' as <-. apply Hdead.
      destruct (cn_living s) eqn:Hl; [|done]. destruct Hok as [Hlo _ _ _ _]. destruct (Hlo Hl). simpl in Hover.
      destruct Hover; congruence.
    + destruct (cn_outgoing s) as [|[tracker front] rest] eqn:Hq; [by rewrite !orb_true_r in Hfail|].
      unfold bind. apply write_ended_ok. intros conn' s'. simpl. destruct (decide (conn' = conn)) as [->|Hne].
      * rewrite !lookup_alter_eq, Hs. intros [= <-]. by eapply (front_leaves_ok e conn s).
      * rewrite !lookup_alter_ne by done. intros Hs'. apply stall_others; [done|]. by apply Hc.
Qed.

(** ** The start of a connection *)

(** Nothing was ever read, written or queued on it, and it is not shut down. *)
Record idle (s : Conn) : Prop := {
  id_living : cn_living s = false;
  id_down : cn_shuts_down s = false;
  id_reading : cn_reading s = false;
  id_registered : cn_registered s = false;
  id_in_flight : cn_write_in_flight s = false;
  id_queue : outgoing_len s = 0;
  id_out : cn_out s = Free;
  id_max : cn_outgoing_max s = 1;
  id_gone : cn_told_gone s = false;
}.

Lemma unstarted_idle e conn s : conn_ok e conn s -> unstarted s -> cn_shuts_down s = false -> idle s.
Proof.
  intros [Hl Hf _ _ _] Hu Hd. destruct (Hf Hu) as [? ? ? ? ? Hst]. destruct (Hst Hd) as (? & ? & ?).
  split; try done. destruct (cn_living s) eqn:Hlive; [|done]. by destruct (Hl eq_refl).
Qed.

Lemma idle_unstarted conn s :
  idle s -> (cn_connecting s = true -> cn_candidates s <> []) -> conn_ok no_ex conn s.
Proof.
  intros [H1 H2 ? ? ? ? ? ? ?] Hc. split; [congruence|intros _; split; try done|congruence| |done].
  intros H. by apply elem_of_empty in H.
Qed.

Lemma try_next_ok conn c :
  conns_ok no_ex c -> (forall s, cr_conns c !! conn = Some s -> idle s) ->
  conns_ok no_ex (try_next_candidate conn c).2.
Proof.
  intros Hc Hi. unfold try_next_candidate, bind at 1 2, get_now, get_conn, gets.
  destruct (cr_conns c !! conn) as [s|] eqn:Hs; [|done]. specialize (Hi s eq_refl).
  destruct (cn_candidates s !! _) as [address|] eqn:Ha; [|by apply st_shutdown].
  assert (Hne : cn_candidates s <> []) by (intros Hn; by rewrite Hn in Ha).
  unfold bind at 1. destruct (rearm _ _ _ c) as [slot c1] eqn:Hr.
  assert (H1 : cr_conns c1 = cr_conns c) by (unfold rearm in Hr; repeat case_match; by simplify_eq).
  apply (pres_bind_2 (conns_ok no_ex)); [|intros _; apply any_action_pres; exact _]. intros conn' s'.
  destruct (decide (conn' = conn)) as [->|Hn]; [|rewrite mod_conn_ne, H1 by done; apply Hc].
  rewrite mod_conn_eq, H1, Hs. intros [= <-]. apply idle_unstarted; [|done]. destruct Hi. by split.
Qed.

Lemma on_resolved_ok conn candidates c :
  conns_ok no_ex c -> (forall s, cr_conns c !! conn = Some s -> cn_candidates s = []) ->
  conns_ok no_ex (on_resolved conn candidates c).2.
Proof.
  intros Hc Hn. unfold on_resolved, bind at 1, get_conn, gets. destruct (cr_conns c !! conn) as [s|] eqn:Hs; [|done].
  destruct (cn_shuts_down s) eqn:Hd; [done|]. destruct candidates as [|address candidates]; [by apply st_shutdown|].
  pose proof (unstarted_idle _ _ _ (Hc _ _ Hs) (or_intror (Hn s eq_refl)) Hd) as Hi.
  rewrite bind_tt. apply try_next_ok.
  - eapply mod_conn_ok; [done|apply ex_others_refl|]. intros s' Hs' _. rewrite Hs in Hs'. injection Hs' as <-.
    destruct Hi. apply idle_unstarted; [by split|done].
  - intros s'. rewrite mod_conn_eq, Hs. intros [= <-]. destruct Hi. by split.
Qed.

Lemma welcome_frame_conns c : cr_conns (welcome_frame c).2 = cr_conns c.
Proof. unfold welcome_frame, bind, gets, new_ref, mod_client, modify, ret. by repeat case_match. Qed.

(** A socket opened: the connection lives. *)
Lemma started_ok conn s c c1 :
  conns_ok no_ex c -> cr_conns c !! conn = Some s -> idle s -> cn_connecting s = false -> cn_candidates s <> [] ->
  cr_conns c1 = cr_conns c -> conns_ok no_ex (mod_conn conn (fun s => (set_living true s) <| cn_reading := true |>) c1).2.
Proof.
  intros Hc Hs [? ? ? ? ? ? ? ? ?] Hcon Hcand Hw conn' s'.
  destruct (decide (conn' = conn)) as [->|Hn]; [|rewrite mod_conn_ne, Hw by done; apply Hc].
  rewrite mod_conn_eq, Hw, Hs. intros [= <-].
  assert (Hns : ~ unstarted s) by (intros [?|?]; congruence).
  split; [intros _|by intros|simpl; congruence|intros H'; by apply elem_of_empty in H'|done].
  split; try done; simpl.
  - rewrite id_max0. vm_compute. done.
  - change (outgoing_len s <= cn_outgoing_max s + FORCED_FRAMES_PAST_FULL_QUEUE). rewrite id_queue0, id_max0. vm_compute. done.
  - right. split_and!; [done|done|by left].
Qed.

Lemma start_connection_ok conn c :
  conns_ok no_ex c ->
  (forall s, cr_conns c !! conn = Some s -> idle s /\ cn_connecting s = false /\ cn_candidates s <> []) ->
  conns_ok no_ex (start_connection conn c).2.
Proof.
  intros Hc Hi. unfold start_connection, bind at 1. pose proof (welcome_frame_conns c) as Hw.
  destruct (welcome_frame c) as [welcome c1]. cbn [snd] in Hw. unfold bind at 1, get_conn, gets.
  rewrite Hw. destruct (cr_conns c !! conn) as [s|] eqn:Hs; [|by eapply conns_ok_conns].
  destruct (Hi s eq_refl) as (Hid & Hcon & Hcand). rewrite bind_tt.
  pose proof (started_ok conn s c c1 Hc Hs Hid Hcon Hcand Hw) as Hc1. revert Hc1.
  match goal with |- conns_ok _ ?c2 -> _ => generalize c2 end.
  match goal with |- forall c2, conns_ok ?e' c2 -> conns_ok ?e' (?m c2).2 => change (pres (conns_ok e') m) end.
  pres_tac.
Qed.

Lemma connected_ok conn ok c :
  conns_ok no_ex c -> (forall s, cr_conns c !! conn = Some s -> cn_connecting s = true) ->
  conns_ok no_ex (connected conn ok c).2.
Proof.
  intros Hc Hcon. unfold connected, bind at 1 2, get_conn, gets.
  destruct (cr_conns c !! conn) as [s|] eqn:Hs; [|done]. specialize (Hcon s eq_refl).
  pose proof (Hc _ _ Hs) as Hok. assert (Hu : unstarted s) by (by left).
  assert (Hd : cn_shuts_down s = false).
  { destruct (cn_shuts_down s) eqn:Hd; [|done]. destruct Hok as [_ _ Hcl _ _]. by apply Hcl, elem_of_empty in Hcon. }
  pose proof (unstarted_idle _ _ _ Hok Hu Hd) as Hi. pose proof (co_candidates _ _ _ Hok Hcon) as Hcand.
  unfold bind at 1. destruct (cancel (cn_connect_deadline s) c) as [slot c1] eqn:Hr.
  assert (H1 : cr_conns c1 = cr_conns c) by (unfold cancel in Hr; repeat case_match; by simplify_eq).
  unfold bind at 1.
  match goal with |- context [mod_conn conn ?f c1] => set (f1 := f) end.
  assert (Hi1 : idle (f1 s)) by (destruct Hi; by split).
  assert (Hc2 : conns_ok no_ex (mod_conn conn f1 c1).2).
  { intros conn' s'.
    destruct (decide (conn' = conn)) as [->|Hn]; [|rewrite mod_conn_ne, H1 by done; apply Hc].
    rewrite mod_conn_eq, H1, Hs. intros [= <-]. by apply idle_unstarted. }
  assert (Hs2 : cr_conns (mod_conn conn f1 c1).2 !! conn = Some (f1 s)) by (by rewrite mod_conn_eq, H1, Hs).
  destruct (mod_conn conn f1 c1) as [[] c2]. cbn [snd] in *. destruct ok.
  - rewrite bind_tt. apply start_connection_ok.
    + by apply (st_conn conn).
    + intros s'. rewrite mod_conn_eq, Hs2. intros [= <-]. split_and!; [destruct Hi1; by split|done|done].
  - rewrite Hd. cbn [negb when]. apply try_next_ok; [done|]. intros s' Hs'. rewrite Hs2 in Hs'. by injection Hs' as <-.
Qed.

(** ** Registration *)

(** [conn] stays started until the operation ends. *)
Definition begun (conn : Z) (e : Ex) : Ex := e <| ex_started ::= fun s => {[conn]} ∪ s |>.

Lemma begun_others conn e : ex_others conn e (begun conn e) /\ ex_others conn (begun conn e) e.
Proof. split; apply ex_others_sets; set_solver. Qed.

Lemma begun_weaken conn e c : conns_ok (begun conn e) c -> conns_ok e c.
Proof.
  intros Hc. eapply conns_ok_others; [apply begun_others| |exact Hc]. intros s _ [Hl Hf Hcl Hdn Hcd].
  split; [intros H; by destruct (Hl H)|intros H; destruct (Hf H); split; try done; set_solver|done|done|done].
Qed.

Lemma begun_started conn e s : conn_ok (begun conn e) conn s -> ~ unstarted s.
Proof. intros [_ Hf _ _ _] Hu. destruct (Hf Hu) as [Hst _ _ _ _ _]. set_solver. Qed.

(** A change that keeps [conn] started and its channel as it is. *)
Lemma begun_mod_ok conn e f :
  (forall s, conn_ok (begun conn e) conn s -> cn_living (f s) = cn_living s /\ cn_shuts_down (f s) = cn_shuts_down s
     /\ cn_connecting (f s) = cn_connecting s /\ cn_candidates (f s) = cn_candidates s
     /\ (live_ok (begun conn e) conn s -> live_ok (begun conn e) conn (f s))) ->
  pres (conns_ok (begun conn e)) (mod_conn conn f).
Proof.
  intros Hf c Hc. eapply mod_conn_ok; [done|apply ex_others_refl|]. intros s _ Hok.
  destruct (Hf s Hok) as (H1 & H2 & H3 & H4 & H5). pose proof (begun_started _ _ _ Hok) as Hu.
  destruct Hok as [Hl _ Hcl Hdn Hcd]. split; rewrite ?H1, ?H2, ?H3, ?H4; auto.
  unfold unstarted in *. rewrite H3, H4. done.
Qed.

Lemma record_registration_ok conn id e : pres (conns_ok (begun conn e)) (record_registration conn id).
Proof.
  unfold record_registration. apply pres_bind; [by intros c Hc|intros _]. apply begun_mod_ok. intros s _.
  split_and!; try done. intros [? ? ? ? Hmax Hlen ?]. split; try done. unfold outgoing_len in *. simpl. lia.
Qed.
#[local] Hint Resolve record_registration_ok : pres.

Lemma register_connection_ok conn welcome e : pres (conns_ok (begun conn e)) (register_connection conn welcome).
Proof. unfold register_connection. pres_tac. Qed.
#[local] Hint Resolve register_connection_ok : pres.

Lemma receive_internal_ok conn message e : pres (conns_ok (begun conn e)) (receive_internal_message conn message).
Proof.
  unfold receive_internal_message. pres_tac; [by apply st_conn|].
  apply begun_mod_ok. intros s _. split_and!; try done. by intros [].
Qed.

(** A connection that is read from was started. *)
Lemma reading_begun conn e c s :
  conns_ok e c -> cr_conns c !! conn = Some s -> cn_reading s = true -> conns_ok (begun conn e) c.
Proof.
  intros Hc Hs Hr. eapply conns_ok_others; [apply (proj1 (begun_others conn e))| |exact Hc]. intros s' Hs' [Hl Hf Hcl Hdn Hcd].
  rewrite Hs in Hs'. injection Hs' as <-.
  split; [intros H; by destruct (Hl H)|intros H; destruct (Hf H); congruence|done|done|done].
Qed.

Lemma on_frame_ok conn body e : pres (conns_ok e) (on_frame conn body).
Proof.
  intros c Hc. unfold on_frame, bind at 1, get_conn, gets. destruct (cr_conns c !! conn) as [s|] eqn:Hs; [|done].
  destruct (negb (cn_reading s) || cn_shuts_down s) eqn:Hr; [done|].
  apply orb_false_iff in Hr as [Hr%negb_false_iff _]. apply (begun_weaken conn).
  generalize (reading_begun conn e c s Hc Hs Hr). generalize c.
  match goal with |- forall c, conns_ok ?e' c -> conns_ok ?e' (?m c).2 => change (pres (conns_ok e') m) end.
  pres_tac; [by apply st_conn|apply receive_internal_ok].
Qed.

(** ** New connections *)

Lemma Conn_new_idle target heartbit : idle (Conn_new target heartbit) /\ cn_connecting (Conn_new target heartbit) = false.
Proof. done. Qed.

(** A connection just made is idle. *)
Lemma add_conn_ok target :
  gives (conns_ok no_ex) (add_conn target)
    (fun conn c => conns_ok no_ex c /\ exists new, cr_conns c !! conn = Some new /\ idle new /\ cn_connecting new = false).
Proof.
  eapply gives_bind; [apply gives_pres, new_conn_id_pres; exact _|intros conn].
  eapply gives_bind; [apply gives_pres, heartbit_pres; exact _|intros h]. intros c Hc. rewrite bind_tt. cbn [ret fst snd].
  set (new := Conn_new target h). destruct (Conn_new_idle target h) as [Hi Hcon]. fold new in Hi, Hcon. split.
  - intros conn' s'. cbn [modify snd upd cr_conns]. destruct (decide (conn' = conn)) as [->|Hne].
    + rewrite lookup_insert_eq. intros [= <-]. apply idle_unstarted; [done|congruence].
    + rewrite lookup_insert_ne by done. apply Hc.
  - exists new. split; [apply lookup_insert_eq|]. split; [done|congruence].
Qed.

Lemma async_connect_ok host port : pres (conns_ok no_ex) (async_connect host port).
Proof.
  unfold async_connect. pres_step; [pres_tac|]. pres_step; [pres_tac|]. pres_step; [pres_tac|].
  pres_step; [pres_tac|]. pres_step; [pres_tac|]. pres_step; [pres_tac|].
  eapply leads_gives; [apply add_conn_ok|]. intros conn c (Hc & new & Hs & Hi & Hcon).
  rewrite !bind_tt. set (c1 := (mod_client _ _).2).
  assert (Hc1 : conns_ok no_ex c1) by done. assert (Hs1 : cr_conns c1 !! conn = Some new) by done.
  cbn [ret snd]. destruct (parse_ip _) as [address|]; [|apply resolve_and_start_pres; [exact _|done]].
  rewrite bind_tt. apply try_next_ok.
  - eapply mod_conn_ok; [done|apply ex_others_refl|]. intros s' Hs' _. rewrite Hs1 in Hs'. injection Hs' as <-.
    apply idle_unstarted; [|done]. destruct Hi. by split.
  - intros s'. rewrite mod_conn_eq, Hs1. intros [= <-]. destruct Hi. by split.
Qed.
#[local] Hint Resolve async_connect_ok : pres.

Lemma reconnect_ok number : pres (conns_ok no_ex) (reconnect_after_timeout number).
Proof. unfold reconnect_after_timeout. pres_tac. Qed.
Lemma start_connect_ok host port timeout done_ : pres (conns_ok no_ex) (start_connect host port timeout done_).
Proof. unfold start_connect. pres_tac. Qed.
#[local] Hint Resolve reconnect_ok : pres.

Lemma run_due_ok due : pres (conns_ok no_ex) (run_due due).
Proof. unfold run_due. pres_tac. Qed.
#[local] Hint Resolve run_due_ok : pres.

Lemma run_one_timer_ok : pres (conns_ok no_ex) run_one_timer.
Proof.
  unfold run_one_timer. pres_tac. apply pres_rest; [exact _|]. intros c. by destruct (take_due _ _).
Qed.
End Closing.
