(* ===== verification/System.v ===== *)
(** * System: a client's runs

    A run of a client's core: the driver hands it what became ready
    ([run_ready]), the class on top calls it ([run_call]), the clock moves, and
    the driver takes away the actions and the posted work.  [input_ok] is what
    the driver keeps to: it says how a connect ended of a connection that is
    connecting, and what a name resolved to once.  [reachable] are the states a
    client's run comes by, whatever the driver, the multiplexers and the program
    do; the theorems hold of all of them. *)
From S2P Require Import Prelude Words Defaults Frame SpanSet Timers Endpoint IpAddr LogSummary Records Ordered Messages.
From S2P Require Import CoreTypes CoreBase ConnQueue OutboxState ConfirmingState Placing Bodies Batching Confirming.
From S2P Require Import Sending Handover Query Connection Client Connect Run Concrete Stable StableRun ConnSpec.
Open Scope Z_scope.

(** What the synchronous and the threaded class call.  [CallLook] only reads; the last is the closure of a threaded
    client's setters, which do nothing once its shutdown began. *)
Inductive Call :=
| CallSend (frame : FrameIn) (all : bool) (lane : option Z) (timeout : option Z) (number : Z) (keeps : bool)
    (done : option SendDone) (may_batch : bool)
| CallSendPlain (plain : Plain) (timeout : option Z) (number : Z)
| CallPlaceSend (frame : FrameIn) (all : bool) (lane : option Z) (deadline : option Z) (wait : bool) (settled : option Z)
| CallStartQuery (prototype : MultiplexerMessage) (timeout : option Z) (lane : option Z) (done : Z) (received : option Z)
| CallFinish (query : Z) (outcome : Outcome)
| CallAsyncConnect (host : str) (port : Z)
| CallStartConnect (host : str) (port : Z) (timeout : option Z) (done : Z)
| CallDisconnect (host : str) (port : Z)
| CallSetRouting (routing : Routing) (acknowledged_cb : option Z)
| CallSetKeyFilters (filters : list (Z * list str)) (acknowledged_cb : option Z)
| CallSetDelivery (type : Z) (key : option str) (delivery : Delivery)
| CallClearDelivery (type : Z) (key : option str)
| CallBeginFlush (done : option FlushDone)
| CallBeginFlushAll (timeout : option Z) (done : Z)
| CallEndFlush (flush : Z)
| CallEndFollows
| CallDropHeld (tracker : Z)
| CallNextIncoming
| CallRefuseArrivals
| CallRefuseUnread
| CallConfirm (sender number : Z) (outcome : Confirmed)
| CallConfirmHanded (handed : list HandedConfirmation)
| CallSendConfirmations
| CallRunAcknowledged
| CallAcknowledgedByReceive
| CallTakeWake
| CallDropObserver (observed : bool)
| CallClosing
| CallRegisterInbox (queue : Z)
| CallRegisterSubscription (type queue : Z)
| CallShutdownClient
| CallBeginShutdown (timeout : option Z)
| CallRandom64
| CallTakeBody
| CallGiveBody (body : Vec8)
| CallLaneNew (pinned : bool)
| CallLaneSeeded (connection : Wrapper) (pinned : bool)
| CallBuilt (on_message search_policy confirms_itself : bool)
| CallConnectEach (parsed : list (str * Z)) (timeout : option Z) (done : Z)
| CallForgetFinishedIds
| CallLook
| CallUnlessShutDown (call : Call).

Section System.
Context {E : Env} {P : Program}.

(** [m], its answer left to the caller. *)
Definition void {A} (m : CM A) : CM unit := let* _ := m in ret tt.

Fixpoint run_call (call : Call) : CM unit :=
  match call with
  | CallSend frame all lane timeout number keeps done may_batch =>
      void (send frame all lane timeout number keeps done may_batch)
  | CallSendPlain plain timeout number => void (send_plain plain timeout number)
  | CallPlaceSend frame all lane deadline wait settled => place_send frame all lane deadline wait settled
  | CallStartQuery prototype timeout lane done received => void (start_query prototype timeout lane done received)
  | CallFinish query outcome => finish query outcome
  | CallAsyncConnect host port => void (async_connect host port)
  | CallStartConnect host port timeout done => start_connect host port timeout done
  | CallDisconnect host port => void (disconnect host port)
  | CallSetRouting routing acknowledged_cb => set_routing routing acknowledged_cb
  | CallSetKeyFilters filters acknowledged_cb => void (set_key_filters filters acknowledged_cb)
  | CallSetDelivery type key delivery => void (set_delivery type key delivery)
  | CallClearDelivery type key => clear_delivery type key
  | CallBeginFlush done => void (begin_flush done)
  | CallBeginFlushAll timeout done => begin_flush_all timeout done
  | CallEndFlush flush => end_flush flush
  | CallEndFollows => end_follows
  | CallDropHeld tracker => drop_held tracker
  | CallNextIncoming => void next_incoming_message
  | CallRefuseArrivals => refuse_arrivals
  | CallRefuseUnread => refuse_unread
  | CallConfirm sender number outcome => confirm sender number outcome
  | CallConfirmHanded handed => confirm_handed handed
  | CallSendConfirmations => send_confirmations
  | CallRunAcknowledged => run_acknowledged_callbacks
  | CallAcknowledgedByReceive => acknowledged_by_receive
  | CallTakeWake => void take_acknowledged_wake
  | CallDropObserver observed => mod_client (fun cl => cl <| cl_drop_observer := observed |>)
  | CallClosing => void closing
  | CallRegisterInbox queue => register_inbox queue
  | CallRegisterSubscription type queue => register_subscription type queue
  | CallShutdownClient => shutdown_client
  | CallBeginShutdown timeout => begin_shutdown timeout
  | CallRandom64 => void random64
  | CallTakeBody => void take_body
  | CallGiveBody body => give_body body
  | CallLaneNew pinned => void (Lane_new pinned)
  | CallLaneSeeded connection pinned => void (Lane_seeded connection pinned)
  | CallBuilt on_message search_policy confirms_itself =>
      mod_threaded (fun t => t <| th_on_message := on_message |> <| th_search_policy := search_policy |>
                               <| th_confirms_itself := confirms_itself |> <| th_io_inbox := Some [] |>)
  | CallConnectEach parsed timeout done => for_each parsed (fun '(host, port) => start_connect host port timeout done)
  | CallForgetFinishedIds => mod_queries forget_finished_ids
  | CallLook => ret tt
  | CallUnlessShutDown call =>
      let* shut := gets (fun c => th_shut_down (cr_threaded c)) in
      if shut : bool then ret tt else run_call call
  end.

(** One step of a run: [InTime] is the driver's reading of the clock,
    [InActionsTaken] and [InPostedTaken] its taking of the actions and of the
    posted work, [InSpent] its handing on of the bodies the core is done with,
    [InOpenFailed] its word that a socket did not open, [InDeadline] its look at
    the next timer, which forgets those cancelled before it, and [InKept] the
    class's keeping of trackers. *)
Inductive Input :=
| InReady (ready : Ready)
| InCall (call : Call)
| InTime (now : Z)
| InActionsTaken
| InPostedTaken
| InSpent
| InOpenFailed (conn : Z) (why : str)
| InDeadline
| InKept (kept : list Z).

Context (commands : Z -> Call).

Definition run_input (input : Input) : CM unit :=
  match input with
  | InReady ready => run_ready (fun command => run_call (commands command)) ready
  | InCall call => run_call call
  | InTime now => modify (fun c => c <| cr_now := now |>)
  | InActionsTaken => modify (fun c => c <| cr_actions := [] |>)
  | InPostedTaken => modify (fun c => c <| cr_posted := [] |>)
  | InSpent => mod_batcher (fun bc => bc <| bc_bodies := mkBodies [] 0 |>)
  | InOpenFailed conn why => open_failed conn why
  | InDeadline => modify (fun c => c <| cr_timers := (next_deadline (cr_timers c)).1 |>)
  | InKept kept => modify (fun c => c <| cr_kept := kept |>)
  end.

Definition of_conn (c : Core) (conn : Z) (P : Conn -> Prop) : Prop :=
  match cr_conns c !! conn with Some s => P s | None => True end.

Definition input_ok (c : Core) (input : Input) : Prop :=
  match input with
  | InReady (ReadyConnected conn _) | InReady (ReadyPosted (PostConnectFailed conn _)) =>
      of_conn c conn (fun s => cn_connecting s = true)
  | InReady (ReadyResolved conn _) => of_conn c conn (fun s => cn_candidates s = [])
  | _ => True
  end.

Inductive reachable : Core -> Prop :=
| reach_new peer_type ids mode now : reachable (Core_new peer_type ids mode now)
| reach_step c input : reachable c -> input_ok c input -> reachable (run_input input c).2.

(** A run, and that it is one. *)
Fixpoint run_inputs (inputs : list Input) (c : Core) : Core :=
  match inputs with
  | [] => c
  | input :: inputs => run_inputs inputs (run_input input c).2
  end.

Fixpoint inputs_ok (inputs : list Input) (c : Core) : Prop :=
  match inputs with
  | [] => True
  | input :: inputs => input_ok c input /\ inputs_ok inputs (run_input input c).2
  end.

Lemma reachable_run inputs c : reachable c -> inputs_ok inputs c -> reachable (run_inputs inputs c).
Proof.
  revert c. induction inputs as [|input inputs IH]; intros c Hc; [done|]. intros [Hi Hs].
  cbn [run_inputs]. apply IH; [by apply reach_step|done].
Qed.

(** ** Every step keeps the connections' invariant *)

#[local] Hint Extern 1 (Quiet _) => exact _ : pres.
#[local] Hint Extern 1 (Placing _) => exact _ : pres.
#[local] Hint Extern 1 (Stable _) => exact _ : pres.
#[local] Hint Extern 1 (Closing _) => exact _ : pres.
#[local] Hint Resolve on_write_done_ok on_frame_ok async_connect_ok start_connect_ok run_one_timer_ok : pres.

Lemma void_pres I {A} (m : CM A) : pres I m -> pres I (void m).
Proof. intros Hm. unfold void. apply pres_bind; [done|intros; apply pres_ret]. Qed.

Lemma run_call_ok call : pres (conns_ok no_ex) (run_call call).
Proof. induction call; cbn [run_call]; try apply void_pres; pres_tac. Qed.

Lemma of_conn_Some c conn Q s : of_conn c conn Q -> cr_conns c !! conn = Some s -> Q s.
Proof. unfold of_conn. intros H Hs. by rewrite Hs in H. Qed.

Lemma run_input_ok c input : input_ok c input -> conns_ok no_ex c -> conns_ok no_ex (run_input input c).2.
Proof.
  intros Hi Hc. destruct input as [ready|call| | | | | | |]; [|by apply run_call_ok|done ..].
  assert (Hp : forall m : CM unit, pres (conns_ok no_ex) m -> conns_ok no_ex (m c).2) by auto.
  destruct ready as [posted|conn ok| |conn candidates| | | |]; cbn [run_input run_ready input_ok] in *;
    [| | | |apply Hp; pres_tac ..].
  - destruct posted as [conn why| | | | | | |]; cbn [run_posted];
      [apply connected_ok; [done|]; intros s; exact (of_conn_Some c conn _ s Hi)|apply Hp; pres_tac ..]. apply run_call_ok.
  - apply connected_ok; [done|]. intros s. exact (of_conn_Some c conn _ s Hi).
  - apply Hp. pres_tac.
  - apply on_resolved_ok; [done|]. intros s. exact (of_conn_Some c conn _ s Hi).
Qed.

Lemma reachable_conns c : reachable c -> conns_ok no_ex c.
Proof.
  induction 1 as [peer_type ids mode now|c input _ IH Hi]; [|by apply run_input_ok].
  intros conn s. unfold Core_new. destruct (default _ _). cbn [cr_conns]. by rewrite lookup_empty.
Qed.

(** ** Every step keeps an invariant that does not look at the connections *)

Section WholeRun.
Context (I : Core -> Prop) `{!Whole I}.

Lemma run_call_pres call : pres I (run_call call).
Proof. induction call; cbn [run_call]; try apply void_pres; pres_tac. Qed.

Lemma run_input_pres input : pres I (run_input input).
Proof.
  destruct input; cbn [run_input]; [apply run_ready_pres; [exact _|intros; apply run_call_pres]|apply run_call_pres|..];
    intros c Hc; by apply (st_blind c).
Qed.

Lemma reachable_whole c : (forall peer_type ids mode now, I (Core_new peer_type ids mode now)) -> reachable c -> I c.
Proof. intros Hnew. induction 1; [apply Hnew|by apply run_input_pres]. Qed.
End WholeRun.

(** The queue of a live connection and its channel. *)
Lemma living_channel c conn s :
  reachable c -> cr_conns c !! conn = Some s -> cn_living s = true ->
  match cn_outgoing s with
  | [] => cn_out s = Free /\ cn_write_in_flight s = false
  | _ :: _ => cn_out s = Busy /\ cn_write_in_flight s = true
  end.
Proof.
  intros Hr Hs Hl. destruct (co_live _ _ _ (reachable_conns c Hr conn s Hs) Hl) as [_ _ _ _ _ _ Hch].
  unfold channel_ok, outgoing_len in *. cbn [no_ex ex_stalled] in Hch.
  destruct (cn_outgoing s); simpl in *; destruct Hch as [(? & ? & ?)|(? & ? & [?|?%elem_of_empty])]; done || lia.
Qed.
End System.

(** A client connects to 127.0.0.1 and the connect succeeds: its welcome is
    being written. *)
Definition demo_inputs : list Input :=
  [InCall (CallAsyncConnect [49; 50; 55; 46; 48; 46; 48; 46; 49] 8000); InActionsTaken; InPostedTaken; InReady (ReadyConnected 1 true)].

Definition demo_run : Core := run_inputs (fun _ => CallClosing) demo_inputs demo_core.

Lemma demo_run_reachable : reachable (fun _ => CallClosing) demo_run.
Proof. apply reachable_run; [apply reach_new|]. vm_compute. auto. Qed.

Lemma demo_conn :
  (fun s => (cn_living s, length (cn_outgoing s))) <$> cr_conns demo_run !! 1 = Some (true, 1%nat).
Proof. vm_compute. reflexivity. Qed.
