(* ===== verification/Asked.v ===== *)
(** * Asked: every answer of the driver is waited for

    The core asks its driver for the addresses of a name, for a socket and for
    the write of a frame, and is answered later.  [asked_ok o] says that what is
    asked is counted exactly: [o] being what the driver still owes of each kind,
    with what the core's actions ask, a connection is owed the end of a write
    just while it writes, the end of a connect only while it connects, and the
    addresses of its name only while it has none; never two of a kind.  It is
    what makes an answer of the driver one [input_ok] admits. *)
From S2P Require Import Prelude Words Defaults Frame SpanSet Timers Endpoint IpAddr LogSummary Records Ordered Messages.
From S2P Require Import CoreTypes CoreBase ConnQueue OutboxState ConfirmingState Placing Bodies Batching Confirming.
From S2P Require Import Sending Handover Query Connection Client Connect Run Stable StableRun ConnIds ConnSpec System.
Open Scope Z_scope.

(** ** Counting *)

Fixpoint count_if {A} (f : A -> bool) (l : list A) : nat :=
  match l with
  | [] => 0
  | x :: l => (if f x then 1 else 0) + count_if f l
  end.

Lemma count_if_app {A} (f : A -> bool) l k : count_if f (l ++ k) = (count_if f l + count_if f k)%nat.
Proof. induction l as [|x l IH]; simpl; [done|]. rewrite IH. lia. Qed.

Lemma count_if_filter {A} (f g : A -> bool) l :
  (forall x, f x = true -> g x = true) -> count_if f (filter (fun x => g x = true) l) = count_if f l.
Proof.
  intros H. induction l as [|x l IH]; [done|]. rewrite filter_cons. specialize (H x).
  destruct (decide (g x = true)) as [Hg|Hg]; simpl; rewrite IH; [done|]. destruct (f x); [by destruct Hg; apply H|done].
Qed.

Lemma count_if_pos {A} (f : A -> bool) l : (0 < count_if f l)%nat -> exists x, x ∈ l /\ f x = true.
Proof.
  induction l as [|x l IH]; cbn [count_if]; [lia|]. destruct (f x) eqn:Hx; [intros _; exists x; by split; [constructor|]|].
  intros (y & Hy & Hf)%IH. exists y. by split; [constructor|].
Qed.

Lemma count_if_zero {A} (f : A -> bool) l : (forall x, x ∈ l -> f x = false) -> count_if f l = 0%nat.
Proof.
  induction l as [|x l IH]; intros H; [done|]. simpl. rewrite (H x) by constructor. apply IH. intros y Hy. apply H. by constructor.
Qed.

(** What asks for a socket, a write or the addresses of [conn]. *)
Definition opens (conn : Z) (a : Action) : bool := match a with ActOpen conn' _ => conn' =? conn | _ => false end.
Definition writes (conn : Z) (a : Action) : bool := match a with ActWrite conn' _ _ => conn' =? conn | _ => false end.
Definition resolves (conn : Z) (a : Action) : bool := match a with ActResolve conn' _ _ => conn' =? conn | _ => false end.
Definition fails (conn : Z) (p : Posted) : bool := match p with PostConnectFailed conn' _ => conn' =? conn | _ => false end.

Lemma opens_asks conn a : opens conn a = true -> asks a = true.
Proof. by destruct a. Qed.
Lemma writes_asks conn a : writes conn a = true -> asks a = true.
Proof. by destruct a. Qed.
Lemma resolves_asks conn a : resolves conn a = true -> asks a = true.
Proof. by destruct a. Qed.
Lemma fails_answers conn p : fails conn p = true -> answers_open p = true.
Proof. by destruct p. Qed.

(** What the driver owes of each connection. *)
Record Owing := mkOwing { ow_connects : Z -> nat; ow_writes : Z -> nat; ow_resolves : Z -> nat }.

Definition one_more (conn : Z) (f : Z -> nat) : Z -> nat := fun conn' => ((if (conn' =? conn)%Z then 1 else 0) + f conn')%nat.
Definition owes_connect (conn : Z) (o : Owing) : Owing := mkOwing (one_more conn (ow_connects o)) (ow_writes o) (ow_resolves o).
Definition owes_write (conn : Z) (o : Owing) : Owing := mkOwing (ow_connects o) (one_more conn (ow_writes o)) (ow_resolves o).
Definition owes_resolve (conn : Z) (o : Owing) : Owing := mkOwing (ow_connects o) (ow_writes o) (one_more conn (ow_resolves o)).

Lemma one_more_eq conn f : one_more conn f conn = S (f conn).
Proof. unfold one_more. by rewrite Z.eqb_refl. Qed.
Lemma one_more_ne conn conn' f : conn' <> conn -> one_more conn f conn' = f conn'.
Proof. unfold one_more. intros H. by apply Z.eqb_neq in H as ->. Qed.

Definition connects_due (o : Owing) (c : Core) (conn : Z) : nat :=
  ow_connects o conn + count_if (opens conn) (cr_actions c) + count_if (fails conn) (cr_posted c).
Definition writes_due (o : Owing) (c : Core) (conn : Z) : nat := ow_writes o conn + count_if (writes conn) (cr_actions c).
Definition resolves_due (o : Owing) (c : Core) (conn : Z) : nat := ow_resolves o conn + count_if (resolves conn) (cr_actions c).

(** How one connection stands with what is due. *)
Record conn_asked (connects writes resolves : nat) (s : Conn) : Prop := {
  ca_connects : (connects <= if cn_connecting s then 1 else 0)%nat;
  ca_writes : writes = if cn_write_in_flight s then 1%nat else 0%nat;
  ca_resolves : (resolves <= match cn_candidates s with [] => 1 | _ => 0 end)%nat;
  ca_free : cn_out s = Free -> cn_write_in_flight s = false;
}.

Definition none_due (o : Owing) (c : Core) (conn : Z) : Prop :=
  connects_due o c conn = 0%nat /\ writes_due o c conn = 0%nat /\ resolves_due o c conn = 0%nat.

Definition conn_due (o : Owing) (c : Core) (conn : Z) : Conn -> Prop :=
  conn_asked (connects_due o c conn) (writes_due o c conn) (resolves_due o c conn).

Record asked_ok (o : Owing) (c : Core) : Prop := {
  ao_conns conn s : cr_conns c !! conn = Some s -> conn_due o c conn s;
  ao_new conn : cr_next_conn c < conn -> none_due o c conn;
  ao_gone conn : cr_conns c !! conn = None -> writes_due o c conn = 0%nat;
  ao_ids : conn_ids c;
}.

(** What is due depends on what is asked alone. *)
Lemma due_asked o c c' conn :
  asked c' = asked c ->
  connects_due o c' conn = connects_due o c conn /\ writes_due o c' conn = writes_due o c conn
  /\ resolves_due o c' conn = resolves_due o c conn.
Proof.
  unfold asked. intros [= Ha Hp]. unfold connects_due, writes_due, resolves_due.
  rewrite <- !(count_if_filter _ asks (cr_actions c')), <- !(count_if_filter _ asks (cr_actions c)),
    <- !(count_if_filter _ answers_open (cr_posted c')), <- !(count_if_filter _ answers_open (cr_posted c)), Ha, Hp
    by eauto using opens_asks, writes_asks, resolves_asks, fails_answers. done.
Qed.

Lemma asked_same o c c' : cr_conns c' = cr_conns c -> asked c' = asked c -> cr_next_conn c <= cr_next_conn c' ->
  asked_ok o c -> asked_ok o c'.
Proof.
  intros Hs Ha Hn [Hc Hnew Hgone Hids].
  split; intros conn; unfold conn_due, none_due; try destruct (due_asked o c c' conn Ha) as (E1 & E2 & E3).
  - rewrite E1, E2, E3, Hs. apply Hc.
  - rewrite E1, E2, E3. intros H. apply Hnew. lia.
  - rewrite E2, Hs. apply Hgone.
  - rewrite Hs. intros H%Hids. lia.
Qed.

Lemma mod_conn_None conn f c conn' : cr_conns (mod_conn conn f c).2 !! conn' = None <-> cr_conns c !! conn' = None.
Proof.
  destruct (decide (conn' = conn)) as [->|Hne]; [rewrite mod_conn_eq; apply fmap_None|by rewrite mod_conn_ne].
Qed.

(** A change of one connection. *)
Lemma asked_mod o conn f c :
  asked_ok o c -> (forall s, cr_conns c !! conn = Some s -> conn_due o c conn s -> conn_due o c conn (f s)) ->
  asked_ok o (mod_conn conn f c).2.
Proof.
  intros [Hc Hnew Hgone Hids] Hf. split; [|exact Hnew|intros conn' Hn%mod_conn_None; exact (Hgone conn' Hn)|by apply ids_conn]. intros conn' s'. destruct (decide (conn' = conn)) as [->|Hne].
  - rewrite mod_conn_eq. destruct (cr_conns c !! conn) as [s|] eqn:Hs; [|done]. intros [= <-]. apply (Hf s); auto.
  - rewrite mod_conn_ne by done. apply Hc.
Qed.

(** The part of a connection that what is due depends on, its channel freed never by it. *)
Lemma asked_conn o conn f :
  (forall s, cn_connecting (f s) = cn_connecting s /\ cn_candidates (f s) = cn_candidates s
             /\ cn_write_in_flight (f s) = cn_write_in_flight s /\ (cn_out (f s) = Free -> cn_out s = Free)) ->
  pres (asked_ok o) (mod_conn conn f).
Proof.
  intros Hf c Hc. apply asked_mod; [done|]. intros s _ [H1 H2 H3 H4]. destruct (Hf s) as (E1 & E2 & E3 & E4).
  split; [by rewrite E1|by rewrite E3|by rewrite E2|intros H; rewrite E3; auto].
Qed.

(** ** What a push asks *)

Definition one_if (b : bool) : nat := if b then 1 else 0.

Lemma push_due o c a conn :
  connects_due o (push_action a c).2 conn = (connects_due o c conn + one_if (opens conn a))%nat
  /\ writes_due o (push_action a c).2 conn = (writes_due o c conn + one_if (writes conn a))%nat
  /\ resolves_due o (push_action a c).2 conn = (resolves_due o c conn + one_if (resolves conn a))%nat.
Proof.
  unfold connects_due, writes_due, resolves_due, one_if. cbn [push_action modify snd upd cr_actions cr_posted].
  rewrite !count_if_app. cbn [count_if]. lia.
Qed.

(** A push for [conn], which changed so that it is right. *)
Lemma asked_push o conn a f c s :
  (forall conn', conn' <> conn -> opens conn' a = false /\ writes conn' a = false /\ resolves conn' a = false) ->
  asked_ok o c -> cr_conns c !! conn = Some s ->
  (conn_due o c conn s ->
   conn_asked (connects_due o c conn + one_if (opens conn a)) (writes_due o c conn + one_if (writes conn a))
     (resolves_due o c conn + one_if (resolves conn a)) (f s)) ->
  asked_ok o (push_action a (mod_conn conn f c).2).2.
Proof.
  intros Ha [Hc Hnew Hgone Hids] Hs Hf. assert (Hle : conn <= cr_next_conn c) by (by apply Hids; exists s).
  split; [| | |exact (ids_conn conn f c Hids)]; intros conn'; unfold conn_due, none_due;
    destruct (push_due o (mod_conn conn f c).2 a conn') as (E1 & E2 & E3); rewrite ?E1, ?E2, ?E3.
  - intros s'. change (cr_conns (push_action a (mod_conn conn f c).2).2) with (cr_conns (mod_conn conn f c).2).
    destruct (decide (conn' = conn)) as [->|Hne].
    + rewrite mod_conn_eq, Hs. intros [= <-]. by apply Hf, Hc.
    + rewrite mod_conn_ne by done. intros Hs'. destruct (Ha conn' Hne) as (-> & -> & ->). cbn [one_if]. rewrite !Nat.add_0_r. by apply Hc.
  - intros Hlt. change (cr_next_conn c < conn') in Hlt. destruct (Ha conn') as (-> & -> & ->); [lia|].
    cbn [one_if]. rewrite !Nat.add_0_r. by apply Hnew.
  - change (cr_conns (push_action a (mod_conn conn f c).2).2) with (cr_conns (mod_conn conn f c).2). intros Hn%mod_conn_None.
    destruct (Ha conn') as (_ & -> & _); [congruence|]. cbn [one_if]. rewrite Nat.add_0_r. by apply Hgone.
Qed.

(** ** The operations of the core *)

#[export] Instance asked_channel o : ChannelOnly (asked_ok o).
Proof.
  split.
  - intros c c'. apply asked_same.
  - intros conn f Hf. apply asked_conn. intros s. specialize (Hf s). unfold channel_view in Hf. injection Hf as E1 E2 E3 E4.
    rewrite E3. auto.
  - intros conn c Hc. unfold process_send_queue, bind at 1, get_conn, gets.
    destruct (cr_conns c !! conn) as [s|] eqn:Hs; [|done]. destruct (_ || _) eqn:Hb; [done|].
    apply orb_false_iff in Hb as [Hfree%negb_false_iff%bool_decide_eq_true _].
    destruct (cn_outgoing s) as [|[t front] rest]; [done|]. rewrite bind_tt. eapply asked_push; [|done|exact Hs|].
    { intros conn' Hne. cbn [opens writes resolves]. split_and!; [done| |done]. by apply Z.eqb_neq. }
    intros [H1 H2 H3 H4]. rewrite (H4 Hfree) in H2. cbn [opens writes resolves one_if]. rewrite Z.eqb_refl, !Nat.add_0_r, H2.
    by split.
Qed.

(** ** Invariants that a new connection keeps too *)

Class Lasting {E : Env} (I : Core -> Prop) := {
  la_ending :: Ending I;
  la_async_connect host port : pres I (async_connect host port);
}.

Section Lasting.
Context {E : Env} {P : Program} (I : Core -> Prop) `{!Lasting I}.
#[local] Hint Extern 1 (Quiet _) => exact _ : pres.
#[local] Hint Extern 1 (Placing _) => exact _ : pres.
#[local] Hint Extern 1 (Stable _) => exact _ : pres.
#[local] Hint Extern 1 (Closing _) => exact _ : pres.
#[local] Hint Extern 1 (Ending _) => exact _ : pres.
#[local] Hint Resolve la_async_connect : pres.

Lemma la_reconnect number : pres I (reconnect_after_timeout number).
Proof. unfold reconnect_after_timeout. pres_tac. Qed.
Lemma la_start_connect host port timeout done_ : pres I (start_connect host port timeout done_).
Proof. unfold start_connect. pres_tac. Qed.
#[local] Hint Resolve la_reconnect la_start_connect : pres.
Lemma la_run_due due : pres I (run_due due).
Proof. destruct due; cbn [run_due]; pres_tac. Qed.
#[local] Hint Resolve la_run_due : pres.
Lemma la_run_one_timer : pres I run_one_timer.
Proof. unfold run_one_timer. pres_tac. apply pres_rest; [exact _|]. intros c. by destruct (take_due _ _). Qed.
#[local] Hint Resolve la_run_one_timer : pres.
Lemma la_call call : pres I (run_call call).
Proof. induction call; cbn [run_call]; try apply void_pres; pres_tac. Qed.
#[local] Hint Resolve la_call en_on_frame : pres.

(** What is none of the driver's answers. *)
Definition answers_none (ready : Ready) : bool :=
  match ready with
  | ReadyConnected _ _ | ReadyPosted (PostConnectFailed _ _) | ReadyWriteDone _ _ _ | ReadyResolved _ _ => false
  | _ => true
  end.

Lemma la_ready commands ready :
  answers_none ready = true -> pres I (run_input commands (InReady ready)).
Proof.
  intros Hn. destruct ready as [posted| | | | | | |]; try done; cbn [run_input run_ready]; [|pres_tac ..].
  destruct posted; try done; cbn [run_posted]; pres_tac. apply pres_outbox; [exact _|]. intros ob. by split_and!.
Qed.
End Lasting.

Section Asked.
Context {E : Env} {P : Program} (o : Owing).
#[local] Hint Extern 1 (Quiet _) => exact _ : pres.
#[local] Hint Extern 1 (Placing _) => exact _ : pres.
#[local] Hint Extern 1 (Stable _) => exact _ : pres.
#[local] Hint Extern 1 (Displacing _) => exact _ : pres.
Lemma asked_forget conn : pres (asked_ok o) (forget_if_finished conn).
Proof.
  intros c Hok. pose proof Hok as [Hc Hnew Hgone Hids]. unfold forget_if_finished, modify. cbn [snd].
  destruct (cr_conns c !! conn) as [s|] eqn:Hs; [|done]. destruct (finished s) eqn:Hf; [|done].
  apply andb_true_iff in Hf as [_ Hf%negb_true_iff]. split; [|exact Hnew| |].
  - intros conn' s' Hs'. cbn [upd cr_conns] in Hs'. apply lookup_delete_Some in Hs' as [_ Hs']. by apply Hc.
  - intros conn' Hn. cbn [upd cr_conns] in Hn. apply lookup_delete_None in Hn as [<-|Hn]; [|by apply Hgone].
    pose proof (ca_writes _ _ _ _ (Hc conn s Hs)) as Hw. by rewrite Hf in Hw.
  - intros conn' [s' Hs']. cbn [upd cr_conns] in Hs'. apply lookup_delete_Some in Hs' as [_ Hs']. apply Hids. by exists s'.
Qed.
#[export] Instance asked_enduring : Enduring (asked_ok o).
Proof. split; [exact _|apply asked_conn|apply asked_forget]. Qed.
#[local] Hint Extern 1 (Closing _) => exact _ : pres.
#[local] Hint Extern 1 (Ending _) => exact _ : pres.
#[local] Hint Resolve ed_forget en_on_frame : pres.

(** One answer given: what is due of the others stays. *)
Lemma due_others (o' : Owing) c conn conn' :
  o' = owes_connect conn o \/ o' = owes_write conn o \/ o' = owes_resolve conn o -> conn' <> conn ->
  connects_due o' c conn' = connects_due o c conn' /\ writes_due o' c conn' = writes_due o c conn'
  /\ resolves_due o' c conn' = resolves_due o c conn'.
Proof.
  unfold connects_due, writes_due, resolves_due.
  intros [->|[->| ->]] Hne; cbn [owes_connect owes_write owes_resolve ow_connects ow_writes ow_resolves];
    by rewrite one_more_ne.
Qed.

Lemma due_less (o' : Owing) c conn conn' :
  o' = owes_connect conn o \/ o' = owes_write conn o \/ o' = owes_resolve conn o -> none_due o' c conn' -> none_due o c conn'.
Proof.
  unfold none_due, connects_due, writes_due, resolves_due.
  intros [->|[->| ->]]; cbn [owes_connect owes_write owes_resolve ow_connects ow_writes ow_resolves]; unfold one_more; lia.
Qed.

Lemma writes_less (o' : Owing) c conn conn' :
  o' = owes_connect conn o \/ o' = owes_write conn o \/ o' = owes_resolve conn o ->
  writes_due o' c conn' = 0%nat -> writes_due o c conn' = 0%nat.
Proof.
  unfold writes_due. intros [->|[->| ->]]; cbn [owes_connect owes_write owes_resolve ow_writes]; unfold one_more; lia.
Qed.

(** An answer for [conn], by a change of it that is right once it is given. *)
Lemma asked_answer (o' : Owing) conn f c :
  o' = owes_connect conn o \/ o' = owes_write conn o \/ o' = owes_resolve conn o -> asked_ok o' c ->
  (forall s, cr_conns c !! conn = Some s -> conn_due o' c conn s -> conn_due o c conn (f s)) ->
  asked_ok o (mod_conn conn f c).2.
Proof.
  intros Ho [Hc Hnew Hgone Hids] Hf. split; [| | |by apply ids_conn].
  - intros conn' s'. destruct (decide (conn' = conn)) as [->|Hne].
    + rewrite mod_conn_eq. destruct (cr_conns c !! conn) as [s|] eqn:Hs; [|done]. intros [= <-]. apply (Hf s); auto.
    + rewrite mod_conn_ne by done. intros Hs'. pose proof (Hc conn' s' Hs') as Hd. unfold conn_due in *.
      destruct (due_others o' c conn conn' Ho Hne) as (E1 & E2 & E3). rewrite E1, E2, E3 in Hd. exact Hd.
  - intros conn' Hlt. eapply due_less; [exact Ho|]. by apply Hnew.
  - intros conn' Hn%mod_conn_None. specialize (Hgone conn' Hn). eapply writes_less; [exact Ho|exact Hgone].
Qed.

(** An answer for a connection that is gone. *)
Lemma asked_answer_gone (o' : Owing) conn c :
  o' = owes_connect conn o \/ o' = owes_write conn o \/ o' = owes_resolve conn o -> asked_ok o' c ->
  cr_conns c !! conn = None -> asked_ok o c.
Proof.
  intros Ho Hok Hs. pose proof (asked_answer o' conn (fun s => s) c Ho Hok) as [Hc Hnew Hgone Hids]; [by rewrite Hs|].
  assert (Heq : cr_conns (mod_conn conn (fun s => s) c).2 = cr_conns c).
  { apply map_eq. intros conn'. destruct (decide (conn' = conn)) as [->|]; [by rewrite mod_conn_eq, Hs|by rewrite mod_conn_ne]. }
  split; [|exact Hnew| |apply Hok]; intros conn'; rewrite <- Heq; [apply Hc|apply Hgone].
Qed.

(** A connection that is not writing may be said to be free. *)
Lemma asked_free conn f c s :
  asked_ok o c -> cr_conns c !! conn = Some s -> cn_write_in_flight s = false ->
  (forall s, cn_connecting (f s) = cn_connecting s /\ cn_candidates (f s) = cn_candidates s
             /\ cn_write_in_flight (f s) = cn_write_in_flight s) ->
  asked_ok o (mod_conn conn f c).2.
Proof.
  intros Hok Hs Hw Hf. apply asked_mod; [done|]. intros s' Hs' [G1 G2 G3 G4]. rewrite Hs in Hs'. injection Hs' as <-.
  destruct (Hf s) as (E1 & E2 & E3). split; [by rewrite E1|by rewrite E3|by rewrite E2|by rewrite E3].
Qed.

(** The end of a write is owed just while one is under way. *)
Lemma asked_write_done conn written failed c :
  asked_ok (owes_write conn o) c -> asked_ok o (on_write_done conn written failed c).2.
Proof.
  intros Hok. unfold on_write_done, bind at 1, get_conn, gets. destruct (cr_conns c !! conn) as [s|] eqn:Hs.
  2:{ eapply asked_answer_gone; [|exact Hok|exact Hs]. auto. }
  rewrite bind_tt. set (c1 := (mod_conn _ _ c).2).
  assert (Hs1 : cr_conns c1 !! conn = Some (s <| cn_write_in_flight := false |>)) by (subst c1; by rewrite mod_conn_eq, Hs).
  assert (H1 : asked_ok o c1).
  { eapply asked_answer; [|exact Hok|]; [auto|]. intros s' Hs' [G1 G2 G3 G4]. split; [done| |done|done].
    unfold writes_due in *. cbn [owes_write ow_writes] in G2. rewrite one_more_eq in G2. destruct (cn_write_in_flight s'); [|done].
    cbn [upd cn_write_in_flight]. lia. }
  clearbody c1. destruct (bool_decide _).
  { apply (pres_bind (asked_ok o) _ _ _ _); [pres_tac|intros; pres_tac|done]. }
  destruct (_ || _ || _); [by apply en_write_failed; [exact _|]|].
  destruct (cn_outgoing s) as [|[t f] rest]; [by eapply asked_free|]. rewrite bind_tt. apply en_write_ended; [exact _|]. by eapply asked_free.
Qed.

(** A socket is asked for by a connection that asked for none. *)
Lemma asked_try_next conn c :
  asked_ok o c -> (forall s, cr_conns c !! conn = Some s -> cn_connecting s = false) ->
  asked_ok o (try_next_candidate conn c).2.
Proof.
  intros Hok Hcon. unfold try_next_candidate, bind at 1 2, get_now, get_conn, gets.
  destruct (cr_conns c !! conn) as [s|] eqn:Hs; [|done]. specialize (Hcon s eq_refl).
  destruct (cn_candidates s !! _) as [address|] eqn:Ha; [|by apply en_shutdown; [exact _|]].
  unfold bind at 1. pose proof (rearm_pres (asked_ok o) (cn_connect_deadline s) (cr_now c + CONNECT_ATTEMPT_SECONDS) (DueConnectDeadline conn) c Hok) as H1.
  destruct (rearm _ _ _ c) as [slot c1] eqn:Hr. cbn [snd] in H1.
  assert (Hs1 : cr_conns c1 !! conn = Some s) by (unfold rearm in Hr; repeat case_match; by simplify_eq).
  rewrite bind_tt. eapply asked_push; [|exact H1|exact Hs1|].
  { intros conn' Hne. cbn [opens writes resolves]. split_and!; [by apply Z.eqb_neq|done|done]. }
  intros [G1 G2 G3 G4]. rewrite Hcon in G1. cbn [opens writes resolves one_if]. rewrite Z.eqb_refl, !Nat.add_0_r.
  assert (connects_due o c1 conn = 0%nat) as -> by lia. by split.
Qed.

(** What a name resolves to may be forgotten. *)
Lemma asked_unresolved conn c : asked_ok (owes_resolve conn o) c -> asked_ok o c.
Proof.
  intros [Hc Hnew Hgone Hids]. split; [|intros conn' Hlt; eapply due_less; [|by apply Hnew]; auto|exact Hgone|done].
  intros conn' s Hs. destruct (Hc conn' s Hs) as [G1 G2 G3 G4]. split; [done|done| |done].
  unfold resolves_due in *. cbn [owes_resolve ow_resolves] in G3. unfold one_more in G3. lia.
Qed.

Lemma asked_resolved conn candidates c :
  asked_ok (owes_resolve conn o) c -> (forall s, cr_conns c !! conn = Some s -> cn_connecting s = false) ->
  asked_ok o (on_resolved conn candidates c).2.
Proof.
  intros Hok Hcon.
  pose proof (asked_unresolved conn c Hok) as Hsame.
  unfold on_resolved, bind at 1, get_conn, gets. destruct (cr_conns c !! conn) as [s|] eqn:Hs; [|done].
  destruct (cn_shuts_down s); [done|]. destruct candidates as [|address candidates]; [by apply en_shutdown; [exact _|]|].
  rewrite bind_tt. apply asked_try_next.
  - eapply asked_answer; [|exact Hok|]; [auto|]. intros s' Hs' [G1 G2 G3 G4]. split; [done|done| |done].
    unfold resolves_due in *. cbn [owes_resolve ow_resolves] in G3. rewrite one_more_eq in G3.
    cbn [upd cn_candidates]. destruct (cn_candidates s'); lia.
  - intros s'. rewrite mod_conn_eq, Hs. intros [= <-]. by apply (Hcon s).
Qed.

Lemma asked_connected conn ok c : asked_ok (owes_connect conn o) c -> asked_ok o (connected conn ok c).2.
Proof.
  intros Hok. unfold connected, bind at 1 2, get_conn, gets. destruct (cr_conns c !! conn) as [s|] eqn:Hs.
  2:{ eapply asked_answer_gone; [|exact Hok|exact Hs]. auto. }
  unfold bind at 1. pose proof (cancel_pres (asked_ok (owes_connect conn o)) (cn_connect_deadline s) c Hok) as H1.
  destruct (cancel (cn_connect_deadline s) c) as [slot c1] eqn:Hr. cbn [snd] in H1.
  assert (Hs1 : cr_conns c1 !! conn = Some s) by (unfold cancel in Hr; repeat case_match; by simplify_eq).
  rewrite bind_tt. set (c2 := (mod_conn _ _ c1).2).
  assert (H2 : asked_ok o c2).
  { eapply asked_answer; [|exact H1|]; [auto|]. intros s' Hs' [G1 G2 G3 G4]. split; [|done|done|done].
    unfold connects_due in *. cbn [owes_connect ow_connects] in G1. rewrite one_more_eq in G1.
    cbn [upd cn_connecting]. destruct (cn_connecting s'); lia. }
  assert (Hs2 : forall s', cr_conns c2 !! conn = Some s' -> cn_connecting s' = false).
  { intros s'. subst c2. rewrite mod_conn_eq, Hs1. by intros [= <-]. }
  clearbody c2. destruct ok.
  - rewrite bind_tt. apply en_start_connection; [exact _|]. by apply asked_conn.
  - destruct (negb _); cbn [when]; [by apply asked_try_next|done].
Qed.

(** ** New connections *)

Lemma add_conn_asked target c : asked (add_conn target c).2 = asked c.
Proof.
  assert (Hh : forall c0, asked (heartbit c0).2 = asked c0).
  { intros c0. unfold heartbit, bind, gets. by destruct (cl_heartbit (cr_client c0)). }
  unfold add_conn, bind, new_conn_id. specialize (Hh (c <| cr_next_conn := cr_next_conn c + 1 |>)).
  destruct (heartbit _) as [h c2]. exact Hh.
Qed.

Lemma asked_add_conn target :
  gives (asked_ok o) (add_conn target)
    (fun conn c => asked_ok o c /\ none_due o c conn
                   /\ exists new, cr_conns c !! conn = Some new /\ cn_connecting new = false /\ cn_candidates new = []).
Proof.
  intros c [Hc Hnew Hgone Hids].
  pose proof (add_conn_asked target c) as Ha.
  destruct (add_conn_eq target c) as [h Hadd]. destruct (add_conn target c) as [conn c'].
  destruct Hadd as (-> & Hn & _ & Hs). cbn [fst snd] in *. set (conn := cr_next_conn c + 1) in *.
  assert (Hdue : none_due o c conn) by (apply Hnew; subst conn; lia).
  assert (Hdue' : none_due o c' conn) by (unfold none_due; by destruct (due_asked o c c' conn Ha) as (-> & -> & ->)).
  split_and!; [split|done|].
  - intros conn' s'. rewrite Hs. unfold conn_due. destruct (due_asked o c c' conn' Ha) as (-> & -> & ->).
    destruct (decide (conn' = conn)) as [->|Hne]; [|rewrite lookup_insert_ne by done; apply Hc].
    rewrite lookup_insert_eq. intros [= <-]. destruct Hdue as (-> & -> & ->). split; cbn; [lia|done|lia|done].
  - intros conn' Hlt. unfold none_due. destruct (due_asked o c c' conn' Ha) as (-> & -> & ->). apply Hnew. subst conn. lia.
  - intros conn'. rewrite Hs. destruct (due_asked o c c' conn' Ha) as (_ & -> & _). intros [Hnone _]%lookup_insert_None. by apply Hgone.
  - intros conn' Hs'. rewrite Hs in Hs'. rewrite Hn. destruct (decide (conn' = conn)) as [->|Hne]; [lia|].
    rewrite lookup_insert_ne in Hs' by done. specialize (Hids conn' Hs'). subst conn. lia.
  - eexists. rewrite Hs, lookup_insert_eq. done.
Qed.

Lemma asked_async_connect host port : pres (asked_ok o) (async_connect host port).
Proof.
  unfold async_connect. do 6 (pres_step; [pres_tac|]). eapply leads_gives; [apply asked_add_conn|].
  intros conn c (Hok & Hdue & new & Hs & Hcon & Hcand). rewrite !bind_tt. set (c1 := (mod_client _ _).2).
  assert (H1 : asked_ok o c1) by (by apply (mod_client_pres (asked_ok o))).
  assert (Hdue1 : none_due o c1 conn) by exact Hdue. assert (Hs1 : cr_conns c1 !! conn = Some new) by exact Hs.
  clearbody c1. cbn [ret snd]. destruct (parse_ip _) as [address|].
  - rewrite bind_tt. apply asked_try_next; [|intros s'; rewrite mod_conn_eq, Hs1; by intros [= <-]].
    apply asked_mod; [done|]. intros s' Hs' [G1 G2 G3 G4]. split; [done|done| |done].
    destruct Hdue1 as (_ & _ & ->). cbn [upd cn_candidates]. lia.
  - unfold resolve_and_start, bind, get_conn, gets. rewrite Hs1.
    pose proof (asked_push o conn (ActResolve conn (cn_target new).1 (cn_target new).2) (fun s => s) c1 new) as Hp.
    assert (Heq : (mod_conn conn (fun s => s) c1).2 = c1).
    { clear. destruct c1. unfold mod_conn, modify. cbn. by rewrite alter_id. }
    rewrite Heq in Hp. apply Hp; [|done|done|].
    + intros conn' Hne. cbn [opens writes resolves]. split_and!; [done|done|by apply Z.eqb_neq].
    + intros [G1 G2 G3 G4]. destruct Hdue1 as (-> & E2 & ->). cbn [opens writes resolves one_if].
      rewrite Z.eqb_refl, !Nat.add_0_r. split; [lia|done|by rewrite Hcand|done].
Qed.
#[export] Instance asked_lasting : Lasting (asked_ok o).
Proof. split; [exact _|apply asked_async_connect]. Qed.

(** ** The steps of a run *)

(** Less owed of a connect or a name, as much of each write. *)
Lemma asked_less (o' : Owing) c :
  (forall conn, (ow_connects o conn <= ow_connects o' conn)%nat /\ (ow_resolves o conn <= ow_resolves o' conn)%nat
     /\ ow_writes o conn = ow_writes o' conn) ->
  asked_ok o' c -> asked_ok o c.
Proof.
  intros Hle [Hc Hnew Hgone Hids]. split; [| | |done]; intros conn; destruct (Hle conn) as (L1 & L2 & L3).
  - intros s Hs. destruct (Hc conn s Hs) as [G1 G2 G3 G4].
    split; unfold connects_due, writes_due, resolves_due in *; [lia|by rewrite L3|lia|done].
  - intros Hlt. destruct (Hnew conn Hlt) as (G1 & G2 & G3). unfold none_due, connects_due, writes_due, resolves_due in *. lia.
  - intros Hn. specialize (Hgone conn Hn). unfold writes_due in *. lia.
Qed.

(** What is owed of a step's input before it is given. *)
Definition answered_by (input : Input) : Owing :=
  match input with
  | InReady (ReadyConnected conn _) | InReady (ReadyPosted (PostConnectFailed conn _)) | InOpenFailed conn _ =>
      owes_connect conn o
  | InReady (ReadyWriteDone conn _ _) => owes_write conn o
  | InReady (ReadyResolved conn _) => owes_resolve conn o
  | _ => o
  end.

Definition takes (input : Input) : bool := match input with InActionsTaken | InPostedTaken => true | _ => false end.

Lemma connect_waited conn c s :
  asked_ok (owes_connect conn o) c -> cr_conns c !! conn = Some s -> cn_connecting s = true.
Proof.
  intros [Hc _ _ _] Hs. destruct (Hc conn s Hs) as [G1 _ _ _]. unfold connects_due in G1. cbn [owes_connect ow_connects] in G1.
  rewrite one_more_eq in G1. destruct (cn_connecting s); [done|lia].
Qed.

Lemma resolve_waited conn c s :
  asked_ok (owes_resolve conn o) c -> cr_conns c !! conn = Some s -> cn_candidates s = [].
Proof.
  intros [Hc _ _ _] Hs. destruct (Hc conn s Hs) as [_ _ G3 _]. unfold resolves_due in G3. cbn [owes_resolve ow_resolves] in G3.
  rewrite one_more_eq in G3. destruct (cn_candidates s); [done|lia].
Qed.

(** An answer owed is one the core waits for. *)
Lemma answered_input_ok c input : asked_ok (answered_by input) c -> input_ok c input.
Proof.
  destruct input as [[[] | | | | | | |]| | | | | | | |]; cbn [answered_by input_ok]; try done; intros H; unfold of_conn;
    destruct (cr_conns c !! _) eqn:Hs; try done; eauto using connect_waited, resolve_waited.
Qed.

Lemma asked_open_failed conn why c : asked_ok (owes_connect conn o) c -> asked_ok o (open_failed conn why c).2.
Proof.
  intros [Hc Hnew Hgone Hids].
  assert (Heq : forall conn', connects_due o (open_failed conn why c).2 conn' = connects_due (owes_connect conn o) c conn').
  { intros conn'. unfold connects_due, open_failed. cbn [push_posted modify snd upd cr_actions cr_posted owes_connect ow_connects].
    rewrite count_if_app. cbn [count_if fails]. unfold one_more. rewrite (Z.eqb_sym conn' conn). lia. }
  split; [| |exact Hgone|done]; intros conn'; [intros s Hs; unfold conn_due|intros Hlt; unfold none_due]; rewrite Heq; [by apply Hc|by apply Hnew].
Qed.

Context (commands : Z -> Call).

Lemma asked_input c input :
  takes input = false -> conns_ok no_ex c -> asked_ok (answered_by input) c -> asked_ok o (run_input commands input c).2.
Proof.
  intros Ht Hc Hok. destruct input as [ready|call| | | | | | |]; try done;
    [|by apply (la_call (asked_ok o))|by apply (asked_same o c)|by apply (asked_same o c)|by apply asked_open_failed|by apply (asked_same o c)|by apply (asked_same o c)].
  destruct (answers_none ready) eqn:Hn.
  { apply (la_ready (asked_ok o)); [done|]. destruct ready as [[]| | | | | | |]; try done. }
  destruct ready as [[]|conn ok|conn written failed|conn candidates| | | |]; try done; cbn [run_input run_ready run_posted answered_by] in *.
  - by apply asked_connected.
  - by apply asked_connected.
  - by apply asked_write_done.
  - apply asked_resolved; [done|]. intros s Hs. pose proof (resolve_waited conn c s Hok Hs) as Hnone.
    destruct (cn_connecting s) eqn:Hcon; [|done]. by destruct (co_candidates _ _ _ (Hc conn s Hs) Hcon).
Qed.
End Asked.

(** Actions and posted work in the driver's hands. *)
Definition owes_actions (l : list Action) (o : Owing) : Owing :=
  mkOwing (fun conn => ow_connects o conn + count_if (opens conn) l)%nat (fun conn => ow_writes o conn + count_if (writes conn) l)%nat
    (fun conn => ow_resolves o conn + count_if (resolves conn) l)%nat.
Definition owes_posted (l : list Posted) (o : Owing) : Owing :=
  mkOwing (fun conn => ow_connects o conn + count_if (fails conn) l)%nat (ow_writes o) (ow_resolves o).

Lemma asked_actions_taken o c :
  asked_ok o c -> asked_ok (owes_actions (cr_actions c) o) (c <| cr_actions := [] |>).
Proof.
  intros [Hc Hnew Hgone Hids]. split; [| | |exact Hids]; intros conn;
    [intros s Hs; specialize (Hc conn s Hs)|intros Hlt; specialize (Hnew conn Hlt)|intros Hn; specialize (Hgone conn Hn)];
    unfold conn_due, none_due, connects_due, writes_due, resolves_due in *;
    cbn [owes_actions ow_connects ow_writes ow_resolves upd cr_actions cr_posted count_if] in *; by rewrite !Nat.add_0_r.
Qed.

Lemma asked_posted_taken o c :
  asked_ok o c -> asked_ok (owes_posted (cr_posted c) o) (c <| cr_posted := [] |>).
Proof.
  intros [Hc Hnew Hgone Hids]. split; [| | |exact Hids]; intros conn;
    [intros s Hs; specialize (Hc conn s Hs)|intros Hlt; specialize (Hnew conn Hlt)|intros Hn; specialize (Hgone conn Hn)];
    unfold conn_due, none_due, connects_due, writes_due, resolves_due in *;
    cbn [owes_posted ow_connects ow_writes ow_resolves upd cr_actions cr_posted count_if] in *; [| |done]; rewrite Nat.add_0_r;
    by rewrite <- Nat.add_assoc, (Nat.add_comm (count_if (fails conn) _)), Nat.add_assoc.
Qed.

Definition nothing_owed : Owing := mkOwing (fun _ => 0%nat) (fun _ => 0%nat) (fun _ => 0%nat).

Lemma asked_new peer_type ids mode now : asked_ok nothing_owed (Core_new peer_type ids mode now).
Proof.
  unfold Core_new. destruct (default _ _). split; [|done|done|]; intros conn; cbn [cr_conns];
    rewrite lookup_empty; [done|by intros []].
Qed.
