(* ===== verification/Fronts.v ===== *)
(** * Fronts: the frame being written is the queue's front

    What the driver was asked to write is in no state of the core's: the actions
    leave it when the driver takes them.  [taken] are those a run's driver took,
    and [last_write] the last write asked for of a connection, among them and
    those still there.  [fronts_ok] says that while a write is in flight on a
    channel that is not broken, it is the write of the frame at the front of the
    connection's queue; with [conns_ok] of ConnSpec.v, that no connection stalls
    ([connections_never_stall]). *)
From S2P Require Import Prelude Words Defaults Frame SpanSet Timers Endpoint IpAddr LogSummary Records Ordered Messages.
From S2P Require Import CoreTypes CoreBase ConnQueue OutboxState ConfirmingState Placing Bodies Batching Confirming.
From S2P Require Import Sending Handover Query Connection Client Connect Run Concrete Stable StableRun ConnIds ConnSpec System Asked.
Open Scope Z_scope.

(** ** The writes asked for *)

(** The head and the bytes of a write on [conn]. *)
Definition write_on (conn : Z) (a : Action) : option (option (list Z) * list Z) :=
  match a with
  | ActWrite conn' head bytes => if conn' =? conn then Some (head, bytes) else None
  | _ => None
  end.

Definition last_write (conn : Z) (l : list Action) : option (option (list Z) * list Z) := last (omap (write_on conn) l).

Definition frame_parts (f : OutFrame) : option (list Z) * list Z := (of_head f, of_bytes f).

Lemma last_write_app conn l k :
  last_write conn (l ++ k) = match last_write conn k with Some w => Some w | None => last_write conn l end.
Proof. unfold last_write. rewrite omap_app, last_app. by destruct (last (omap _ k)). Qed.

Lemma last_write_asks conn l : last_write conn (filter (fun a => asks a = true) l) = last_write conn l.
Proof.
  unfold last_write. f_equal. induction l as [|a l IH]; [done|]. rewrite filter_cons. destruct (decide (asks a = true)) as [Ha|Ha].
  - cbn. by rewrite IH.
  - rewrite IH. by destruct a.
Qed.

Lemma last_write_asked h c c' conn :
  asked c' = asked c -> last_write conn (h ++ cr_actions c') = last_write conn (h ++ cr_actions c).
Proof.
  unfold asked. intros [= Ha _]. rewrite !last_write_app, <- (last_write_asks _ (cr_actions c')), Ha.
  by rewrite last_write_asks.
Qed.

(** ** The invariant *)

(** Of the driver's, [h] were taken; the channel of [broken] is, while its connection ends. *)
Record front_ok (broken : option Z) (h : list Action) (c : Core) (conn : Z) (s : Conn) : Prop := {
  fo_broken : broken = Some conn -> cn_out s = Broken;
  fo_front : cn_write_in_flight s = true -> cn_out s = Busy ->
    exists f, snd <$> head (cn_outgoing s) = Some f /\ last_write conn (h ++ cr_actions c) = Some (frame_parts f);
}.
Definition fronts_ok (broken : option Z) (h : list Action) (c : Core) : Prop :=
  forall conn s, cr_conns c !! conn = Some s -> front_ok broken h c conn s.

(** A connection with nothing in flight. *)
Lemma front_idle h c conn s : cn_write_in_flight s = false -> front_ok None h c conn s.
Proof. intros Hn. split; [done|]. by rewrite Hn. Qed.

Section Fronts.
Context {E : Env} {P : Program} (broken : option Z) (h : list Action).
Let I : Core -> Prop := fronts_ok broken h.

Lemma fronts_rest c c' : cr_conns c' = cr_conns c -> asked c' = asked c -> I c -> I c'.
Proof.
  intros Hc Ha Hok conn s. rewrite Hc. intros Hs. destruct (Hok conn s Hs) as [H1 H2]. split; [done|].
  by rewrite (last_write_asked h c c' conn Ha).
Qed.

Lemma fronts_mod conn f c :
  I c -> (forall s, cr_conns c !! conn = Some s -> front_ok broken h c conn s -> front_ok broken h c conn (f s)) ->
  I (mod_conn conn f c).2.
Proof.
  intros Hok Hf conn' s'. destruct (decide (conn' = conn)) as [->|Hne].
  - rewrite mod_conn_eq. destruct (cr_conns c !! conn) as [s|] eqn:Hs; [|done]. intros [= <-].
    destruct (Hf s eq_refl (Hok conn s Hs)). by split.
  - rewrite mod_conn_ne by done. intros Hs. destruct (Hok conn' s' Hs). by split.
Qed.

Lemma front_same c conn s s' :
  cn_out s' = cn_out s -> cn_write_in_flight s' = cn_write_in_flight s ->
  snd <$> head (cn_outgoing s') = snd <$> head (cn_outgoing s) -> front_ok broken h c conn s -> front_ok broken h c conn s'.
Proof. intros H1 H2 H3 [Hb Hf]. split; rewrite ?H1, ?H2, ?H3; done. Qed.

(** The write that starts is of the front. *)
Lemma fronts_process_send_queue conn : pres I (process_send_queue conn).
Proof.
  intros c Hok. unfold process_send_queue, bind at 1, get_conn, gets. destruct (cr_conns c !! conn) as [s|] eqn:Hs; [|done].
  destruct (negb _ || cn_shuts_down s) eqn:Hn; [done|]. apply orb_false_iff in Hn as [Hfree _].
  apply negb_false_iff, bool_decide_eq_true in Hfree. destruct (cn_outgoing s) as [|[t front] rest] eqn:Hq; [done|].
  rewrite bind_tt. intros conn' s' Hs'. cbn [push_action modify snd upd cr_conns] in Hs'.
  assert (Hact : cr_actions (push_action (ActWrite conn (of_head front) (of_bytes front))
    (mod_conn conn (fun s => s <| cn_out := Busy |> <| cn_write_in_flight := true |>) c).2).2
    = cr_actions c ++ [ActWrite conn (of_head front) (of_bytes front)]) by done.
  destruct (decide (conn' = conn)) as [->|Hne].
  - rewrite mod_conn_eq, Hs in Hs'. injection Hs' as <-. split.
    + intros Hb. destruct (Hok conn s Hs) as [H1 _]. specialize (H1 Hb). congruence.
    + intros _ _. exists front. split; [cbn; by rewrite Hq|]. rewrite Hact, app_assoc, last_write_app. unfold last_write at 1. cbn.
      by rewrite Z.eqb_refl.
  - rewrite mod_conn_ne in Hs' by done. destruct (Hok conn' s' Hs') as [H1 H2]. split; [done|].
    rewrite Hact, app_assoc, last_write_app. unfold last_write at 1. cbn.
    destruct (Z.eqb_spec conn conn'); [congruence|done].
Qed.

(** A frame goes behind the one in flight. *)
Lemma fronts_queue conn f c s :
  cr_conns c !! conn = Some s -> (forall q, cn_outgoing s = q -> q <> [] -> cn_out s = Busy -> head (f q) = head q) ->
  I c -> I (mod_conn conn (fun s => s <| cn_outgoing ::= f |>) c).2.
Proof.
  intros Hs Hf Hok. apply fronts_mod; [done|]. intros s'. rewrite Hs. intros [= <-] [H1 H2]. split; [done|].
  cbn [upd cn_write_in_flight cn_out cn_outgoing]. intros Hw Ho. destruct (H2 Hw Ho) as (front & Hh & Hl). exists front. split; [|done].
  rewrite (Hf _ eq_refl); [done| |done]. intros Hq. by rewrite Hq in Hh.
Qed.

Lemma fronts_schedule conn frame force asap : pres I (schedule conn frame force asap).
Proof.
  intros c Hok. unfold schedule, bind at 1, get_conn, gets. destruct (cr_conns c !! conn) as [s|] eqn:Hs; [|done].
  destruct (negb _); [done|]. destruct (_ && _); [done|]. unfold bind at 1. cbn [Tracker_new]. rewrite bind_tt.
  apply (pres_bind_2 I); [|intros; apply pres_ret]. apply fronts_process_send_queue.
  eapply fronts_queue; [exact Hs| |by apply (fronts_rest c)]. intros q _ Hq Hb. rewrite Hb. by destruct asap, q.
Qed.

Lemma fronts_take_over conn entry : pres I (take_over conn entry).
Proof.
  intros c Hok. unfold take_over, bind at 1, get_conn, gets. destruct (cr_conns c !! conn) as [s|] eqn:Hs; [|done].
  destruct (_ || _); [done|]. rewrite bind_tt. apply (pres_bind_2 I); [|intros; apply pres_ret]. apply fronts_process_send_queue.
  eapply fronts_queue; [exact Hs| |done]. intros q _ Hq _. by destruct q.
Qed.

#[export] Instance fronts_fronted : Fronted (fronts_ok broken h).
Proof.
  split; [intros c c' H1 H2 _; by apply fronts_rest| |apply fronts_process_send_queue|apply fronts_schedule|apply fronts_take_over].
  intros conn f Hf c Hc. apply fronts_mod; [done|]. intros s _. specialize (Hf s). unfold front_view, channel_view in Hf.
  injection Hf as H1 H2 H3 H4 H5. by apply front_same.
Qed.

Lemma fronts_forget conn : pres I (forget_if_finished conn).
Proof.
  intros c Hok. unfold forget_if_finished, modify. cbn [snd]. repeat case_match; [|done ..]. intros conn' s' Hs'.
  cbn [upd cr_conns] in Hs'. apply lookup_delete_Some in Hs' as [_ Hs']. destruct (Hok conn' s' Hs'). by split.
Qed.
End Fronts.

Section Ends.
Context {E : Env} {P : Program} (h : list Action).
#[local] Hint Extern 1 (Quiet _) => exact _ : pres.
#[local] Hint Extern 1 (Placing _) => exact _ : pres.
#[local] Hint Extern 1 (Stable _) => exact _ : pres.
#[local] Hint Extern 1 (Displacing _) => exact _ : pres.
#[local] Hint Extern 1 (Closing _) => exact _ : pres.
#[local] Hint Extern 1 (Fronted _) => exact _ : pres.
#[local] Hint Resolve fronts_forget : pres.
#[local] Hint Extern 1 (pres (fronts_ok _ _) (mod_conn _ _)) => (apply fr_conn; intros ?; repeat case_match; reflexivity) : pres.

(** *** The end of a connection *)

Lemma fronts_unbroken conn c : fronts_ok (Some conn) h c -> fronts_ok None h c.
Proof. intros Hok conn' s Hs. destruct (Hok conn' s Hs). by split. Qed.

(** A broken channel writes no front. *)
Lemma fronts_break conn f :
  (forall s, cn_out (f s) = Broken) -> leads (fronts_ok None h) (fronts_ok (Some conn) h) (mod_conn conn f).
Proof.
  intros Hf c Hok conn' s'. destruct (decide (conn' = conn)) as [->|Hne].
  - rewrite mod_conn_eq. intros (s & Hs & ->)%fmap_Some. split; [by intros|]. rewrite Hf. done.
  - rewrite mod_conn_ne by done. intros Hs. destruct (Hok conn' s' Hs) as [_ H2]. split; [|done]. intros [= ->]. done.
Qed.

Lemma fronts_orphan conn : pres (fronts_ok (Some conn) h) (orphan_outgoing_messages conn).
Proof.
  unfold orphan_outgoing_messages. pres_tac. intros c' Hok. apply fronts_mod; [done|]. intros s _ [H1 H2].
  specialize (H1 eq_refl). split; [done|]. cbn. by rewrite H1.
Qed.

Lemma fronts_tell_client_gone broken conn : pres (fronts_ok broken h) (tell_client_gone conn).
Proof. unfold tell_client_gone. pres_tac. Qed.
#[local] Hint Resolve fronts_orphan fronts_tell_client_gone : pres.

Lemma fronts_shutdown conn : pres (fronts_ok None h) (shutdown_connection conn).
Proof.
  apply pres_leads. unfold shutdown_connection. apply leads_then; [pres_tac|intros [state|]; [|by apply leads_ret]].
  destruct (cn_shuts_down state); [by apply leads_ret|]. do 3 (apply leads_then; [pres_tac|intros _]).
  apply leads_then; [pres_tac|intros [state2|]; [|by apply leads_ret]].
  apply (leads_bind _ (fronts_ok (Some conn) h)); [by apply fronts_break|intros _].
  apply (leads_weaken _ (fronts_ok (Some conn) h) _ (fronts_ok (Some conn) h)); [done|by intros; apply (fronts_unbroken conn)|].
  apply pres_leads. pres_tac.
Qed.

Lemma fronts_read_to_the_end conn bound deliver : pres (fronts_ok None h) (read_to_the_end conn bound deliver).
Proof.
  apply pres_leads. unfold read_to_the_end. apply leads_then; [pres_tac|intros now].
  apply leads_then; [pres_tac|intros [state|]; [|by apply leads_ret]].
  apply (leads_bind _ (fronts_ok (Some conn) h)); [by apply fronts_break|intros _].
  apply (leads_weaken _ (fronts_ok (Some conn) h) _ (fronts_ok (Some conn) h)); [done|by intros; apply (fronts_unbroken conn)|].
  apply pres_leads. pres_tac.
Qed.

#[export] Instance fronts_ending : Ending (fronts_ok None h).
Proof. split; [exact _|apply fronts_forget|apply fronts_shutdown|apply fronts_read_to_the_end]. Qed.
#[local] Hint Extern 1 (Ending _) => exact _ : pres.
#[local] Hint Resolve ed_forget en_start_connection en_write_ended en_write_failed : pres.

(** *** The end of a write *)

(** A connection with nothing in flight has no front to keep. *)
Lemma fronts_idle conn f :
  (forall s, cn_write_in_flight s = false -> cn_write_in_flight (f s) = false) ->
  forall c, fronts_ok None h c -> (forall s, cr_conns c !! conn = Some s -> cn_write_in_flight s = false) ->
  fronts_ok None h (mod_conn conn f c).2.
Proof. intros Hf c Hok Hn. apply fronts_mod; [done|]. intros s Hs _. apply front_idle, Hf, (Hn s Hs). Qed.

Lemma fronts_write_done conn written failed : pres (fronts_ok None h) (on_write_done conn written failed).
Proof.
  intros c Hok. unfold on_write_done, bind at 1, get_conn, gets. destruct (cr_conns c !! conn) as [s|] eqn:Hs; [|done].
  rewrite bind_tt. set (c1 := (mod_conn _ _ c).2).
  assert (H1 : fronts_ok None h c1) by (apply fronts_mod; [done|]; intros; by apply front_idle).
  assert (Hn : forall s', cr_conns c1 !! conn = Some s' -> cn_write_in_flight s' = false).
  { intros s'. subst c1. rewrite mod_conn_eq, Hs. by intros [= <-]. }
  clearbody c1. destruct (bool_decide _).
  { apply (pres_bind (fronts_ok None h) _ _ _ _); [pres_tac|intros; pres_tac|done]. }
  destruct (_ || _ || _); [by apply en_write_failed; [exact _|]|].
  destruct (cn_outgoing s) as [|[t f] rest]; [by apply fronts_idle|].
  rewrite bind_tt. apply en_write_ended; [exact _|]. by apply fronts_idle.
Qed.

(** *** The start of a connection *)

Lemma fronts_ask action :
  (forall conn', write_on conn' action = None) -> pres (fronts_ok None h) (push_action action).
Proof.
  intros Ha c Hok conn' s Hs. destruct (Hok conn' s Hs) as [H1 H2]. split; [done|].
  cbn [push_action modify snd upd cr_actions]. rewrite app_assoc, last_write_app. unfold last_write at 1. cbn. by rewrite Ha.
Qed.
#[local] Hint Extern 2 (pres (fronts_ok None h) (push_action _)) => (apply fronts_ask; reflexivity) : pres.

(** What the socket is and how far its connect came do not matter. *)
Lemma fronts_conn conn f :
  (forall s, cn_out (f s) = cn_out s /\ cn_write_in_flight (f s) = cn_write_in_flight s /\ cn_outgoing (f s) = cn_outgoing s) ->
  pres (fronts_ok None h) (mod_conn conn f).
Proof.
  intros Hf c Hok. apply fronts_mod; [done|]. intros s _. destruct (Hf s) as (H1 & H2 & H3). apply front_same; [done|done|by rewrite H3].
Qed.
#[local] Hint Extern 2 (pres (fronts_ok None h) (mod_conn _ _)) => (apply fronts_conn; intros ?; by split_and!) : pres.

Lemma fronts_try_next conn : pres (fronts_ok None h) (try_next_candidate conn).
Proof. unfold try_next_candidate. pres_tac. Qed.
#[local] Hint Resolve fronts_try_next : pres.
Lemma fronts_resolved conn candidates : pres (fronts_ok None h) (on_resolved conn candidates).
Proof. unfold on_resolved. pres_tac. Qed.
Lemma fronts_connected conn ok : pres (fronts_ok None h) (connected conn ok).
Proof. unfold connected. pres_tac. Qed.

Lemma fronts_add_conn target : pres (fronts_ok None h) (add_conn target).
Proof.
  intros c Hok.
  pose proof (add_conn_asked target c) as Ha.
  destruct (add_conn_eq target c) as [hb Hadd]. destruct (add_conn target c) as [new c']. destruct Hadd as (_ & _ & _ & Hs).
  cbn [snd] in *. intros conn s. rewrite Hs. destruct (decide (conn = new)) as [->|Hne].
  - rewrite lookup_insert_eq. intros [= <-]. by apply front_idle.
  - rewrite lookup_insert_ne by done. intros Hs'. destruct (Hok conn s Hs') as [H1 H2]. split; [done|].
    by rewrite (last_write_asked h c c' conn Ha).
Qed.
#[local] Hint Resolve fronts_add_conn : pres.

Lemma fronts_resolve_and_start conn : pres (fronts_ok None h) (resolve_and_start conn).
Proof. unfold resolve_and_start. pres_tac. Qed.
#[local] Hint Resolve fronts_resolve_and_start : pres.

#[export] Instance fronts_lasting : Lasting (fronts_ok None h).
Proof. split; [exact _|]. intros. unfold async_connect. pres_tac. Qed.

Context (commands : Z -> Call).

Lemma fronts_input input : input <> InActionsTaken -> pres (fronts_ok None h) (run_input commands input).
Proof.
  intros Hi. destruct input as [ready|call| | | | | | |]; try done; cbn [run_input];
    try (intros c Hc; by apply (fronts_rest None h c));
    [|exact (la_call (fronts_ok None h) call)|intros c Hc conn' s Hs; destruct (Hc conn' s Hs); by split ..].
  destruct (answers_none ready) eqn:Hn; [by apply (la_ready (fronts_ok None h) commands)|].
  destruct ready as [[]|conn ok|conn written failed|conn candidates| | | |]; try done; cbn [run_ready run_posted].
  - apply fronts_connected.
  - apply fronts_connected.
  - apply fronts_write_done.
  - apply fronts_resolved.
Qed.
End Ends.

Lemma fronts_actions_taken h c : fronts_ok None h c -> fronts_ok None (h ++ cr_actions c) (c <| cr_actions := [] |>).
Proof.
  intros Hok conn s Hs. destruct (Hok conn s Hs) as [H1 H2]. split; [done|]. cbn [upd cr_actions]. by rewrite app_nil_r.
Qed.

Lemma fronts_new peer_type ids mode now : fronts_ok None [] (Core_new peer_type ids mode now).
Proof. intros conn s. unfold Core_new. destruct (default _ _). cbn [cr_conns]. by rewrite lookup_empty. Qed.

(** ** A run and what its driver took *)

Section Run.
Context {E : Env} {P : Program} (commands : Z -> Call).

Definition takes_actions (input : Input) (c : Core) : list Action :=
  match input with InActionsTaken => cr_actions c | _ => [] end.

Fixpoint taken (inputs : list Input) (c : Core) : list Action :=
  match inputs with
  | [] => []
  | input :: inputs => takes_actions input c ++ taken inputs (run_input commands input c).2
  end.

(** Every action the core asked for. *)
Definition asked_for (inputs : list Input) (c : Core) : list Action :=
  taken inputs c ++ cr_actions (run_inputs commands inputs c).

Lemma fronts_step h c input :
  fronts_ok None h c -> fronts_ok None (h ++ takes_actions input c) (run_input commands input c).2.
Proof.
  intros Hok. destruct input; cbn [takes_actions]; try (rewrite app_nil_r; by apply fronts_input). by apply fronts_actions_taken.
Qed.

Lemma fronts_run h c inputs : fronts_ok None h c -> fronts_ok None (h ++ taken inputs c) (run_inputs commands inputs c).
Proof.
  revert h c. induction inputs as [|input inputs IH]; intros h c Hok; cbn [taken run_inputs]; [by rewrite app_nil_r|].
  rewrite app_assoc. by apply IH, fronts_step.
Qed.

(** The front of a live connection's queue, being written. *)
Lemma living_front peer_type ids mode now inputs c0 conn s :
  c0 = Core_new peer_type ids mode now -> inputs_ok commands inputs c0 ->
  cr_conns (run_inputs commands inputs c0) !! conn = Some s -> cn_living s = true ->
  match cn_outgoing s with
  | [] => cn_out s = Free /\ cn_write_in_flight s = false
  | (_, front) :: _ => cn_out s = Busy /\ cn_write_in_flight s = true
      /\ last_write conn (asked_for inputs c0) = Some (frame_parts front)
  end.
Proof.
  intros -> Hi Hs Hl. pose proof (reachable_run commands inputs _ (reach_new commands peer_type ids mode now) Hi) as Hr.
  pose proof (living_channel commands _ conn s Hr Hs Hl) as Hch.
  pose proof (fronts_run [] _ inputs (fronts_new peer_type ids mode now) conn s Hs) as [_ Hf].
  destruct (cn_outgoing s) as [|[t front] rest]; [done|]. destruct Hch as [Hb Hw]. split_and!; [done|done|].
  destruct (Hf Hw Hb) as (f & [= <-] & Hl'). exact Hl'.
Qed.

(** C1: No connection stalls.  In every state a client's run comes by, a live connection with frames queued is
    writing the first of them: its channel is busy, a write is in flight, and the last write its driver was asked for
    on it is of the frame at the front of the queue.  One with none queued writes nothing.  Its queue holds at most its
    bound and the frames of the connection's own past it, and it has not been shut down. *)
Theorem connections_never_stall peer_type ids mode now (inputs : list Input) (c : Core) (conn : Z) (s : Conn) :
  let c0 := Core_new peer_type ids mode now in
  inputs_ok commands inputs c0 -> c = run_inputs commands inputs c0 -> cr_conns c !! conn = Some s -> cn_living s = true ->
  cn_shuts_down s = false
  /\ outgoing_len s <= DEFAULT_OUT_QUEUE_SIZE + FORCED_FRAMES_PAST_FULL_QUEUE
  /\ match cn_outgoing s with
     | [] => cn_out s = Free /\ cn_write_in_flight s = false
     | (_, front) :: _ => cn_out s = Busy /\ cn_write_in_flight s = true
         /\ last_write conn (asked_for inputs c0) = Some (of_head front, of_bytes front)
     end.
Proof.
  intros c0 Hi -> Hs Hl. pose proof (reachable_run commands inputs _ (reach_new commands peer_type ids mode now) Hi) as Hr.
  destruct (co_live _ _ _ (reachable_conns commands _ Hr conn s Hs) Hl) as [_ Hd _ _ Hmax Hlen _].
  split_and!; [done|lia|]. exact (living_front _ _ _ _ _ _ _ _ eq_refl Hi Hs Hl).
Qed.
End Run.

Lemma demo_inputs_ok : inputs_ok (fun _ => CallClosing) demo_inputs demo_core.
Proof. vm_compute. auto. Qed.

Lemma demo_run_eq : demo_run = run_inputs (fun _ => CallClosing) demo_inputs (Core_new 200 12345 Queue 0).
Proof. vm_compute. reflexivity. Qed.

Lemma connections_never_stall_witness :
  exists s entry, cr_conns demo_run !! 1 = Some s /\ cn_outgoing s = [entry] /\ cn_out s = Busy
    /\ cn_write_in_flight s = true
    /\ last_write 1 (asked_for (fun _ => CallClosing) demo_inputs demo_core) = Some (of_head entry.2, of_bytes entry.2).
Proof.
  destruct (proj1 (fmap_Some _ _ _) demo_conn) as (s & Hs & Heq). injection Heq as Hl Hq.
  destruct (connections_never_stall (fun _ => CallClosing) 200 12345 Queue 0 demo_inputs demo_run 1 s demo_inputs_ok demo_run_eq Hs (eq_sym Hl)) as (_ & _ & Hch).
  destruct (cn_outgoing s) as [|[t front] [|]] eqn:Ho; [discriminate Hq| |discriminate Hq].
  exists s, (t, front). destruct Hch as (H1 & H2 & H3). exact (conj Hs (conj Ho (conj H1 (conj H2 H3)))).
Defined.
