(* ===== verification/OutboxSpec.v ===== *)
(** * OutboxSpec: what waits in the outbox is counted exactly

    The slab is a finite map from keys that are never used again.  The invariant
    of the outbox over it: every entry of the slab is in exactly one queue, that
    of what is held, the backlog of its connection or what was displaced; and
    every count, of what waits, of what is held, of each backlog's, is the
    number of the entries it counts.  [outbox_ok] is that invariant but for what
    an operation under way has in hand: the entries it took out of their queues,
    and how far each count is behind. *)
From S2P Require Import Prelude Words Defaults Frame SpanSet Timers Endpoint IpAddr LogSummary Records Ordered Messages.
From S2P Require Import CoreTypes CoreBase ConnQueue OutboxState ConfirmingState Placing Bodies Batching Confirming.
From S2P Require Import Sending Handover Query Connection Client Connect Run Concrete Stable StableRun ConnIds ConnSpec System.
Open Scope Z_scope.

(** ** The slab *)

Record slab_ok (o : Outbox) : Prop := {
  sl_generations : length (ob_generations o) = length (ob_slab o);
  sl_free : NoDup (ob_free o);
  sl_empty i : i ∈ ob_free o <-> ob_slab o !! i = Some None;
}.

(** What is not the slab's. *)
Definition same_queues (o o' : Outbox) : Prop :=
  ob_backlogs o' = ob_backlogs o /\ ob_displaced o' = ob_displaced o /\ ob_held o' = ob_held o
  /\ ob_held_live o' = ob_held_live o /\ ob_waiting o' = ob_waiting o
  /\ ob_flushes o' = ob_flushes o /\ ob_flush_states o' = ob_flush_states o /\ ob_next_flush o' = ob_next_flush o.

Lemma Outbox_get_lookup o key w :
  Outbox_get o key = Some w <-> ob_generations o !! key.1 = Some key.2 /\ ob_slab o !! key.1 = Some (Some w).
Proof.
  unfold Outbox_get. destruct (ob_generations o !! key.1) as [g|]; [|naive_solver].
  destruct (Z.eqb_spec g key.2) as [->|]; [|naive_solver].
  destruct (ob_slab o !! key.1) as [[?|]|]; simpl; naive_solver.
Qed.

Lemma Outbox_get_ext o o' key :
  ob_generations o' = ob_generations o -> ob_slab o' = ob_slab o -> Outbox_get o' key = Outbox_get o key.
Proof. unfold Outbox_get. by intros -> ->. Qed.

Lemma slab_ok_ext o o' :
  ob_generations o' = ob_generations o -> ob_slab o' = ob_slab o -> ob_free o' = ob_free o -> slab_ok o -> slab_ok o'.
Proof. intros H1 H2 H3 [Hg Hf He]. split; rewrite ?H1, ?H2, ?H3; auto. Qed.

(** Storing an entry binds a key that was not bound, and leaves the rest. *)
Lemma Outbox_store_spec o w :
  slab_ok o -> let '(key, o') := Outbox_store o w in
  slab_ok o' /\ Outbox_get o key = None /\ same_queues o o'
  /\ forall k, Outbox_get o' k = if decide (k = key) then Some w else Outbox_get o k.
Proof.
  intros [Hg Hf He]. unfold Outbox_store. destruct (ob_free o) as [|index free] eqn:Hfree.
  - assert (Hl : ob_slab o !! length (ob_slab o) = None) by (apply lookup_ge_None; lia). split_and!.
    + split; cbn [upd ob_generations ob_slab ob_free]; [rewrite !length_app; simpl; lia|by rewrite Hfree; constructor|].
      intros i. rewrite Hfree, He, lookup_app. destruct (ob_slab o !! i) as [[]|] eqn:Hi; [done|done|].
      split; [done|]. destruct (i - length (ob_slab o))%nat as [|n]; [done|by destruct n].
    + unfold Outbox_get. cbn [fst snd]. rewrite Hl. by repeat case_match.
    + by repeat split.
    + intros [i g]. apply option_eq. intros w'. rewrite Outbox_get_lookup. cbn [upd ob_generations ob_slab fst snd].
      rewrite !lookup_app. destruct (decide _) as [[= -> ->]|Hne].
      * rewrite (proj2 (lookup_ge_None (ob_generations o) _)) by lia. rewrite Hl, Hg, Nat.sub_diag. naive_solver.
      * rewrite Outbox_get_lookup. cbn [fst snd]. destruct (ob_slab o !! i) eqn:Hi.
        { apply lookup_lt_Some in Hi as Hi'. destruct (lookup_lt_is_Some_2 (ob_generations o) i) as [g' ->]; [lia|done]. }
        apply lookup_ge_None in Hi. rewrite (proj2 (lookup_ge_None (ob_generations o) i)) by lia.
        split; [|naive_solver]. intros [H1 H2]. exfalso. apply Hne.
        destruct (i - length (ob_generations o))%nat as [|n] eqn:Hn; [|by destruct n].
        simpl in H1. injection H1 as <-. f_equal. lia.
  - apply NoDup_cons in Hf as [Hnot Hf]. assert (Hi : ob_slab o !! index = Some None) by (apply He; by left).
    apply lookup_lt_Some in Hi as Hlt. destruct (lookup_lt_is_Some_2 (ob_generations o) index) as [g Hgi]; [lia|].
    rewrite Hgi. cbn [default]. split_and!.
    + split; cbn [upd ob_generations ob_slab ob_free]; [by rewrite length_insert|done|]. intros i.
      destruct (decide (i = index)) as [->|Hne]; [rewrite list_lookup_insert_eq by done; naive_solver|].
      rewrite list_lookup_insert_ne by done. rewrite <- He, elem_of_cons. naive_solver.
    + unfold Outbox_get. cbn [fst snd]. rewrite Hgi, Z.eqb_refl, Hi. done.
    + by repeat split.
    + intros [i g']. apply option_eq. intros w'. rewrite Outbox_get_lookup. cbn [upd ob_generations ob_slab fst snd].
      destruct (decide _) as [[= -> ->]|Hne]; [rewrite list_lookup_insert_eq by done; naive_solver|].
      rewrite Outbox_get_lookup. cbn [fst snd]. destruct (decide (i = index)) as [->|];
        [|by rewrite list_lookup_insert_ne]. rewrite Hgi. naive_solver.
Qed.

Lemma Outbox_alter_spec o f key w :
  slab_ok o -> Outbox_get o key = Some w ->
  slab_ok (Outbox_alter f key o) /\ same_queues o (Outbox_alter f key o)
  /\ forall k, Outbox_get (Outbox_alter f key o) k = if decide (k = key) then Some (f w) else Outbox_get o k.
Proof.
  intros [Hg Hf He] Hw. unfold Outbox_alter. rewrite Hw. apply Outbox_get_lookup in Hw as [Hgen Hs].
  apply lookup_lt_Some in Hs as Hlt. split_and!.
  - split; cbn [upd ob_generations ob_slab ob_free]; [by rewrite length_insert|done|]. intros i.
    destruct (decide (i = key.1)) as [->|]; [|by rewrite list_lookup_insert_ne].
    rewrite list_lookup_insert_eq by done. rewrite He, Hs. naive_solver.
  - by repeat split.
  - intros k. apply option_eq. intros w'. rewrite Outbox_get_lookup. cbn [upd ob_generations ob_slab].
    destruct (decide (k = key)) as [->|Hne]; [rewrite list_lookup_insert_eq by done; naive_solver|].
    rewrite Outbox_get_lookup. destruct (decide (k.1 = key.1)) as [Heq|]; [|by rewrite list_lookup_insert_ne].
    rewrite Heq, Hgen. destruct k, key. cbn [fst snd] in *. naive_solver.
Qed.

(** Releasing an entry that is over frees its slot, and its key is never bound
    again. *)
Lemma Outbox_release_spec o key w :
  slab_ok o -> Outbox_get o key = Some w -> wt_over w = true ->
  slab_ok (Outbox_release key o) /\ same_queues o (Outbox_release key o)
  /\ forall k, Outbox_get (Outbox_release key o) k = if decide (k = key) then None else Outbox_get o k.
Proof.
  intros [Hg Hf He] Hw Hov. unfold Outbox_release. rewrite Hw, Hov. apply Outbox_get_lookup in Hw as [Hgen Hs].
  apply lookup_lt_Some in Hs as Hlt. split_and!.
  - split; cbn [upd ob_generations ob_slab ob_free]; [by rewrite length_alter, length_insert| |].
    + apply NoDup_cons. split; [rewrite He, Hs; naive_solver|done].
    + intros i. rewrite elem_of_cons, He. destruct (decide (i = key.1)) as [->|];
        [rewrite list_lookup_insert_eq by done; naive_solver|]. rewrite list_lookup_insert_ne by done. naive_solver.
  - by repeat split.
  - intros k. apply option_eq. intros w'. rewrite Outbox_get_lookup. cbn [upd ob_generations ob_slab].
    destruct (decide (k = key)) as [->|Hne]; [rewrite list_lookup_insert_eq by done; naive_solver|].
    rewrite Outbox_get_lookup. destruct (decide (k.1 = key.1)) as [Heq|].
    + rewrite Heq, list_lookup_insert_eq by done. rewrite Hgen, Hs. destruct k, key. cbn [fst snd] in *. naive_solver.
    + by rewrite list_lookup_insert_ne, list_lookup_alter_ne.
Qed.

(** ** Counts *)

Definition alive (w : Waiting) : Z := if wt_over w then 0 else 1.

(** A message a flush over the numbers up to [n] waits for. *)
Definition live_to (n : Z) (w : Waiting) : Z := if wt_over w then 0 else if wt_number w <=? n then 1 else 0.

Definition weight (P : Waiting -> Z) (o : Outbox) (key : WaitKey) : Z :=
  match Outbox_get o key with Some w => P w | None => 0 end.
Definition count (P : Waiting -> Z) (o : Outbox) (keys : list WaitKey) : Z := sum_of (weight P o) keys.

Definition queue_keys (o : Outbox) : list WaitKey :=
  concat (map bl_waiting (ob_backlogs o)) ++ ob_displaced o ++ ob_held o.

(** The entry of [key] is in the queue its connection says. *)
Definition on_ok (o : Outbox) (key : WaitKey) (w : Waiting) : Prop :=
  (key ∈ ob_held o -> wt_on w = None) /\ (key ∈ ob_displaced o -> is_Some (wt_on w))
  /\ forall b, b ∈ ob_backlogs o -> key ∈ bl_waiting b -> wt_on w = Some (bl_conn b).

(** [h]: the entries in hand; [dh], [dw], [dr], [df]: how far the counts of
    what is held, of what waits, of each backlog and of the flushes are ahead. *)
Record outbox_ok (h : list (WaitKey * Waiting)) (dh dw : Z) (dr df : Z -> Z) (o : Outbox) : Prop := {
  oo_slab : slab_ok o;
  oo_hand k w : (k, w) ∈ h -> Outbox_get o k = Some w;
  oo_nodup : NoDup (map fst h ++ queue_keys o);
  oo_keys k : k ∈ map fst h ++ queue_keys o <-> is_Some (Outbox_get o k);
  oo_conns : NoDup (map bl_conn (ob_backlogs o));
  oo_on k w : Outbox_get o k = Some w -> on_ok o k w;
  oo_frame k w : Outbox_get o k = Some w -> wt_over w = false -> is_Some (wt_frame w);
  oo_held : ob_held_live o = count alive o (ob_held o) + dh;
  oo_room b : b ∈ ob_backlogs o -> bl_live b = count alive o (bl_waiting b) + dr (bl_conn b);
  oo_waiting : ob_waiting o = count alive o (map fst h ++ queue_keys o) + dw;
  oo_flush id f : id ∈ ob_flushes o -> ob_flush_states o !! id = Some f ->
    count (live_to (fl_last_number f)) o (map fst h ++ queue_keys o) + df (fl_last_number f) <= fl_waiting f;
  oo_ids : NoDup (ob_flushes o) /\ forall id, id ∈ ob_flushes o -> id <= ob_next_flush o;
}.

(** Nothing in hand, every count right. *)
Abbreviation outbox_exact := (outbox_ok [] 0 0 (fun _ => 0) (fun _ => 0)).

Lemma outbox_ok_ext h dh dw dr df dh' dw' dr' df' o :
  outbox_ok h dh dw dr df o -> dh' = dh -> dw' = dw -> (forall conn, dr' conn = dr conn) -> (forall l, df' l <= df l) ->
  outbox_ok h dh' dw' dr' df' o.
Proof.
  intros [] -> -> Hr Hf. split; try done.
  - intros b Hb. rewrite Hr. auto.
  - intros id f Hid Hs. specialize (oo_flush0 id f Hid Hs). specialize (Hf (fl_last_number f)). lia.
Qed.

Lemma outbox_ok_hand_perm h h' dh dw dr df o :
  h' ≡ₚ h -> outbox_ok h dh dw dr df o -> outbox_ok h' dh dw dr df o.
Proof.
  intros Hp []. assert (Hk : map fst h' ++ queue_keys o ≡ₚ map fst h ++ queue_keys o).
  { by apply Permutation_app_tail, Permutation_map. }
  split; try done.
  - intros k w. rewrite Hp. auto.
  - by rewrite Hk.
  - intros k. by rewrite Hk.
  - unfold count in *. by rewrite (sum_of_perm _ _ _ Hk).
  - intros id f Hid Hs. unfold count in *. rewrite (sum_of_perm _ _ _ Hk). exact (oo_flush0 id f Hid Hs).
Qed.

Lemma count_get P o o' keys :
  (forall k, k ∈ keys -> Outbox_get o' k = Outbox_get o k) -> count P o' keys = count P o keys.
Proof. intros H. apply sum_of_ext. intros k Hk. unfold weight. by rewrite H. Qed.

Lemma count_nonneg P o keys : (forall w, 0 <= P w) -> 0 <= count P o keys.
Proof. intros H. apply sum_of_nonneg. intros k _. unfold weight. case_match; [auto|lia]. Qed.

Lemma live_nonneg w : 0 <= alive w.
Proof. unfold alive. case_match; lia. Qed.
Lemma live_to_nonneg n w : 0 <= live_to n w.
Proof. unfold live_to. repeat case_match; lia. Qed.
Lemma live_to_live n w : live_to n w <= alive w.
Proof. unfold live_to, alive. repeat case_match; lia. Qed.

Lemma count_app P o l l' : count P o (l ++ l') = count P o l + count P o l'.
Proof. apply sum_of_app. Qed.

(** Changing the entry of [key] from [w] to [w'] changes a count by their
    difference where [key] is outbox_counted. *)
Lemma count_alter P o o' key w w' keys :
  Outbox_get o key = Some w -> NoDup keys ->
  (forall k, Outbox_get o' k = if decide (k = key) then Some w' else Outbox_get o k) ->
  count P o' keys = count P o keys + (if decide (key ∈ keys) then P w' - P w else 0).
Proof.
  intros Hw Hn Hget. unfold count. rewrite (sum_of_point (weight P o) (weight P o') key) by (try done;
    intros k _ Hne; unfold weight; by rewrite Hget, decide_False).
  unfold weight. rewrite Hget, (decide_True (P := key = key)), Hw by done. done.
Qed.

Lemma backlog_in_queues o b k : b ∈ ob_backlogs o -> k ∈ bl_waiting b -> k ∈ queue_keys o.
Proof.
  intros Hb Hk. apply elem_of_app. left. apply list_elem_of_In, in_concat. exists (bl_waiting b).
  split; [|by apply list_elem_of_In]. apply in_map. by apply list_elem_of_In.
Qed.

Lemma hand_unique h dh dw dr df o key w w' :
  outbox_ok ((key, w) :: h) dh dw dr df o -> ((key, w') ∉ h) /\ key ∉ map fst h ++ queue_keys o.
Proof.
  intros [_ _ Hn _ _ _ _ _ _ _ _ _]. simpl in Hn. apply NoDup_cons in Hn as [Hk _]. split; [|done].
  intros Hin. apply Hk, elem_of_app. left. apply (list_elem_of_fmap_2 fst) in Hin. done.
Qed.

(** ** The steps on the slab *)

(** The entry in hand changes. *)
Lemma alter_hand_ok h dh dw dr df o f key w :
  outbox_ok ((key, w) :: h) dh dw dr df o -> (wt_over (f w) = false -> is_Some (wt_frame (f w))) ->
  outbox_ok ((key, f w) :: h) dh (dw + alive w - alive (f w)) dr
    (fun n => df n + live_to n w - live_to n (f w)) (Outbox_alter f key o).
Proof.
  intros Hok Hf. destruct (hand_unique _ _ _ _ _ _ _ _ w Hok) as [_ Hnot].
  destruct Hok as [Hsl Hh Hn Hk Hc Hon Hfr Hheld Hroom Hwait Hfl Hids].
  assert (Hw : Outbox_get o key = Some w) by (apply Hh; left).
  destruct (Outbox_alter_spec o f key w Hsl Hw) as (Hsl' & (E1 & E2 & E3 & E4 & E5 & E6 & E7 & E8) & Hget).
  set (o' := Outbox_alter f key o) in *. cbn [map fst app] in Hn, Hk, Hwait.
  assert (Hq : queue_keys o' = queue_keys o) by (unfold queue_keys; by rewrite E1, E2, E3).
  assert (Hcount : forall P keys, NoDup keys -> count P o' keys
            = count P o keys + (if decide (key ∈ keys) then P (f w) - P w else 0)) by (intros; by apply count_alter).
  assert (Hkeep : forall P keys, key ∉ keys -> count P o' keys = count P o keys).
  { intros P keys Hkey. apply count_get. intros k Hin. rewrite Hget, decide_False; [done|]. by intros ->. }
  split; [done| | | | | | | | | | |]; cbn [map fst app]; rewrite ?Hq, ?E1, ?E2, ?E3, ?E4, ?E5, ?E6, ?E8; try done.
  - intros k w' [[= -> ->]|Hin]%elem_of_cons; rewrite Hget; [by rewrite decide_True|].
    rewrite decide_False; [apply Hh; by right|]. intros ->. apply Hnot, elem_of_app. left.
    by apply (list_elem_of_fmap_2 fst) in Hin.
  - intros k. rewrite Hk, Hget. case_decide as Heq; [|done]. subst. rewrite Hw. done.
  - intros k w'. rewrite Hget. unfold on_ok. rewrite E1, E2, E3. case_decide as Heq; [|apply Hon].
    intros [= <-]. subst. split_and!; [| |intros b Hb Hkb; destruct Hnot; apply elem_of_app; right;
      by eapply backlog_in_queues]; unfold queue_keys in Hnot; rewrite !elem_of_app in Hnot; naive_solver.
  - intros k w'. rewrite Hget. case_decide; [|apply Hfr]. by intros [= <-].
  - rewrite Hkeep; [done|]. intros H. apply Hnot. unfold queue_keys. rewrite !elem_of_app. auto.
  - intros b Hb. rewrite Hkeep; [by apply Hroom|]. intros H. apply Hnot, elem_of_app. right. by eapply backlog_in_queues.
  - rewrite Hcount, decide_True by (done || left). lia.
  - intros id fl. rewrite E7. intros Hid Hs. specialize (Hfl id fl Hid Hs). cbn [map fst app] in Hfl.
    rewrite Hcount, decide_True by (done || left). lia.
Qed.

(** An entry that stays in its queue changes. *)
Lemma alter_queued_ok h dh dw dr df o f key w :
  outbox_ok h dh dw dr df o -> Outbox_get o key = Some w -> key ∉ map fst h -> key ∉ ob_displaced o ->
  wt_on (f w) = wt_on w -> (wt_over (f w) = false -> is_Some (wt_frame (f w))) ->
  outbox_ok h (dh + if decide (wt_on w = None) then alive w - alive (f w) else 0) (dw + alive w - alive (f w))
    (fun conn => dr conn + if decide (wt_on w = Some conn) then alive w - alive (f w) else 0)
    (fun n => df n + live_to n w - live_to n (f w)) (Outbox_alter f key o).
Proof.
  intros [Hsl Hh Hn Hk Hc Hon Hfr Hheld Hroom Hwait Hfl Hids] Hw Hnh Hnd Hfon Hf.
  destruct (Outbox_alter_spec o f key w Hsl Hw) as (Hsl' & (E1 & E2 & E3 & E4 & E5 & E6 & E7 & E8) & Hget).
  set (o' := Outbox_alter f key o) in *.
  assert (Hq : queue_keys o' = queue_keys o) by (unfold queue_keys; by rewrite E1, E2, E3).
  assert (Hcount : forall P keys, NoDup keys -> count P o' keys
            = count P o keys + (if decide (key ∈ keys) then P (f w) - P w else 0)) by (intros; by apply count_alter).
  assert (Hin : key ∈ map fst h ++ queue_keys o) by (apply Hk; by rewrite Hw).
  pose proof (Hon key w Hw) as (Hon1 & _ & Hon3).
  assert (Hheldkey : key ∈ ob_held o <-> wt_on w = None).
  { split; [done|]. intros Hnone. unfold queue_keys in Hin. rewrite !elem_of_app in Hin.
    destruct Hin as [?|[Hb|[?|?]]]; [done| |done|done].
    apply list_elem_of_In, in_concat in Hb as (l & Hl & Hkl). apply in_map_iff in Hl as (b & <- & Hb).
    rewrite (Hon3 b) in Hnone; [done|by apply list_elem_of_In|by apply list_elem_of_In]. }
  assert (Hbkey : forall b, b ∈ ob_backlogs o -> key ∈ bl_waiting b <-> wt_on w = Some (bl_conn b)).
  { intros b Hb. split; [by apply Hon3|]. intros Hsome. unfold queue_keys in Hin. rewrite !elem_of_app in Hin.
    destruct Hin as [?|[Hb'|[?|Hheld']]]; [done| |done|rewrite (Hon1 Hheld') in Hsome; done].
    apply list_elem_of_In, in_concat in Hb' as (l & Hl & Hkl). apply in_map_iff in Hl as (b' & <- & Hb').
    apply list_elem_of_In in Hb', Hkl. pose proof (Hon3 b' Hb' Hkl) as Hsome'. rewrite Hsome in Hsome'.
    injection Hsome' as Hcc. by rewrite (NoDup_map_inj bl_conn (ob_backlogs o) b b'). }
  assert (HnH : NoDup (ob_held o)).
  { unfold queue_keys in Hn. apply NoDup_app in Hn as (_ & _ & Hn). apply NoDup_app in Hn as (_ & _ & Hn).
    by apply NoDup_app in Hn as (_ & _ & Hn). }
  assert (HnB : forall b, b ∈ ob_backlogs o -> NoDup (bl_waiting b)).
  { intros b Hb. unfold queue_keys in Hn. apply NoDup_app in Hn as (_ & _ & Hn). apply NoDup_app in Hn as (Hn & _ & _).
    apply list_elem_of_split in Hb as (l1 & l2 & Hs). rewrite Hs, map_app, concat_app in Hn. cbn [map concat] in Hn.
    apply NoDup_app in Hn as (_ & _ & Hn). by apply NoDup_app in Hn as (Hn & _ & _). }
  split; [done| | | | | | | | | | |]; rewrite ?Hq, ?E1, ?E2, ?E3, ?E4, ?E5, ?E6, ?E8; try done.
  - intros k w' Hkw. rewrite Hget, decide_False; [by apply Hh|]. intros ->. apply Hnh.
    by apply (list_elem_of_fmap_2 fst) in Hkw.
  - intros k. rewrite Hk, Hget. case_decide as Heq; [|done]. subst. rewrite Hw. done.
  - intros k w'. rewrite Hget. unfold on_ok. rewrite E1, E2, E3. case_decide as Heq; [|apply Hon].
    intros [= <-]. subst. rewrite Hfon. apply (Hon key w Hw).
  - intros k w'. rewrite Hget. case_decide; [|apply Hfr]. by intros [= <-].
  - rewrite Hcount, Hheld by done. rewrite (decide_ext (key ∈ ob_held o) (wt_on w = None)) by done. case_decide; lia.
  - intros b Hb. rewrite Hcount, (Hroom b Hb) by auto.
    rewrite (decide_ext (key ∈ bl_waiting b) (wt_on w = Some (bl_conn b))) by auto. case_decide; lia.
  - rewrite Hcount, decide_True by done. lia.
  - intros id fl. rewrite E7. intros Hid Hs. specialize (Hfl id fl Hid Hs).
    rewrite Hcount, decide_True by done. lia.
Qed.

(** An entry in hand that is over leaves the slab. *)
Lemma release_hand_ok h dh dw dr df o key w :
  outbox_ok ((key, w) :: h) dh dw dr df o -> wt_over w = true -> outbox_ok h dh dw dr df (Outbox_release key o).
Proof.
  intros Hok Hov. destruct (hand_unique _ _ _ _ _ _ _ _ w Hok) as [_ Hnot].
  destruct Hok as [Hsl Hh Hn Hk Hc Hon Hfr Hheld Hroom Hwait Hfl Hids].
  assert (Hw : Outbox_get o key = Some w) by (apply Hh; left).
  destruct (Outbox_release_spec o key w Hsl Hw Hov) as (Hsl' & (E1 & E2 & E3 & E4 & E5 & E6 & E7 & E8) & Hget).
  set (o' := Outbox_release key o) in *. cbn [map fst app] in Hn, Hk, Hwait.
  assert (Hq : queue_keys o' = queue_keys o) by (unfold queue_keys; by rewrite E1, E2, E3).
  assert (Hkeep : forall P keys, key ∉ keys -> count P o' keys = count P o keys).
  { intros P keys Hkey. apply count_get. intros k Hin. rewrite Hget, decide_False; [done|]. by intros ->. }
  assert (Hcons : forall P, P w = 0 -> count P o (key :: map fst h ++ queue_keys o) = count P o (map fst h ++ queue_keys o)).
  { intros P HP. unfold count. cbn [sum_of]. unfold weight at 1. rewrite Hw, HP. lia. }
  split; [done| | | | | | | | | | |]; rewrite ?Hq, ?E1, ?E2, ?E3, ?E4, ?E5, ?E6, ?E8; try done.
  - intros k w' Hkw. rewrite Hget, decide_False; [apply Hh; by right|]. intros ->. apply Hnot, elem_of_app. left.
    by apply (list_elem_of_fmap_2 fst) in Hkw.
  - by apply NoDup_cons in Hn as [_ ?].
  - intros k. rewrite Hget. case_decide as Heq; [subst; split; [done|by intros []]|].
    rewrite <- Hk, elem_of_cons. naive_solver.
  - intros k w'. rewrite Hget. unfold on_ok. rewrite E1, E2, E3. case_decide; [done|apply Hon].
  - intros k w'. rewrite Hget. case_decide; [done|apply Hfr].
  - rewrite Hkeep; [done|]. intros H. apply Hnot. unfold queue_keys. rewrite !elem_of_app. auto.
  - intros b Hb. rewrite Hkeep; [by apply Hroom|]. intros H. apply Hnot, elem_of_app. right. by eapply backlog_in_queues.
  - rewrite Hkeep by done. rewrite Hcons in Hwait; [done|]. unfold alive. by rewrite Hov.
  - intros id fl. rewrite E7. intros Hid Hs. specialize (Hfl id fl Hid Hs). cbn [map fst app] in Hfl.
    rewrite Hcons in Hfl; [by rewrite Hkeep|]. unfold live_to. by rewrite Hov.
Qed.

(** A new entry, in hand. *)
Lemma slab_store_ok h dh dw dr df o w key o' :
  outbox_ok h dh dw dr df o -> Outbox_store o w = (key, o') -> (wt_over w = false -> is_Some (wt_frame w)) ->
  outbox_ok ((key, w) :: h) dh (dw - alive w) dr (fun n => df n - live_to n w) o'.
Proof.
  intros [Hsl Hh Hn Hk Hc Hon Hfr Hheld Hroom Hwait Hfl Hids] Hst Hf. pose proof (Outbox_store_spec o w Hsl) as Hsp.
  rewrite Hst in Hsp. destruct Hsp as (Hsl' & Hnone & (E1 & E2 & E3 & E4 & E5 & E6 & E7 & E8) & Hget).
  assert (Hq : queue_keys o' = queue_keys o) by (unfold queue_keys; by rewrite E1, E2, E3).
  assert (Hnot : key ∉ map fst h ++ queue_keys o) by (rewrite Hk, Hnone; by intros []).
  assert (Hkeep : forall P keys, key ∉ keys -> count P o' keys = count P o keys).
  { intros P keys Hkey. apply count_get. intros k Hin. rewrite Hget, decide_False; [done|]. by intros ->. }
  assert (Hcons : forall P, count P o' (key :: map fst h ++ queue_keys o) = P w + count P o (map fst h ++ queue_keys o)).
  { intros P. unfold count. cbn [sum_of]. unfold weight at 1. rewrite Hget, decide_True by done. f_equal. by apply Hkeep. }
  split; [done| | | | | | | | | | |]; cbn [map fst app]; rewrite ?Hq, ?E1, ?E2, ?E3, ?E4, ?E5, ?E6, ?E8; try done.
  - intros k w' [[= -> ->]|Hin]%elem_of_cons; rewrite Hget; [by rewrite decide_True|].
    rewrite decide_False; [by apply Hh|]. intros ->. apply Hnot, elem_of_app. left.
    by apply (list_elem_of_fmap_2 fst) in Hin.
  - by apply NoDup_cons.
  - intros k. rewrite elem_of_cons, Hk, Hget. case_decide as Heq; [|naive_solver]. subst. split; [done|by left].
  - intros k w'. rewrite Hget. unfold on_ok. rewrite E1, E2, E3. case_decide as Heq; [|apply Hon]. intros [= <-]. subst.
    split_and!; [| |intros b Hb Hkb; destruct Hnot; apply elem_of_app; right;
      by eapply backlog_in_queues]; unfold queue_keys in Hnot; rewrite !elem_of_app in Hnot; naive_solver.
  - intros k w'. rewrite Hget. case_decide; [|apply Hfr]. by intros [= <-].
  - rewrite Hkeep; [done|]. intros H. apply Hnot. unfold queue_keys. rewrite !elem_of_app. auto.
  - intros b Hb. rewrite Hkeep; [by apply Hroom|]. intros H. apply Hnot, elem_of_app. right. by eapply backlog_in_queues.
  - rewrite Hcons. lia.
  - intros id fl. rewrite E7. intros Hid Hs. specialize (Hfl id fl Hid Hs). rewrite Hcons. lia.
Qed.

(** ** The steps on the queues *)

Definition same_slab (o o' : Outbox) : Prop :=
  ob_slab o' = ob_slab o /\ ob_generations o' = ob_generations o /\ ob_free o' = ob_free o
  /\ ob_flushes o' = ob_flushes o /\ ob_flush_states o' = ob_flush_states o /\ ob_next_flush o' = ob_next_flush o.

Lemma same_slab_get o o' key : same_slab o o' -> Outbox_get o' key = Outbox_get o key.
Proof. intros (H1 & H2 & _). by apply Outbox_get_ext. Qed.

Lemma same_slab_count P o o' keys : same_slab o o' -> count P o' keys = count P o keys.
Proof. intros H. apply count_get. intros k _. by apply same_slab_get. Qed.

(** Entries change queues, the counts what they are. *)
Lemma move_ok h dh dw dr df o h' dh' dw' dr' o' :
  outbox_ok h dh dw dr df o -> same_slab o o' ->
  map fst h' ++ queue_keys o' ≡ₚ map fst h ++ queue_keys o ->
  (forall k w, (k, w) ∈ h' -> Outbox_get o k = Some w) ->
  NoDup (map bl_conn (ob_backlogs o')) ->
  (forall k w, Outbox_get o k = Some w -> on_ok o k w -> on_ok o' k w) ->
  ob_held_live o' = count alive o (ob_held o') + dh' ->
  (forall b, b ∈ ob_backlogs o' -> bl_live b = count alive o (bl_waiting b) + dr' (bl_conn b)) ->
  ob_waiting o' - dw' = ob_waiting o - dw ->
  outbox_ok h' dh' dw' dr' df o'.
Proof.
  intros [Hsl Hh Hn Hk Hc Hon Hfr Hheld Hroom Hwait Hfl Hids] Hs Hp Hh' Hc' Hon' Hheld' Hroom' Hwait'.
  pose proof (fun k => same_slab_get o o' k Hs) as Hget. pose proof (fun P l => same_slab_count P o o' l Hs) as Hcount.
  destruct Hs as (E1 & E2 & E3 & E4 & E5 & E6). split.
  - by eapply slab_ok_ext.
  - intros k w. rewrite Hget. apply Hh'.
  - by rewrite Hp.
  - intros k. by rewrite Hp, Hget.
  - done.
  - intros k w. rewrite Hget. intros Hw. apply Hon', Hon; done.
  - intros k w. rewrite Hget. apply Hfr.
  - by rewrite Hcount.
  - intros b Hb. rewrite Hcount. by apply Hroom'.
  - rewrite Hcount. unfold count in *. rewrite (sum_of_perm _ _ _ Hp). lia.
  - intros id f. rewrite E4, E5, Hcount. intros Hid Hs'. unfold count in *. rewrite (sum_of_perm _ _ _ Hp).
    exact (Hfl id f Hid Hs').
  - by rewrite E4, E6.
Qed.

Lemma backlog_Some o conn b :
  Outbox_backlog o conn = Some b ->
  exists l1 l2, ob_backlogs o = l1 ++ b :: l2 /\ bl_conn b = conn
    /\ (forall f, alter_backlog f conn (ob_backlogs o) = l1 ++ f b :: l2)
    /\ without_backlog conn (ob_backlogs o) = l1 ++ l2.
Proof.
  unfold Outbox_backlog. generalize (ob_backlogs o) as l. induction l as [|b' l IH]; [done|]. cbn [list_find].
  destruct (decide (bl_conn b' = conn)) as [Heq|Hne].
  - intros [= <-]. exists [], l. cbn [alter_backlog without_backlog]. by rewrite (proj2 (Z.eqb_eq _ _) Heq).
  - intros Hb. destruct IH as (l1 & l2 & -> & Hc & Ha & Hw).
    { destruct (list_find _ l) as [[i x]|]; [done|]. simpl in Hb. by destruct (bl_conn b' =? conn). }
    exists (b' :: l1), l2. cbn [alter_backlog without_backlog]. rewrite (proj2 (Z.eqb_neq _ _) Hne), Hw.
    split_and!; [done|done| |done]. intros f. by rewrite Ha.
Qed.

Lemma backlog_None o conn :
  Outbox_backlog o conn = None ->
  (forall b, b ∈ ob_backlogs o -> bl_conn b <> conn) /\ forall f, alter_backlog f conn (ob_backlogs o) = ob_backlogs o.
Proof.
  unfold Outbox_backlog. generalize (ob_backlogs o) as l. induction l as [|b' l IH]; [by split; [intros b ?%elem_of_nil|]|].
  cbn [list_find]. destruct (decide (bl_conn b' = conn)) as [Heq|Hne]; [done|]. intros Hb.
  destruct IH as [Hl Ha]; [by destruct (list_find _ l) as [[i x]|]|]. split.
  - intros b [->|Hin]%elem_of_cons; auto.
  - intros f. cbn [alter_backlog]. by rewrite (proj2 (Z.eqb_neq _ _) Hne), Ha.
Qed.

Lemma backlog_alter o o' conn b f :
  Outbox_backlog o conn = Some b -> (forall b, bl_conn (f b) = bl_conn b) ->
  ob_backlogs o' = alter_backlog f conn (ob_backlogs o) -> Outbox_backlog o' conn = Some (f b).
Proof.
  unfold Outbox_backlog. intros Hb Hf ->. revert Hb. generalize (ob_backlogs o) as l.
  induction l as [|b' l IH]; [done|]. cbn [list_find alter_backlog]. destruct (decide (bl_conn b' = conn)) as [Heq|Hne].
  - rewrite (proj2 (Z.eqb_eq _ _) Heq). intros [= <-]. cbn [list_find]. by rewrite decide_True by (by rewrite Hf).
  - rewrite (proj2 (Z.eqb_neq _ _) Hne). cbn [list_find]. rewrite decide_False by done.
    destruct (list_find _ l) as [[]|]; [|done]. cbn. destruct (list_find _ _) as [[]|]; cbn; naive_solver.
Qed.

(** The keys of the backlogs with that of one connection apart. *)
Lemma queue_keys_split o l1 b l2 :
  ob_backlogs o = l1 ++ b :: l2 ->
  queue_keys o ≡ₚ bl_waiting b ++ concat (map bl_waiting (l1 ++ l2)) ++ ob_displaced o ++ ob_held o.
Proof.
  intros H. unfold queue_keys. rewrite H, !map_app, !concat_app. cbn [map concat]. rewrite !app_assoc.
  do 2 apply Permutation_app_tail. rewrite <- !app_assoc. apply Permutation_app_swap_app.
Qed.

Lemma known_ok h dh dw dr df o keys :
  outbox_ok h dh dw dr df o -> (forall k, k ∈ keys -> k ∈ queue_keys o) ->
  exists hq, map fst hq = keys /\ (forall k w, (k, w) ∈ hq -> Outbox_get o k = Some w)
             /\ forall P, count P o keys = sum_of (fun e => P e.2) hq.
Proof.
  intros Hok Hin. induction keys as [|k keys IH]; [exists []; split_and!; [done|by intros ? ? ?%elem_of_nil|done]|].
  destruct IH as (hq & Hm & Hg & Hcount); [intros k' Hk'; apply Hin; by right|].
  destruct (proj1 (oo_keys _ _ _ _ _ _ Hok k)) as [w Hw]; [apply elem_of_app; right; apply Hin; left|].
  exists ((k, w) :: hq). split_and!; [simpl; by rewrite Hm| |].
  - intros k' w' [[= -> ->]|Hin']%elem_of_cons; auto.
  - intros P. unfold count in *. cbn [sum_of snd]. rewrite Hcount. unfold weight. by rewrite Hw.
Qed.

Definition hand_live (hq : list (WaitKey * Waiting)) : Z := sum_of (fun e : WaitKey * Waiting => alive e.2) hq.

Lemma hand_count o hq :
  (forall k w, (k, w) ∈ hq -> Outbox_get o k = Some w) -> count alive o (map fst hq) = hand_live hq.
Proof.
  intros Hq. unfold count, hand_live. induction hq as [|[k w] hq IH]; [done|]. cbn [map sum_of fst snd].
  unfold weight at 1. rewrite (Hq k w) by left. rewrite IH; [done|]. intros k' w' He'. apply Hq. by right.
Qed.

(** The first of what is held, taken in hand. *)
Lemma take_held_ok h dh dw dr df o keys rest :
  outbox_ok h dh dw dr df o -> ob_held o = keys ++ rest ->
  exists hq, map fst hq = keys /\ (forall e, e ∈ hq -> wt_on e.2 = None)
    /\ (forall k w, (k, w) ∈ hq -> Outbox_get o k = Some w)
    /\ outbox_ok (hq ++ h) (dh + hand_live hq) dw dr df (o <| ob_held := rest |>).
Proof.
  intros Hok HH. destruct (known_ok _ _ _ _ _ _ keys Hok) as (hq & <- & Hg & Hcount).
  { intros k Hk. unfold queue_keys. rewrite HH, !elem_of_app. auto. }
  exists hq. split_and!; [done| |done|].
  - intros [k w] Hkw. destruct (oo_on _ _ _ _ _ _ Hok k w (Hg k w Hkw)) as [Hon _]. apply Hon. rewrite HH.
    apply elem_of_app. left. by apply (list_elem_of_fmap_2 fst) in Hkw.
  - pose proof (oo_hand _ _ _ _ _ _ Hok) as Hh. apply (move_ok h dh dw dr df o); [done|by repeat split| | |apply Hok| | | |done].
    + unfold queue_keys. cbn [upd ob_held ob_displaced ob_backlogs]. rewrite HH, map_app, <- !app_assoc.
      rewrite (Permutation_app_swap_app (map fst hq)). apply Permutation_app_head. rewrite !app_assoc.
      apply Permutation_app_tail. rewrite <- !app_assoc. rewrite (Permutation_app_comm (map fst hq)). by rewrite <- !app_assoc.
    + intros k w [Hkw|Hkw]%elem_of_app; auto.
    + intros k w _ (H1 & H2 & H3). split_and!; [|done|done]. cbn [upd ob_held]. intros Hr. apply H1. rewrite HH.
      apply elem_of_app. by right.
    + cbn [upd ob_held ob_held_live]. rewrite (oo_held _ _ _ _ _ _ Hok), HH, count_app, Hcount. unfold hand_live. lia.
    + apply Hok.
Qed.

(** Entries in hand are held, behind what is. *)
Lemma put_held_ok h dh dw dr df o hq :
  outbox_ok (hq ++ h) dh dw dr df o -> (forall e, e ∈ hq -> wt_on e.2 = None) ->
  outbox_ok h (dh - hand_live hq) dw dr df (o <| ob_held ::= fun l => l ++ map fst hq |>).
Proof.
  intros Hok Hon. pose proof (oo_hand _ _ _ _ _ _ Hok) as Hh.
  apply (move_ok (hq ++ h) dh dw dr df o); [done|by repeat split| | |apply Hok| | | |done].
  - unfold queue_keys. cbn [upd ob_held ob_displaced ob_backlogs]. rewrite map_app, <- !app_assoc.
    rewrite (Permutation_app_swap_app (map fst hq)). apply Permutation_app_head. rewrite !app_assoc.
    rewrite Permutation_app_comm. by rewrite <- !app_assoc.
  - intros k w Hkw. apply Hh, elem_of_app. by right.
  - intros k w Hw (H1 & H2 & H3). split_and!; [|done|done]. cbn [upd ob_held].
    intros [?|Hk]%elem_of_app; [auto|]. apply list_elem_of_fmap in Hk as ([k' w'] & -> & Hkw). cbn [fst] in *.
    assert (Hw' : Outbox_get o k' = Some w') by (apply Hh, elem_of_app; by left). rewrite Hw in Hw'. injection Hw' as ->.
    exact (Hon _ Hkw).
  - cbn [upd ob_held ob_held_live]. rewrite (oo_held _ _ _ _ _ _ Hok), count_app. rewrite hand_count; [lia|].
    intros k w Hkw. apply Hh, elem_of_app. by left.
  - apply Hok.
Qed.

(** The difference of the count of [conn]'s backlog alone. *)
Definition room_at (conn d : Z) (dr : Z -> Z) : Z -> Z := fun conn' => dr conn' + if decide (conn' = conn) then d else 0.

Lemma other_conn o l1 b l2 b' :
  NoDup (map bl_conn (ob_backlogs o)) -> ob_backlogs o = l1 ++ b :: l2 -> b' ∈ l1 ++ l2 -> bl_conn b' <> bl_conn b.
Proof.
  intros Hn Hs Hb'. rewrite Hs, map_app in Hn. cbn [map] in Hn. apply NoDup_app in Hn as (_ & H1 & [H2 _]%NoDup_cons).
  intros Heq. apply elem_of_app in Hb' as [Hb'|Hb'].
  - apply (H1 (bl_conn b)); [rewrite <- Heq; by apply list_elem_of_fmap_2|left].
  - apply H2. rewrite <- Heq. by apply list_elem_of_fmap_2.
Qed.

(** The backlog [b] with another queue, [keys'], and the entries in hand
    accordingly. *)
Lemma move_backlog_ok h h' dh dw dr df d o l1 b l2 keys' :
  outbox_ok h dh dw dr df o -> ob_backlogs o = l1 ++ b :: l2 ->
  map fst h' ++ keys' ≡ₚ map fst h ++ bl_waiting b ->
  (forall k w, (k, w) ∈ h' -> Outbox_get o k = Some w) ->
  (forall k w, k ∈ keys' -> Outbox_get o k = Some w -> wt_on w = Some (bl_conn b)) ->
  bl_live b = count alive o keys' + dr (bl_conn b) + d ->
  outbox_ok h' dh dw (room_at (bl_conn b) d dr) df (o <| ob_backlogs := l1 ++ b <| bl_waiting := keys' |> :: l2 |>).
Proof.
  intros Hok Hs Hp Hh' Hon' Hd. pose proof (oo_hand _ _ _ _ _ _ Hok) as Hh. pose proof (oo_conns _ _ _ _ _ _ Hok) as Hn.
  set (b' := b <| bl_waiting := keys' |>). set (o' := o <| ob_backlogs := _ |>).
  apply (move_ok h dh dw dr df o); [done|by repeat split| |done| | |apply Hok| |done].
  - rewrite (queue_keys_split o l1 b l2 Hs), (queue_keys_split o' l1 b' l2 eq_refl).
    change (bl_waiting b') with keys'. rewrite !(app_assoc (map fst _)). by apply Permutation_app_tail.
  - cbn [o' upd ob_backlogs]. rewrite Hs in Hn. rewrite map_app in *. done.
  - intros k w Hw (H1 & H2 & H3). split_and!; [done|done|]. cbn [o' upd ob_backlogs].
    intros b2 [Hb|[->|Hb]%elem_of_cons]%elem_of_app Hk; [|by eapply Hon'|];
      (apply H3; [rewrite Hs; apply elem_of_app; rewrite ?elem_of_cons; auto|done]).
  - cbn [o' upd ob_backlogs]. unfold room_at.
    intros b2 Hb2. assert (b2 ∈ l1 ++ l2 \/ b2 = b') as [Hin| ->].
    { rewrite elem_of_app, elem_of_cons in Hb2. rewrite elem_of_app. tauto. }
    + rewrite decide_False by (by eapply other_conn). rewrite Z.add_0_r. apply Hok. rewrite Hs.
      apply elem_of_app in Hin as [|]; apply elem_of_app; rewrite ?elem_of_cons; auto.
    + cbn [b' upd bl_conn bl_live bl_waiting]. rewrite decide_True by done. lia.
Qed.

(** The first of the backlog of [conn], taken in hand. *)
Lemma take_backlog_ok h dh dw dr df o conn b keys rest :
  outbox_ok h dh dw dr df o -> Outbox_backlog o conn = Some b -> bl_waiting b = keys ++ rest ->
  exists hq, map fst hq = keys /\ (forall e, e ∈ hq -> wt_on e.2 = Some conn)
    /\ (forall k w, (k, w) ∈ hq -> Outbox_get o k = Some w)
    /\ outbox_ok (hq ++ h) dh dw (room_at conn (hand_live hq) dr) df
         (o <| ob_backlogs ::= alter_backlog (fun b => b <| bl_waiting := rest |>) conn |>).
Proof.
  intros Hok Hb Hw. destruct (backlog_Some _ _ _ Hb) as (l1 & l2 & Hs & <- & Ha & _).
  assert (Hin : b ∈ ob_backlogs o) by (rewrite Hs; apply elem_of_app; right; left).
  destruct (known_ok _ _ _ _ _ _ keys Hok) as (hq & <- & Hg & Hcount).
  { intros k Hk. apply (backlog_in_queues o b k Hin). rewrite Hw. apply elem_of_app. by left. }
  exists hq. split_and!; [done| |done|].
  - intros [k w] Hkw. destruct (oo_on _ _ _ _ _ _ Hok k w (Hg k w Hkw)) as (_ & _ & Hon). apply Hon; [done|].
    rewrite Hw. apply elem_of_app. left. by apply (list_elem_of_fmap_2 fst) in Hkw.
  - cbn [upd]. rewrite Ha. apply (move_backlog_ok h); [done|done| | | |].
    + rewrite Hw, map_app, <- !app_assoc. apply Permutation_app_swap_app.
    + intros k w [Hkw|Hkw]%elem_of_app; [auto|]. by apply (oo_hand _ _ _ _ _ _ Hok).
    + intros k w Hk Hkw. destruct (oo_on _ _ _ _ _ _ Hok k w Hkw) as (_ & _ & Hon). apply Hon; [done|].
      rewrite Hw. apply elem_of_app. by right.
    + rewrite (oo_room _ _ _ _ _ _ Hok b Hin), Hw, count_app, Hcount. unfold hand_live. lia.
Qed.

(** Entries in hand go behind the backlog of [conn]. *)
Lemma put_backlog_ok h dh dw dr df o conn b hq :
  outbox_ok (hq ++ h) dh dw dr df o -> Outbox_backlog o conn = Some b -> (forall e, e ∈ hq -> wt_on e.2 = Some conn) ->
  outbox_ok h dh dw (room_at conn (- hand_live hq) dr) df
    (o <| ob_backlogs ::= alter_backlog (fun b => b <| bl_waiting ::= fun l => l ++ map fst hq |>) conn |>).
Proof.
  intros Hok Hb Hon. destruct (backlog_Some _ _ _ Hb) as (l1 & l2 & Hs & <- & Ha & _).
  assert (Hin : b ∈ ob_backlogs o) by (rewrite Hs; apply elem_of_app; right; left).
  pose proof (oo_hand _ _ _ _ _ _ Hok) as Hh. cbn [upd]. rewrite Ha. apply (move_backlog_ok (hq ++ h)); [done|done| | | |].
  - rewrite map_app, <- !app_assoc. rewrite (Permutation_app_comm (map fst hq)), <- !app_assoc. done.
  - intros k w Hkw. apply Hh, elem_of_app. by right.
  - intros k w [Hk|Hk]%elem_of_app Hw.
    + destruct (oo_on _ _ _ _ _ _ Hok k w Hw) as (_ & _ & Hon'). by apply Hon'.
    + apply list_elem_of_fmap in Hk as ([k' w'] & -> & Hkw). cbn [fst] in *.
      assert (Hw' : Outbox_get o k' = Some w') by (apply Hh, elem_of_app; by left). rewrite Hw in Hw'. injection Hw' as ->.
      exact (Hon _ Hkw).
  - rewrite (oo_room _ _ _ _ _ _ Hok b Hin), count_app, hand_count; [lia|]. intros k w Hkw. apply Hh, elem_of_app. by left.
Qed.

(** The backlog of [conn] goes, its entries taken in hand. *)
Lemma take_out_backlog_ok h dh dw dr df o conn b :
  outbox_ok h dh dw dr df o -> Outbox_backlog o conn = Some b ->
  exists hq, map fst hq = bl_waiting b /\ (forall e, e ∈ hq -> wt_on e.2 = Some conn)
    /\ (forall k w, (k, w) ∈ hq -> Outbox_get o k = Some w) /\ hand_live hq = bl_live b - dr conn
    /\ outbox_ok (hq ++ h) dh dw dr df (o <| ob_backlogs ::= without_backlog conn |>).
Proof.
  intros Hok Hb. destruct (backlog_Some _ _ _ Hb) as (l1 & l2 & Hs & <- & _ & Hwo).
  assert (Hin : b ∈ ob_backlogs o) by (rewrite Hs; apply elem_of_app; right; left).
  destruct (known_ok _ _ _ _ _ _ (bl_waiting b) Hok) as (hq & Hm & Hg & Hcount).
  { intros k Hk. by apply (backlog_in_queues o b k Hin). }
  pose proof (oo_conns _ _ _ _ _ _ Hok) as Hn. exists hq. split_and!; [done| |done| |].
  - intros [k w] Hkw. destruct (oo_on _ _ _ _ _ _ Hok k w (Hg k w Hkw)) as (_ & _ & Hon). apply Hon; [done|].
    rewrite <- Hm. by apply (list_elem_of_fmap_2 fst) in Hkw.
  - rewrite (oo_room _ _ _ _ _ _ Hok b Hin), <- Hm, hand_count by done. lia.
  - cbn [upd]. rewrite Hwo. assert (Hsub : forall b', b' ∈ l1 ++ l2 -> b' ∈ ob_backlogs o).
    { intros b'. rewrite Hs, !elem_of_app, elem_of_cons. tauto. }
    apply (move_ok h dh dw dr df o); [done|by repeat split| | | | |apply Hok| |done].
    + rewrite (queue_keys_split o l1 b l2 Hs). unfold queue_keys. cbn [upd ob_backlogs ob_displaced ob_held].
      rewrite map_app, Hm, <- !app_assoc. apply Permutation_app_swap_app.
    + intros k w [Hkw|Hkw]%elem_of_app; [auto|]. by apply (oo_hand _ _ _ _ _ _ Hok).
    + cbn [upd ob_backlogs]. rewrite Hs in Hn. rewrite map_app in *. cbn [map] in Hn.
      apply NoDup_app in Hn as (H1 & H2 & [H3 H4]%NoDup_cons). apply NoDup_app. split_and!; [done| |done].
      intros x Hx Hx'. apply (H2 x Hx). by right.
    + intros k w _ (H1 & H2 & H3). split_and!; [done|done|]. cbn [upd ob_backlogs]. intros b' Hb'. auto.
    + cbn [upd ob_backlogs]. intros b' Hb'. apply Hok. auto.
Qed.

(** What was displaced, taken in hand, and the way back. *)
Lemma take_displaced_ok h dh dw dr df o :
  outbox_ok h dh dw dr df o ->
  exists hq, map fst hq = ob_displaced o /\ (forall e, e ∈ hq -> is_Some (wt_on e.2))
    /\ outbox_ok (hq ++ h) dh dw dr df (o <| ob_displaced := [] |>).
Proof.
  intros Hok. destruct (known_ok _ _ _ _ _ _ (ob_displaced o) Hok) as (hq & Hm & Hg & _).
  { intros k Hk. unfold queue_keys. rewrite !elem_of_app. auto. }
  exists hq. split_and!; [done| |].
  - intros [k w] Hkw. destruct (oo_on _ _ _ _ _ _ Hok k w (Hg k w Hkw)) as (_ & Hon & _). apply Hon.
    rewrite <- Hm. by apply (list_elem_of_fmap_2 fst) in Hkw.
  - apply (move_ok h dh dw dr df o); [done|by repeat split| | |apply Hok| |apply Hok|apply Hok|done].
    + unfold queue_keys. cbn [upd ob_held ob_displaced ob_backlogs]. rewrite map_app, Hm, <- !app_assoc. cbn [app].
      rewrite (Permutation_app_swap_app (ob_displaced o)). apply Permutation_app_head. apply Permutation_app_swap_app.
    + intros k w [Hkw|Hkw]%elem_of_app; [auto|]. by apply (oo_hand _ _ _ _ _ _ Hok).
    + intros k w _ (H1 & H2 & H3). split_and!; [done| |done]. by intros ?%elem_of_nil.
Qed.

Lemma put_displaced_ok h dh dw dr df o key w :
  outbox_ok ((key, w) :: h) dh dw dr df o -> is_Some (wt_on w) ->
  outbox_ok h dh dw dr df (o <| ob_displaced ::= fun l => l ++ [key] |>).
Proof.
  intros Hok Hon. pose proof (oo_hand _ _ _ _ _ _ Hok) as Hh.
  apply (move_ok ((key, w) :: h) dh dw dr df o); [done|by repeat split| | |apply Hok| |apply Hok|apply Hok|done].
  - unfold queue_keys. cbn [upd ob_held ob_displaced ob_backlogs map fst app].
    rewrite <- !app_assoc. cbn [app]. symmetry. rewrite !app_assoc. rewrite Permutation_middle. by rewrite <- !app_assoc.
  - intros k w' Hkw. apply Hh. by right.
  - intros k w' Hw (H1 & H2 & H3). split_and!; [done| |done]. cbn [upd ob_displaced].
    intros [?|Hk]%elem_of_app; [auto|]. apply list_elem_of_singleton in Hk as ->. rewrite (Hh key w) in Hw by left.
    by injection Hw as ->.
Qed.

(** *** The counts *)

Lemma add_waiting_ok h dh dw dr df o f d :
  outbox_ok h dh dw dr df o -> (forall n, f n = n + d) -> outbox_ok h dh (dw + d) dr df (o <| ob_waiting ::= f |>).
Proof.
  intros Hok Hf. apply (move_ok h dh dw dr df o); try done; try apply Hok. cbn [upd ob_waiting]. rewrite Hf. lia.
Qed.

Lemma add_held_ok h dh dw dr df o f d :
  outbox_ok h dh dw dr df o -> (forall n, f n = n + d) -> outbox_ok h (dh + d) dw dr df (o <| ob_held_live ::= f |>).
Proof.
  intros Hok Hf. apply (move_ok h dh dw dr df o); try done; try apply Hok.
  cbn [upd ob_held_live ob_held]. rewrite Hf, (oo_held _ _ _ _ _ _ Hok). lia.
Qed.

Lemma add_room_ok h dh dw dr df o conn d :
  outbox_ok h dh dw dr df o ->
  outbox_ok h dh dw (room_at conn d dr) df
    (o <| ob_backlogs ::= alter_backlog (fun b => b <| bl_live ::= fun n => n + d |>) conn |>).
Proof.
  intros Hok. cbn [upd]. destruct (Outbox_backlog o conn) as [b|] eqn:Hb.
  - destruct (backlog_Some _ _ _ Hb) as (l1 & l2 & Hs & <- & -> & _). pose proof (oo_conns _ _ _ _ _ _ Hok) as Hn.
    set (b' := mkBacklog _ _ _).
    apply (move_ok h dh dw dr df o); [done|by repeat split| |apply Hok| | |apply Hok| |done].
    + apply Permutation_app_head. rewrite (queue_keys_split o l1 b l2 Hs).
      exact (queue_keys_split (o <| ob_backlogs := l1 ++ b' :: l2 |>) l1 b' l2 eq_refl).
    + cbn [upd ob_backlogs]. rewrite Hs in Hn. rewrite map_app in *. done.
    + intros k w Hw (H1 & H2 & H3). split_and!; [done|done|]. cbn [upd ob_backlogs].
      intros b2 [Hb2|[->|Hb2]%elem_of_cons]%elem_of_app Hk;
        [apply H3; [rewrite Hs; apply elem_of_app; auto|done]| |];
        [apply (H3 b); [rewrite Hs; apply elem_of_app; right; left|done]
        |apply H3; [rewrite Hs; apply elem_of_app; rewrite elem_of_cons; auto|done]].
    + cbn [upd ob_backlogs]. unfold room_at. intros b2 Hb2. assert (b2 ∈ l1 ++ l2 \/ b2 = b') as [Hin| ->].
      { rewrite elem_of_app, elem_of_cons in Hb2. rewrite elem_of_app. tauto. }
      * rewrite decide_False by (by eapply other_conn). rewrite Z.add_0_r. apply Hok. rewrite Hs.
        apply elem_of_app in Hin as [|]; apply elem_of_app; rewrite ?elem_of_cons; auto.
      * cbn [b' bl_conn bl_live bl_waiting]. rewrite decide_True by done. rewrite (oo_room _ _ _ _ _ _ Hok b); [lia|].
        rewrite Hs. apply elem_of_app. right. left.
  - destruct (backlog_None _ _ Hb) as [Hne ->]. apply (move_ok h dh dw dr df o); try done; try apply Hok.
    cbn [ob_backlogs]. unfold room_at. intros b Hin. rewrite decide_False by auto. rewrite (oo_room _ _ _ _ _ _ Hok b Hin). lia.
Qed.

Lemma each_flush_lookup f o id :
  NoDup (ob_flushes o) ->
  ob_flush_states (each_flush f o) !! id
  = (if decide (id ∈ ob_flushes o) then f <$> ob_flush_states o !! id else ob_flush_states o !! id).
Proof.
  cbn [each_flush upd ob_flush_states]. generalize (ob_flush_states o) as states. generalize (ob_flushes o) as ids.
  intros ids states Hn. revert states. induction Hn as [|id' ids Hid Hn IH]; intros states; cbn [foldl].
  - rewrite decide_False by apply not_elem_of_nil. done.
  - rewrite IH. destruct (decide (id = id')) as [->|Hne].
    + rewrite decide_False by done. rewrite decide_True by left. by rewrite lookup_alter_eq.
    + rewrite lookup_alter_ne by done. destruct (decide (id ∈ ids)); [rewrite decide_True by (by right)|
        rewrite decide_False by (rewrite elem_of_cons; naive_solver)]; done.
Qed.

Definition flush_at (number d : Z) (df : Z -> Z) : Z -> Z := fun n => df n + if number <=? n then d else 0.

Lemma flushes_wait_ok h dh dw dr df o number copies :
  outbox_ok h dh dw dr df o ->
  outbox_ok h dh dw dr (flush_at number copies df) (each_flush (fun f =>
    if number <=? fl_last_number f then f <| fl_waiting ::= fun n => n + copies |> else f) o).
Proof.
  intros [Hsl Hh Hn Hk Hc Hon Hfr Hheld Hroom Hwait Hfl Hids].
  split; [by apply (slab_ok_ext o)| | | | | | | | | | |]; try done. intros id f Hid.
  rewrite each_flush_lookup by apply Hids. rewrite decide_True by done.
  destruct (ob_flush_states o !! id) as [f0|] eqn:Hf0; [|done]. specialize (Hfl id f0 Hid Hf0). intros [= Hf].
  assert (Hlast : fl_last_number f = fl_last_number f0) by (subst f; by case_match).
  assert (Hw : fl_waiting f = fl_waiting f0 + if number <=? fl_last_number f0 then copies else 0).
  { subst f. case_match; cbn [fl_waiting]; lia. }
  unfold flush_at. rewrite Hlast, Hw. change (queue_keys (each_flush _ o)) with (queue_keys o).
  rewrite (count_get _ o (each_flush _ o)) by done. lia.
Qed.

(** A flush begins: it counts all that waits. *)
Lemma open_flush_ok o id marks done_ lost confirm_mark :
  outbox_exact o -> id = ob_next_flush o -> id ∉ ob_flushes o ->
  outbox_exact (o <| ob_flush_states ::= <[id := mkFlush (ob_last_number o) (ob_waiting o) marks done_ false lost confirm_mark]> |>
                  <| ob_flushes ::= fun l => l ++ [id] |>).
Proof.
  intros [Hsl Hh Hn Hk Hc Hon Hfr Hheld Hroom Hwait Hfl Hids] Hnext Hnew.
  split; [by apply (slab_ok_ext o)| | | | | | | | | | |]; try done.
  - intros id' f. cbn [upd ob_flushes ob_flush_states]. rewrite elem_of_app, list_elem_of_singleton. intros Hid'.
    destruct (decide (id' = id)) as [->|Hne].
    + rewrite lookup_insert_eq. intros [= <-]. cbn [fl_last_number fl_waiting]. rewrite Hwait, !Z.add_0_r.
      change (count (live_to (ob_last_number o)) o (queue_keys o) <= count alive o (queue_keys o)).
      unfold count. generalize (queue_keys o) as keys. intros keys. induction keys as [|k keys IH]; [done|]. cbn [sum_of].
      unfold weight at 1 3. destruct (Outbox_get o k) as [w|]; [pose proof (live_to_live (ob_last_number o) w)|]; lia.
    + rewrite lookup_insert_ne by done. destruct Hid' as [Hid'|?]; [|done]. apply (Hfl id' f Hid').
  - cbn [upd ob_flushes ob_next_flush]. destruct Hids as [Hn1 Hn2]. split.
    + apply NoDup_app. split_and!; [done| |apply NoDup_singleton]. intros x Hx ->%list_elem_of_singleton. done.
    + intros x. rewrite elem_of_app, list_elem_of_singleton. intros [?| ->]; [auto|lia].
Qed.

(** ** Whole queues *)

Lemma same_queues_trans o o' o'' : same_queues o o' -> same_queues o' o'' -> same_queues o o''.
Proof.
  intros (? & ? & ? & ? & ? & ? & ? & ?) (? & ? & ? & ? & ? & ? & ? & ?). unfold same_queues. split_and!; congruence.
Qed.

Lemma release_same_queues key o : same_queues o (Outbox_release key o).
Proof. unfold Outbox_release. by repeat case_match; repeat split. Qed.

Lemma waits_hand h dh dw dr df o key w :
  outbox_ok ((key, w) :: h) dh dw dr df o -> waits o key = negb (wt_over w).
Proof. intros Hok. unfold waits. by rewrite (oo_hand _ _ _ _ _ _ Hok key w) by left. Qed.

Lemma hand_live_over hq : (forall e, e ∈ hq -> wt_over e.2 = true) -> hand_live hq = 0.
Proof. intros H. apply sum_of_zero. intros e He. unfold alive. by rewrite H. Qed.

Lemma hand_over_live hq : hand_live hq = 0 -> forall e, e ∈ hq -> wt_over e.2 = true.
Proof.
  induction hq as [|e hq IH]; cbn [hand_live sum_of]; intros H e' He'; [by apply elem_of_nil in He'|].
  change (alive e.2 + hand_live hq = 0) in H.
  assert (0 <= hand_live hq) by (apply sum_of_nonneg; intros; apply live_nonneg). pose proof (live_nonneg e.2).
  apply elem_of_cons in He' as [->|He']; [|apply IH; [lia|done]]. unfold alive in *. destruct (wt_over e.2); [done|lia].
Qed.

(** The entries in hand that are over leave the slab. *)
Lemma retain_waiting_ok hq h dh dw dr df o :
  outbox_ok (hq ++ h) dh dw dr df o ->
  exists hk, (retain_waiting (map fst hq) o).1 = map fst hk /\ (forall e, e ∈ hk -> e ∈ hq)
    /\ hand_live hk = hand_live hq /\ same_queues o (retain_waiting (map fst hq) o).2
    /\ outbox_ok (hk ++ h) dh dw dr df (retain_waiting (map fst hq) o).2.
Proof.
  revert h o. induction hq as [|[k w] hq IH]; intros h o Hok; cbn [map fst retain_waiting];
    [exists []; split_and!; done || by repeat split|].
  rewrite (waits_hand _ _ _ _ _ _ _ _ Hok). destruct (wt_over w) eqn:Hov; cbn [negb].
  - destruct (IH h (Outbox_release k o)) as (hk & H1 & H2 & H3 & H4 & H5); [by eapply release_hand_ok|].
    exists hk. split_and!; [done|intros e He; right; auto| |eapply same_queues_trans; [apply release_same_queues|done]|done].
    unfold hand_live in *. cbn [sum_of snd]. unfold alive at 2. rewrite Hov. lia.
  - destruct (IH ((k, w) :: h) o) as (hk & H1 & H2 & H3 & H4 & H5).
    { eapply outbox_ok_hand_perm; [|done]. by rewrite <- Permutation_middle. }
    destruct (retain_waiting _ o) as [kept o']. cbn [fst snd] in *. exists ((k, w) :: hk). split_and!; [simpl; by rewrite H1| | |done|].
    + intros e [->|He]%elem_of_cons; [left|right; auto].
    + unfold hand_live in *. cbn [sum_of snd]. lia.
    + eapply outbox_ok_hand_perm; [|done]. cbn [app]. by rewrite <- Permutation_middle.
Qed.

Lemma release_all_ok hq h dh dw dr df o :
  outbox_ok (hq ++ h) dh dw dr df o -> (forall e, e ∈ hq -> wt_over e.2 = true) ->
  outbox_ok h dh dw dr df (foldl (fun o key => Outbox_release key o) o (map fst hq)).
Proof.
  revert o. induction hq as [|[k w] hq IH]; intros o Hok Hov; cbn [map fst foldl]; [done|].
  apply IH; [|intros e He; apply Hov; by right]. eapply release_hand_ok; [done|]. apply (Hov (k, w)). left.
Qed.

Lemma backlog_removed_ok h dh dw dr df o conn :
  outbox_ok h dh dw dr df o -> (forall b, Outbox_backlog o conn = Some b -> bl_live b = dr conn) ->
  outbox_ok h dh dw dr df
    match Outbox_backlog o conn with
    | None => o
    | Some backlog =>
        foldl (fun o key => Outbox_release key o) (o <| ob_backlogs ::= without_backlog conn |>) (bl_waiting backlog)
    end.
Proof.
  intros Hok Hb. destruct (Outbox_backlog o conn) as [b|] eqn:Hs; [|done]. specialize (Hb b eq_refl).
  destruct (take_out_backlog_ok _ _ _ _ _ _ _ _ Hok Hs) as (hq & <- & _ & _ & Hl & Hok').
  apply release_all_ok; [done|]. apply hand_over_live. lia.
Qed.

(** [clear_out] of entries in hand, whether it clears or not. *)
Lemma clear_out_ok hq h dh dw dr df live_ o :
  outbox_ok (hq ++ h) dh dw dr df o ->
  exists hk, (clear_out (map fst hq) live_ o).1 = map fst hk /\ (forall e, e ∈ hk -> e ∈ hq)
    /\ hand_live hk = hand_live hq /\ same_queues o (clear_out (map fst hq) live_ o).2
    /\ outbox_ok (hk ++ h) dh dw dr df (clear_out (map fst hq) live_ o).2.
Proof.
  intros Hok. unfold clear_out. case_match; [|by apply retain_waiting_ok]. exists hq. split_and!; done || by repeat split.
Qed.

Lemma room_at_zero conn dr dh dw df h o :
  outbox_ok h dh dw (room_at conn 0 dr) df o -> outbox_ok h dh dw dr df o.
Proof. intros Hok. eapply outbox_ok_ext; [done..| |done]. intros conn'. unfold room_at. case_decide; lia. Qed.

Lemma clear_queue_ok h dh dw dr df o on :
  outbox_ok h dh dw dr df o -> outbox_ok h dh dw dr df (clear_queue on o).
Proof.
  intros Hok. unfold clear_queue. destruct on as [conn|].
  - destruct (Outbox_backlog o conn) as [b|] eqn:Hb; [|done].
    destruct (take_backlog_ok _ _ _ _ _ _ _ _ (bl_waiting b) [] Hok Hb) as (hq & Hm & Hon & Hg & Hok'); [by rewrite app_nil_r|].
    rewrite <- Hm. destruct (clear_out_ok hq h _ _ _ _ (bl_live b) _ Hok') as (hk & H1 & H2 & H3 & (E1 & _) & Hok2).
    destruct (clear_out _ _ _) as [queue o2]. cbn [fst snd] in *. subst queue.
    destruct (backlog_Some _ _ _ Hb) as (l1 & l2 & Hs & Hc & Ha & _). cbn [upd] in E1.
    assert (Hb2 : Outbox_backlog o2 conn = Some (b <| bl_waiting := [] |>)).
    { by apply (backlog_alter o o2 conn b (fun b => b <| bl_waiting := [] |>) Hb). }
    pose proof (put_backlog_ok h _ _ _ _ o2 conn _ hk Hok2 Hb2) as Hok3.
    apply (room_at_zero conn). eapply outbox_ok_ext; [|done|done| |done].
    + replace (o2 <| ob_backlogs ::= _ |>) with
        (o2 <| ob_backlogs ::= alter_backlog (fun b => b <| bl_waiting ::= fun l => l ++ map fst hk |>) conn |>);
        [apply Hok3; intros e He; apply Hon; auto|].
      cbn [upd]. f_equal. destruct (backlog_Some _ _ _ Hb2) as (l1' & l2' & _ & _ & Ha' & _). rewrite !Ha'. done.
    + intros conn'. unfold room_at. rewrite H3. case_decide; lia.
  - destruct (take_held_ok _ _ _ _ _ _ (ob_held o) [] Hok) as (hq & Hm & Hon & Hg & Hok'); [by rewrite app_nil_r|].
    rewrite <- Hm. destruct (clear_out_ok hq h _ _ _ _ (ob_held_live o) _ Hok') as (hk & H1 & H2 & H3 & (_ & _ & E3 & _) & Hok2).
    destruct (clear_out _ _ _) as [queue o2]. cbn [fst snd] in *. subst queue.
    pose proof (put_held_ok h _ _ _ _ o2 hk Hok2) as Hok3. eapply outbox_ok_ext; [| |done|done|done]; [|].
    + replace (o2 <| ob_held := map fst hk |>) with (o2 <| ob_held ::= fun l => l ++ map fst hk |>);
        [apply Hok3; intros e He; apply Hon; auto|]. cbn [upd]. by rewrite E3.
    + lia.
Qed.

(** The goal is [H], the outbox written otherwise. *)
Ltac same_outbox H :=
  lazymatch goal with
  | |- outbox_ok _ _ _ _ _ ?a =>
      lazymatch type of H with outbox_ok _ _ _ _ _ ?b => let E := fresh in assert (a = b) as E; [|rewrite E; exact H] end
  end.

(** An entry in hand goes behind the backlog of its connection, counted. *)
Lemma join_backlog_ok h dh dw dr df o conn key w :
  outbox_ok ((key, w) :: h) dh dw dr df o -> wt_on w = Some conn -> wt_over w = false -> dr conn = 0 ->
  outbox_ok h dh dw dr df (join_backlog conn key o).
Proof.
  intros Hok Hon Hov Hdr. unfold join_backlog. destruct (Outbox_backlog o conn) as [b|] eqn:Hb.
  - pose proof (put_backlog_ok h dh dw dr df o conn b [(key, w)] Hok Hb) as Hok1.
    destruct (backlog_Some _ _ _ Hb) as (l1 & l2 & Hs & Hc & Ha & _).
    pose proof (add_room_ok _ _ _ _ _ _ conn 1 (Hok1 ltac:(by intros e ->%list_elem_of_singleton))) as Hok2.
    eapply outbox_ok_ext; [|done|done| |done].
    + same_outbox Hok2. cbn [upd ob_backlogs]. f_equal. rewrite !Ha. cbn [map fst]. subst conn.
      assert (Hl : forall b', b' ∈ l1 -> bl_conn b' <> bl_conn b).
      { intros b' Hb'. eapply other_conn; [apply Hok|done|]. apply elem_of_app. by left. }
      clear -Hl. induction l1 as [|b' l1 IH]; cbn [app alter_backlog].
      * cbn [bl_conn]. rewrite Z.eqb_refl. cbn. f_equal. f_equal. lia.
      * rewrite (proj2 (Z.eqb_neq _ _)) by (apply Hl; left). f_equal. apply IH. intros b2 Hb2. apply Hl. by right.
    + intros conn'. unfold room_at, hand_live. cbn [sum_of snd]. unfold alive. rewrite Hov. case_decide; lia.
  - destruct (backlog_None _ _ Hb) as [Hne _]. pose proof (oo_hand _ _ _ _ _ _ Hok) as Hh.
    assert (Hw : Outbox_get o key = Some w) by (apply Hh; left).
    apply (move_ok ((key, w) :: h) dh dw dr df o); [done|by repeat split| | | | |apply Hok| |done].
    + unfold queue_keys. cbn [upd ob_held ob_displaced ob_backlogs map fst app]. rewrite map_app, concat_app.
      cbn [map concat bl_waiting app]. rewrite <- !app_assoc. cbn [app]. rewrite !app_assoc.
      rewrite <- !(app_assoc _ (ob_displaced o)). apply Permutation_sym, Permutation_cons_app. by rewrite !app_assoc.
    + intros k w' Hkw. apply Hh. by right.
    + cbn [upd ob_backlogs]. rewrite map_app. apply NoDup_app. split_and!; [apply Hok| |apply NoDup_singleton].
      intros x Hx Hx'. apply list_elem_of_singleton in Hx' as ->. apply list_elem_of_fmap in Hx as (b & Hc & Hin).
      by apply (Hne b).
    + intros k w' Hw' (H1 & H2 & H3). split_and!; [done|done|]. cbn [upd ob_backlogs].
      intros b [Hin|Hin]%elem_of_app Hk; [by apply H3|]. apply list_elem_of_singleton in Hin as ->.
      cbn [bl_waiting bl_conn] in *. apply list_elem_of_singleton in Hk as ->. rewrite Hw in Hw'. by injection Hw' as ->.
    + cbn [upd ob_backlogs]. intros b [Hin|Hin]%elem_of_app; [by apply Hok|]. apply list_elem_of_singleton in Hin as ->.
      cbn [bl_live bl_waiting bl_conn]. unfold count. cbn [sum_of]. unfold weight. rewrite Hw. unfold alive. rewrite Hov. lia.
Qed.

(** What waits for [conn] is displaced. *)
Lemma displace_all_ok hq h dh dw dr df o :
  outbox_ok (hq ++ h) dh dw dr df o -> (forall e, e ∈ hq -> is_Some (wt_on e.2)) ->
  outbox_ok h dh dw dr df
    (foldl (fun o key => if waits o key then o <| ob_displaced ::= fun l => l ++ [key] |> else Outbox_release key o)
       o (map fst hq)).
Proof.
  revert o. induction hq as [|[k w] hq IH]; intros o Hok Hon; cbn [map fst foldl]; [done|].
  apply IH; [|intros e He; apply Hon; by right]. rewrite (waits_hand _ _ _ _ _ _ _ _ Hok).
  destruct (wt_over w) eqn:Hov; cbn [negb]; [by eapply release_hand_ok|].
  eapply put_displaced_ok; [done|]. apply (Hon (k, w)). left.
Qed.

(** ** The operations *)

Definition outb h dh dw dr df (c : Core) : Prop := outbox_ok h dh dw dr df (cr_outbox c).
Abbreviation in_hand h := (outb h 0 0 (fun _ => 0) (fun _ => 0)).

Lemma outbox_ok_quiet h dh dw dr df o o' :
  ob_view o' = ob_view o -> flushes_quiet o o' -> outbox_ok h dh dw dr df o -> outbox_ok h dh dw dr df o'.
Proof.
  unfold ob_view. intros [= E1 E2 E3 E4 E5 E6 E7 E8 E9] [Hsub Hfv] [Hsl Hh Hn Hk Hc Hon Hfr Hheld Hroom Hwait Hfl Hids].
  assert (Hget : forall k, Outbox_get o' k = Outbox_get o k) by (intros; by apply Outbox_get_ext).
  assert (Hcount : forall P l, count P o' l = count P o l) by (intros; by apply count_get).
  assert (Hq : queue_keys o' = queue_keys o) by (unfold queue_keys; by rewrite E4, E5, E6).
  split; rewrite ?Hq, ?E4, ?E6, ?E7, ?E8, ?E9, ?Hcount; try done.
  - by apply (slab_ok_ext o).
  - intros k w. rewrite Hget. apply Hh.
  - intros k. by rewrite Hget.
  - intros k w. rewrite Hget. unfold on_ok. rewrite E4, E5, E6. apply Hon.
  - intros k w. rewrite Hget. apply Hfr.
  - intros b. rewrite Hcount. apply Hroom.
  - intros id f Hid Hf. specialize (Hfv id Hid). rewrite Hf in Hfv. cbn in Hfv.
    destruct (ob_flush_states o !! id) as [f0|] eqn:Hf0; [|done]. injection Hfv as Hlast Hw. rewrite Hcount, Hlast, Hw.
    apply (Hfl id f0); [|done]. eapply elem_of_sublist; done.
  - destruct Hids as [Hn1 Hn2]. split; [by eapply sublist_NoDup|]. intros id Hid. apply Hn2. by eapply elem_of_sublist.
Qed.

#[export] Instance outb_quiet h dh dw dr df : Quiet (outb h dh dw dr df).
Proof.
  split; [|by intros conn f _ c Hc]. intros c c' (_ & Hv & Hf & _). unfold outb. by apply outbox_ok_quiet.
Qed.

Lemma outb_modify h dh dw dr df h' dh' dw' dr' df' f :
  (forall o, outbox_ok h dh dw dr df o -> outbox_ok h' dh' dw' dr' df' (f o)) ->
  leads (outb h dh dw dr df) (outb h' dh' dw' dr' df') (mod_outbox f).
Proof. intros Hf c Hc. by apply Hf. Qed.

Lemma outb_weaken h dh dw dr df dh' dw' dr' df' c :
  outb h dh dw dr df c -> dh' = dh -> dw' = dw -> (forall conn, dr' conn = dr conn) -> (forall l, df' l <= df l) ->
  outb h dh' dw' dr' df' c.
Proof. apply outbox_ok_ext. Qed.

Section Outbox.
Context {E : Env}.
#[local] Hint Extern 1 (Quiet _) => exact _ : pres.

#[local] Hint Extern 2 (pres (outb _ _ _ _ _) (mod_outbox _)) =>
  (apply pres_outbox; [exact _|intros ?; split; [reflexivity|split; [reflexivity|intros ? ?; reflexivity]]]) : pres.

Ltac quiet_step := apply leads_then; [pres_tac|intros ?].

(** An entry that waits, as the outbox stores it. *)
Definition waits_now (w : Waiting) : Prop := wt_over w = false /\ is_Some (wt_frame w).

Lemma live_now w : waits_now w -> alive w = 1.
Proof. intros [H _]. unfold alive. by rewrite H. Qed.
Lemma live_to_now n w : waits_now w -> live_to n w = if wt_number w <=? n then 1 else 0.
Proof. intros [H _]. unfold live_to. by rewrite H. Qed.

Lemma store_gives h dh dw dr df w :
  waits_now w ->
  gives (outb h dh dw dr df) (store w)
    (fun key => outb ((key, w) :: h) dh (dw - 1) dr (flush_at (wt_number w) (-1) df)).
Proof.
  intros Hw c Hc. unfold store. destruct (Outbox_store (cr_outbox c) w) as [key o'] eqn:Hst. cbn [fst snd].
  pose proof (slab_store_ok _ _ _ _ _ _ w key o' Hc Hst) as Hok. eapply outbox_ok_ext; [apply Hok; intros _; apply Hw|done| |done|].
  - by rewrite live_now.
  - intros n. cbv beta. rewrite live_to_now by done. unfold flush_at. case_match; lia.
Qed.

Lemma mod_waiting_hand h dh dw dr df f key w :
  waits_now w -> wt_over (f w) = true ->
  leads (outb ((key, w) :: h) dh dw dr df)
        (outb ((key, f w) :: h) dh (dw + 1) dr (flush_at (wt_number w) 1 df)) (mod_waiting key f).
Proof.
  intros Hw Hf. apply outb_modify. intros o Hok.
  eapply outbox_ok_ext; [apply (alter_hand_ok h dh dw dr df o f key w Hok)|done| |done|].
  - by rewrite Hf.
  - rewrite live_now by done. unfold alive. rewrite Hf. lia.
  - intros n. cbv beta. rewrite live_to_now by done. unfold live_to, flush_at. rewrite Hf. case_match; lia.
Qed.

Lemma release_hand h dh dw dr df key w :
  wt_over w = true -> leads (outb ((key, w) :: h) dh dw dr df) (outb h dh dw dr df) (release key).
Proof. intros Hov. apply outb_modify. intros o Hok. by eapply release_hand_ok. Qed.

Lemma waiting_left h dh dw dr df :
  leads (outb h dh (dw + 1) dr df) (outb h dh dw dr df) (mod_outbox (fun o => o <| ob_waiting ::= fun n => n - 1 |>)).
Proof.
  apply outb_modify. intros o Hok. eapply outbox_ok_ext; [apply (add_waiting_ok _ _ _ _ _ _ _ (-1) Hok); lia|done|lia|done|done].
Qed.

Lemma flushes_left h dh dw dr df number :
  leads (outb h dh dw dr (flush_at number 1 df)) (outb h dh dw dr df) (wait_flushes number (-1)).
Proof.
  apply outb_modify. intros o Hok. eapply outbox_ok_ext; [apply (flushes_wait_ok _ _ _ _ _ _ number (-1) Hok)|done|done|done|].
  intros n. unfold flush_at. case_match; lia.
Qed.

Lemma flushes_joined h dh dw dr df number :
  leads (outb h dh dw dr (flush_at number (-1) df)) (outb h dh dw dr df) (wait_flushes number 1).
Proof.
  apply outb_modify. intros o Hok. eapply outbox_ok_ext; [apply (flushes_wait_ok _ _ _ _ _ _ number 1 Hok)|done|done|done|].
  intros n. unfold flush_at. case_match; lia.
Qed.

Lemma outb_held_left h dh dw dr df : leads (outb h (dh + 1) dw dr df) (outb h dh dw dr df) held_left.
Proof.
  unfold held_left. apply (leads_bind _ (outb h dh dw dr df)).
  - apply outb_modify. intros o Hok. eapply outbox_ok_ext; [apply (add_held_ok _ _ _ _ _ _ _ (-1) Hok); lia|lia|done|done|done].
  - intros _. apply pres_leads. pres_tac.
Qed.

Lemma room_left h dh dw dr df conn :
  leads (outb h dh dw (room_at conn 1 dr) df) (outb h dh dw dr df) (mod_backlog conn (fun b => b <| bl_live ::= fun n => n - 1 |>)).
Proof.
  apply outb_modify. intros o Hok. eapply outbox_ok_ext; [apply (add_room_ok _ _ _ _ _ _ conn (-1) Hok)|done|done| |done].
  intros conn'. unfold room_at. case_decide; lia.
Qed.

(** *** A message is given up on *)

(** What [drop_expired] does once its entry is over. *)
Lemma dropped_ok h dh dw dr df on number (frame : option OutFrame) tracker :
  leads (outb h (dh + if decide (on = None) then 1 else 0) (dw + 1)
              (match on with Some conn => room_at conn 1 dr | None => dr end) (flush_at number 1 df))
        (outb h dh dw dr df)
    (match on with
      | Some conn => mod_backlog conn (fun b => b <| bl_live ::= fun n => n - 1 |>)
      | None => held_left
      end ;;;
      mod_outbox (fun o => o <| ob_waiting ::= fun n => n - 1 |>) ;;;
      wait_flushes number (-1) ;;;
      let* unregistered := gets (fun c =>
        match on ≫= fun conn => cr_conns c !! conn with Some state => negb (cn_registered state) | None => false end) in
      let held := bool_decide (on = None) in
      match frame with
      | Some frame => report_drop frame (if held || unregistered then NoConnection else NoRoom)
      | None => ret tt
      end ;;;
      lose_tracker tracker ;;;
      mod_outbox (clear_queue on)).
Proof.
  apply (leads_bind _ (outb h dh (dw + 1) dr (flush_at number 1 df))).
  { destruct on as [conn|].
    - intros c Hc. apply room_left. eapply outb_weaken; [done| |done|done|done]. rewrite decide_False by done. lia.
    - rewrite decide_True by done. apply outb_held_left. }
  intros _. eapply leads_bind; [apply waiting_left|intros _]. eapply leads_bind; [apply flushes_left|intros _].
  do 3 quiet_step. apply outb_modify. intros o Hok. by apply clear_queue_ok.
Qed.

Lemma drop_expired_queued h dh dw dr df c key w :
  outb h dh dw dr df c -> Outbox_get (cr_outbox c) key = Some w -> wt_over w = false ->
  key ∉ map fst h -> key ∉ ob_displaced (cr_outbox c) -> outb h dh dw dr df (drop_expired key c).2.
Proof.
  intros Hc Hget Hov Hnh Hnd. assert (Hw : waits_now w) by (split; [done|by eapply oo_frame]).
  unfold drop_expired, bind at 1, get_waiting, gets. rewrite Hget, bind_tt. apply dropped_ok. unfold outb, mod_waiting.
  set (f := fun w : Waiting => w <| wt_over := true |> <| wt_frame := None |>).
  assert (Hf : wt_over (f w) = true) by done.
  eapply outbox_ok_ext; [apply (alter_queued_ok h dh dw dr df _ f key w Hc Hget Hnh Hnd eq_refl); by rewrite Hf| | | |].
  - rewrite live_now by done. unfold alive. rewrite Hf. by case_decide.
  - rewrite live_now by done. unfold alive. rewrite Hf. lia.
  - intros conn. rewrite live_now by done. unfold alive. rewrite Hf. unfold room_at. destruct (wt_on w) as [conn'|]; [|case_decide; done || lia].
    rewrite (decide_ext (Some conn' = Some conn) (conn = conn')) by naive_solver. case_decide; lia.
  - intros n. cbv beta. rewrite live_to_now by done. unfold live_to, flush_at. rewrite Hf. case_match; lia.
Qed.

(** What is read of an entry in hand. *)
Lemma leads_get_hand {A} h dh dw dr df key w Q (k : option Waiting -> CM A) :
  ((wt_over w = false -> is_Some (wt_frame w)) -> leads (outb ((key, w) :: h) dh dw dr df) Q (k (Some w))) ->
  leads (outb ((key, w) :: h) dh dw dr df) Q (bind (get_waiting key) k).
Proof.
  intros Hk c Hc. assert (Hget : Outbox_get (cr_outbox c) key = Some w) by (eapply oo_hand; [done|left]).
  unfold bind, get_waiting, gets. rewrite Hget. apply Hk; [|done]. by eapply oo_frame.
Qed.

Lemma drop_expired_hand h dh dw dr df key w conn :
  wt_over w = false -> wt_on w = Some conn ->
  leads (outb ((key, w) :: h) dh dw (room_at conn 1 dr) df)
        (outb ((key, w <| wt_over := true |> <| wt_frame := None |>) :: h) dh dw dr df) (drop_expired key).
Proof.
  intros Hov Hon. apply leads_get_hand. intros Hfr.
  eapply leads_bind; [apply (mod_waiting_hand _ _ _ _ _ (fun w => w <| wt_over := true |> <| wt_frame := None |>)); [split|]; auto|].
  intros _. eapply leads_weaken; [| |apply dropped_ok]; [|done]. intros c Hc. rewrite Hon.
  eapply outb_weaken; [done| |done|done|done]. rewrite decide_False by done. lia.
Qed.

Lemma lose_hand h dh dw dr df key w :
  wt_over w = false ->
  leads (outb ((key, w) :: h) (dh + if decide (wt_on w = None) then 1 else 0) dw dr df)
        (outb ((key, w <| wt_over := true |>) :: h) dh dw dr df) (lose key).
Proof.
  intros Hov. apply leads_get_hand. intros Hfr.
  eapply leads_bind; [apply (mod_waiting_hand _ _ _ _ _ (fun w => w <| wt_over := true |>)); [split|]; auto|intros _].
  eapply (leads_bind _ (outb ((key, w <| wt_over := true |>) :: h) dh (dw + 1) dr (flush_at (wt_number w) 1 df))).
  { destruct (decide (wt_on w = None)) as [Hon|Hon].
    - rewrite bool_decide_true by done. apply outb_held_left.
    - rewrite bool_decide_false by done. intros c Hc. eapply outb_weaken; [done|lia|done|done|done]. }
  intros _. eapply leads_bind; [apply waiting_left|intros _]. eapply leads_bind; [apply flushes_left|intros _].
  apply pres_leads. pres_tac.
Qed.

(** *** Placing *)

Lemma outb_conn h dh dw dr df conn f : pres (outb h dh dw dr df) (mod_conn conn f).
Proof. by intros c Hc. Qed.
#[local] Hint Resolve outb_conn : pres.

Lemma outb_process_send_queue h dh dw dr df conn : pres (outb h dh dw dr df) (process_send_queue conn).
Proof. unfold process_send_queue. pres_tac. Qed.
#[local] Hint Resolve outb_process_send_queue : pres.
Lemma outb_schedule h dh dw dr df conn frame force asap : pres (outb h dh dw dr df) (schedule conn frame force asap).
Proof. unfold schedule. pres_tac. Qed.
Lemma outb_take_over h dh dw dr df conn entry : pres (outb h dh dw dr df) (take_over conn entry).
Proof. unfold take_over. pres_tac. Qed.
#[local] Hint Resolve outb_schedule outb_take_over : pres.

Lemma outb_hold h dh dw dr df frame tracker number deadline all lane :
  pres (outb h dh dw dr df) (hold frame tracker number deadline all lane).
Proof.
  apply leads_then; [pres_tac|intros t]. set (w := mkWaiting _ _ _ _ _ _ _ _ _).
  eapply leads_gives; [apply (store_gives _ _ _ _ _ w); split; [done|by eexists]|intros key].
  apply (leads_bind _ (outb h dh dw dr (flush_at number (-1) df))).
  - apply outb_modify. intros o Hok.
    pose proof (put_held_ok h _ _ _ _ o [(key, w)] Hok ltac:(by intros e ->%list_elem_of_singleton)) as Hok1.
    pose proof (add_held_ok _ _ _ _ _ _ (Z.add 1) 1 Hok1 ltac:(lia)) as Hok2.
    pose proof (add_waiting_ok _ _ _ _ _ _ (Z.add 1) 1 Hok2 ltac:(lia)) as Hok3.
    eapply outbox_ok_ext; [exact Hok3| |lia|done|done]. unfold hand_live, alive. cbn [sum_of snd w wt_over]. lia.
  - intros _. eapply leads_bind; [apply flushes_joined|intros _]. apply pres_leads. pres_tac.
Qed.

Lemma outb_place_on h callers conn frame tracker number deadline copy lane :
  pres (in_hand h) (place_on callers conn frame tracker number deadline copy lane).
Proof.
  apply pres_bind; [pres_tac|intros []; cbn [negb]; [|pres_tac]]. apply pres_bind; [pres_tac|intros t].
  apply pres_bind; [pres_tac|intros waiting]. apply pres_bind; [pres_tac|intros []; [pres_tac|]].
  apply pres_bind; [pres_tac|intros []; [pres_tac|]].
  set (w := mkWaiting _ _ _ _ _ _ _ _ _).
  eapply leads_gives; [apply (store_gives _ _ _ _ _ w); split; [done|by eexists]|intros key].
  apply (leads_bind _ (outb h 0 (-1) (fun _ => 0) (flush_at number (-1) (fun _ => 0)))).
  { apply outb_modify. intros o Hok. by eapply join_backlog_ok. }
  intros _. apply (leads_bind _ (outb h 0 0 (fun _ => 0) (flush_at number (-1) (fun _ => 0)))).
  { apply outb_modify. intros o Hok. exact (add_waiting_ok _ _ _ _ _ _ (Z.add 1) 1 Hok ltac:(lia)). }
  intros _. eapply leads_bind; [apply flushes_joined|intros _]. apply pres_leads. pres_tac.
Qed.
#[local] Hint Resolve outb_hold outb_place_on : pres.

#[export] Instance outb_placing h : Placing (in_hand h).
Proof. split; [exact _|]. intros. apply outb_place_on. Qed.
#[local] Hint Extern 1 (Placing _) => exact _ : pres.

(** *** What is held *)

Lemma outb_drop_held tracker : pres (in_hand []) (drop_held tracker).
Proof.
  intros c Hc. unfold drop_held, bind, gets. destruct (head _) as [key|] eqn:Hh; [|done].
  assert (Hin : key ∈ filter (fun key => match Outbox_get (cr_outbox c) key with
      | Some w => negb (wt_over w) && (wt_tracker w =? tracker) | None => false end = true) (ob_held (cr_outbox c))).
  { destruct (filter _ _) as [|k l]; [done|]. injection Hh as ->. left. }
  apply list_elem_of_filter in Hin as [Hm Hin]. destruct (Outbox_get _ key) as [w|] eqn:Hw; [|done].
  apply andb_prop in Hm as [Hov%negb_true_iff _]. apply (drop_expired_queued _ _ _ _ _ _ _ w); [done..| |].
  - apply not_elem_of_nil.
  - intros Hd. pose proof (oo_nodup _ _ _ _ _ _ Hc) as Hn. cbn [map app] in Hn.
    apply NoDup_app in Hn as (_ & _ & Hn). apply NoDup_app in Hn as (_ & Hn & _). by apply (Hn key).
Qed.

(** Placing a message leaves what is held, and the entries of the slab. *)
Definition keeps (l : list WaitKey) (key : WaitKey) (w : Waiting) (c : Core) : Prop :=
  slab_ok (cr_outbox c) /\ ob_held (cr_outbox c) = l /\ Outbox_get (cr_outbox c) key = Some w.

Lemma keeps_outbox f l key w :
  (forall o, ob_slab (f o) = ob_slab o /\ ob_generations (f o) = ob_generations o /\ ob_free (f o) = ob_free o
             /\ ob_held (f o) = ob_held o) -> pres (keeps l key w) (mod_outbox f).
Proof.
  intros Hf c (Hsl & Hheld & Hget). destruct (Hf (cr_outbox c)) as (E1 & E2 & E3 & E4).
  split_and!; [by apply (slab_ok_ext (cr_outbox c))|by rewrite <- Hheld|by rewrite <- Hget; apply Outbox_get_ext].
Qed.

#[export] Instance keeps_placing l key w : Placing (keeps l key w).
Proof.
  assert (Hq : Quiet (keeps l key w)).
  { split; [|by intros conn f _ c Hc]. intros c c' (_ & Hv & _) (Hsl & Hh & Hget). unfold ob_view in Hv.
    injection Hv as E1 E2 E3 _ _ E6 _ _. split_and!; [by apply (slab_ok_ext (cr_outbox c))|congruence|].
    by rewrite (Outbox_get_ext (cr_outbox c)). }
  split; [done|]. intros.
  assert (Hconn : forall conn f, pres (keeps l key w) (mod_conn conn f)) by (by intros ? ? c Hc).
  assert (Hstore : forall w', pres (keeps l key w) (store w')).
  { intros w' c (Hsl & Hh & Hget). unfold store. pose proof (Outbox_store_spec (cr_outbox c) w' Hsl) as Hst.
    destruct (Outbox_store _ w') as [key' o']. destruct Hst as (Hsl' & Hnone & (_ & _ & E3 & _) & Hget').
    split_and!; [done|cbn [snd upd cr_outbox]; congruence|]. cbn [snd upd cr_outbox]. rewrite Hget', decide_False; [done|].
    intros ->. congruence. }
  assert (Hjoin : forall conn key', pres (keeps l key w) (mod_outbox (join_backlog conn key'))) by (by intros; apply keeps_outbox).
  assert (Hmod : forall f, pres (keeps l key w) (mod_outbox (fun o => o <| ob_waiting ::= f |>))) by (by intros; apply keeps_outbox).
  assert (Hwait : forall number copies, pres (keeps l key w) (wait_flushes number copies)) by (by intros; apply keeps_outbox).
  unfold place_on, take_over, process_send_queue. pres_tac.
Qed.

(** The first held entry, taken out of the queue. *)
Lemma pop_held_ok c key rest w :
  in_hand [] c -> keeps (key :: rest) key w c ->
  wt_on w = None /\ outb [(key, w)] (alive w) 0 (fun _ => 0) (fun _ => 0) (mod_outbox (fun o => o <| ob_held := rest |>) c).2.
Proof.
  intros Hc (_ & Hheld & Hw). destruct (take_held_ok _ _ _ _ _ _ [key] rest Hc Hheld) as (hq & Hm & Hon & Hg & Hok).
  destruct hq as [|[k w'] [|]]; [done| |done]. injection Hm as ->. rewrite (Hg key w') in Hw by left. injection Hw as ->.
  split; [apply (Hon (key, w)); left|]. unfold outb. eapply outbox_ok_ext; [exact Hok| |done|done|done].
  unfold hand_live. cbn [sum_of snd]. lia.
Qed.

(** A held message was placed: it is over, and leaves. *)
Lemma place_held_leaves key w number :
  waits_now w -> number = wt_number w ->
  leads (outb [(key, w)] 1 0 (fun _ => 0) (fun _ => 0)) (in_hand [])
    (mod_waiting key (fun w => w <| wt_over := true |>) ;;; release key ;;; held_left ;;;
     mod_outbox (fun o => o <| ob_waiting ::= fun n => n - 1 |>) ;;; wait_flushes number (-1) ;;;
     mod_outbox (fun o => o <| ob_retries ::= Z.add 1 |>) ;;; ret true).
Proof.
  intros Hw ->. eapply leads_bind; [by apply mod_waiting_hand|intros _]. eapply leads_bind; [by apply release_hand|intros _].
  eapply leads_bind; [apply (outb_held_left _ 0)|intros _]. eapply leads_bind; [apply (waiting_left _ _ 0)|intros _].
  eapply leads_bind; [apply flushes_left|intros _]. apply pres_leads. pres_tac.
Qed.

Lemma outb_place_held_turn : pres (in_hand []) place_held_turn.
Proof.
  intros c Hc. unfold place_held_turn, bind at 1, gets. destruct (ob_held (cr_outbox c)) as [|key rest] eqn:HH; [done|].
  destruct (proj1 (oo_keys _ _ _ _ _ _ Hc key)) as [w Hw].
  { unfold queue_keys. rewrite HH, !elem_of_app. right. right. right. left. }
  assert (Hk : keeps (key :: rest) key w c) by (split_and!; [apply Hc|done|done]). rewrite Hw.
  destruct (wt_over w) eqn:Hov.
  - rewrite !bind_tt. apply (release_hand _ _ _ _ _ _ w Hov). destruct (pop_held_ok c key rest w Hc Hk) as [_ Hok].
    unfold alive in Hok. by rewrite Hov in Hok.
  - assert (Hnow : waits_now w) by (split; [done|by eapply oo_frame]). destruct (wt_frame w) as [frame|]; [|done].
    match goal with |- context [bind (place_now ?a ?b ?d ?e ?f ?g ?h) _] => set (m := place_now a b d e f g h) end.
    assert (Hc' : in_hand [] (m c).2) by (apply place_now_pres; [exact _|done]).
    assert (Hk' : keeps (key :: rest) key w (m c).2) by (apply place_now_pres; [exact _|done]).
    unfold bind at 1. destruct (m c) as [p c']. cbn [snd] in *. clear m. destruct (pop_held_ok c' key rest w Hc' Hk') as [Hon Hok].
    assert (Hlive : alive w = 1) by (by apply live_now). rewrite Hlive in Hok.
    destruct (negb (pc_placed p)); [destruct (pc_refused p); [|done]|]; rewrite bind_tt.
    + rewrite !bind_tt. apply (release_hand _ _ _ _ _ _ (w <| wt_over := true |>)); [done|]. apply lose_hand; [done|].
      by rewrite Hon.
    + unfold bind at 1, gets. rewrite bind_tt. apply (place_held_leaves key w); [done|done|].
      apply pres_leads; [pres_tac|done].
Qed.

Lemma outb_place_held : pres (in_hand []) place_held.
Proof. unfold place_held. pres_tac. apply outb_place_held_turn. Qed.

(** *** The backlogs *)

(** A message of a backlog goes into its connection's queue. *)
Lemma has_room_leaves conn key w entry :
  waits_now w ->
  leads (outb [(key, w)] 0 0 (room_at conn 1 (fun _ => 0)) (fun _ => 0)) (in_hand [])
    (mod_waiting key (fun w => w <| wt_over := true |>) ;;; release key ;;;
     mod_backlog conn (fun b => b <| bl_live ::= fun n => n - 1 |>) ;;;
     mod_outbox (fun o => o <| ob_waiting ::= fun n => n - 1 |> <| ob_retries ::= Z.add 1 |>) ;;;
     let* _ := take_over conn entry in
     wait_flushes (wt_number w) (-1) ;;; queued (wt_number w) (wt_tracker w) conn ;;; ret true).
Proof.
  intros Hw. eapply leads_bind; [by apply mod_waiting_hand|intros _]. eapply leads_bind; [by apply release_hand|intros _].
  eapply leads_bind; [apply room_left|intros _]. eapply leads_bind.
  { apply (outb_modify _ _ _ _ _ [] 0 0 (fun _ => 0) (flush_at (wt_number w) 1 (fun _ => 0))). intros o Hok.
    pose proof (add_waiting_ok _ _ _ _ _ _ (fun n => n - 1) (-1) Hok (fun n => eq_refl)) as Hok1.
    eapply outbox_ok_quiet; [| |eapply outbox_ok_ext; [exact Hok1|done|lia|done|done]]; [done|by split]. }
  intros _. apply leads_then; [pres_tac|intros _]. eapply leads_bind; [apply flushes_left|intros _]. apply pres_leads. pres_tac.
Qed.

Lemma outb_has_room_turn conn : pres (in_hand []) (has_room_turn conn).
Proof.
  intros c Hc. unfold has_room_turn, bind at 1, gets, id. destruct (Outbox_backlog (cr_outbox c) conn) as [b|] eqn:Hb; [|done].
  destruct (bl_live b =? 0); [done|]. case_match; [done|]. destruct (bl_waiting b) as [|key rest] eqn:Hq; [done|].
  destruct (take_backlog_ok _ _ _ _ _ _ _ _ [key] rest Hc Hb Hq) as (hq & Hm & Hon & Hg & Hok).
  destruct hq as [|[k w] [|]]; [done| |done]. injection Hm as ->. rewrite (Hg key w) by left.
  specialize (Hon (key, w) ltac:(left)). cbn [app snd] in Hon, Hok. rewrite bind_tt.
  set (c' := (mod_backlog conn _ c).2). destruct (wt_over w) eqn:Hov.
  - rewrite bind_tt. apply (release_hand _ _ _ _ _ _ w Hov). apply (room_at_zero conn).
    eapply outbox_ok_ext; [exact Hok|done|done| |done]. intros conn'. unfold room_at, hand_live. cbn [sum_of snd].
    unfold alive. rewrite Hov. done.
  - assert (Hc' : outb [(key, w)] 0 0 (room_at conn 1 (fun _ => 0)) (fun _ => 0) c').
    { eapply outbox_ok_ext; [exact Hok|done|done| |done]. intros conn'. unfold room_at, hand_live. cbn [sum_of snd].
      unfold alive. rewrite Hov. done. }
    match goal with |- context [if ?b then _ else _] => destruct b end; [|destruct (wt_frame w) as [frame|] eqn:Hfr].
    + rewrite !bind_tt. apply (release_hand _ _ _ _ _ _ (w <| wt_over := true |> <| wt_frame := None |>)); [done|].
      by apply (drop_expired_hand _ _ _ _ _ _ _ conn).
    + apply has_room_leaves; [split; [done|by rewrite Hfr; eexists]|done].
    + destruct (oo_frame _ _ _ _ _ _ Hc' key w) as [? ?]; [eapply oo_hand; [done|left]|done|congruence].
Qed.

Lemma outb_remove_backlog c conn :
  in_hand [] c -> (forall b, Outbox_backlog (cr_outbox c) conn = Some b -> bl_live b = 0) -> in_hand [] (remove_backlog conn c).2.
Proof. intros Hc Hb. exact (backlog_removed_ok _ _ _ _ _ _ conn Hc Hb). Qed.

Lemma outb_has_room conn : pres (in_hand []) (outgoing_queue_has_room conn).
Proof.
  unfold outgoing_queue_has_room. apply pres_bind; [pres_tac|intros turns].
  apply pres_bind; [apply pres_loop_m, outb_has_room_turn|intros _].
  intros c Hc. unfold bind at 1, gets. apply pres_bind_2; [|intros _; pres_tac].
  unfold when. case_match; [|done]. apply outb_remove_backlog; [done|]. intros b Hb. rewrite Hb in *. lia.
Qed.

Lemma outb_displace conn : pres (in_hand []) (displace conn).
Proof.
  intros c Hc. unfold displace, mod_outbox, modify, outb. cbn [snd upd cr_outbox].
  destruct (Outbox_backlog (cr_outbox c) conn) as [b|] eqn:Hb; [|done].
  destruct (take_out_backlog_ok _ _ _ _ _ _ _ _ Hc Hb) as (hq & <- & Hon & _ & _ & Hok).
  apply displace_all_ok; [done|]. intros e He. rewrite (Hon e He). by eexists.
Qed.

Lemma rehold_hand h key w all :
  is_Some (wt_on w) -> wt_over w = false -> leads (in_hand ((key, w) :: h)) (in_hand h) (rehold key all).
Proof.
  intros Hon Hov. unfold rehold. set (f := fun w : Waiting => w <| wt_on := None |> <| wt_copy := false |> <| wt_all := all |>).
  apply (leads_bind _ (in_hand ((key, f w) :: h))).
  - apply outb_modify. intros o Hok. assert (Hfr : is_Some (wt_frame w)).
    { apply (oo_frame _ _ _ _ _ _ Hok key); [|done]. eapply oo_hand; [done|left]. }
    eapply outbox_ok_ext; [by apply (alter_hand_ok h 0 0 (fun _ => 0) (fun _ => 0) o f key w Hok)|done| |done|].
    + unfold alive. cbn [f upd wt_over]. lia.
    + intros n. cbv beta. unfold live_to. cbn [f upd wt_over wt_number]. lia.
  - intros _. apply outb_modify. intros o Hok.
    pose proof (put_held_ok h _ _ _ _ o [(key, f w)] Hok ltac:(by intros e ->%list_elem_of_singleton)) as Hok1.
    pose proof (add_held_ok _ _ _ _ _ _ (Z.add 1) 1 Hok1 ltac:(lia)) as Hok2.
    eapply outbox_ok_ext; [exact Hok2| |done|done|done]. unfold hand_live, alive. cbn [sum_of snd f upd wt_over]. rewrite Hov. lia.
Qed.

Lemma outb_replace_one conn shuts_down h key w :
  is_Some (wt_on w) -> leads (in_hand ((key, w) :: h)) (in_hand h) (replace_one conn shuts_down key).
Proof.
  intros Hon. unfold replace_one. apply leads_get_hand. intros Hfr. destruct (wt_over w) eqn:Hov; [by apply release_hand|].
  destruct (wt_frame w) as [frame|] eqn:Hf; [|by destruct (Hfr eq_refl)].
  assert (Hw : waits_now w) by (by split; [|rewrite Hf; eexists]).
  assert (Hlose : leads (in_hand ((key, w) :: h)) (in_hand h) (lose key ;;; release key)).
  { apply (leads_bind _ (in_hand ((key, w <| wt_over := true |>) :: h))); [|intros _; by apply release_hand].
    eapply leads_weaken; [| |by apply lose_hand]; [|done]. intros c Hc. eapply outb_weaken; [done| |done|done|done].
    rewrite decide_False; [done|]. intros Hnone. rewrite Hnone in Hon. by destruct Hon. }
  destruct (of_pinned frame || shuts_down); [done|]. destruct (wt_copy w).
  - apply leads_then; [pres_tac|intros whole]. case_match; [done|]. destruct whole; [|by apply rehold_hand].
    eapply leads_bind; [by apply mod_waiting_hand|intros _]. eapply leads_bind; [apply (waiting_left _ _ 0)|intros _].
    eapply leads_bind; [apply flushes_left|intros _]. apply leads_then; [unfold supersede; pres_tac|intros _]. by apply release_hand.
  - destruct conn as [conn|]; [|by apply rehold_hand].
    eapply leads_bind; [by apply mod_waiting_hand|intros _]. eapply leads_bind; [by apply release_hand|intros _].
    eapply leads_bind; [apply (waiting_left _ _ 0)|intros _]. eapply leads_bind; [apply flushes_left|intros _].
    apply pres_leads. pres_tac.
Qed.

Lemma outb_replace_displaced conn : pres (in_hand []) (replace_displaced conn).
Proof.
  unfold replace_displaced. apply pres_bind; [pres_tac|intros shuts_down]. intros c Hc. unfold bind at 1, gets.
  destruct (take_displaced_ok _ _ _ _ _ _ Hc) as (hq & <- & Hon & Hok). rewrite bind_tt, app_nil_r in *.
  set (I := fun keys c => exists hq : list (WaitKey * Waiting),
    map fst hq = keys /\ (forall e, e ∈ hq -> is_Some (wt_on e.2)) /\ in_hand hq c).
  assert (Hc' : I (map fst hq) (mod_outbox (fun o => o <| ob_displaced := [] |>) c).2) by (by exists hq).
  revert Hc'. generalize (mod_outbox (fun o => o <| ob_displaced := [] |>) c).2. clear c Hc Hon Hok.
  apply (leads_bind _ (I [])); [apply leads_for_each|].
  - intros key l c (hq' & Hm & Hon & Hc). destruct hq' as [|[k w] hq']; [done|]. injection Hm as -> <-.
    exists hq'. split_and!; [done|intros e He; apply Hon; by right|]. apply outb_replace_one with (w := w); [|done].
    apply (Hon (key, w)). left.
  - intros _ c (hq' & Hm & _ & Hc). destruct hq'; [|done]. apply (check_flushes_pres (in_hand [])); done || exact _.
Qed.

(** *** The end of it all *)

Lemma take_all_ok o :
  outbox_exact o ->
  exists hq, map fst hq = queue_keys o
    /\ outbox_ok hq (ob_held_live o) 0 (fun _ => 0) (fun _ => 0)
         (o <| ob_backlogs := [] |> <| ob_displaced := [] |> <| ob_held := [] |>).
Proof.
  intros Hok. destruct (known_ok _ _ _ _ _ _ (queue_keys o) Hok) as (hq & Hm & Hg & _); [done|].
  exists hq. split; [done|]. eapply (move_ok [] 0 0 (fun _ => 0) (fun _ => 0) o); [done|by repeat split| |done| | | | |done].
  - rewrite Hm. unfold queue_keys. cbn [upd ob_backlogs ob_displaced ob_held map concat app]. by rewrite app_nil_r.
  - constructor.
  - intros k w _ _. unfold on_ok. cbn [upd ob_backlogs ob_displaced ob_held]. split_and!; [| |intros b]; by intros ?%elem_of_nil.
  - cbn [upd ob_held_live ob_held]. unfold count. cbn [sum_of]. lia.
  - by intros b ?%elem_of_nil.
Qed.

Definition no_queues (c : Core) : Prop :=
  ob_backlogs (cr_outbox c) = [] /\ ob_displaced (cr_outbox c) = [] /\ ob_held (cr_outbox c) = [].

#[local] Instance no_queues_quiet : Quiet no_queues.
Proof.
  split; [|by intros conn f _ c Hc]. intros c c' (_ & Hv & _) (H1 & H2 & H3). unfold ob_view in Hv.
  injection Hv as _ _ _ E4 E5 E6 _ _ _. unfold no_queues. by rewrite E4, E5, E6.
Qed.

Lemma no_queues_outbox f : (forall o, same_queues o (f o)) -> pres no_queues (mod_outbox f).
Proof.
  intros Hf c (H1 & H2 & H3). destruct (Hf (cr_outbox c)) as (E1 & E2 & E3 & _).
  split_and!; [by rewrite <- H1|by rewrite <- H2|by rewrite <- H3].
Qed.

Lemma alter_same_queues f key o : same_queues o (Outbox_alter f key o).
Proof. unfold Outbox_alter. by case_match; repeat split. Qed.

Lemma no_queues_drop_one key : pres no_queues (drop_one key).
Proof.
  assert (Ha : forall key f, pres no_queues (mod_waiting key f)) by (intros; apply no_queues_outbox, alter_same_queues).
  assert (Hr : forall key, pres no_queues (release key)) by (intros; apply no_queues_outbox, release_same_queues).
  unfold drop_one. pres_tac.
Qed.

Lemma outb_drop_one h dh dw key w :
  leads (outb ((key, w) :: h) dh dw (fun _ => 0) (fun _ => 0)) (fun c => exists dw, outb h dh dw (fun _ => 0) (fun _ => 0) c)
    (drop_one key).
Proof.
  unfold drop_one. apply leads_get_hand. intros Hfr. destruct (wt_over w) eqn:Hov.
  - intros c Hc. exists dw. by apply (release_hand _ _ _ _ _ _ w).
  - eapply (leads_weaken _ _ _ (outb h dh (dw + 1) (fun _ => 0) (flush_at (wt_number w) 1 (fun _ => 0)))); [done| |].
    + intros c Hc. exists (dw + 1). eapply outb_weaken; [done..|]. intros n. unfold flush_at. case_match; lia.
    + eapply leads_bind; [apply (mod_waiting_hand _ _ _ _ _ (fun w => w <| wt_over := true |>)); [split|]; auto|intros _].
      do 2 quiet_step. by apply release_hand.
Qed.

Lemma outb_drop_outbox : pres (in_hand []) drop_outbox.
Proof.
  intros c Hc. unfold drop_outbox, bind at 1, gets.
  change (concat _ ++ ob_displaced (cr_outbox c) ++ ob_held (cr_outbox c)) with (queue_keys (cr_outbox c)).
  destruct (take_all_ok _ Hc) as (hq & <- & Hok). rewrite bind_tt.
  set (I := fun keys c => no_queues c /\ exists hq dh dw, map fst hq = keys /\ outb hq dh dw (fun _ => 0) (fun _ => 0) c).
  match goal with |- in_hand [] (bind _ _ (?m c).2).2 =>
    assert (Hc' : I (map fst hq) (m c).2) by (split; [done|by exists hq, (ob_held_live (cr_outbox c)), 0]);
    revert Hc'; generalize (m c).2 end. clear c Hc Hok.
  apply (leads_bind _ (I [])); [apply leads_for_each|].
  - intros key l c (Hno & hq' & dh & dw & Hm & Hc). destruct hq' as [|[k w] hq']; [done|]. injection Hm as -> <-.
    split; [by apply no_queues_drop_one|]. destruct (outb_drop_one hq' dh dw key w c Hc) as (dw' & Hc'). by exists hq', dh, dw'.
  - intros _. apply (leads_bind _ (in_hand [])); [|intros _; apply pres_leads; pres_tac].
    intros c ((H1 & H2 & H3) & hq' & dh & dw & Hm & Hok). destruct hq'; [|done]. unfold outb in Hok.
    eapply (outbox_ok_quiet _ _ _ _ _ ((cr_outbox c) <| ob_held_live := 0 |> <| ob_waiting := 0 |>)); [done|by split|].
    apply (move_ok [] dh dw (fun _ => 0) (fun _ => 0) (cr_outbox c)); [done|by repeat split|done|apply Hok|apply Hok|done| | |].
    + cbn [upd ob_held_live ob_held]. by rewrite H3.
    + cbn [upd ob_backlogs]. rewrite H1. by intros b ?%elem_of_nil.
    + cbn [upd ob_waiting]. rewrite (oo_waiting _ _ _ _ _ _ Hok). unfold queue_keys. rewrite H1, H2, H3. unfold count. simpl. lia.
Qed.

(** *** Flushes *)

(** The flush [id] is about to begin. *)
Definition next_is (id : Z) (c : Core) : Prop :=
  ob_next_flush (cr_outbox c) = id /\ forall id', id' ∈ ob_flushes (cr_outbox c) -> id' < id.

#[local] Instance next_is_quiet id : Quiet (next_is id).
Proof.
  split; [|by intros conn f _ c Hc]. intros c c' (_ & Hv & (Hsub & _) & _) (H1 & H2). unfold ob_view in Hv.
  injection Hv as _ _ _ _ _ _ _ _ E9. split; [congruence|]. intros id' Hid. apply H2. by eapply elem_of_sublist.
Qed.

Lemma outb_open_flush lost done_ : pres (in_hand []) (open_flush lost done_).
Proof.
  intros c Hc. unfold open_flush. rewrite bind_tt. set (c1 := (mod_outbox _ c).2).
  assert (Hc1 : in_hand [] c1).
  { destruct Hc as [Hsl Hh Hn Hk Hcs Hon Hfr Hheld Hroom Hwait Hfl Hids].
    split; [by apply (slab_ok_ext (cr_outbox c))| | | | | | | | | | |]; try done. destruct Hids as [Hi1 Hi2]. split; [done|].
    intros id Hid. specialize (Hi2 id Hid). cbn [c1 mod_outbox modify snd upd cr_outbox ob_next_flush]. lia. }
  assert (Hn1 : next_is (ob_next_flush (cr_outbox c1)) c1).
  { split; [done|]. intros id Hid. destruct (oo_ids _ _ _ _ _ _ Hc) as [_ Hids].
    specialize (Hids id Hid). cbn [c1 mod_outbox modify snd upd cr_outbox ob_next_flush]. lia. }
  unfold bind at 1, gets at 1. generalize dependent (ob_next_flush (cr_outbox c1)). intros id Hn1. clearbody c1. clear c Hc.
  unfold bind at 1, gets at 1. set (m := fold_m _ _ _).
  assert (Hm : forall I, Quiet I -> pres I m) by (intros I HI; unfold m; pres_tac).
  pose proof (Hm _ _ c1 Hc1) as Hc2. pose proof (Hm _ _ c1 Hn1) as [Hn2 Hn3]. unfold bind at 1. destruct (m c1) as [marks c2].
  cbn [snd] in *. unfold bind at 1, gets. rewrite bind_tt. apply open_flush_ok; [done|done|].
  intros Hid. specialize (Hn3 id Hid). lia.
Qed.

(** *** The invariant over all operations but those that displace *)

#[export] Instance outb_stable : Stable (in_hand []).
Proof.
  split; try exact _; intros.
  - apply outb_schedule.
  - apply outb_take_over.
  - apply outb_hold.
  - apply outb_drop_held.
  - apply outb_place_held.
  - apply outb_has_room.
  - apply outb_replace_displaced.
  - apply outb_drop_outbox.
  - apply outb_open_flush.
Qed.

#[export] Instance outb_displacing : Displacing (in_hand []).
Proof. split; [exact _|]. apply outb_displace. Qed.

Definition none_displaced (c : Core) : Prop := ob_displaced (cr_outbox c) = [].

#[export] Instance none_displaced_quiet : Quiet none_displaced.
Proof.
  split; [|by intros conn f _ c Hc]. intros c c' (_ & Hv & _) H. unfold ob_view in Hv.
  injection Hv as _ _ _ _ E5 _ _ _ _. unfold none_displaced. by rewrite E5.
Qed.

Lemma none_displaced_outbox f :
  (forall o, ob_displaced (f o) = ob_displaced o \/ ob_displaced (f o) = []) -> pres none_displaced (mod_outbox f).
Proof. intros Hf c Hc. unfold none_displaced in *. cbn. by destruct (Hf (cr_outbox c)) as [-> | ->]. Qed.

Lemma retain_waiting_same queue o : same_queues o (retain_waiting queue o).2.
Proof.
  revert o. induction queue as [|key queue IH]; intros o; cbn [retain_waiting]; [by repeat split|]. case_match.
  - specialize (IH o). by destruct (retain_waiting queue o).
  - eapply same_queues_trans; [apply release_same_queues|apply IH].
Qed.

Lemma clear_queue_displaced on o : ob_displaced (clear_queue on o) = ob_displaced o.
Proof.
  assert (Hc : forall q l o, ob_displaced (clear_out q l o).2 = ob_displaced o).
  { intros q l o'. unfold clear_out. case_match; [done|]. apply retain_waiting_same. }
  unfold clear_queue. destruct on; [case_match; [|done]|]; destruct (clear_out _ _ _) as [q' o'] eqn:Hq; cbn;
    apply (f_equal snd) in Hq; cbn [snd] in Hq; subst o'; by rewrite Hc.
Qed.

Lemma release_all_displaced keys o :
  ob_displaced (foldl (fun o key => Outbox_release key o) o keys) = ob_displaced o.
Proof.
  revert o. induction keys as [|key keys IH]; intros o; cbn [foldl]; [done|]. rewrite IH. apply release_same_queues.
Qed.

Lemma none_displaced_keep f : (forall o, ob_displaced (f o) = ob_displaced o) -> pres none_displaced (mod_outbox f).
Proof. intros Hf. apply none_displaced_outbox. intros o. by left. Qed.

#[local] Hint Extern 3 (pres none_displaced (mod_outbox _)) => (apply none_displaced_outbox; intros ?; (by left) || (by right)) : pres.

Lemma nd_conn conn f : pres none_displaced (mod_conn conn f).
Proof. by intros c Hc. Qed.
Lemma nd_store w : pres none_displaced (store w).
Proof. intros c Hc. unfold none_displaced, store, Outbox_store in *. by destruct (ob_free (cr_outbox c)). Qed.
Lemma nd_waiting key f : pres none_displaced (mod_waiting key f).
Proof. apply none_displaced_keep. intros o. apply alter_same_queues. Qed.
Lemma nd_release key : pres none_displaced (release key).
Proof. apply none_displaced_keep. intros o. apply release_same_queues. Qed.
Lemma nd_backlog conn f : pres none_displaced (mod_backlog conn f).
Proof. by apply none_displaced_keep. Qed.
Lemma nd_wait_flushes number copies : pres none_displaced (wait_flushes number copies).
Proof. by apply none_displaced_keep. Qed.
Lemma nd_clear_queue on : pres none_displaced (mod_outbox (clear_queue on)).
Proof. apply none_displaced_keep. intros o. apply clear_queue_displaced. Qed.
Lemma nd_remove_backlog conn : pres none_displaced (remove_backlog conn).
Proof. apply none_displaced_keep. intros o. case_match; [|done]. by rewrite release_all_displaced. Qed.
#[local] Hint Resolve nd_conn nd_store nd_waiting nd_release nd_backlog nd_wait_flushes nd_clear_queue nd_remove_backlog : pres.
Lemma nd_held_left : pres none_displaced held_left.
Proof. unfold held_left. pres_tac. Qed.
Lemma nd_process_send_queue conn : pres none_displaced (process_send_queue conn).
Proof. unfold process_send_queue. pres_tac. Qed.
#[local] Hint Resolve nd_held_left nd_process_send_queue : pres.
Lemma nd_take_over conn entry : pres none_displaced (take_over conn entry).
Proof. unfold take_over. pres_tac. Qed.
#[local] Hint Resolve nd_take_over : pres.
Lemma nd_drop_expired key : pres none_displaced (drop_expired key).
Proof. unfold drop_expired. pres_tac. Qed.
Lemma nd_lose key : pres none_displaced (lose key).
Proof. unfold lose. pres_tac. Qed.
Lemma nd_rehold key all : pres none_displaced (rehold key all).
Proof. unfold rehold. pres_tac. Qed.
Lemma nd_supersede tracker : pres none_displaced (supersede tracker).
Proof. unfold supersede. pres_tac. Qed.
#[local] Hint Resolve nd_drop_expired nd_lose nd_rehold nd_supersede : pres.

#[export] Instance none_displaced_placing : Placing none_displaced.
Proof. split; [exact _|]. intros. unfold place_on. pres_tac. Qed.

#[export] Instance none_displaced_stable : Stable none_displaced.
Proof.
  split; try exact _; intros.
  - unfold schedule. pres_tac.
  - apply nd_take_over.
  - unfold hold. pres_tac.
  - unfold drop_held. pres_tac.
  - unfold place_held, place_held_turn. pres_tac.
  - unfold outgoing_queue_has_room, has_room_turn. pres_tac.
  - unfold replace_displaced, replace_one. pres_tac.
  - unfold drop_outbox, drop_one. pres_tac.
  - unfold open_flush. pres_tac.
Qed.

(** *** Deadlines *)

(** The outbox between two operations. *)
Definition outbox_counted (c : Core) : Prop := in_hand [] c /\ none_displaced c.

#[export] Instance counted_stable : Stable outbox_counted.
Proof. apply (and_stable (in_hand []) none_displaced). Qed.
#[local] Hint Extern 1 (Stable _) => exact _ : pres.

Lemma counted_drop_expired c key :
  outbox_counted c -> waits (cr_outbox c) key = true -> outbox_counted (drop_expired key c).2.
Proof.
  intros [Hc Hd] Hw. split; [|by apply nd_drop_expired]. unfold waits in Hw.
  destruct (Outbox_get (cr_outbox c) key) as [w|] eqn:Hget; [|done]. apply negb_true_iff in Hw.
  apply (drop_expired_queued _ _ _ _ _ _ _ w); [done..|apply not_elem_of_nil|]. rewrite Hd. apply not_elem_of_nil.
Qed.

Lemma counted_expire_turn : pres outbox_counted expire_turn.
Proof.
  intros c Hc. unfold expire_turn, bind at 1, gets, id. destruct (ob_expiring (cr_outbox c)) as [|[deadline key] heap]; [done|].
  case_match; [done|]. rewrite !bind_tt. set (c' := (mod_outbox _ c).2). assert (Hc' : outbox_counted c').
  { destruct Hc as [Hc Hd]. split; [|done]. apply (outbox_ok_quiet _ _ _ _ _ (cr_outbox c)); [done|by split|done]. }
  unfold when. destruct (waits (cr_outbox c) key) eqn:Hw; [|done]. by apply counted_drop_expired.
Qed.

(** The backlogs of [conns] have nothing left that waits. *)
Definition emptied (conns : list Z) (c : Core) : Prop :=
  outbox_counted c /\ forall b, b ∈ ob_backlogs (cr_outbox c) -> bl_conn b ∈ conns -> bl_live b = 0.

Lemma release_all_backlogs keys o : ob_backlogs (foldl (fun o key => Outbox_release key o) o keys) = ob_backlogs o.
Proof.
  revert o. induction keys as [|key keys IH]; intros o; cbn [foldl]; [done|]. rewrite IH. apply release_same_queues.
Qed.

Lemma emptied_remove conn conns : leads (emptied (conn :: conns)) (emptied conns) (remove_backlog conn).
Proof.
  intros c [[Hc Hd] He]. split; [split|].
  - apply outb_remove_backlog; [done|]. intros b Hb. destruct (backlog_Some _ _ _ Hb) as (l1 & l2 & Hs & <- & _).
    apply He; [rewrite Hs; apply elem_of_app; right; left|left].
  - by apply nd_remove_backlog.
  - intros b Hb Hin. apply He; [|by right]. revert Hb. unfold remove_backlog. cbn [mod_outbox modify snd upd cr_outbox].
    destruct (Outbox_backlog (cr_outbox c) conn) as [b'|] eqn:Hb'; [|done]. rewrite release_all_backlogs.
    destruct (backlog_Some _ _ _ Hb') as (l1 & l2 & Hs & _ & _ & Hwo). cbn [upd ob_backlogs]. rewrite Hwo, Hs.
    rewrite !elem_of_app, elem_of_cons. tauto.
Qed.

Lemma counted_expire : pres outbox_counted expire.
Proof.
  unfold expire. apply pres_bind; [|intros _]; [pres_tac; apply pres_outbox; [exact _|]; intros o; split; [done|by split]|].
  apply pres_bind; [pres_tac|intros turns]. apply pres_bind; [apply pres_loop_m, counted_expire_turn|intros _].
  intros c Hc. unfold bind at 1, gets. rewrite bind_tt. apply pres_bind; [pres_tac|intros _; pres_tac|].
  set (conns := map _ _). apply (leads_for_each conns emptied); [apply emptied_remove|]. split; [done|]. intros b Hb Hin.
  apply list_elem_of_fmap in Hin as (b' & Heq & [Hl Hb']%list_elem_of_filter).
  by rewrite (NoDup_map_inj bl_conn (ob_backlogs (cr_outbox c)) b b') by (done || apply Hc).
Qed.

(** *** The end of a connection *)

Section Ending.
Context (conn : Z).

(** A connection's end, begun: messages may be displaced. *)
Definition ending (c : Core) : Prop := in_hand [] c /\ has_conn conn c.
#[local] Instance ending_displacing : Displacing ending.
Proof. apply (and_displacing (in_hand []) (has_conn conn)). Qed.

Lemma ending_conn conn' f : pres ending (mod_conn conn' f).
Proof. apply pres_and; [apply outb_conn|apply dom_conn; exact _]. Qed.
#[local] Hint Resolve ending_conn : pres.
#[local] Hint Extern 1 (Displacing _) => exact _ : pres.

Lemma ending_tell_client_gone : pres ending (tell_client_gone conn).
Proof. unfold tell_client_gone. pres_tac. Qed.

Lemma replace_displaced_counted conn' : leads (in_hand []) outbox_counted (replace_displaced conn').
Proof.
  intros c Hc. split; [by apply outb_replace_displaced|]. unfold replace_displaced, bind at 1 2, gets. rewrite bind_tt.
  apply pres_bind; [|intros _; pres_tac|done]. apply pres_for_each. intros key. unfold replace_one. pres_tac.
Qed.

Lemma give_up_entries_counted conn' entries : leads (in_hand []) outbox_counted (give_up_entries conn' entries).
Proof.
  unfold give_up_entries. apply (leads_bind _ outbox_counted); [|intros es; apply pres_leads; pres_tac].
  unfold handle_orphaned_outgoing_messages. do 5 quiet_step. eapply leads_bind; [apply replace_displaced_counted|intros _].
  apply pres_leads. pres_tac.
Qed.

Lemma orphan_counted : leads ending outbox_counted (orphan_outgoing_messages conn).
Proof.
  intros c [Hc [s Hs]]. unfold orphan_outgoing_messages, bind at 1, get_conn, gets. rewrite Hs.
  destruct (match cn_outgoing s with [] => _ | _ => _ end) as [aside entries]. rewrite bind_tt. by apply give_up_entries_counted.
Qed.

Lemma counted_conn conn' f : pres outbox_counted (mod_conn conn' f).
Proof. apply pres_and; [apply outb_conn|apply nd_conn]. Qed.
Lemma counted_forget conn' : pres outbox_counted (forget_if_finished conn').
Proof.
  intros c Hc. unfold forget_if_finished, modify. cbn [snd]. repeat case_match; done.
Qed.
#[local] Hint Resolve counted_conn counted_forget : pres.

Lemma counted_shutdown : pres outbox_counted (shutdown_connection conn).
Proof.
  intros c Hc. unfold shutdown_connection, bind at 1, get_conn at 1, gets. destruct (cr_conns c !! conn) as [s|] eqn:Hs; [|done].
  case_match; [done|]. assert (Hen : ending c) by (split; [apply Hc|by eexists]). revert Hen. generalize c. clear c Hc Hs.
  apply leads_then; [pres_tac|intros _]. apply leads_then; [pres_tac|intros _].
  apply leads_then; [apply ending_tell_client_gone|intros _]. intros c Hen. unfold bind at 1, get_conn, gets.
  destruct (proj2 Hen) as [s' Hs']. rewrite Hs'. revert Hen. generalize c. clear c Hs'.
  do 6 (apply leads_then; [pres_tac|intros ?]). eapply leads_bind; [apply orphan_counted|intros _]. apply pres_leads. pres_tac.
Qed.

Lemma counted_read_to_the_end bound deliver : pres outbox_counted (read_to_the_end conn bound deliver).
Proof.
  intros c Hc. unfold read_to_the_end, bind at 1 2, get_now, get_conn at 1, gets.
  destruct (cr_conns c !! conn) as [s|] eqn:Hs; [|done]. assert (Hen : ending c) by (split; [apply Hc|by eexists]).
  generalize dependent (cr_now c). intros now. revert Hen. generalize c. clear c Hc Hs.
  apply leads_then; [pres_tac|intros _]. apply leads_then; [apply ending_tell_client_gone|intros _].
  eapply leads_bind; [apply orphan_counted|intros _]. apply pres_leads. pres_tac.
Qed.
End Ending.

#[export] Instance counted_closing : Closing outbox_counted.
Proof.
  split; [exact _|apply counted_shutdown| |apply counted_expire]. intros conn bound. unfold close_gracefully.
  pose proof (counted_shutdown conn). pose proof (counted_read_to_the_end conn). pres_tac.
Qed.

#[export] Instance counted_whole : Whole outbox_counted.
Proof.
  split; [exact _| |by intros c c' ->| |apply counted_read_to_the_end].
  { intros c c' _ Ho _. unfold outbox_counted, in_hand, outb, none_displaced. by rewrite Ho. }
  intros target.
  apply pres_bind; [apply new_conn_id_pres; exact _|intros conn]. apply pres_bind; [apply heartbit_pres; exact _|intros h].
  by intros c Hc.
Qed.

Lemma new_counted peer_type ids mode now : outbox_counted (Core_new peer_type ids mode now).
Proof.
  unfold Core_new. destruct (default _ _) as [instance_id ids']. split; [|done].
  assert (Hget : forall k, Outbox_get Outbox_default k = None) by (intros [i g]; unfold Outbox_get; cbn; by rewrite lookup_nil).
  split; cbn [cr_outbox Outbox_default ob_backlogs ob_flushes].
  - split; [done|constructor|]. intros i. change (i ∈ [] <-> ([] : list (option Waiting)) !! i = Some None).
    rewrite lookup_nil. split; [by intros ?%elem_of_nil|done].
  - by intros k w ?%elem_of_nil.
  - constructor.
  - intros k. rewrite Hget. split; [by intros ?%elem_of_nil|by intros []].
  - constructor.
  - intros k w. by rewrite Hget.
  - intros k w. by rewrite Hget.
  - done.
  - by intros b ?%elem_of_nil.
  - done.
  - by intros id f ?%elem_of_nil.
  - split; [constructor|by intros id ?%elem_of_nil].
Qed.
End Outbox.

(** ** What the invariant says of a run *)

Definition waiting_among (o : Outbox) (keys : list WaitKey) : Z := Z.of_nat (length (filter (fun k => waits o k = true) keys)).

Lemma count_waiting o keys : count alive o keys = waiting_among o keys.
Proof.
  unfold waiting_among. induction keys as [|k keys IH]; [done|]. unfold count in *. cbn [sum_of]. rewrite filter_cons, IH.
  unfold weight, waits. destruct (Outbox_get o k) as [w|]; [unfold alive; destruct (wt_over w)|]; cbn [negb];
    case_decide; cbn [length]; done || lia.
Qed.

Section Runs.
Context {E : Env} {P : Program} (commands : Z -> Call).

Lemma reachable_counted c : reachable commands c -> outbox_counted c.
Proof. apply reachable_whole; [exact _|]. apply new_counted. Qed.

(** C2: What waits is counted exactly.  In every state of a run each entry of the
    outbox's slab is in one queue and one only, the held one when it has no
    connection and its connection's backlog when it has one, no queue keeps the
    key of an entry that is gone, every other slot is free, and the counts of
    what waits, of what is held and of each backlog are the numbers of their
    entries that still wait. *)
Theorem outbox_accounts (c : Core) :
  reachable commands c ->
  let o := cr_outbox c in
  let keys := concat (map bl_waiting (ob_backlogs o)) ++ ob_held o in
  NoDup keys /\ (forall k, k ∈ keys <-> is_Some (Outbox_get o k)) /\ ob_displaced o = []
  /\ (forall k w, Outbox_get o k = Some w ->
        match wt_on w with
        | None => k ∈ ob_held o
        | Some conn => exists b, b ∈ ob_backlogs o /\ bl_conn b = conn /\ k ∈ bl_waiting b
        end)
  /\ (forall i w, ob_slab o !! i = Some w -> i ∈ ob_free o \/ exists g, (i, g) ∈ keys)
  /\ ob_waiting o = waiting_among o keys
  /\ ob_held_live o = waiting_among o (ob_held o)
  /\ (forall b, b ∈ ob_backlogs o -> bl_live b = waiting_among o (bl_waiting b)).
Proof.
  intros Hr o keys. destruct (reachable_counted c Hr) as [Hok Hd]. unfold none_displaced in Hd. fold o in Hd.
  assert (Hq : queue_keys o = keys) by (unfold queue_keys, keys; by rewrite Hd).
  destruct Hok as [Hsl _ Hn Hk _ Hon _ Hheld Hroom Hwait _ _]. fold o in Hn, Hk, Hon, Hheld, Hroom, Hwait, Hsl.
  cbn [map app] in *. rewrite Hq in *. split_and!; try done.
  - intros k w Hw. destruct (Hon k w Hw) as (H1 & H2 & H3).
    assert (Hin : k ∈ keys) by (apply Hk; by rewrite Hw). apply elem_of_app in Hin as [Hin|Hin]; [|by rewrite (H1 Hin)].
    apply list_elem_of_In, in_concat in Hin as (l & Hl & Hkl). apply in_map_iff in Hl as (b & <- & Hb).
    apply list_elem_of_In in Hb, Hkl. rewrite (H3 b Hb Hkl). eauto.
  - intros i [w|] Hi; [right|left; by apply (sl_empty o Hsl)]. apply lookup_lt_Some in Hi as Hlt.
    rewrite <- (sl_generations o Hsl) in Hlt. destruct (lookup_lt_is_Some_2 _ _ Hlt) as [g Hg]. exists g. apply Hk.
    exists w. by apply Outbox_get_lookup.
  - rewrite <- count_waiting. lia.
  - rewrite <- count_waiting. lia.
  - intros b Hb. rewrite <- count_waiting, (Hroom b Hb). lia.
Qed.

(** C4: A flush covers what waits.  In every state of a run a flush that
    [check_flushes] finds done has no message sent before it still waiting in the
    outbox: every entry that waits has a number past the flush's. *)
Theorem flush_waits_for_all (c : Core) (flush : Z) (f : Flush) (k : WaitKey) (w : Waiting) :
  reachable commands c -> flush ∈ ob_flushes (cr_outbox c) -> ob_flush_states (cr_outbox c) !! flush = Some f ->
  (check_flush c f).1 = true -> Outbox_get (cr_outbox c) k = Some w -> wt_over w = false ->
  fl_last_number f < wt_number w.
Proof.
  intros Hr Hin Hf Hdone Hw Hov. destruct (reachable_counted c Hr) as [Hok _].
  pose proof (oo_flush _ _ _ _ _ _ Hok flush f Hin Hf) as Hcount. rewrite Z.add_0_r in Hcount.
  assert (Hwait : fl_waiting f <= 0).
  { unfold check_flush in Hdone. cbn [upd fl_waiting fl_marks fl_confirm_mark] in Hdone.
    destruct (0 <? fl_waiting f) eqn:H0; [done|]. lia. }
  apply Z.lt_nge. intros Hle. set (keys := map fst [] ++ queue_keys (cr_outbox c)) in *.
  assert (Hkey : k ∈ keys) by (apply (oo_keys _ _ _ _ _ _ Hok); by rewrite Hw).
  apply list_elem_of_split in Hkey as (l1 & l2 & Hs). rewrite Hs, count_app in Hcount. unfold count in Hcount. cbn [sum_of] in Hcount.
  assert (Hpos : weight (live_to (fl_last_number f)) (cr_outbox c) k = 1).
  { unfold weight. rewrite Hw. unfold live_to. rewrite Hov. by rewrite (proj2 (Z.leb_le _ _) Hle). }
  pose proof (count_nonneg (live_to (fl_last_number f)) (cr_outbox c) l1 (live_to_nonneg _)).
  pose proof (count_nonneg (live_to (fl_last_number f)) (cr_outbox c) l2 (live_to_nonneg _)). unfold count in *. lia.
Qed.
End Runs.

(** ** A run: two messages with nobody to take them, the first past its deadline *)

Definition demo_message (id : Z) : FrameIn := mkFrameIn [1; 2; 3] None id 100 MarkNone.

(** The observer hears of drops; a message that waits a nanosecond, a flush, a
    message that waits on; then the clock moves and the timer fires. *)
Definition demo_waiting_inputs : list Input :=
  [InCall (CallDropObserver true);
   InCall (CallSend (demo_message 7) false None (Some 1) 0 false None true);
   InCall (CallBeginFlush None);
   InCall (CallSend (demo_message 8) false None None 0 false None true);
   InTime 10; InReady ReadyTimers].

Definition demo_waiting : Core := run_inputs (fun _ => CallClosing) demo_waiting_inputs demo_core.

Lemma demo_waiting_reachable : reachable (fun _ => CallClosing) demo_waiting.
Proof. apply reachable_run; [apply reach_new|]. vm_compute. tauto. Qed.

Lemma demo_waiting_state :
  ob_flushes (cr_outbox demo_waiting) = [1]
  /\ (fun w => (wt_over w, wt_number w)) <$> Outbox_get (cr_outbox demo_waiting) (1%nat, 0) = Some (false, 2)
  /\ (fun f => (fl_last_number f, (check_flush demo_waiting f).1)) <$> ob_flush_states (cr_outbox demo_waiting) !! 1
     = Some (1, true).
Proof. vm_compute. auto. Qed.

Lemma outbox_accounts_witness :
  reachable (fun _ => CallClosing) demo_waiting
  /\ ob_waiting (cr_outbox demo_waiting) = waiting_among (cr_outbox demo_waiting) [(0%nat, 0); (1%nat, 0)]
  /\ ob_waiting (cr_outbox demo_waiting) = 1.
Proof.
  destruct (outbox_accounts (fun _ => CallClosing) demo_waiting demo_waiting_reachable) as (_ & _ & _ & _ & _ & Hw & _).
  split; [exact demo_waiting_reachable|]. split; [|vm_compute; reflexivity]. rewrite Hw. vm_compute. reflexivity.
Defined.

Lemma flush_waits_for_all_witness :
  exists f w, ob_flush_states (cr_outbox demo_waiting) !! 1 = Some f /\ Outbox_get (cr_outbox demo_waiting) (1%nat, 0) = Some w
              /\ fl_last_number f < wt_number w.
Proof.
  destruct demo_waiting_state as (Hq & Hw & Hf).
  destruct (proj1 (fmap_Some _ _ _) Hw) as (w & Hw' & Ew). destruct (proj1 (fmap_Some _ _ _) Hf) as (f & Hf' & Ef).
  injection Ew as Hov Hn. injection Ef as Hl Hc. exists f, w. split; [exact Hf'|]. split; [exact Hw'|].
  apply (flush_waits_for_all (fun _ => CallClosing) demo_waiting 1 f (1%nat, 0) w demo_waiting_reachable);
    [|exact Hf'|exact (eq_sym Hc)|exact Hw'|exact (eq_sym Hov)].
  rewrite Hq. left.
Defined.
