(* ===== verification/NumbersSpec.v ===== *)
(** * NumbersSpec: a confirmed batch's numbers on the wire

    The producer writes the numbers of a batch's messages as (first, count)
    pairs ([add_number]); the consumer reads them back in step with the
    messages ([next_confirm]).  [numbers_roundtrip] shows that each message gets
    its own number back. *)
From S2P Require Import Prelude Words Defaults Frame Timers LogSummary Records Ordered Messages CoreTypes CoreBase.
From S2P Require Import ConnQueue OutboxState ConfirmingState Placing Bodies Batching Confirming Sending Handover.
From S2P Require Import Query Connection Client.
Open Scope Z_scope.

(** The numbers [split_batch] gives the next [n] messages. *)
Fixpoint read_numbers (n : nat) (pairs : list Z) (past : Z) : list Z :=
  match n with
  | O => []
  | S n => let '(number, pairs, past) := next_confirm pairs past in number :: read_numbers n pairs past
  end.

(** What the pairs stand for. *)
Definition expand_pair (first count : Z) : list Z := map (fun i => w64 (first + i)) (seqZ 0 count).
Arguments expand_pair : simpl never.
Fixpoint expand (pairs : list Z) : list Z :=
  match pairs with
  | first :: count :: rest => expand_pair first count ++ expand rest
  | _ => []
  end.

(** Whole pairs, none empty. *)
Inductive pairs_ok : list Z -> Prop :=
| pairs_nil : pairs_ok []
| pairs_cons first count rest : 0 < count -> pairs_ok rest -> pairs_ok (first :: count :: rest).

Lemma expand_pair_snoc first count :
  0 <= count -> expand_pair first (count + 1) = expand_pair first count ++ [w64 (first + count)].
Proof.
  intros. unfold expand_pair. rewrite seqZ_app by lia. by rewrite map_app.
Qed.

Lemma expand_pair_one first : is_u64 first -> expand_pair first 1 = [first].
Proof.
  intros H. change 1 with (0 + 1). rewrite expand_pair_snoc by lia. simpl. unfold is_u64, w64, M64 in *.
  by rewrite Z.add_0_r, Z.mod_small.
Qed.

Lemma add_number_spec pairs number :
  pairs_ok pairs -> is_u64 number ->
  pairs_ok (add_number pairs number) /\ expand (add_number pairs number) = expand pairs ++ [number].
Proof.
  intros Hp Hn. induction Hp as [|first count rest Hc Hrest [IH1 IH2]].
  { split; [repeat constructor; lia|]. cbn [add_number expand app]. by rewrite expand_pair_one, app_nil_r. }
  destruct rest as [|f2 rest].
  - cbn [add_number]. destruct (Z.eqb_spec (w64 (first + count)) number) as [<-|Hne].
    + split; [repeat constructor; lia|]. cbn [expand]. rewrite !app_nil_r. apply expand_pair_snoc. lia.
    + split; [repeat (constructor; try lia)|]. cbn [app expand]. by rewrite expand_pair_one, !app_nil_r.
  - inversion Hrest as [|? c2 rest2 Hc2 Hr2]; subst.
    change (add_number (first :: count :: f2 :: c2 :: rest2) number)
      with (first :: count :: add_number (f2 :: c2 :: rest2) number).
    split; [by constructor|].
    change (expand_pair first count ++ expand (add_number (f2 :: c2 :: rest2) number)
            = (expand_pair first count ++ expand (f2 :: c2 :: rest2)) ++ [number]).
    by rewrite IH2, app_assoc.
Qed.

Lemma add_numbers_spec numbers pairs :
  pairs_ok pairs -> Forall is_u64 numbers ->
  pairs_ok (foldl add_number pairs numbers) /\ expand (foldl add_number pairs numbers) = expand pairs ++ numbers.
Proof.
  intros Hp Hn. revert pairs Hp. induction Hn as [|n numbers Hn1 _ IH]; intros pairs Hp; simpl.
  { by rewrite app_nil_r. }
  destruct (add_number_spec pairs n Hp Hn1) as [Ho He].
  destruct (IH _ Ho) as [Ho2 He2]. split; [done|]. rewrite He2, He, <- app_assoc. done.
Qed.

(** Reading on from [past] numbers into the first pair. *)
Lemma read_pair n first count rest past :
  0 <= past <= count ->
  read_numbers (Z.to_nat (count - past) + n) (first :: count :: rest) past
  = map (fun i => w64 (first + i)) (seqZ past (count - past)) ++ read_numbers n (first :: count :: rest) count.
Proof.
  intros Hp. remember (Z.to_nat (count - past)) as k eqn:Hk. revert past Hp Hk.
  induction k as [|k IH]; intros past Hp Hk.
  - assert (past = count) as -> by lia. by replace (count - count) with 0 by lia.
  - cbn [Nat.add read_numbers next_confirm]. replace (count <=? past) with false by (symmetry; apply Z.leb_gt; lia).
    rewrite IH by lia. rewrite (seqZ_cons past) by lia. cbn [map app].
    by replace (Z.succ past) with (past + 1) by lia; replace (Z.pred (count - past)) with (count - (past + 1)) by lia.
Qed.

Lemma read_done n first count rest past :
  count <= past -> read_numbers n (first :: count :: rest) past = read_numbers n rest 0.
Proof.
  intros H. destruct n as [|n]; [done|]. cbn [read_numbers next_confirm].
  by replace (count <=? past) with true by (symmetry; apply Z.leb_le; lia).
Qed.

Lemma read_expand pairs : pairs_ok pairs -> read_numbers (length (expand pairs)) pairs 0 = expand pairs.
Proof.
  induction 1 as [|first count rest Hc Hrest IH]; [done|].
  cbn [expand]. rewrite length_app. unfold expand_pair at 1. rewrite length_map, length_seqZ.
  replace (Z.to_nat count) with (Z.to_nat (count - 0)) by (f_equal; lia).
  rewrite read_pair by lia. rewrite read_done by lia. rewrite IH. by rewrite Z.sub_0_r.
Qed.

(** A confirmed batch's numbers survive the wire: read back message by message, in step with the batch, the
    pairs the producer wrote give every message the number it was sent with, whatever the numbers. *)
Theorem numbers_roundtrip (numbers : list Z) :
  Forall is_u64 numbers ->
  read_numbers (length numbers) (foldl add_number [] numbers) 0 = numbers.
Proof.
  intros H. destruct (add_numbers_spec numbers [] pairs_nil H) as [Hok Hex]. simpl in Hex.
  rewrite <- Hex at 1 3. by apply read_expand.
Qed.

Lemma numbers_roundtrip_witness :
  foldl add_number [] [7; 8; 9; 2; 3; 2 ^ 64 - 1; 0] = [7; 3; 2; 2; 2 ^ 64 - 1; 2]
  /\ read_numbers 7 [7; 3; 2; 2; 2 ^ 64 - 1; 2] 0 = [7; 8; 9; 2; 3; 2 ^ 64 - 1; 0].
Proof.
  split; [reflexivity|]. apply (numbers_roundtrip [7; 8; 9; 2; 3; 2 ^ 64 - 1; 0]).
  repeat constructor; vm_compute; done.
Defined.
