(* ===== verification/FlagsSpec.v ===== *)
(** * FlagsSpec: the flags of a confirmed batch, a word at a time

    [Flags::set_range] marks whole words; [set_range_spec] shows that it marks
    exactly the flags of the range and counts those that were not set, as
    marking them one by one would. *)
From S2P Require Import Prelude Words Records Ordered Messages CoreTypes CoreBase OutboxState ConfirmingState.
Open Scope Z_scope.

(** How many flags of [begin..end_] are not set. *)
Definition unset (words : list Z) (begin end_ : Z) : Z :=
  Z.of_nat (length (filter (fun i => Flags_get words i = false) (seqZ begin (end_ - begin)))).

(** The mask of a turn of [set_range]. *)
Definition range_mask (bit span : Z) : Z := if span =? 64 then 2 ^ 64 - 1 else shl64 (Z.shiftl 1 span - 1) bit.

Lemma pow_sub_ones n : 0 <= n -> Z.shiftl 1 n - 1 = Z.ones n.
Proof. intros. rewrite Z.ones_equiv, Z.shiftl_1_l. lia. Qed.

Lemma range_mask_bits bit span j :
  0 <= bit -> 1 <= span -> bit + span <= 64 -> 0 <= j ->
  Z.testbit (range_mask bit span) j = (bit <=? j) && (j <? bit + span).
Proof.
  intros Hb Hs Hbs Hj. unfold range_mask. destruct (Z.eqb_spec span 64) as [->|Hne].
  - assert (bit = 0) as -> by lia. change (2 ^ 64 - 1) with (Z.ones 64).
    rewrite Z.testbit_ones_nonneg by lia. replace (0 <=? j) with true by (symmetry; apply Z.leb_le; lia). done.
  - unfold shl64, w64, M64. rewrite pow_sub_ones by lia.
    destruct (Z.ltb_spec j 64) as [Hlt|Hge].
    + rewrite Z.mod_pow2_bits_low by lia. rewrite Z.shiftl_spec by lia.
      destruct (Z.leb_spec bit j).
      * rewrite Z.testbit_ones_nonneg by lia.
        destruct (Z.ltb_spec (j - bit) span), (Z.ltb_spec j (bit + span)); lia || done.
      * by rewrite Z.testbit_neg_r by lia.
    + rewrite Z.mod_pow2_bits_high by lia. symmetry. apply andb_false_iff. right. apply Z.ltb_ge. lia.
Qed.

Lemma range_mask_u64 bit span : 0 <= bit -> 1 <= span -> bit + span <= 64 -> is_u64 (range_mask bit span).
Proof.
  intros. unfold range_mask, is_u64, shl64, w64, M64. destruct (span =? 64); [lia|].
  apply Z.mod_pos_bound. lia.
Qed.

Lemma lor_is_u64 x y : is_u64 x -> is_u64 y -> is_u64 (Z.lor x y).
Proof.
  unfold is_u64, M64. intros [Hx Hx'] [Hy Hy']. split; [by apply Z.lor_nonneg|].
  destruct (Z.eq_dec (Z.lor x y) 0) as [->|Hne]; [lia|].
  assert (0 <= Z.lor x y) by (by apply Z.lor_nonneg).
  apply Z.log2_lt_pow2; [lia|]. rewrite Z.log2_lor by done.
  apply Z.max_lub_lt; (destruct (Z.eq_dec x 0), (Z.eq_dec y 0); subst; try (simpl; lia);
    apply Z.log2_lt_pow2; lia).
Qed.

Lemma not64_bits word j : 0 <= j < 64 -> Z.testbit (not64 word) j = negb (Z.testbit word j).
Proof.
  intros Hj. unfold not64. rewrite Z.lxor_spec. change (2 ^ 64 - 1) with (Z.ones 64).
  rewrite Z.ones_spec_low by lia. by destruct (Z.testbit word j).
Qed.

(** The set bits of a masked word are those of the mask's range. *)
Lemma count_masked word bit span :
  0 <= bit -> 1 <= span -> bit + span <= 64 ->
  count_ones (Z.land (range_mask bit span) (not64 word))
  = Z.of_nat (length (filter (fun j => Z.testbit word j = false) (seqZ bit span))).
Proof.
  intros Hb Hs Hbs. unfold count_ones. f_equal.
  replace 64 with (bit + (span + (64 - bit - span))) at 1 by lia.
  rewrite !seqZ_app by lia. rewrite !filter_app, !length_app.
  rewrite (filter_none _ (seqZ 0 bit)), (filter_none _ (seqZ (0 + bit + span) _)); simpl.
  - rewrite Nat.add_0_r. f_equal. apply filter_iff_in. intros j Hj%elem_of_seqZ.
    rewrite Z.land_spec, range_mask_bits, not64_bits by lia.
    replace (bit <=? j) with true by (symmetry; apply Z.leb_le; lia).
    replace (j <? bit + span) with true by (symmetry; apply Z.ltb_lt; lia).
    destruct (Z.testbit word j); naive_solver.
  - apply Forall_forall. intros j Hj%elem_of_seqZ. rewrite Z.land_spec, range_mask_bits by lia.
    replace (j <? bit + span) with false by (symmetry; apply Z.ltb_ge; lia). by rewrite andb_false_r.
  - apply Forall_forall. intros j Hj%elem_of_seqZ. rewrite Z.land_spec, range_mask_bits by lia.
    by replace (bit <=? j) with false by (symmetry; apply Z.leb_gt; lia).
Qed.

(** ** One turn *)

Section Turn.
Context (words : list Z) (begin span : Z).
Context (Hwords : Forall is_u64 words) (Hbegin : 0 <= begin) (Hspan : 1 <= span)
  (Hfit : begin mod 64 + span <= 64) (Hin : begin / 64 < Z.of_nat (length words)).

Let k := Z.to_nat (begin / 64).
Let word := default 0 (words !! k).

Definition turn_words : list Z := <[k := Z.lor word (range_mask (begin mod 64) span)]> words.

Lemma turn_get i :
  0 <= i -> Flags_get turn_words i = Flags_get words i || ((begin <=? i) && (i <? begin + span)).
Proof.
  intros Hi. unfold Flags_get, turn_words, word, k.
  assert (0 <= begin / 64 /\ 0 <= begin mod 64 < 64 /\ begin = 64 * (begin / 64) + begin mod 64) as (H1 & H2 & H3).
  { split; [apply Z.div_pos; lia|]. split; [apply Z.mod_pos_bound; lia | apply Z.div_mod; lia]. }
  assert (0 <= i / 64 /\ 0 <= i mod 64 < 64 /\ i = 64 * (i / 64) + i mod 64) as (H4 & H5 & H6).
  { split; [apply Z.div_pos; lia|]. split; [apply Z.mod_pos_bound; lia | apply Z.div_mod; lia]. }
  destruct (decide (i / 64 = begin / 64)) as [Heq|Hne].
  - rewrite Heq in *. rewrite list_lookup_insert_eq by lia. cbn [from_option id].
    rewrite Z.lor_spec, range_mask_bits by lia. f_equal.
    lia.
  - rewrite list_lookup_insert_ne by lia.
    destruct (Z.leb_spec begin i), (Z.ltb_spec i (begin + span)); cbn [andb]; rewrite ?orb_false_r; try done.
    nia.
Qed.

Lemma turn_u64 : Forall is_u64 turn_words.
Proof.
  apply Forall_insert; [done|]. apply lor_is_u64; [|apply range_mask_u64; try lia; apply Z.mod_pos_bound; lia].
  unfold word. destruct (words !! k) eqn:E; [|unfold is_u64, M64; simpl; lia].
  by eapply Forall_lookup_1 in E.
Qed.

Lemma turn_count :
  count_ones (Z.land (range_mask (begin mod 64) span) (not64 word)) = unset words begin (begin + span).
Proof.
  assert (0 <= begin mod 64 < 64) by (apply Z.mod_pos_bound; lia).
  rewrite count_masked by lia. unfold unset. replace (begin + span - begin) with span by lia.
  assert (Hseq : seqZ begin span = (Z.add (64 * (begin / 64))) <$> seqZ (begin mod 64) span).
  { rewrite fmap_add_seqZ. f_equal. apply Z.div_mod. lia. }
  rewrite Hseq. rewrite filter_fmap, length_fmap. do 2 f_equal. apply filter_iff_in.
  intros j Hj%elem_of_seqZ. unfold Flags_get, word, k.
  replace ((64 * (begin / 64) + j) / 64) with (begin / 64)
    by (rewrite (Z.mul_comm 64), Z.add_comm, Z.div_add by lia; rewrite (Z.div_small j) by lia; lia).
  replace ((64 * (begin / 64) + j) mod 64) with j
    by (rewrite (Z.mul_comm 64), Z.add_comm, Z.mod_add by lia; rewrite Z.mod_small by lia; lia).
  done.
Qed.
End Turn.

Lemma unset_split words a b c : a <= b <= c -> unset words a c = unset words a b + unset words b c.
Proof.
  intros. unfold unset. replace (c - a) with ((b - a) + (c - b)) by lia.
  rewrite seqZ_app by lia. rewrite filter_app, length_app. replace (a + (b - a)) with b by lia. lia.
Qed.

Lemma unset_ext words words' a b :
  0 <= a -> (forall i, a <= i < b -> Flags_get words i = Flags_get words' i) -> unset words a b = unset words' a b.
Proof.
  intros Ha H. unfold unset. do 2 f_equal. apply filter_iff_in. intros i Hi%elem_of_seqZ. by rewrite H by lia.
Qed.

(** ** The loop *)

Lemma set_range_loop_spec fuel words begin end_ newly :
  Forall is_u64 words -> 0 <= begin <= end_ -> end_ <= 64 * Z.of_nat (length words) ->
  end_ - begin <= Z.of_nat fuel ->
  let '(words', newly') := set_range_loop fuel words begin end_ newly in
  (forall i, 0 <= i -> Flags_get words' i = Flags_get words i || ((begin <=? i) && (i <? end_)))
  /\ newly' = newly + unset words begin end_
  /\ Forall is_u64 words' /\ length words' = length words.
Proof.
  revert words begin newly. induction fuel as [|fuel IH]; intros words begin newly Hw Hb He Hf; cbn [set_range_loop].
  { assert (begin = end_) as -> by lia. split_and!; try done.
    - intros i Hi. destruct (Z.leb_spec end_ i), (Z.ltb_spec i end_); try lia; by rewrite orb_false_r.
    - unfold unset. rewrite Z.sub_diag. simpl. lia. }
  destruct (Z.ltb_spec begin end_) as [Hlt|Hge].
  2:{ assert (begin = end_) as -> by lia. split_and!; try done.
      - intros i Hi. destruct (Z.leb_spec end_ i), (Z.ltb_spec i end_); try lia; by rewrite orb_false_r.
      - unfold unset. rewrite Z.sub_diag. simpl. lia. }
  assert (0 <= begin mod 64 < 64) as Hmod by (apply Z.mod_pos_bound; lia).
  set (span := Z.min (64 - begin mod 64) (end_ - begin)).
  assert (1 <= span /\ begin mod 64 + span <= 64 /\ begin + span <= end_) as (Hs1 & Hs2 & Hs3) by lia.
  assert (Hin : begin / 64 < Z.of_nat (length words)) by (apply Z.div_lt_upper_bound; lia).
  fold (range_mask (begin mod 64) span). fold (turn_words words begin span).
  rewrite turn_count by lia.
  specialize (IH (turn_words words begin span) (begin + span) (newly + unset words begin (begin + span))).
  destruct (set_range_loop fuel _ _ _ _) as [words' newly'].
  destruct IH as (Hget & Hnew & Hu & Hlen); [by apply turn_u64 | lia | unfold turn_words; rewrite length_insert; lia
    | lia |].
  split_and!.
  - intros i Hi. rewrite Hget, turn_get by lia. rewrite <- orb_assoc. f_equal.
    destruct (Z.leb_spec begin i), (Z.ltb_spec i (begin + span)), (Z.leb_spec (begin + span) i), (Z.ltb_spec i end_);
      try lia; done.
  - rewrite Hnew, (unset_split words begin (begin + span) end_) by lia.
    rewrite (unset_ext (turn_words words begin span) words (begin + span) end_); [lia|lia|].
    intros i Hi. rewrite turn_get by lia.
    replace (i <? begin + span) with false by (symmetry; apply Z.ltb_ge; lia). by rewrite andb_false_r, orb_false_r.
  - done.
  - unfold turn_words in Hlen. by rewrite length_insert in Hlen.
Qed.

(** Marking a range of a confirmed batch's flags a word at a time sets exactly the flags of the range, leaves the
    others, and counts those that were not set before, as marking message by message does. *)
Theorem set_range_spec (words : list Z) (begin end_ : Z) :
  Forall is_u64 words -> 0 <= begin <= end_ -> end_ <= 64 * Z.of_nat (length words) ->
  let '(words', newly) := Flags_set_range words begin end_ in
  (forall i, 0 <= i -> Flags_get words' i = Flags_get words i || ((begin <=? i) && (i <? end_)))
  /\ newly = unset words begin end_
  /\ Forall is_u64 words' /\ length words' = length words.
Proof. intros. unfold Flags_set_range. apply set_range_loop_spec; lia || done. Qed.

Lemma set_range_spec_witness :
  (Flags_set_range (Flags_new 130) 60 129).2 = 69
  /\ Flags_get (Flags_set_range (Flags_new 130) 60 129).1 128 = true
  /\ Flags_get (Flags_set_range (Flags_new 130) 60 129).1 129 = false.
Proof.
  pose proof (set_range_spec (Flags_new 130) 60 129) as H.
  destruct (Flags_set_range (Flags_new 130) 60 129) as [words' newly].
  destruct H as (Hget & Hnew & _ & _); [repeat constructor; vm_compute; done | lia | vm_compute; done |].
  cbn [fst snd]. rewrite Hnew, !Hget by lia. split_and!; vm_compute; done.
Defined.
