(* ===== verification/RunsSpec.v ===== *)
(** * RunsSpec: from a confirmation's numbers to a batch's messages

    [runs_exact]: the runs registered of a batch cover exactly its unresolved
    messages, each run's numbers consecutive.  [segments_exact]: what a list of a
    CONFIRMATION names is found exactly, whatever the runs. *)
From S2P Require Import Prelude Words Records Ordered Messages CoreTypes CoreBase OutboxState ConfirmingState.
From S2P Require Import FlagsSpec.
Open Scope Z_scope.

(** ** The runs of a batch *)

(** A batch whose count of unresolved messages is right. *)
Definition cg_counted (cg : Confirming) : Prop := cg_unresolved cg = unset (cg_resolved cg) 0 (cg_count cg).

(** Message [i] lies in run [r]. *)
Definition in_run (r : Z * NumberRun) (i : Z) : Prop := rn_index r.2 <= i < rn_index r.2 + rn_count r.2.

(** The message [index + length] goes on a run of [cg] that began at [index]. *)
Definition goes_on (cg : Confirming) (first index len : Z) : bool :=
  (index + len <? cg_count cg) && negb (Flags_get (cg_resolved cg) (index + len))
  && (Confirming_number cg (index + len) =? first + len).

Lemma run_length_spec fuel cg first index len :
  0 <= index -> 1 <= len ->
  (forall j, 0 <= j < len -> index + j < cg_count cg /\ Flags_get (cg_resolved cg) (index + j) = false
                             /\ Confirming_number cg (index + j) = first + j) ->
  let n := run_length fuel cg first index len in
  len <= n
  /\ (forall j, 0 <= j < n -> index + j < cg_count cg /\ Flags_get (cg_resolved cg) (index + j) = false
                              /\ Confirming_number cg (index + j) = first + j).
Proof.
  revert len. induction fuel as [|fuel IH]; intros len Hi Hl Hj; cbn [run_length]; [split; [lia|done]|].
  fold (goes_on cg first index len). destruct (goes_on cg first index len) eqn:E; [|split; [lia|done]].
  unfold goes_on in E. rewrite !andb_true_iff, negb_true_iff, Z.ltb_lt, Z.eqb_eq in E. destruct E as [[E1 E2] E3].
  destruct (IH (len + 1)) as [IH1 IH2]; [done|lia| |split; [lia|done]].
  intros j Hj'. destruct (decide (j = len)) as [->|]; [done|]. apply Hj. lia.
Qed.

Lemma cg_count_nonneg cg : 0 <= cg_count cg.
Proof. unfold cg_count. lia. Qed.

Lemma runs_from_spec fuel batch cg index :
  0 <= index <= cg_count cg -> cg_count cg - index <= Z.of_nat fuel ->
  let runs := runs_from fuel batch cg index in
  (forall i, index <= i < cg_count cg ->
     ((exists r, r ∈ runs /\ in_run r i) <-> Flags_get (cg_resolved cg) i = false))
  /\ (forall r, r ∈ runs -> rn_batch r.2 = batch /\ index <= rn_index r.2 /\ 1 <= rn_count r.2
                            /\ rn_unresolved r.2 = rn_count r.2
                            /\ rn_index r.2 + rn_count r.2 <= cg_count cg
                            /\ forall i, in_run r i -> Confirming_number cg i = r.1 + (i - rn_index r.2))
  /\ StronglySorted (fun r r' : Z * NumberRun => rn_index r.2 + rn_count r.2 <= rn_index r'.2) runs.
Proof.
  revert index. induction fuel as [|fuel IH]; intros index Hi Hf; cbn [runs_from].
  { split_and!; [intros; lia | by intros r ?%elem_of_nil | constructor]. }
  destruct (Z.ltb_spec index (cg_count cg)) as [Hlt|Hge].
  2:{ split_and!; [intros; lia | by intros r ?%elem_of_nil | constructor]. }
  destruct (Flags_get (cg_resolved cg) index) eqn:Hflag.
  - destruct (IH (index + 1)) as (H1 & H2 & H3); [lia|lia|]. split_and!; [| |done].
    + intros i Hi'. destruct (decide (i = index)) as [->|]; [|apply H1; lia].
      split; [|by rewrite Hflag]. intros (r & Hr & Hin). destruct (H2 r Hr) as (_ & Hx & _). unfold in_run in Hin. lia.
    + intros r Hr. destruct (H2 r Hr) as (? & ? & ? & ? & ? & ?). split_and!; try done. lia.
  - set (first := Confirming_number cg index). set (len := run_length (length (cg_ids cg)) cg first index 1).
    destruct (run_length_spec (length (cg_ids cg)) cg first index 1) as [Hlen Hall]; [lia|lia| |].
    { intros j Hj. assert (j = 0) as -> by lia. rewrite Z.add_0_r. split_and!; [done|done|lia]. }
    fold len in Hlen, Hall.
    assert (Hend : index + len <= cg_count cg) by (destruct (Hall (len - 1)); lia).
    destruct (IH (index + len)) as (H1 & H2 & H3); [lia|lia|]. split_and!.
    + intros i Hi'. destruct (decide (i < index + len)) as [Hin|Hout].
      * assert (Flags_get (cg_resolved cg) i = false) as Hf'.
        { replace i with (index + (i - index)) by lia. apply Hall. lia. }
        split; [done|]. intros _. eexists. split; [by left|]. unfold in_run. simpl. lia.
      * rewrite <- H1 by lia. split; intros (r & Hr & Hx).
        -- apply elem_of_cons in Hr as [->|Hr]; [unfold in_run in Hx; simpl in Hx; lia | by exists r].
        -- exists r. split; [by right|done].
    + intros r [->|Hr]%elem_of_cons; simpl.
      * split_and!; try done; try lia. unfold in_run. simpl. intros i Hin.
        replace i with (index + (i - index)) at 1 by lia. apply Hall. lia.
      * destruct (H2 r Hr) as (? & ? & ? & ? & ? & ?). split_and!; try done. lia.
    + constructor; [done|]. apply Forall_forall. intros r Hr. destruct (H2 r Hr) as (_ & ? & _). simpl. lia.
Qed.

Lemma unset_zero words a b i : 0 <= a -> a <= i < b -> unset words a b = 0 -> Flags_get words i = true.
Proof.
  intros Ha Hi H. destruct (Flags_get words i) eqn:E; [done|]. exfalso. unfold unset in H.
  assert (Hin : i ∈ filter (fun i => Flags_get words i = false) (seqZ a (b - a)))
    by (apply list_elem_of_filter; split; [done|]; apply elem_of_seqZ; lia).
  destruct (filter _ _); [by apply elem_of_nil in Hin | simpl in H; lia].
Qed.

Lemma unset_all words a b i :
  0 <= a -> a <= i < b -> unset words a b = b - a -> Flags_get words i = false.
Proof.
  intros Ha Hi H. destruct (Flags_get words i) eqn:E; [|done]. exfalso.
  rewrite (unset_split words a i b), (unset_split words i (i + 1) b) in H by lia.
  assert (unset words i (i + 1) = 0) as H0.
  { unfold unset. replace (i + 1 - i) with 1 by lia. rewrite seqZ_cons by lia. rewrite filter_cons_False by (by rewrite E).
    done. }
  assert (forall a b, a <= b -> unset words a b <= b - a) as Hle.
  { intros x y Hxy. unfold unset. pose proof (length_filter (fun i => Flags_get words i = false) (seqZ x (y - x))).
    rewrite length_seqZ in *. lia. }
  pose proof (Hle a i). pose proof (Hle (i + 1) b). lia.
Qed.

(** The runs a batch registers cover exactly its unresolved messages, each in a run of consecutive numbers whose
    first number is the run's key, all of it counted unresolved, no two runs sharing a message. *)
Theorem runs_exact (batch : Z) (cg : Confirming) :
  cg_counted cg ->
  let runs := runs_of batch cg in
  (forall i, 0 <= i < cg_count cg ->
     ((exists r, r ∈ runs /\ in_run r i) <-> Flags_get (cg_resolved cg) i = false))
  /\ (forall r, r ∈ runs -> rn_batch r.2 = batch /\ 0 <= rn_index r.2 /\ 1 <= rn_count r.2
                            /\ rn_unresolved r.2 = rn_count r.2
                            /\ rn_index r.2 + rn_count r.2 <= cg_count cg
                            /\ forall i, in_run r i -> Confirming_number cg i = r.1 + (i - rn_index r.2))
  /\ StronglySorted (fun r r' : Z * NumberRun => rn_index r.2 + rn_count r.2 <= rn_index r'.2) runs.
Proof.
  intros Hc. pose proof (cg_count_nonneg cg) as Hn. unfold runs_of.
  destruct (Z.eqb_spec (cg_unresolved cg) 0) as [H0|H0].
  { split_and!; [|by intros r ?%elem_of_nil|constructor]. intros i Hi. split.
    - by intros (r & ?%elem_of_nil & _).
    - rewrite (unset_zero _ 0 (cg_count cg) i); [done|lia|lia|congruence]. }
  destruct ((cg_unresolved cg =? cg_count cg) && bool_decide (cg_numbers cg = [])) eqn:E.
  2:{ apply runs_from_spec; [lia | unfold cg_count; lia]. }
  rewrite andb_true_iff, Z.eqb_eq, bool_decide_eq_true in E. destruct E as [E1 E2].
  assert (cg_count cg <> 0) by congruence.
  split_and!; [| |repeat constructor].
  - intros i Hi. rewrite (unset_all _ 0 (cg_count cg) i); [|lia|lia|rewrite <- Hc; lia].
    split; [done|]. intros _. eexists. split; [by left|]. unfold in_run. simpl. lia.
  - intros r [->|?%elem_of_nil]%elem_of_cons; [|done]. simpl. split_and!; try done; try lia.
    intros i _. unfold Confirming_number. rewrite E2. lia.
Qed.

(** A batch of five, its third message resolved. *)
Definition demo_cg : Confirming :=
  mkConfirming 200 None Delivery_default [] [11; 12; 13; 14; 15] 7 [] [] (Flags_set (Flags_new 5) 2) 4 [] None None
    false None 0 None None.

Lemma runs_exact_witness :
  runs_of 99 demo_cg = [(7, mkNumberRun 99 0 2 2); (10, mkNumberRun 99 3 2 2)]
  /\ (exists r, r ∈ runs_of 99 demo_cg /\ in_run r 4).
Proof.
  split; [reflexivity|]. destruct (runs_exact 99 demo_cg) as [H _]; [reflexivity|].
  apply H; [vm_compute; split; discriminate + done | reflexivity].
Defined.

(** ** Segments *)

(** Runs by first number, none reaching the next. *)
Definition runs_ok (runs : list (Z * NumberRun)) : Prop :=
  StronglySorted (fun r r' : Z * NumberRun => r.1 + rn_count r.2 <= r'.1) runs
  /\ Forall (fun r : Z * NumberRun => 0 < rn_count r.2) runs.

Lemma runs_ok_cons r runs :
  runs_ok (r :: runs) ->
  0 < rn_count r.2 /\ runs_ok runs /\ forall r', r' ∈ runs -> r.1 + rn_count r.2 <= r'.1.
Proof.
  intros [Hs Hc]. apply StronglySorted_inv in Hs as [Hs Hall]. apply Forall_cons in Hc as [Hc1 Hc2].
  rewrite Forall_forall in Hall. done.
Qed.

(** Of two runs one is over before the other begins. *)
Lemma runs_apart runs r r' :
  runs_ok runs -> r ∈ runs -> r' ∈ runs -> r.1 < r'.1 -> r.1 + rn_count r.2 <= r'.1.
Proof.
  induction runs as [|x runs IH]; intros Hok Hr Hr' Hlt; [by apply elem_of_nil in Hr|].
  apply runs_ok_cons in Hok as (Hx & Hok & Hall).
  apply elem_of_cons in Hr as [->|Hr], Hr' as [->|Hr']; [lia | by apply Hall | specialize (Hall _ Hr); lia | by apply IH].
Qed.

Lemma bt_last_to_spec (k : Z) (runs : list (Z * NumberRun)) :
  runs_ok runs ->
  match bt_last_to k runs with
  | Some r => r ∈ runs /\ r.1 <= k /\ forall r', r' ∈ runs -> r'.1 <= k -> r'.1 <= r.1
  | None => forall r', r' ∈ runs -> k < r'.1
  end.
Proof.
  induction runs as [|[key run] runs IH]; intros Hok; [by intros r' ?%elem_of_nil|].
  apply runs_ok_cons in Hok as (Hc & Hok & Hall). cbn [fst snd] in *. specialize (IH Hok). cbn [bt_last_to].
  unfold key_ltb, key_Z. destruct (Z.ltb_spec k key) as [Hlt|Hge].
  { intros r' [->|Hr']%elem_of_cons; [done|]. specialize (Hall _ Hr'). lia. }
  destruct (bt_last_to k runs) as [r|].
  - destruct IH as (Hr & Hle & Hmax). split_and!; [by right|done|].
    intros r' [->|Hr'']%elem_of_cons Hle'; [specialize (Hall _ Hr); simpl; lia | by apply Hmax].
  - split_and!; [by left|done|]. intros r' [->|Hr']%elem_of_cons Hle'; [simpl; lia|].
    specialize (IH _ Hr'). lia.
Qed.

(** A run that shares a number with [first..past] is in the range looked at. *)
Lemma in_range runs first past r :
  runs_ok runs -> r ∈ runs -> first < past -> Z.max first r.1 < Z.min past (r.1 + rn_count r.2) ->
  r ∈ bt_range (match bt_last_to first runs with Some (key, _) => key | None => first end) past runs.
Proof.
  intros Hok Hr Hlt Hov. unfold bt_range. apply list_elem_of_filter. split; [|done].
  unfold key_ltb, key_Z. rewrite Z.ltb_ge, Z.ltb_lt. split; [|lia].
  pose proof (bt_last_to_spec first runs Hok) as Hlast. destruct (bt_last_to first runs) as [[key run]|].
  - destruct Hlast as (Hk & Hle & Hmax). cbn [fst snd] in *.
    destruct (Z.le_gt_cases key r.1); [done|]. pose proof (runs_apart runs r (key, run) Hok Hr Hk). cbn [fst] in *. lia.
  - specialize (Hlast r Hr). lia.
Qed.

(** The segments a pair of a CONFIRMATION's list names are exactly the messages of this client's runs whose numbers
    the pair holds: none is missed and none is named that the pair does not hold; a pair that is empty or runs past
    the last number names nothing. *)
Theorem segments_exact (runs : list (Z * NumberRun)) (first count b i : Z) :
  runs_ok runs ->
  (exists s, s ∈ segments_of runs (first, count) /\ sg_batch s = b /\ sg_begin s <= i < sg_end s)
  <->
  (0 < count /\ first + count < 2 ^ 64
   /\ exists r, r ∈ runs /\ rn_batch r.2 = b /\ in_run r i /\ first <= r.1 + (i - rn_index r.2) < first + count).
Proof.
  intros Hok. unfold segments_of, in_run.
  destruct ((2 ^ 64 <=? first + count) || (first + count <=? first)) eqn:E.
  { rewrite orb_true_iff, !Z.leb_le in E. split; [by intros (s & ?%elem_of_nil & _) | lia]. }
  rewrite orb_false_iff, !Z.leb_gt in E.
  split.
  - intros (s & Hs & Hb & Hi). apply list_elem_of_omap in Hs as ([key run] & Hin & Heq).
    apply list_elem_of_filter in Hin as [_ Hin].
    destruct (Z.ltb_spec (Z.max first key) (Z.min (first + count) (key + rn_count run))) as [Hlt|]; [|done].
    injection Heq as <-. cbn [sg_batch sg_begin sg_end] in *. split_and!; [lia|lia|].
    exists (key, run). cbn [fst snd]. split_and!; done || lia.
  - intros (Hc & Hp & [key run] & Hr & Hb & Hi & Hn). unfold in_run in Hi. cbn [fst snd] in *.
    assert (Hov : Z.max first key < Z.min (first + count) (key + rn_count run)) by lia.
    eexists. split.
    + apply list_elem_of_omap. exists (key, run). split; [apply in_range; done || lia|].
      apply Z.ltb_lt in Hov. by rewrite Hov.
    + cbn [sg_batch sg_begin sg_end]. split; [done|]. lia.
Qed.

Lemma segments_exact_witness :
  segments_of [(7, mkNumberRun 99 0 2 2); (10, mkNumberRun 99 3 2 2)] (8, 3)
    = [mkSegment 99 7 1 2; mkSegment 99 10 3 4]
  /\ (exists s, s ∈ segments_of [(7, mkNumberRun 99 0 2 2); (10, mkNumberRun 99 3 2 2)] (8, 3)
                /\ sg_batch s = 99 /\ sg_begin s <= 3 < sg_end s).
Proof.
  split; [reflexivity|]. apply segments_exact.
  - split; repeat constructor; simpl; lia.
  - split_and!; [lia|reflexivity|]. exists (10, mkNumberRun 99 3 2 2).
    split; [by right; left|]. unfold in_run. simpl. lia.
Defined.
