(* ===== verification/BodiesSpec.v ===== *)
(** * BodiesSpec: what a client keeps between batches, and a batch's frame

    [kept_bounded]: whatever is given and taken, the bodies and frame buffers
    kept stay within their caps.  [batch_frame_exact]: a frame of a batch holds
    its first messages, in order and whole, fits unless it holds one message
    alone, and what it did not take is left as it was. *)
From S2P Require Import Prelude Words Defaults Frame Timers LogSummary Records Ordered Messages CoreTypes CoreBase.
From S2P Require Import ConnQueue OutboxState ConfirmingState Placing Bodies Concrete.
Open Scope Z_scope.

(** ** The caps *)

Inductive KeepOp :=
| KGive (body : Vec8)
| KTake
| KTakeAll (other : list Vec8)
| KFrameTake
| KFrameGive (buffer : Vec8).

(** The bodies and the frame buffers kept, after one operation.  What
    [take_all] drains was itself kept by [give]. *)
Definition keep_step (s : Bodies * list Vec8) (op : KeepOp) : Bodies * list Vec8 :=
  let '(b, pool) := s in
  match op with
  | KGive body => (Bodies_give b body, pool)
  | KTake => ((Bodies_take b).2, pool)
  | KTakeAll other => ((Bodies_take_all b (foldl Bodies_give (mkBodies [] 0) other)).1, pool)
  | KFrameTake => (b, (FramePool_take pool).2)
  | KFrameGive buffer => (b, FramePool_give pool buffer)
  end.

Definition capacities (l : list Vec8) : Z := foldr (fun v n => v_capacity v + n) 0 l.

Definition bodies_ok (b : Bodies) : Prop :=
  bo_bytes b = capacities (bo_kept b) /\ bo_bytes b <= BODIES_KEPT_BYTES
  /\ Forall (fun v => v_bytes v = [] /\ 0 < v_capacity v <= BODY_KEPT_MAX) (bo_kept b).

Definition pool_ok (pool : list Vec8) : Prop :=
  Z.of_nat (length pool) <= FRAME_BUFFERS_KEPT
  /\ Forall (fun v => v_bytes v = [] /\ 0 < v_capacity v <= FRAME_BUFFER_KEPT_MAX) pool.

(** What a vector may be: a capacity is never negative. *)
Definition op_ok (op : KeepOp) : Prop :=
  match op with
  | KGive v | KFrameGive v => 0 <= v_capacity v
  | KTakeAll other => Forall (fun v => 0 <= v_capacity v) other
  | _ => True
  end.

Lemma bodies_give_ok b body : 0 <= v_capacity body -> bodies_ok b -> bodies_ok (Bodies_give b body).
Proof.
  intros Hc (H1 & H2 & H3). unfold Bodies_give.
  destruct (_ || _) eqn:E; [done|].
  rewrite !orb_false_iff, Z.eqb_neq, !Z.ltb_ge in E.
  split_and!; cbn [bo_bytes bo_kept capacities foldr]; [unfold capacities in H1; simpl; lia | lia |].
  constructor; [simpl; split; [done|lia] | done].
Qed.

Lemma bodies_gives_ok l b : Forall (fun v => 0 <= v_capacity v) l -> bodies_ok b -> bodies_ok (foldl Bodies_give b l).
Proof.
  intros Hl. revert b. induction Hl; intros b Hb; [done|]. simpl. auto using bodies_give_ok.
Qed.

Lemma bodies_empty_ok : bodies_ok (mkBodies [] 0).
Proof. split_and!; [done|vm_compute; done|constructor]. Qed.

Lemma capacities_nonneg l : Forall (fun v => v_bytes v = [] /\ 0 < v_capacity v <= BODY_KEPT_MAX) l -> 0 <= capacities l.
Proof. induction 1 as [|v l Hv _ IH]; unfold capacities in *; simpl; lia. Qed.

Lemma bodies_take_ok b : bodies_ok b -> bodies_ok (Bodies_take b).2.
Proof.
  intros Hb. unfold Bodies_take. destruct (bo_kept b) as [|v kept] eqn:E; [done|].
  destruct Hb as (H1 & H2 & H3). rewrite E in H1, H3.
  apply Forall_cons in H3 as [Hv H3]. unfold capacities in H1. simpl in H1.
  split_and!; cbn [bo_bytes bo_kept snd]; [unfold capacities; lia|lia|done].
Qed.

Lemma pool_give_ok pool v : 0 <= v_capacity v -> pool_ok pool -> pool_ok (FramePool_give pool v).
Proof.
  intros Hc [H1 H2]. unfold FramePool_give. destruct (_ || _) eqn:E; [done|].
  rewrite orb_false_iff, Z.eqb_neq, Z.ltb_ge in E. destruct (Z.ltb_spec (Z.of_nat (length pool)) FRAME_BUFFERS_KEPT); [|done].
  split; [simpl length; lia|]. constructor; [simpl; split; [done|lia]|done].
Qed.

Lemma keep_step_ok op b pool :
  op_ok op -> bodies_ok b /\ pool_ok pool -> bodies_ok (keep_step (b, pool) op).1 /\ pool_ok (keep_step (b, pool) op).2.
Proof.
  intros Ho [Hb Hp]. destruct op as [body| |other| |buffer]; simpl in *; split; try done.
  - by apply bodies_give_ok.
  - by apply bodies_take_ok.
  - unfold Bodies_take_all. simpl. apply bodies_gives_ok; [|done].
    destruct (bodies_gives_ok other (mkBodies [] 0) Ho bodies_empty_ok) as (_ & _ & HF).
    apply Forall_rev. eapply Forall_impl; [done|]. simpl. lia.
  - destruct pool as [|v pool]; [done|]. destruct Hp as [H1 H2]. apply Forall_cons in H2 as [_ H2].
    split; [simpl in *; lia|done].
  - by apply pool_give_ok.
Qed.

(** Whatever is given back and taken again, the bodies kept count their capacities exactly, hold 16 MiB at most,
    each empty and of 64 KiB at most; and at most four frame buffers are kept, each empty and of 4 MiB at most. *)
Theorem kept_bounded (ops : list KeepOp) :
  Forall op_ok ops ->
  let s := foldl keep_step (mkBodies [] 0, []) ops in bodies_ok s.1 /\ pool_ok s.2.
Proof.
  intros Hops. cut (forall b pool, bodies_ok b /\ pool_ok pool ->
    bodies_ok (foldl keep_step (b, pool) ops).1 /\ pool_ok (foldl keep_step (b, pool) ops).2).
  { intros H. apply H. split; [apply bodies_empty_ok|]. split; [done|constructor]. }
  induction Hops as [|op ops Ho _ IH]; intros b pool Hs; [done|]. cbn [foldl].
  pose proof (keep_step_ok op b pool Ho Hs) as Hn. destruct (keep_step (b, pool) op). by apply IH.
Qed.

Lemma kept_bounded_witness :
  let ops := [KGive (mkVec8 [1; 2] 16); KGive (mkVec8 [] 70000); KGive (mkVec8 [3] 8); KTake; KFrameGive (mkVec8 [9] 10)] in
  let s := foldl keep_step (mkBodies [] 0, []) ops in
  s = (mkBodies [mkVec8 [] 16] 16, [mkVec8 [] 10]) /\ bodies_ok s.1 /\ pool_ok s.2.
Proof. split; [reflexivity|]. apply kept_bounded. repeat constructor; simpl; lia. Defined.

(** ** The frame of a batch *)

(** A record without its body; without its number too. *)
Definition no_body (r : BatchRecord) : BatchRecord := r <| br_body := Vec8_new |>.
Definition bare (r : BatchRecord) : BatchRecord := no_body r <| br_number := 0 |>.

(** The envelope holds the first [end_] bodies, the records the rest. *)
Definition split_at (bodies messages : list Vec8) (records : list BatchRecord) (end_ : nat) : Prop :=
  length records = length bodies /\ (1 <= end_ <= length bodies)%nat
  /\ messages = take end_ bodies /\ map br_body (drop end_ records) = drop end_ bodies.

Lemma removelast_take {A} (l : list A) n : (n < length l)%nat -> removelast (take (S n) l) = take n l.
Proof.
  intros Hn. destruct (lookup_lt_is_Some_2 l n Hn) as [x Hx]. rewrite (take_S_r _ _ _ Hx). apply removelast_last.
Qed.

Lemma last_take {A} (l : list A) n : (n < length l)%nat -> last (take (S n) l) = l !! n.
Proof.
  intros Hn. destruct (lookup_lt_is_Some_2 l n Hn) as [x Hx]. rewrite (take_S_r _ _ _ Hx), Hx. by rewrite last_snoc.
Qed.

Lemma map_alter_same {A B} (f : A -> B) g k (l : list A) : (forall x, f (g x) = f x) -> map f (alter g k l) = map f l.
Proof.
  intros H. apply list_eq. intros i. rewrite !list_lookup_fmap, list_lookup_alter.
  case_decide; [subst|]; destruct (l !! _); simpl; congruence.
Qed.

Lemma split_at_pop bodies messages records end_ body :
  split_at bodies messages records (S end_) -> (1 <= end_)%nat -> bodies !! end_ = Some body ->
  split_at bodies (removelast messages) (alter (fun r => r <| br_body := body |>) end_ records) end_.
Proof.
  intros (Hl & He & -> & Hd) H1 Hb. split_and!; [by rewrite length_alter|lia|lia|rewrite removelast_take by lia; done|].
  assert (Hr : (end_ < length records)%nat) by lia. apply lookup_lt_is_Some_2 in Hr as [r Hr].
  rewrite (drop_S _ _ _ Hb), <- Hd.
  rewrite (drop_S (alter _ _ _) (r <| br_body := body |>) end_).
  - cbn [map]. rewrite drop_alter_lt by lia. done.
  - rewrite list_lookup_alter_eq, Hr. done.
Qed.

Lemma cut_loop_spec fuel bodies messages records end_ cut excess :
  split_at bodies messages records end_ ->
  let '(messages', records', end') := cut_loop fuel messages records end_ cut excess in
  split_at bodies messages' records' end' /\ (end' <= end_)%nat
  /\ map no_body records' = map no_body records
  /\ (fuel <> O -> (1 < end_)%nat -> cut < excess -> (end' < end_)%nat).
Proof.
  revert messages records end_ cut. induction fuel as [|fuel IH]; intros messages records end_ cut Hs; cbn [cut_loop];
    [split_and!; (done || lia)|].
  destruct ((1 <? end_)%nat && (cut <? excess)) eqn:E.
  2:{ split_and!; try done. intros _ H1 H2. apply Nat.ltb_lt in H1. apply Z.ltb_lt in H2. by rewrite H1, H2 in E. }
  apply andb_true_iff in E as [E _]. apply Nat.ltb_lt in E. destruct end_ as [|end_]; [lia|].
  pose proof Hs as (Hl & He & Hm & _). rewrite Hm, last_take by lia.
  destruct (lookup_lt_is_Some_2 bodies end_) as [body Hb]; [lia|]. rewrite Hb.
  replace (S end_ - 1)%nat with end_ by lia. rewrite <- Hm.
  specialize (IH _ _ _ (cut + v_len body) (split_at_pop _ _ _ _ _ Hs ltac:(lia) Hb)).
  destruct (cut_loop fuel _ _ _ _ _) as [[messages' records'] end']. destruct IH as (IH1 & IH2 & IH3 & _).
  split_and!; [done|lia| |lia]. rewrite IH3. apply map_alter_same. done.
Qed.

Lemma bodies_back_spec bodies messages records end_ :
  split_at bodies messages records end_ ->
  map br_body (bodies_back records messages) = bodies /\ map no_body (bodies_back records messages) = map no_body records.
Proof.
  intros (Hl & _ & -> & Hd). clear - Hl Hd. revert end_ bodies Hl Hd.
  induction records as [|r records IH]; intros end_ bodies Hl Hd; destruct bodies as [|b bodies]; try done.
  destruct end_ as [|end_]; [by rewrite !drop_0 in Hd|]. cbn in Hl, Hd. cbn [take bodies_back map].
  destruct (IH end_ bodies) as [H1 H2]; [lia|done|]. by rewrite H1, H2.
Qed.

Lemma number_records_spec last pairs records :
  let '(_, pairs', records') := number_records last pairs records in
  pairs' = foldl add_number pairs (map br_number records')
  /\ map br_body records' = map br_body records /\ map bare records' = map bare records.
Proof.
  revert last pairs. induction records as [|r records IH]; intros last pairs; [done|]. cbn [number_records].
  destruct (if br_number r =? 0 then _ else _) as [last' r'] eqn:E.
  assert (br_body r' = br_body r /\ bare r' = bare r) as [Hb Hr] by (destruct (br_number r =? 0); by injection E as <- <-).
  specialize (IH last' (add_number pairs (br_number r'))).
  destruct (number_records last' _ records) as [[last'' pairs'] records']. destruct IH as (-> & H2 & H3).
  cbn [map foldl]. split_and!; [done|by rewrite Hb, H2|by rewrite Hr, H3].
Qed.

Section Exact.
Context {E : Env}.

(** What the loop that cuts the envelope to size keeps. *)
Definition fit_ok (bodies : list Vec8) (start : list BatchRecord) (confirm : bool) (envelope : BodiesEnvelope)
    (records : list BatchRecord) (end_ : nat) : Prop :=
  split_at bodies (default [] (be_batch envelope)) records end_
  /\ map bare records = map bare start
  /\ be_confirm envelope = (if confirm then foldl add_number [] (map br_number (take end_ records)) else []).

(** The envelope without what the loop changes. *)
Definition rest_of (envelope : BodiesEnvelope) : BodiesEnvelope :=
  envelope <| be_batch := Some [] |> <| be_confirm := [] |>.

Lemma map_bare_no_body records records' : map no_body records' = map no_body records -> map bare records' = map bare records.
Proof.
  revert records'. induction records as [|r records IH]; intros [|r' records'] H; try done.
  injection H as H1 H2 H3 H4 H5. cbn [map]. rewrite IH by done. unfold bare, no_body. simpl. congruence.
Qed.

Lemma map_numbers_no_body records records' :
  map no_body records' = map no_body records -> map br_number records' = map br_number records.
Proof.
  revert records'. induction records as [|r records IH]; intros [|r' records'] H; try done.
  injection H as H1 H2 H3 H4 H5. cbn [map]. by rewrite IH, H4.
Qed.

(** Numbering the first [end_] records leaves the split as it is. *)
Lemma split_at_numbered bodies messages records end_ head :
  split_at bodies messages records end_ ->
  map br_body head = map br_body (take end_ records) ->
  split_at bodies messages (head ++ drop end_ records) end_.
Proof.
  intros (Hl & He & -> & Hd) Hh.
  assert (Hlen : length head = end_).
  { apply (f_equal length) in Hh. rewrite !length_map, length_take in Hh. lia. }
  split_and!; [|lia|lia|done|].
  - rewrite length_app, length_drop. lia.
  - rewrite <- Hlen, drop_app_length, Hlen. done.
Qed.

Lemma fit_loop_spec fuel bodies start envelope records end_ max_bytes confirm c :
  fit_ok bodies start confirm envelope records end_ -> (end_ <= S fuel)%nat ->
  let '((envelope', records', end'), _) := fit_loop fuel envelope records end_ max_bytes confirm c in
  fit_ok bodies start confirm envelope' records' end' /\ rest_of envelope' = rest_of envelope
  /\ (end' = 1%nat \/ envelope_len envelope' <= max_bytes).
Proof.
  revert envelope records end_ c. induction fuel as [|fuel IH]; intros envelope records end_ c Hok Hf.
  { pose proof Hok as [(_ & ? & _) _]. split_and!; [done|done|left; lia]. }
  cbn [fit_loop].
  destruct ((1 <? end_)%nat && (max_bytes <? envelope_len envelope)) eqn:Hgo.
  2:{ pose proof Hok as [(_ & ? & _) _]. split_and!; [done|done|].
      rewrite andb_false_iff, Nat.ltb_ge, Z.ltb_ge in Hgo. destruct Hgo; [left; lia | by right]. }
  rewrite andb_true_iff, Nat.ltb_lt, Z.ltb_lt in Hgo. destruct Hgo as [H1 Hbig].
  destruct Hok as (Hs & Hb & Hc).
  pose proof (cut_loop_spec end_ _ _ _ _ 0 (envelope_len envelope - max_bytes) Hs) as Hcut.
  destruct (cut_loop end_ _ _ _ _ _) as [[messages' records'] end']. destruct Hcut as (Hs' & He & Hn & Hless).
  specialize (Hless ltac:(lia) H1 ltac:(lia)).
  assert (Hb' : map bare records' = map bare start) by (by rewrite <- Hb; apply map_bare_no_body).
  destruct confirm; unfold bind, ret, numbered.
  - pose proof (number_records_spec (cf_last_number (cr_confirmer c)) [] (take end' records')) as Hnum.
    destruct (number_records _ _ _) as [[last pairs] head]. destruct Hnum as (Hp & Hhb & Hha).
    pose proof Hs' as (Hl' & He' & _).
    assert (Hlen : length head = end').
    { apply (f_equal length) in Hhb. rewrite !length_map, length_take in Hhb. lia. }
    match goal with |- context [fit_loop fuel ?e ?r ?k max_bytes true ?c'] => specialize (IH e r k c') end.
    destruct (fit_loop fuel _ _ _ _ _ _) as [[[envelope'' records''] end''] c''].
    destruct IH as (IH1 & IH2 & IH3); [|lia|by split_and!; [done|rewrite IH2; done|done]].
    split_and!; cbn [be_batch be_confirm from_option id upd]; [by apply split_at_numbered| |].
    + rewrite <- Hb', map_app, Hha, <- map_app. by rewrite take_drop.
    + rewrite Hp. by rewrite <- Hlen, take_app_length.
  - match goal with |- context [fit_loop fuel ?e ?r ?k max_bytes false ?c'] => specialize (IH e r k c') end.
    destruct (fit_loop fuel _ _ _ _ _ _) as [[[envelope'' records''] end''] c''].
    destruct IH as (IH1 & IH2 & IH3); [|lia|by split_and!; [done|rewrite IH2; done|done]].
    by split_and!.
Qed.

(** The state in which the kept envelope waits for the next batch. *)
Definition envelope_emptied (c : Core) : Prop :=
  default [] (be_batch (bc_envelope (cr_batcher c))) = [] /\ be_confirm (bc_envelope (cr_batcher c)) = [].

(** The envelope and the records the loop begins with, numbered when the batch is confirmed. *)
Lemma fit_ok_start (records : list BatchRecord) (confirm : bool) (envelope : BodiesEnvelope) (last : Z) :
  records <> [] -> be_batch envelope = Some (map br_body records) -> be_confirm envelope = [] ->
  let start := map no_body records in
  if confirm then
    let '(_, pairs, numbered) := number_records last [] start in
    fit_ok (map br_body records) records true (envelope <| be_confirm := pairs |>) numbered (length records)
    /\ length numbered = length records
  else fit_ok (map br_body records) records false envelope start (length records).
Proof.
  intros Hne Hb Hc start.
  assert (Hlen : (1 <= length records)%nat) by (destruct records; [done|simpl; lia]).
  assert (Hbare : map bare start = map bare records) by (unfold start; by rewrite map_map).
  destruct confirm.
  - pose proof (number_records_spec last [] start) as Hnum.
    destruct (number_records last [] start) as [[last' pairs] numbered]. destruct Hnum as (Hp & _ & Ha).
    assert (Hl : length numbered = length records).
    { apply (f_equal length) in Ha. unfold start in Ha. by rewrite !length_map in Ha. }
    split; [|done]. split_and!; cbn [be_batch be_confirm upd]; rewrite ?Hb; cbn [from_option id].
    + split_and!; rewrite ?length_map; try lia; rewrite <- ?Hl, ?drop_all, ?take_ge by (rewrite ?length_map; lia); try done.
      by rewrite drop_ge by (rewrite length_map; lia).
    + by rewrite Ha.
    + by rewrite take_ge by lia.
  - split_and!; rewrite ?Hb; cbn [from_option id]; [|done|done].
    unfold start. split_and!; rewrite ?length_map; try lia.
    + by rewrite take_ge by (rewrite length_map; lia).
    + by rewrite !drop_ge by (rewrite ?length_map; lia).
Qed.

(** What is left of the records once the frame was made, or not. *)
Lemma fit_ok_out records confirm envelope left_ end_ :
  fit_ok (map br_body records) records confirm envelope left_ end_ ->
  (1 <= end_ <= length records)%nat
  /\ map bare left_ = map bare records
  /\ map br_body (drop end_ left_) = map br_body (drop end_ records)
  /\ envelope = (rest_of envelope) <| be_batch := be_batch envelope |> <| be_confirm := be_confirm envelope |>
  /\ default [] (be_batch envelope) = map br_body (take end_ records)
  /\ map br_body (bodies_back left_ (default [] (be_batch envelope))) = map br_body records
  /\ map bare (bodies_back left_ (default [] (be_batch envelope))) = map bare records
  /\ length left_ = length records.
Proof.
  intros (Hs & Ha & _). pose proof (bodies_back_spec _ _ _ _ Hs) as [Hbb Hbn].
  destruct Hs as (Hl & He & Hm & Hd). rewrite length_map in *.
  split_and!; [lia|lia|done|by rewrite Hd; symmetry; apply fmap_drop|by destruct envelope|by rewrite Hm; symmetry; apply fmap_take|done| |done].
  rewrite <- Ha. by apply map_bare_no_body.
Qed.

(** What is said of a frame made, or not, of [records]. *)
Definition frame_holds (id sender type : Z) (key : option str) (records : list BatchRecord) (max_bytes : Z)
    (confirm : bool) (end_ : nat) (frame : option (list Z)) (left_ : list BatchRecord) : Prop :=
  (1 <= end_ <= length records)%nat
  /\ map bare left_ = map bare records
  /\ map br_body (drop end_ left_) = map br_body (drop end_ records)
  /\ match frame with
     | None => map br_body left_ = map br_body records
     | Some bytes =>
         let envelope := mkEnvelope (Some id) (Some sender) type key
           (Some (map br_body (take end_ records)))
           (if confirm then foldl add_number [] (map br_number (take end_ left_)) else []) in
         encode_envelope envelope [] = Some bytes /\ (end_ = 1%nat \/ envelope_len envelope <= max_bytes)
     end.

(** The end of [batch_frame], once the envelope fits. *)
Definition frame_made (envelope : BodiesEnvelope) (records : list BatchRecord) (end_ : nat) (confirm : bool) :
    CM (nat * option (list Z) * list BatchRecord) :=
  let* frame :=
    if (1 <? end_)%nat || confirm then
      let* buffer := fun c => let '(buffer, pool) := FramePool_take (bc_frames (cr_batcher c)) in
                              (buffer, c <| cr_batcher ::= fun bc => bc <| bc_frames := pool |> |>) in
      ret (encode_envelope envelope (v_bytes buffer))
    else ret None in
  let messages := default [] (be_batch envelope) in
  let* records :=
    match frame with
    | Some _ => for_each messages give_body ;;; ret records
    | None => ret (bodies_back records messages)
    end in
  mod_batcher (fun bc => bc <| bc_envelope :=
    envelope <| be_confirm := [] |> <| be_key := None |> <| be_batch := Some [] |> |>) ;;;
  ret (end_, frame, records).

Lemma frame_made_spec id sender type key records max_bytes confirm envelope left_ end_ c :
  fit_ok (map br_body records) records confirm envelope left_ end_ ->
  rest_of envelope = mkEnvelope (Some id) (Some sender) type key (Some []) [] ->
  end_ = 1%nat \/ envelope_len envelope <= max_bytes ->
  let '((end', frame, out), c') := frame_made envelope left_ end_ confirm c in
  frame_holds id sender type key records max_bytes confirm end' frame out /\ envelope_emptied c'.
Proof.
  intros Hfit Hrest Hmax. pose proof (fit_ok_out _ _ _ _ _ Hfit) as (H1 & H2 & H3 & H4 & H5 & H6 & H7 & H8).
  destruct Hfit as (_ & _ & Hc).
  assert (Hnone : frame_holds id sender type key records max_bytes confirm end_ None
                    (bodies_back left_ (default [] (be_batch envelope)))).
  { split_and!; [lia|lia|done| |done]. by rewrite <- !skipn_map, H6. }
  assert (Hbatch : be_batch envelope = Some (map br_body (take end_ records))).
  { rewrite <- H5. destruct (be_batch envelope); [done|]. apply (f_equal length) in H5.
    rewrite length_map, length_take in H5. simpl in H5. lia. }
  unfold frame_made, bind, ret.
  destruct ((1 <? end_)%nat || confirm); [|by split].
  destruct (FramePool_take _) as [buffer pool].
  destruct (encode_envelope envelope (v_bytes buffer)) as [bytes|] eqn:Henc; [|by split].
  destruct (for_each _ _ _) as [[] c'']. split; [|by split]. split_and!; [lia|lia|done|done|].
  rewrite <- Hc, <- Hbatch. rewrite H4, Hrest in Henc, Hmax. cbn in Henc, Hmax. by split.
Qed.

(** The loop and then the frame. *)
Lemma fit_made_spec id sender type key records max_bytes confirm envelope left_ end_ fuel c :
  fit_ok (map br_body records) records confirm envelope left_ end_ -> (end_ <= S fuel)%nat ->
  rest_of envelope = mkEnvelope (Some id) (Some sender) type key (Some []) [] ->
  let '((end', frame, out), c') :=
    (let '((envelope, left_, end_), c) := fit_loop fuel envelope left_ end_ max_bytes confirm c in
     frame_made envelope left_ end_ confirm c) in
  frame_holds id sender type key records max_bytes confirm end' frame out /\ envelope_emptied c'.
Proof.
  intros Hok Hf Hrest. pose proof (fit_loop_spec fuel _ _ _ _ _ max_bytes _ c Hok Hf) as Hfit.
  destruct (fit_loop _ _ _ _ _ _ _) as [[[envelope' left'] end'] c'].
  destruct Hfit as (Hfit & Hrest' & Hmax). apply frame_made_spec; [done|congruence|done].
Qed.

Lemma batch_frame_eq id type key records max_bytes confirm c :
  batch_frame id type key records max_bytes confirm c =
  let envelope := mkEnvelope (Some id) (Some (cr_instance_id c)) type key
    (Some (default [] (be_batch (bc_envelope (cr_batcher c))) ++ map br_body records))
    (be_confirm (bc_envelope (cr_batcher c))) in
  let '((envelope, records), c) :=
    if confirm then
      let '((pairs, records), c) := numbered (map no_body records) c in
      ((envelope <| be_confirm := pairs |>, records), c)
    else ((envelope, map no_body records), c) in
  let '((envelope, left_, end_), c) := fit_loop (length records) envelope records (length records) max_bytes confirm c in
  frame_made envelope left_ end_ confirm c.
Proof.
  unfold batch_frame, gets. unfold bind at 1 2 3. cbv zeta.
  change (map (fun r : BatchRecord => r <| br_body := Vec8_new |>) records) with (map no_body records).
  destruct confirm; [unfold bind at 1; destruct (numbered _ _) as [[pairs numbered_] c']|];
    unfold ret at 1, bind at 1; destruct (fit_loop _ _ _ _ _ _ _) as [[[envelope left_] end_] c'']; reflexivity.
Qed.

(** C34: A frame of a batch holds the first messages of the records, whole and in order, under the batch's type and key
    and, confirmed, their numbers; it is within [max_bytes] unless it holds one message; at least one message goes;
    the records not taken keep their bodies, and when no frame was made every record does. *)
Theorem batch_frame_exact (id type : Z) (key : option str) (records : list BatchRecord) (max_bytes : Z)
    (confirm : bool) (c : Core) :
  records <> [] -> envelope_emptied c ->
  let '((end_, frame, left_), c') := batch_frame id type key records max_bytes confirm c in
  frame_holds id (cr_instance_id c) type key records max_bytes confirm end_ frame left_ /\ envelope_emptied c'.
Proof.
  intros Hne [He1 He2]. rewrite batch_frame_eq, He1, He2. cbn [app].
  set (envelope := mkEnvelope _ _ _ _ _ _).
  pose proof (fit_ok_start records confirm envelope (cf_last_number (cr_confirmer c)) Hne eq_refl eq_refl) as Hstart.
  cbv zeta in Hstart |- *. destruct confirm.
  - unfold numbered. destruct (number_records _ _ _) as [[last pairs] numbered_]. destruct Hstart as [Hstart Hlen].
    rewrite Hlen. apply fit_made_spec; done || lia.
  - rewrite length_map. apply fit_made_spec; done || lia.
Qed.
End Exact.

(** Three messages of four bytes, in a frame of at most twelve. *)
Definition demo_records : list BatchRecord :=
  map (fun i => mkBatchRecord (mkVec8 [i; i; i; i] 8) (100 + i) None None 0) [1; 2; 3].

Lemma batch_frame_exact_witness :
  exists frame left_ c',
    batch_frame 7 200 None demo_records 12 true demo_core = ((2%nat, Some frame, left_), c')
    /\ frame_holds 7 (cr_instance_id demo_core) 200 None demo_records 12 true 2 (Some frame) left_.
Proof.
  pose proof (batch_frame_exact 7 200 None demo_records 12 true demo_core) as H.
  destruct (batch_frame 7 200 None demo_records 12 true demo_core) as [[[end_ frame] left_] c'] eqn:Hrun.
  assert (Hend : (batch_frame 7 200 None demo_records 12 true demo_core).1.1.1 = 2%nat) by (vm_compute; reflexivity).
  assert (Hframe : is_Some ((batch_frame 7 200 None demo_records 12 true demo_core).1.1.2))
    by (vm_compute; eexists; reflexivity).
  rewrite Hrun in Hend, Hframe. cbn [fst snd] in Hend, Hframe. subst end_. destruct Hframe as [bytes ->].
  exists bytes, left_, c'. split; [reflexivity|]. apply H; [discriminate | split; reflexivity].
Defined.
