(* ===== verification/BacklogSpec.v ===== *)
(** * BacklogSpec: a message waits for room only while there is none

    The invariant that keeps a backlog moving: a message that waits for room on a
    connection waits on a live connection whose queue is full.  [waits_ok e d] is
    that invariant but for the connections of [e], whose queue an operation under
    way is about to fill again, and those of [d], which it is about to give up
    on. *)
From S2P Require Import Prelude Words Defaults Frame SpanSet Timers Endpoint IpAddr LogSummary Records Ordered Messages.
From S2P Require Import CoreTypes CoreBase ConnQueue OutboxState ConfirmingState Placing Bodies Batching Confirming.
From S2P Require Import Sending Handover Query Connection Client Connect Run Concrete Stable StableRun ConnIds ConnSpec System Asked Fronts OutboxSpec.
Open Scope Z_scope.

(** Nothing more goes into the queue of [conn]. *)
Definition no_room_on (e d : gset Z) (conn : Z) (c : Core) : Prop :=
  conn ∈ d \/ exists s, cr_conns c !! conn = Some s /\ cn_living s = true /\ (conn ∈ e \/ outgoing_queue_full s = true).

Definition waits_ok (e d : gset Z) (c : Core) : Prop :=
  forall b, b ∈ ob_backlogs (cr_outbox c) -> 0 < bl_live b -> no_room_on e d (bl_conn b) c.

(** ** What changes it *)

(** No backlog is new, none has more that waits. *)
Definition backlogs_le (o o' : Outbox) : Prop :=
  forall b', b' ∈ ob_backlogs o' -> exists b, b ∈ ob_backlogs o /\ bl_conn b = bl_conn b' /\ bl_live b' <= bl_live b.

Lemma backlogs_le_eq o o' : ob_backlogs o' = ob_backlogs o -> backlogs_le o o'.
Proof. intros H b' Hb'. rewrite H in Hb'. by exists b'. Qed.

Lemma backlogs_le_trans o1 o2 o3 : backlogs_le o1 o2 -> backlogs_le o2 o3 -> backlogs_le o1 o3.
Proof.
  intros H1 H2 b3 Hb3. destruct (H2 b3 Hb3) as (b2 & Hb2 & Hc2 & Hl2). destruct (H1 b2 Hb2) as (b1 & Hb1 & Hc1 & Hl1).
  exists b1. split_and!; [done|congruence|lia].
Qed.

Lemma backlogs_le_alter o f conn :
  (forall b, bl_conn (f b) = bl_conn b /\ bl_live (f b) <= bl_live b) ->
  backlogs_le o (o <| ob_backlogs ::= alter_backlog f conn |>).
Proof.
  intros Hf b'. cbn [upd ob_backlogs]. generalize (ob_backlogs o) as l. induction l as [|b l IH]; cbn [alter_backlog];
    [by intros ?%elem_of_nil|].
  destruct (bl_conn b =? conn).
  - intros [->|Hin]%elem_of_cons; [exists b; destruct (Hf b); split_and!; [left|done|done]|exists b'; split_and!; [by right|done|done]].
  - intros [->|Hin]%elem_of_cons; [exists b; split_and!; [left|done|done]|].
    destruct (IH Hin) as (b0 & H1 & H2). exists b0. split; [by right|done].
Qed.

Lemma without_backlog_sub conn l b : b ∈ without_backlog conn l -> b ∈ l.
Proof.
  induction l as [|b' l IH]; cbn [without_backlog]; [done|]. case_match; [by right|].
  intros [->|Hin]%elem_of_cons; [left|right; auto].
Qed.

Lemma backlogs_le_without o conn : backlogs_le o (o <| ob_backlogs ::= without_backlog conn |>).
Proof. intros b' Hb'. exists b'. split; [exact (without_backlog_sub conn _ _ Hb')|done]. Qed.

Lemma clear_queue_backlogs on o : backlogs_le o (clear_queue on o).
Proof.
  assert (Hc : forall q l o, ob_backlogs (clear_out q l o).2 = ob_backlogs o).
  { intros q l o'. unfold clear_out. case_match; [done|]. apply retain_waiting_same. }
  unfold clear_queue. destruct on as [conn|].
  - destruct (Outbox_backlog o conn) as [b|]; [|by apply backlogs_le_eq].
    set (o1 := o <| ob_backlogs ::= _ |>). specialize (Hc (bl_waiting b) (bl_live b) o1).
    destruct (clear_out _ _ _) as [queue o2]. cbn [snd] in Hc.
    apply (backlogs_le_trans _ o1); [by apply backlogs_le_alter|]. apply (backlogs_le_trans _ o2); [by apply backlogs_le_eq|].
    by apply backlogs_le_alter.
  - specialize (Hc (ob_held o) (ob_held_live o) (o <| ob_held := [] |>)).
    destruct (clear_out _ _ _) as [queue o2]. by apply backlogs_le_eq.
Qed.

Section Backlog.
Context {E : Env} {P : Program} (e d : gset Z).
Implicit Types (conn : Z).

Lemma no_room_conns conn c c' : cr_conns c' = cr_conns c -> no_room_on e d conn c -> no_room_on e d conn c'.
Proof. unfold no_room_on. by intros ->. Qed.

(** A change of a connection that keeps it live and full. *)
Lemma no_room_conn conn conn' f c :
  (forall s, cr_conns c !! conn' = Some s -> cn_living s = true -> conn' ∉ d ->
     cn_living (f s) = true /\ (outgoing_queue_full s = true -> outgoing_queue_full (f s) = true \/ conn' ∈ e)) ->
  no_room_on e d conn c -> no_room_on e d conn (mod_conn conn' f c).2.
Proof.
  intros Hf [Hd|(s & Hs & Hl & Hfull)]; [by left|]. destruct (decide (conn ∈ d)) as [|Hd]; [by left|]. right.
  destruct (decide (conn = conn')) as [->|Hne].
  - destruct (Hf s Hs Hl Hd) as [Hl' Hfull']. exists (f s). split_and!; [by rewrite mod_conn_eq, Hs|done|].
    destruct Hfull as [?|Hfull]; [by left|]. destruct (Hfull' Hfull); auto.
  - exists s. split_and!; [by rewrite mod_conn_ne|done|done].
Qed.

Lemma waits_conn conn f c :
  (forall s, cr_conns c !! conn = Some s -> cn_living s = true -> conn ∉ d ->
     cn_living (f s) = true /\ (outgoing_queue_full s = true -> outgoing_queue_full (f s) = true \/ conn ∈ e)) ->
  waits_ok e d c -> waits_ok e d (mod_conn conn f c).2.
Proof. intros Hf Hc b Hb Hl. apply no_room_conn; [done|]. by apply Hc. Qed.

Lemma full_view s s' : conn_view s' = conn_view s -> cn_living s' = cn_living s /\ outgoing_queue_full s' = outgoing_queue_full s.
Proof.
  unfold conn_view, outgoing_queue_full, outgoing_len. intros [= H1 H2 H3 H4 H5 H6 H7 H8 H9 H10 H11]. by rewrite H1, (frames_length _ _ H9), H10.
Qed.

#[export] Instance no_room_quiet conn : Quiet (no_room_on e d conn).
Proof.
  split; [intros c c' (H & _); by apply no_room_conns|]. intros conn' f Hf c. apply no_room_conn. intros s _ Hl _.
  destruct (full_view s (f s) (Hf s)) as [-> ->]. auto.
Qed.

#[export] Instance waits_quiet : Quiet (waits_ok e d).
Proof.
  split.
  - intros c c' (H & Hv & _) Hc b Hb Hl. unfold ob_view in Hv. injection Hv as _ _ _ E4 _ _ _ _ _. rewrite E4 in Hb.
    eapply no_room_conns; [done|]. by apply Hc.
  - intros conn f Hf c. apply waits_conn. intros s _ Hl _. destruct (full_view s (f s) (Hf s)) as [-> ->]. auto.
Qed.

#[export] Instance waits_blind : Blind (waits_ok e d).
Proof. intros c c' H Ho _ Hc b. rewrite Ho. intros Hb Hl. eapply no_room_conns; [done|]. by apply Hc. Qed.

Lemma waits_outbox f : (forall o, backlogs_le o (f o)) -> pres (waits_ok e d) (mod_outbox f).
Proof.
  intros Hf c Hc b' Hb' Hl. destruct (Hf _ b' Hb') as (b & Hb & <- & Hle). apply (no_room_conns _ c); [done|].
  apply Hc; [done|lia].
Qed.

(** ** Every operation on queues, backlogs and what is held *)

#[local] Hint Extern 1 (Quiet _) => exact _ : pres.
#[local] Hint Extern 3 (pres (waits_ok e d) (mod_outbox _)) => (apply waits_outbox; intros ?; by apply backlogs_le_eq) : pres.

Lemma wo_store w : pres (waits_ok e d) (store w).
Proof.
  intros c Hc. unfold store, Outbox_store. destruct (ob_free (cr_outbox c)); intros b Hb Hl;
    (apply (no_room_conns _ c); [done|]; by apply Hc).
Qed.
Lemma wo_waiting key f : pres (waits_ok e d) (mod_waiting key f).
Proof. apply waits_outbox. intros o. apply backlogs_le_eq, alter_same_queues. Qed.
Lemma wo_release key : pres (waits_ok e d) (release key).
Proof. apply waits_outbox. intros o. apply backlogs_le_eq, release_same_queues. Qed.
Lemma wo_wait_flushes number copies : pres (waits_ok e d) (wait_flushes number copies).
Proof. apply waits_outbox. intros o. by apply backlogs_le_eq. Qed.
Lemma wo_clear_queue on : pres (waits_ok e d) (mod_outbox (clear_queue on)).
Proof. apply waits_outbox. intros o. apply clear_queue_backlogs. Qed.
Lemma wo_backlog_rest conn rest : pres (waits_ok e d) (mod_backlog conn (fun b => b <| bl_waiting := rest |>)).
Proof. apply waits_outbox. intros o. by apply backlogs_le_alter. Qed.
Lemma wo_backlog_left conn : pres (waits_ok e d) (mod_backlog conn (fun b => b <| bl_live ::= fun n => n - 1 |>)).
Proof. apply waits_outbox. intros o. apply backlogs_le_alter. intros b. cbn [upd bl_conn bl_live]. split; [done|lia]. Qed.
Lemma wo_remove_backlog conn : pres (waits_ok e d) (remove_backlog conn).
Proof.
  apply waits_outbox. intros o. destruct (Outbox_backlog o conn) as [b|]; [|by apply backlogs_le_eq].
  apply (backlogs_le_trans _ (o <| ob_backlogs ::= without_backlog conn |>)); [apply backlogs_le_without|].
  apply backlogs_le_eq, release_all_backlogs.
Qed.
Lemma displace_all_backlogs keys o :
  ob_backlogs (foldl (fun o key => if waits o key then o <| ob_displaced ::= fun l => l ++ [key] |> else Outbox_release key o)
                 o keys) = ob_backlogs o.
Proof.
  revert o. induction keys as [|key keys IH]; intros o; cbn [foldl]; [done|]. rewrite IH. case_match; [done|].
  apply release_same_queues.
Qed.
Lemma displace_backlogs conn o :
  backlogs_le o match Outbox_backlog o conn with
                | None => o
                | Some backlog =>
                    foldl (fun o key => if waits o key then o <| ob_displaced ::= fun l => l ++ [key] |> else Outbox_release key o)
                      (o <| ob_backlogs ::= without_backlog conn |>) (bl_waiting backlog)
                end.
Proof.
  destruct (Outbox_backlog o conn) as [b|]; [|by apply backlogs_le_eq].
  apply (backlogs_le_trans _ (o <| ob_backlogs ::= without_backlog conn |>)); [apply backlogs_le_without|].
  apply backlogs_le_eq, displace_all_backlogs.
Qed.
Lemma wo_displace conn : pres (waits_ok e d) (displace conn).
Proof. apply waits_outbox. intros o. apply displace_backlogs. Qed.
#[local] Hint Resolve wo_store wo_waiting wo_release wo_wait_flushes wo_clear_queue wo_backlog_rest wo_backlog_left
  wo_remove_backlog wo_displace : pres.
Lemma wo_held_left : pres (waits_ok e d) held_left.
Proof. unfold held_left. pres_tac. Qed.
#[local] Hint Resolve wo_held_left : pres.

Lemma wo_same_queue conn f :
  (forall s, cn_living (f s) = cn_living s /\ outgoing_queue_full (f s) = outgoing_queue_full s) -> pres (waits_ok e d) (mod_conn conn f).
Proof. intros Hf c. apply waits_conn. intros s _ Hl _. destruct (Hf s) as [-> ->]. auto. Qed.

(** The queue grows. *)
Lemma wo_queue_grows conn f :
  (forall s, cn_living (f s) = cn_living s /\ cn_outgoing_max (f s) = cn_outgoing_max s /\ outgoing_len s <= outgoing_len (f s)) ->
  pres (waits_ok e d) (mod_conn conn f).
Proof.
  intros Hf c. apply waits_conn. intros s _ Hl _. destruct (Hf s) as (-> & Hm & Hlen). split; [done|].
  unfold outgoing_queue_full. rewrite Hm. intros H. left. lia.
Qed.

Lemma wo_process_send_queue conn : pres (waits_ok e d) (process_send_queue conn).
Proof. unfold process_send_queue. pres_tac. by apply wo_same_queue. Qed.
#[local] Hint Resolve wo_process_send_queue : pres.

Lemma queue_asap_length out entry queue : length (queue_asap out entry queue) = S (length queue).
Proof. unfold queue_asap. by repeat case_match. Qed.

Lemma wo_schedule conn frame force asap : pres (waits_ok e d) (schedule conn frame force asap).
Proof.
  unfold schedule. pres_tac. apply wo_queue_grows. intros s. split_and!; [done|done|]. unfold outgoing_len. cbn [upd cn_outgoing].
  destruct asap; [rewrite queue_asap_length|rewrite length_app]; simpl; lia.
Qed.
Lemma wo_take_over conn entry : pres (waits_ok e d) (take_over conn entry).
Proof.
  unfold take_over. pres_tac. apply wo_queue_grows. intros s. split_and!; [done|done|]. unfold outgoing_len. cbn [upd cn_outgoing].
  rewrite length_app; simpl; lia.
Qed.
#[local] Hint Resolve wo_schedule wo_take_over : pres.
Lemma wo_drop_expired key : pres (waits_ok e d) (drop_expired key).
Proof. unfold drop_expired. pres_tac. Qed.
Lemma wo_lose key : pres (waits_ok e d) (lose key).
Proof. unfold lose. pres_tac. Qed.
Lemma wo_rehold key all : pres (waits_ok e d) (rehold key all).
Proof. unfold rehold. pres_tac. Qed.
Lemma wo_supersede tracker : pres (waits_ok e d) (supersede tracker).
Proof. unfold supersede. pres_tac. Qed.
Lemma wo_hold frame tracker number deadline all lane : pres (waits_ok e d) (hold frame tracker number deadline all lane).
Proof. unfold hold. pres_tac. Qed.
#[local] Hint Resolve wo_drop_expired wo_lose wo_rehold wo_supersede wo_hold : pres.

(** *** A message joins the backlog of a connection without room *)

Definition stuck (conn : Z) (c : Core) : Prop := waits_ok e d c /\ no_room_on e d conn c.

#[local] Instance stuck_quiet conn : Quiet (stuck conn).
Proof. apply and_quiet; exact _. Qed.

Lemma stuck_outbox conn f : pres (waits_ok e d) (mod_outbox f) -> pres (stuck conn) (mod_outbox f).
Proof. intros Hf. apply pres_and; [done|]. intros c. by apply no_room_conns. Qed.

Lemma stuck_store conn w : pres (stuck conn) (store w).
Proof.
  apply pres_and; [apply wo_store|]. intros c. unfold store. destruct (Outbox_store _ _). by apply no_room_conns.
Qed.

Lemma join_stuck conn key : leads (stuck conn) (waits_ok e d) (mod_outbox (join_backlog conn key)).
Proof.
  intros c [Hc Hr] b Hb Hl. apply (no_room_conns _ c); [done|]. revert Hb. unfold join_backlog. cbn [mod_outbox modify snd upd cr_outbox ob_backlogs].
  destruct (Outbox_backlog (cr_outbox c) conn) as [b0|] eqn:Hb0.
  - destruct (backlog_Some _ _ _ Hb0) as (l1 & l2 & Hs & Hcn & Ha & _). rewrite Ha.
    intros [Hin|[->|Hin]%elem_of_cons]%elem_of_app; [apply Hc; [rewrite Hs; apply elem_of_app; by left|done]| |].
    + cbn [bl_conn]. by rewrite Hcn.
    + apply Hc; [rewrite Hs; apply elem_of_app; right; by right|done].
  - intros [Hin|Hin]%elem_of_app; [by apply Hc|]. apply list_elem_of_singleton in Hin as ->. done.
Qed.

(** A live connection refuses a frame when its queue is full. *)
Lemma take_over_refuses conn entry c s :
  cr_conns c !! conn = Some s -> cn_living s = true ->
  (take_over conn entry c).1 = false -> outgoing_queue_full s = true /\ (take_over conn entry c).2 = c.
Proof.
  intros Hs Hl.
  assert (H : take_over conn entry c = if outgoing_queue_full s then (false, c)
    else ((mod_conn conn (fun s => s <| cn_outgoing ::= fun queue => queue ++ [entry] |>) ;;; process_send_queue conn) ;;; ret true) c).
  { unfold take_over, get_conn. unfold bind at 1, gets. rewrite Hs, Hl. cbn [negb orb]. destruct (outgoing_queue_full s); [done|].
    by rewrite !bind_tt. }
  rewrite H. destruct (outgoing_queue_full s); [done|]. by rewrite bind_tt.
Qed.

Lemma wo_place_on callers conn frame tracker number deadline copy lane :
  pres (waits_ok e d) (place_on callers conn frame tracker number deadline copy lane).
Proof.
  intros c Hc. unfold place_on, conn_living, bind at 1, gets. destruct (living c conn) eqn:Hl; [|done]. cbn [negb].
  set (up := fun c => living c conn = true). assert (Hq : Quiet up).
  { split; [intros c0 c1 (Hs & _); unfold up, living; by rewrite Hs|]. intros conn' f Hf c0. unfold up, living.
    cbn [mod_conn modify snd upd cr_conns]. destruct (decide (conn = conn')) as [->|]; [|by rewrite lookup_alter_ne].
    rewrite lookup_alter_eq. destruct (cr_conns c0 !! conn') as [s|]; [|done]. cbn. by destruct (full_view s (f s) (Hf s)) as [-> _]. }
  assert (Hup : waits_ok e d c /\ up c) by done. revert Hup. generalize c. clear c Hc Hl. apply leads_then; [pres_tac|intros t].
  assert (Htail : leads (stuck conn) (waits_ok e d)
    (let* late := past deadline in
     if late : bool then let* tracker := give_up_message callers frame (Some t) NoRoom in ret (Some tracker)
     else
       let* key := store (mkWaiting (Some frame) t number deadline (Some conn) copy false lane false) in
       mod_outbox (join_backlog conn key) ;;;
       mod_outbox (fun o => o <| ob_waiting ::= Z.add 1 |>) ;;;
       wait_flushes number 1 ;;; expire_at key ;;; ret (Some t))).
  { apply leads_then; [pres_tac|]. intros [];
      [apply (leads_weaken _ (waits_ok e d) _ (waits_ok e d)); [by intros ? []|done|apply pres_leads; pres_tac]|].
    apply leads_then; [apply stuck_store|intros key]. eapply leads_bind; [apply join_stuck|intros _]. apply pres_leads. pres_tac. }
  intros c [Hc Hl]. unfold up, living in Hl. destruct (cr_conns c !! conn) as [s|] eqn:Hs; [|done].
  unfold bind at 1, gets. destruct (match Outbox_backlog (cr_outbox c) conn with Some b => 0 <? bl_live b | None => false end) eqn:Hw.
  - apply Htail. split; [done|]. destruct (Outbox_backlog (cr_outbox c) conn) as [b|] eqn:Hb; [|done].
    destruct (backlog_Some _ _ _ Hb) as (l1 & l2 & Hsp & <- & _). apply Hc; [rewrite Hsp; apply elem_of_app; right; left|lia].
  - unfold bind at 1. pose proof (wo_take_over conn (t, frame) c Hc) as Hto.
    pose proof (take_over_refuses conn (t, frame) c s Hs Hl) as Hno. destruct (take_over conn (t, frame) c) as [[] c'].
    + cbn [snd] in Hto. revert Hto. generalize c'. change (pres (waits_ok e d) (queued number t conn ;;; ret (Some t))). pres_tac.
    + cbn [fst snd] in Hno. destruct (Hno eq_refl) as [Hfull ->]. apply Htail. split; [done|]. right. exists s. auto.
Qed.
#[local] Hint Resolve wo_place_on : pres.

#[export] Instance waits_placing : Placing (waits_ok e d).
Proof. split; [exact _|]. apply wo_place_on. Qed.
#[local] Hint Extern 1 (Placing _) => exact _ : pres.

Lemma wo_has_room_turn conn : pres (waits_ok e d) (has_room_turn conn).
Proof. unfold has_room_turn. pres_tac. Qed.

#[export] Instance waits_stable : Stable (waits_ok e d).
Proof.
  split; try exact _; intros; eauto 2 with pres nocore.
  - unfold drop_held. pres_tac.
  - unfold place_held, place_held_turn. pres_tac.
  - unfold outgoing_queue_has_room. pres_tac. apply wo_has_room_turn.
  - unfold replace_displaced, replace_one. pres_tac.
  - unfold drop_outbox, drop_one. pres_tac.
    apply waits_outbox. intros o b Hb. by apply elem_of_nil in Hb.
  - unfold open_flush. pres_tac.
Qed.

#[export] Instance waits_displacing : Displacing (waits_ok e d).
Proof. split; [exact _|]. apply wo_displace. Qed.

Lemma wo_expire : pres (waits_ok e d) expire.
Proof. unfold expire, expire_turn. pres_tac. Qed.
End Backlog.

(** ** A queue that got room takes what waits for it *)

Section HasRoom.
Context {E : Env} {P : Program} (e d : gset Z) (conn : Z).
#[local] Hint Extern 1 (Quiet _) => exact _ : pres.
#[local] Hint Extern 1 (Placing _) => exact _ : pres.
#[local] Hint Extern 1 (Stable _) => exact _ : pres.

Lemma backlog_found b o : NoDup (map bl_conn (ob_backlogs o)) -> b ∈ ob_backlogs o -> Outbox_backlog o (bl_conn b) = Some b.
Proof.
  intros Hn Hb. destruct (Outbox_backlog o (bl_conn b)) as [b'|] eqn:Hb'.
  - destruct (backlog_Some _ _ _ Hb') as (l1 & l2 & Hs & Hc & _). f_equal.
    apply (NoDup_map_inj bl_conn (ob_backlogs o)); [done| |done|done]. rewrite Hs. apply elem_of_app. right. left.
  - destruct (backlog_None _ _ Hb') as [Hno _]. by destruct (Hno b Hb).
Qed.

(** Whatever waits for [conn] has reason to. *)
Lemma waits_settled c :
  in_hand [] c -> waits_ok ({[conn]} ∪ e) d c ->
  (forall b, Outbox_backlog (cr_outbox c) conn = Some b -> 0 < bl_live b -> no_room_on e d conn c) -> waits_ok e d c.
Proof.
  intros Hok Hc Hr b Hb Hl. destruct (decide (bl_conn b = conn)) as [<-|Hne].
  - apply (Hr b); [|done]. apply backlog_found; [apply Hok|done].
  - destruct (Hc b Hb Hl) as [?|(s & Hs & Hlv & [Hin|?])]; [by left|right; exists s..]; split_and!; auto. left. set_solver.
Qed.

(** Looked at, [conn] is full or gone. *)
Lemma waits_full c :
  in_hand [] c -> waits_ok ({[conn]} ∪ e) d c ->
  match cr_conns c !! conn with Some s => outgoing_queue_full s | None => true end = true -> waits_ok e d c.
Proof.
  intros Hok Hc Hf. apply waits_settled; [done|done|]. intros b Hb Hl.
  destruct (backlog_Some _ _ _ Hb) as (l1 & l2 & Hs & <- & _).
  destruct (Hc b) as [?|(s & Hcs & Hlv & _)]; [rewrite Hs; apply elem_of_app; right; left|done|by left|].
  right. exists s. rewrite Hcs in Hf. auto.
Qed.

(** At most [n] entries are queued for [conn]. *)
Definition shorter (n : nat) (c : Core) : Prop :=
  forall b, b ∈ ob_backlogs (cr_outbox c) -> bl_conn b = conn -> (length (bl_waiting b) <= n)%nat.

Lemma waits_none c : in_hand [] c -> waits_ok ({[conn]} ∪ e) d c -> shorter 0 c -> waits_ok e d c.
Proof.
  intros Hok Hc Hs. apply waits_settled; [done|done|]. intros b Hb Hl.
  destruct (backlog_Some _ _ _ Hb) as (l1 & l2 & Hsp & Hcn & _).
  assert (Hin : b ∈ ob_backlogs (cr_outbox c)) by (rewrite Hsp; apply elem_of_app; right; left).
  specialize (Hs b Hin Hcn). pose proof (oo_room _ _ _ _ _ _ Hok b Hin) as Hroom.
  destruct (bl_waiting b); [|simpl in Hs; lia]. unfold count in Hroom. simpl in Hroom. lia.
Qed.

#[local] Instance shorter_quiet n : Quiet (shorter n).
Proof.
  split; [|by intros conn' f _ c Hc]. intros c c' (_ & Hv & _) H. unfold ob_view in Hv. injection Hv as _ _ _ E4 _ _ _ _ _.
  intros b. rewrite E4. apply H.
Qed.

Lemma shorter_same n f : (forall o, ob_backlogs (f o) = ob_backlogs o) -> pres (shorter n) (mod_outbox f).
Proof. intros Hf c Hc b. cbn [mod_outbox modify snd upd cr_outbox]. rewrite Hf. apply Hc. Qed.

(** The backlog of [conn'] changed to one no longer. *)
Lemma shorter_alter n c conn' b f o' :
  shorter n c -> Outbox_backlog (cr_outbox c) conn' = Some b -> ob_backlogs o' = alter_backlog f conn' (ob_backlogs (cr_outbox c)) ->
  bl_conn (f b) = bl_conn b -> (conn' = conn -> (length (bl_waiting (f b)) <= n)%nat) -> shorter n (c <| cr_outbox := o' |>).
Proof.
  intros Hc Hb Ho Hf Hlen b' Hb' Hcn. cbn [upd cr_outbox] in Hb'. destruct (backlog_Some _ _ _ Hb) as (l1 & l2 & Hs & Hb1 & Ha & _).
  rewrite Ho, Ha in Hb'. apply elem_of_app in Hb' as [Hin|[->|Hin]%elem_of_cons].
  - apply Hc; [rewrite Hs; apply elem_of_app; by left|done].
  - apply Hlen. congruence.
  - apply Hc; [rewrite Hs; apply elem_of_app; right; by right|done].
Qed.

Lemma shorter_left n conn' : pres (shorter n) (mod_backlog conn' (fun b => b <| bl_live ::= fun n => n - 1 |>)).
Proof.
  intros c Hc. destruct (Outbox_backlog (cr_outbox c) conn') as [b|] eqn:Hb.
  - eapply (shorter_alter n c); [done|done|done|done|]. intros ->. destruct (backlog_Some _ _ _ Hb) as (l1 & l2 & Hs & Hcn & _).
    change (length (bl_waiting b) <= n)%nat. apply Hc; [rewrite Hs; apply elem_of_app; right; left|done].
  - destruct (backlog_None _ _ Hb) as [_ Ha]. intros b. cbn [mod_backlog mod_outbox modify snd upd cr_outbox ob_backlogs]. rewrite Ha. apply Hc.
Qed.

Lemma retain_waiting_length queue o : (length (retain_waiting queue o).1 <= length queue)%nat.
Proof.
  revert o. induction queue as [|key queue IH]; intros o; cbn [retain_waiting]; [done|]. case_match.
  - specialize (IH o). destruct (retain_waiting queue o). simpl in *. lia.
  - specialize (IH (Outbox_release key o)). simpl in *. lia.
Qed.

Lemma shorter_clear n on : pres (shorter n) (mod_outbox (clear_queue on)).
Proof.
  intros c Hc. assert (Hs : forall q l o, ob_backlogs (clear_out q l o).2 = ob_backlogs o /\ (length (clear_out q l o).1 <= length q)%nat).
  { intros q l o. unfold clear_out. case_match; [done|]. split; [apply retain_waiting_same|apply retain_waiting_length]. }
  unfold clear_queue, mod_outbox, modify. cbn [snd]. destruct on as [conn'|].
  - cbn [upd]. destruct (Outbox_backlog (cr_outbox c) conn') as [b|] eqn:Hb; [|exact Hc].
    match goal with |- context [clear_out ?q ?l ?o] => destruct (Hs q l o) as [H1 H2]; destruct (clear_out q l o) as [queue o2] end.
    cbn [fst snd] in H1, H2.
    eapply (shorter_alter n c conn' b (fun b => mkBacklog (bl_conn b) queue (bl_live b)) _ Hc Hb); [|done|]; cbn [upd ob_backlogs].
    + rewrite H1. cbn [upd ob_backlogs]. destruct (backlog_Some _ _ _ Hb) as (l1 & l2 & Hsp & Hcn & Ha & _).
      generalize (ob_backlogs (cr_outbox c)) as l. induction l as [|b' l IH]; [done|]. cbn [alter_backlog].
      destruct (bl_conn b' =? conn') eqn:He; cbn [alter_backlog upd bl_conn]; rewrite He; [reflexivity|]. f_equal. apply IH.
    + intros ->. cbn [bl_waiting]. destruct (backlog_Some _ _ _ Hb) as (l1 & l2 & Hsp & Hcn & _).
      specialize (Hc b ltac:(rewrite Hsp; apply elem_of_app; right; left) Hcn). lia.
  - cbn [upd].
    match goal with |- context [clear_out ?q ?l ?o] => destruct (Hs q l o) as [H1 H2]; destruct (clear_out q l o) as [queue o2] end.
    cbn [snd] in H1. intros b. cbn [upd cr_outbox ob_backlogs]. rewrite H1. apply Hc.
Qed.

Lemma shorter_conn n conn' f : pres (shorter n) (mod_conn conn' f).
Proof. by intros c Hc. Qed.
Lemma shorter_waiting n key f : pres (shorter n) (mod_waiting key f).
Proof. apply shorter_same. intros o. apply alter_same_queues. Qed.
Lemma shorter_release n key : pres (shorter n) (release key).
Proof. apply shorter_same. intros o. apply release_same_queues. Qed.
Lemma shorter_wait_flushes n number copies : pres (shorter n) (wait_flushes number copies).
Proof. by apply shorter_same. Qed.
#[local] Hint Resolve shorter_left shorter_clear shorter_conn shorter_waiting shorter_release shorter_wait_flushes : pres.
#[local] Hint Extern 3 (pres (shorter _) (mod_outbox _)) => (apply shorter_same; by intros) : pres.
Lemma shorter_held_left n : pres (shorter n) held_left.
Proof. unfold held_left. pres_tac. Qed.
Lemma shorter_take_over n conn' entry : pres (shorter n) (take_over conn' entry).
Proof. unfold take_over, process_send_queue. pres_tac. Qed.
#[local] Hint Resolve shorter_held_left shorter_take_over : pres.
Lemma shorter_drop_expired n key : pres (shorter n) (drop_expired key).
Proof. unfold drop_expired. pres_tac. Qed.
#[local] Hint Resolve shorter_drop_expired : pres.

(** A turn takes an entry off the backlog, or there is no reason for another. *)
Lemma has_room_turn_spec n :
  gives (fun c => in_hand [] c /\ waits_ok ({[conn]} ∪ e) d c /\ shorter (S n) c) (has_room_turn conn)
    (fun go_on c => if go_on : bool then shorter n c else waits_ok e d c).
Proof.
  intros c (Hok & Hc & Hs). unfold has_room_turn.
  match goal with |- context [bind (gets id) ?k c] => change (bind (gets id) k c) with (k c c); cbv beta end.
  destruct (Outbox_backlog (cr_outbox c) conn) as [b|] eqn:Hb.
  2:{ apply waits_settled; [done|done|]. intros b Hb'. cbn [ret snd] in Hb'. congruence. }
  destruct (bl_live b =? 0) eqn:Hl0.
  { apply waits_settled; [done|done|]. intros b' Hb'. cbn [ret snd] in Hb'. rewrite Hb in Hb'. injection Hb' as <-. lia. }
  destruct (match cr_conns c !! conn with Some s => outgoing_queue_full s | None => true end) eqn:Hfull; [by apply waits_full|].
  destruct (backlog_Some _ _ _ Hb) as (l1 & l2 & Hsp & Hcn & Ha & _).
  assert (Hin : b ∈ ob_backlogs (cr_outbox c)) by (rewrite Hsp; apply elem_of_app; right; left).
  specialize (Hs b Hin Hcn) as Hlen. destruct (bl_waiting b) as [|key rest] eqn:Hq.
  { pose proof (oo_room _ _ _ _ _ _ Hok b Hin) as Hroom. rewrite Hq in Hroom. unfold count in Hroom. simpl in Hroom. lia. }
  rewrite bind_tt. set (c1 := (mod_backlog conn _ c).2).
  assert (Hc1 : shorter n c1).
  { intros b' Hb' Hcn'. cbn [c1 mod_backlog mod_outbox modify snd upd cr_outbox ob_backlogs] in Hb'. rewrite Ha in Hb'.
    pose proof (oo_conns _ _ _ _ _ _ Hok) as Hn. rewrite Hsp, map_app, map_cons, Hcn in Hn. apply NoDup_app in Hn as (_ & H1 & H2).
    apply NoDup_cons in H2 as [H2 _]. apply elem_of_app in Hb' as [Hin'|[->|Hin']%elem_of_cons].
    - destruct (H1 conn); [rewrite <- Hcn'; by apply list_elem_of_fmap_2|left].
    - cbn [upd bl_waiting length] in *. lia.
    - destruct H2. rewrite <- Hcn'. by apply list_elem_of_fmap_2. }
  assert (Hmore : forall m : CM unit, pres (shorter n) m ->
    if ((m ;;; ret true) c1).1 then shorter n ((m ;;; ret true) c1).2 else waits_ok e d ((m ;;; ret true) c1).2).
  { intros m Hm. rewrite bind_tt. by apply Hm. }
  destruct (Outbox_get (cr_outbox c) key) as [w|] eqn:Hg; [|done]. destruct (wt_over w) eqn:Hov; [apply Hmore; pres_tac|].
  destruct (match wt_deadline w with Some deadline => _ | None => false end).
  { rewrite bind_tt. rewrite bind_tt. apply shorter_release. by apply shorter_drop_expired. }
  destruct (wt_frame w) as [frame|] eqn:Hfr; [|destruct (oo_frame _ _ _ _ _ _ Hok key w Hg Hov); congruence].
  match goal with |- context [?m c1] => assert (Hgo : gives (shorter n) m (fun go c => go = true /\ shorter n c)) end.
  { repeat (eapply gives_bind; [apply gives_pres; pres_tac|intros ?]). by intros c'. }
  by destruct (Hgo c1 Hc1) as [-> ?].
Qed.

Lemma has_room_loop fuel :
  leads (fun c => in_hand [] c /\ waits_ok ({[conn]} ∪ e) d c /\ shorter fuel c) (waits_ok e d) (loop_m fuel (has_room_turn conn)).
Proof.
  induction fuel as [|fuel IH]; [intros c (? & ? & ?); by apply waits_none|]. cbn [loop_m].
  intros c (Hok & Hc & Hs). unfold bind. pose proof (has_room_turn_spec fuel c (conj Hok (conj Hc Hs))) as Hsp.
  pose proof (outb_has_room_turn conn c Hok) as Hok'. pose proof (wo_has_room_turn _ _ conn c Hc) as Hc'.
  destruct (has_room_turn conn c) as [[] c']; cbn [fst snd] in *; [by apply IH|done].
Qed.

Lemma has_room_settles :
  leads (fun c => in_hand [] c /\ waits_ok ({[conn]} ∪ e) d c) (waits_ok e d) (outgoing_queue_has_room conn).
Proof.
  unfold outgoing_queue_has_room. apply leads_gets. intros turns. eapply leads_bind.
  - apply (leads_weaken _ _ _ (waits_ok e d)) with (3 := has_room_loop turns); [|done]. intros c ((Hok & Hc) & Ht). split_and!; [done|done|].
    intros b Hb Hcn. rewrite <- Hcn, (backlog_found b) in Ht; [by rewrite Ht|apply Hok|done].
  - intros _. apply pres_leads. pres_tac. apply wo_remove_backlog.
Qed.
End HasRoom.

(** ** The end of a connection *)

(** [conn] is dead, if it is at all. *)
Definition no_live (conn : Z) (c : Core) : Prop := forall s, cr_conns c !! conn = Some s -> cn_living s = false.

Section NoLive.
Context {E : Env} (conn : Z).
#[local] Hint Extern 1 (Quiet _) => exact _ : pres.
#[local] Hint Extern 1 (Placing _) => exact _ : pres.

Lemma nl_conn conn' f : (forall s, cn_living s = false -> cn_living (f s) = false) -> pres (no_live conn) (mod_conn conn' f).
Proof.
  intros Hf c Hc s. destruct (decide (conn = conn')) as [->|]; [|rewrite mod_conn_ne by done; apply Hc].
  rewrite mod_conn_eq. destruct (cr_conns c !! conn') as [s0|] eqn:Hs; [|done]. intros [= <-]. auto.
Qed.

#[export] Instance no_live_quiet : Quiet (no_live conn).
Proof.
  split; [intros c c' (H & _); unfold no_live; by rewrite H|]. intros conn' f Hf. apply nl_conn. intros s.
  by destruct (full_view s (f s) (Hf s)) as [-> _].
Qed.

Lemma nl_outbox f : pres (no_live conn) (mod_outbox f).
Proof. by intros c Hc. Qed.
Lemma nl_store w : pres (no_live conn) (store w).
Proof. intros c Hc. unfold store. by destruct (Outbox_store _ _). Qed.
Lemma nl_waiting key f : pres (no_live conn) (mod_waiting key f).
Proof. by intros c Hc. Qed.
Lemma nl_release key : pres (no_live conn) (release key).
Proof. by intros c Hc. Qed.
Lemma nl_backlog conn' f : pres (no_live conn) (mod_backlog conn' f).
Proof. by intros c Hc. Qed.
Lemma nl_wait_flushes number copies : pres (no_live conn) (wait_flushes number copies).
Proof. by intros c Hc. Qed.
Lemma nl_remove_backlog conn' : pres (no_live conn) (remove_backlog conn').
Proof. by intros c Hc. Qed.
#[local] Hint Extern 1 (pres (no_live _) (mod_conn _ _)) => (apply nl_conn; by intros) : pres.
#[local] Hint Resolve nl_outbox nl_store nl_waiting nl_release nl_backlog nl_wait_flushes nl_remove_backlog : pres.
Lemma nl_process_send_queue conn' : pres (no_live conn) (process_send_queue conn').
Proof. unfold process_send_queue. pres_tac. Qed.
#[local] Hint Resolve nl_process_send_queue : pres.
Lemma nl_take_over conn' entry : pres (no_live conn) (take_over conn' entry).
Proof. unfold take_over. pres_tac. Qed.
Lemma nl_held_left : pres (no_live conn) held_left.
Proof. unfold held_left. pres_tac. Qed.
#[local] Hint Resolve nl_take_over nl_held_left : pres.
Lemma nl_drop_expired key : pres (no_live conn) (drop_expired key).
Proof. unfold drop_expired. pres_tac. Qed.
Lemma nl_lose key : pres (no_live conn) (lose key).
Proof. unfold lose. pres_tac. Qed.
Lemma nl_rehold key all : pres (no_live conn) (rehold key all).
Proof. unfold rehold. pres_tac. Qed.
Lemma nl_supersede tracker : pres (no_live conn) (supersede tracker).
Proof. unfold supersede. pres_tac. Qed.
#[local] Hint Resolve nl_drop_expired nl_lose nl_rehold nl_supersede : pres.

#[export] Instance no_live_placing : Placing (no_live conn).
Proof. split; [exact _|]. intros. unfold place_on. pres_tac. Qed.

#[export] Instance no_live_stable : Stable (no_live conn).
Proof.
  split; try exact _; intros.
  - unfold schedule. pres_tac.
  - apply nl_take_over.
  - unfold hold. pres_tac.
  - unfold drop_held. pres_tac.
  - unfold place_held, place_held_turn. pres_tac.
  - unfold outgoing_queue_has_room, has_room_turn. pres_tac.
  - unfold replace_displaced, replace_one. pres_tac.
  - unfold drop_outbox, drop_one. pres_tac.
  - unfold open_flush. pres_tac.
Qed.

#[export] Instance no_live_displacing : Displacing (no_live conn).
Proof. split; [exact _|]. intros. apply nl_outbox. Qed.
End NoLive.

Section Ends.
Context {E : Env} {P : Program} (e d : gset Z) (conn : Z).
#[local] Hint Extern 1 (Quiet _) => exact _ : pres.
#[local] Hint Extern 1 (Placing _) => exact _ : pres.
#[local] Hint Extern 1 (Stable _) => exact _ : pres.
#[local] Hint Extern 1 (Displacing _) => exact _ : pres.

(** [conn] is dead and nothing waits for it. *)
Definition settled (c : Core) : Prop := waits_ok e d c /\ no_live conn c.

#[export] Instance settled_displacing : Displacing settled.
Proof. apply and_displacing; exact _. Qed.

Lemma settled_conn f : (forall s, cn_living s = false -> cn_living (f s) = false) -> pres settled (mod_conn conn f).
Proof.
  intros Hf c [Hc Hn]. split; [|by apply nl_conn]. apply waits_conn; [|done]. intros s Hs Hl. rewrite (Hn s Hs) in Hl. done.
Qed.
#[local] Hint Extern 1 (pres settled (mod_conn _ _)) => (apply settled_conn; by intros) : pres.

Lemma settled_forget : pres settled (forget_if_finished conn).
Proof.
  intros c [Hc Hn]. unfold forget_if_finished, modify. cbn [snd]. destruct (cr_conns c !! conn) as [s|] eqn:Hs; [|done].
  destruct (finished s); [|done]. split.
  - intros b Hb Hl. destruct (Hc b Hb Hl) as [?|(s' & Hs' & Hlv & ?)]; [by left|]. right. exists s'. split_and!; [|done|done].
    cbn [upd cr_conns]. rewrite lookup_delete_ne; [done|]. intros Heq. rewrite <- Heq in Hs'. by rewrite (Hn s' Hs') in Hlv.
  - intros s'. cbn [upd cr_conns]. by rewrite lookup_delete_eq.
Qed.

Lemma settled_orphan : pres settled (orphan_outgoing_messages conn).
Proof. unfold orphan_outgoing_messages, give_up_entries. pres_tac. Qed.
Lemma settled_settle_set_aside written failed : pres settled (settle_set_aside conn written failed).
Proof. unfold settle_set_aside, give_up_entries. pres_tac. Qed.
Lemma settled_tell : pres settled (tell_client_gone conn).
Proof. unfold tell_client_gone. pres_tac. Qed.
Lemma settled_closed : pres settled (connection_closed conn).
Proof. unfold connection_closed. pres_tac. Qed.
#[local] Hint Resolve settled_forget settled_orphan settled_tell settled_closed : pres.

(** Nothing waits for a connection that is given up on. *)
Lemma displace_settles : leads (fun c => in_hand [] c /\ waits_ok e ({[conn]} ∪ d) c) (waits_ok e d) (displace conn).
Proof.
  intros c [Hok Hc] b Hb Hl. destruct (displace_backlogs conn (cr_outbox c) b Hb) as (b0 & Hb0 & Hcn & Hle).
  assert (Hne : bl_conn b <> conn).
  { intros Heq. unfold displace, mod_outbox, modify in Hb. cbn [snd upd cr_outbox] in Hb. pose proof (oo_conns _ _ _ _ _ _ Hok) as Hn.
    destruct (Outbox_backlog (cr_outbox c) conn) as [b1|] eqn:Hb1.
    - rewrite displace_all_backlogs in Hb. cbn [upd ob_backlogs] in Hb. destruct (backlog_Some _ _ _ Hb1) as (l1 & l2 & Hsp & Hcn1 & _ & Hwo).
      rewrite Hwo in Hb. rewrite Hsp, map_app, map_cons, Hcn1 in Hn. apply NoDup_app in Hn as (_ & H1 & H2). apply NoDup_cons in H2 as [H2 _].
      apply elem_of_app in Hb as [Hin|Hin]; [destruct (H1 conn); [|left]|destruct H2];
        rewrite <- Heq; by apply list_elem_of_fmap_2.
    - destruct (backlog_None _ _ Hb1) as [Hno _]. by destruct (Hno b Hb). }
  destruct (Hc b0 Hb0 ltac:(lia)) as [Hin|Hr]; rewrite Hcn in *; [left; set_solver|by right].
Qed.

(** [conn] is dead and about to be given up on. *)
Definition dying (c : Core) : Prop := (in_hand [] c /\ waits_ok e ({[conn]} ∪ d) c) /\ no_live conn c.

#[local] Instance dying_quiet : Quiet dying.
Proof. apply and_quiet; [apply and_quiet|]; exact _. Qed.

Lemma tell_settles s c : cr_conns c !! conn = Some s -> cn_told_gone s = false -> dying c -> settled (tell_client_gone conn c).2.
Proof.
  intros Hs Ht Hc. unfold tell_client_gone, get_conn. unfold bind at 1, gets at 1. rewrite Hs, Ht.
  assert (Hd : forall f, (forall s, cn_living s = false -> cn_living (f s) = false) -> pres dying (mod_conn conn f)).
  { intros f Hf c' [[Hok Hw] Hn]. split; [split; [done|]|by apply nl_conn]. apply waits_conn; [set_solver|done]. }
  rewrite bind_tt. set (c1 := (mod_conn conn _ c).2). assert (H1 : dying c1) by (by apply Hd).
  assert (Hs1 : has_conn conn c1) by (unfold has_conn, c1; rewrite mod_conn_eq, Hs; by eexists). clearbody c1.
  rewrite bind_tt. set (c2 := (when _ _ c1).2).
  assert (H2 : dying c2) by (refine (pres_when dying _ _ _ c1 H1); intros _; pres_tac).
  assert (Hs2 : has_conn conn c2) by (refine (pres_when (has_conn conn) _ _ _ c1 Hs1); intros _; pres_tac). clearbody c2.
  clear c c1 Hs Ht Hc H1 Hs1 s. destruct Hs2 as [s Hs]. unfold connection_destroyed, get_conn. unfold bind at 1, gets at 1. rewrite Hs.
  rewrite bind_tt, bind_tt. apply (pres_bind_2 settled); [|intros ?; pres_tac]. unfold gets. cbn [snd].
  assert (H3 : dying (when (negb (cn_shuts_down s)) (mod_client (fun cl => cl <| cl_closing ::= fun l => l ++ [conn] |>)) c2).2).
  { refine (pres_when dying _ _ _ c2 H2). intros _. apply pres_rest; [exact _|by intros]. }
  destruct H3 as [H3 Hn3]. split; [by apply displace_settles|done].
Qed.

(** A connection told gone is dead: nothing waits for it. *)
Definition gone_dead (c : Core) : Prop :=
  forall s, cr_conns c !! conn = Some s -> cn_told_gone s = true -> cn_living s = false.

Lemma goes_settled f s c c1 :
  in_hand [] c -> waits_ok e d c -> gone_dead c -> cr_conns c !! conn = Some s ->
  (forall s, cn_living (f s) = false /\ cn_told_gone (f s) = cn_told_gone s) ->
  cr_conns c1 = cr_conns (mod_conn conn f c).2 -> cr_outbox c1 = cr_outbox c ->
  settled (tell_client_gone conn c1).2.
Proof.
  intros Hok Hw Hg Hs Hf Hcs Ho.
  assert (Hsame : forall e d, waits_ok e d (mod_conn conn f c).2 -> waits_ok e d c1).
  { intros e' d' H b. rewrite Ho. intros Hb Hl. apply (no_room_conns _ _ _ _ _ Hcs). by apply H. }
  assert (Hs1 : cr_conns c1 !! conn = Some (f s)) by (by rewrite Hcs, mod_conn_eq, Hs).
  assert (Hn : no_live conn c1).
  { intros s' Hs'. rewrite Hs1 in Hs'. injection Hs' as <-. apply Hf. }
  destruct (cn_told_gone s) eqn:Ht.
  - apply settled_tell. split; [|done]. apply Hsame, waits_conn; [|done]. intros s' Hs' Hl. rewrite Hs in Hs'. injection Hs' as <-.
    by rewrite (Hg s Hs Ht) in Hl.
  - apply (tell_settles (f s)); [done|by destruct (Hf s) as [_ ->]|]. split; [split; [unfold outb; by rewrite Ho|]|done].
    apply Hsame, waits_conn; [set_solver|]. intros b Hb Hl. destruct (Hw b Hb Hl) as [?|?]; [left; set_solver|by right].
Qed.

Lemma shutdown_settles c :
  in_hand [] c -> waits_ok e d c -> gone_dead c -> waits_ok e d (shutdown_connection conn c).2.
Proof.
  intros Hok Hw Hg. unfold shutdown_connection, get_conn at 1. unfold bind at 1, gets at 1.
  destruct (cr_conns c !! conn) as [s|] eqn:Hs; [|done]. destruct (cn_shuts_down s); [done|].
  match goal with |- context [mod_conn conn ?f] => set (g := f) end.
  assert (Hf : forall s, cn_living (g s) = false /\ cn_told_gone (g s) = cn_told_gone s) by done. clearbody g.
  rewrite bind_tt. set (c1 := (mod_conn conn g c).2). rewrite bind_tt, bind_tt.
  assert (Hk : settled (tell_client_gone conn (when (cn_notify_when_read_drained s)
    (mod_client (fun cl => cl <| cl_read_drains_wanted ::= fun n => n - 1 |>)) c1).2).2).
  { apply (goes_settled g s c); try done; unfold when; by case_match. }
  revert Hk. generalize (tell_client_gone conn (when (cn_notify_when_read_drained s)
    (mod_client (fun cl => cl <| cl_read_drains_wanted ::= fun n => n - 1 |>)) c1).2).2.
  match goal with |- forall c, settled c -> waits_ok e d (?m c).2 => assert (Hm : pres settled m) by pres_tac end.
  intros c' Hc'. by apply Hm.
Qed.

Lemma read_to_the_end_settles bound deliver c :
  in_hand [] c -> waits_ok e d c -> gone_dead c -> waits_ok e d (read_to_the_end conn bound deliver c).2.
Proof.
  intros Hok Hw Hg. unfold read_to_the_end, get_now, get_conn at 1. unfold bind at 1 2, gets at 1 2.
  destruct (cr_conns c !! conn) as [s|] eqn:Hs; [|done].
  match goal with |- context [mod_conn conn ?f] => set (g := f) end.
  assert (Hf : forall s, cn_living (g s) = false /\ cn_told_gone (g s) = cn_told_gone s) by done. clearbody g.
  rewrite bind_tt, bind_tt.
  match goal with |- waits_ok e d (?m ?c').2 => assert (Hk : settled c') by (by apply (goes_settled g s c));
    assert (Hm : pres settled m) by pres_tac; exact (proj1 (Hm c' Hk)) end.
Qed.

Lemma write_failed_settles c : in_hand [] c -> waits_ok e d c -> gone_dead c -> waits_ok e d (write_failed conn c).2.
Proof.
  intros Hok Hw Hg. unfold write_failed, get_conn. unfold bind, gets. repeat case_match; try done;
    [by apply shutdown_settles|by apply read_to_the_end_settles].
Qed.

Lemma close_gracefully_settles bound c :
  in_hand [] c -> waits_ok e d c -> gone_dead c -> waits_ok e d (close_gracefully conn bound c).2.
Proof.
  intros Hok Hw Hg. unfold close_gracefully, get_conn. unfold bind at 1, gets. repeat case_match; try done; rewrite bind_tt;
    [by apply shutdown_settles|by apply read_to_the_end_settles].
Qed.
End Ends.

(** ** Every step of a run *)

(** The client's invariant: its connections, the outbox's counts, and that what waits has to. *)
Definition moving (ex : Ex) (c : Core) : Prop := ((conns_ok ex c /\ outbox_counted c) /\ conn_ids c) /\ waits_ok ∅ ∅ c.

Section Moving.
Context {E : Env} {P : Program}.
#[local] Hint Extern 1 (Quiet _) => exact _ : pres.
#[local] Hint Extern 1 (Placing _) => exact _ : pres.
#[local] Hint Extern 1 (Stable _) => exact _ : pres.
#[local] Hint Extern 1 (Closing _) => exact _ : pres.
#[local] Hint Extern 1 (Whole _) => exact _ : pres.

#[export] Instance moving_stable ex : Stable (moving ex).
Proof. apply and_stable; [apply and_stable; [apply and_stable|]|]; exact _. Qed.

Lemma moving_pres ex {A} (m : CM A) :
  pres (conns_ok ex) m -> (forall I, Whole I -> pres I m) -> leads (moving ex) (waits_ok ∅ ∅) m -> pres (moving ex) m.
Proof.
  intros Hc Hw Hm c H. split; [|by apply Hm]. destruct H as [[[H1 H2] H3] _].
  split; [split; [by apply Hc|by apply (Hw _ counted_whole)]|by apply (Hw _ ids_whole)].
Qed.

Lemma moving_gone ex conn c : moving ex c -> gone_dead conn c.
Proof.
  intros [[[Hc _] _] _] s Hs Ht. destruct (cn_living s) eqn:Hl; [|done]. destruct (co_live _ _ _ (Hc _ _ Hs) Hl). congruence.
Qed.

#[export] Instance moving_closing ex : Closing (moving ex).
Proof.
  split; [exact _| | |].
  - intros conn. apply moving_pres; [pres_tac|intros; pres_tac|]. intros c Hc. apply shutdown_settles; [apply Hc|apply Hc|].
    by eapply moving_gone.
  - intros conn bound. apply moving_pres; [pres_tac|intros; pres_tac|]. intros c Hc.
    apply close_gracefully_settles; [apply Hc|apply Hc|]. by eapply moving_gone.
  - apply moving_pres; [pres_tac|intros; pres_tac|]. intros c Hc. apply wo_expire, Hc.
Qed.

(** *** The end of a write *)

Lemma write_ended_settles e d conn was_full tracker :
  leads (fun c => in_hand [] c /\ waits_ok (if was_full : bool then {[conn]} ∪ e else e) d c) (waits_ok e d)
    (write_ended conn was_full tracker).
Proof.
  unfold write_ended. destruct was_full.
  2:{ apply (leads_weaken _ (waits_ok e d) _ (waits_ok e d)); [by intros c []|done|]. apply pres_leads.
      pose proof (wo_process_send_queue e d conn). pres_tac. by apply st_conn. }
  set (I := fun c => in_hand [] c /\ waits_ok ({[conn]} ∪ e) d c).
  assert (HI : Stable I) by (apply and_stable; exact _).
  apply leads_then; [pres_tac|intros t]. apply leads_then; [pres_tac|intros _]. apply leads_then; [pres_tac|intros _].
  apply leads_then; [apply pres_and; [unfold process_send_queue; pres_tac; by intros c Hc|apply wo_process_send_queue]|intros _].
  apply leads_gets. intros state. apply (leads_bind _ (waits_ok e d)); [|intros _; apply pres_leads; pres_tac; by apply st_conn].
  cbn [andb]. intros c [[Hok Hc] Hs]. unfold when.
  destruct (match state with Some _ => _ | None => _ end) eqn:Hr; [by apply has_room_settles|].
  cbn [ret snd]. apply (waits_full e d conn); [done|done|]. rewrite Hs. destruct state; [by apply negb_false_iff in Hr|done].
Qed.

Lemma on_write_done_moving ex conn written failed : pres (moving ex) (on_write_done conn written failed).
Proof.
  apply moving_pres; [apply on_write_done_ok|intros; by apply on_write_done_pres|].
  intros c Hm. pose proof Hm as [[[Hcs [Hok _]] _] Hw]. pose proof (moving_gone _ conn _ Hm) as Hg.
  unfold on_write_done, get_conn. unfold bind at 1, gets. destruct (cr_conns c !! conn) as [s|] eqn:Hs; [|done].
  rewrite bind_tt. set (c1 := (mod_conn conn _ c).2).
  assert (Hok1 : in_hand [] c1) by done. assert (Hw1 : waits_ok ∅ ∅ c1) by (by apply wo_same_queue).
  assert (Hg1 : gone_dead conn c1).
  { intros s'. unfold c1. rewrite mod_conn_eq, Hs. intros [= <-]. exact (Hg s Hs). }
  case_bool_decide as Hout.
  { assert (Hn : no_live conn c1).
    { intros s'. unfold c1. rewrite mod_conn_eq, Hs. intros [= <-]. destruct (cn_living s) eqn:Hl; [|done].
      destruct (lo_channel _ _ _ (co_live _ _ _ (Hcs _ _ Hs) Hl)) as [(? & _)|(? & _)]; congruence. }
    rewrite bind_tt. apply settled_forget. by apply settled_settle_set_aside. }
  destruct (failed || _ || _) eqn:Hf; [by apply write_failed_settles|].
  destruct (cn_outgoing s) as [|[tracker front] rest] eqn:Hq; [by rewrite !orb_true_r in Hf|]. rewrite bind_tt.
  apply write_ended_settles. split; [done|]. destruct (outgoing_queue_full s) eqn:Hfull; apply waits_conn.
  - intros s' _ Hl _. split; [done|]. right. set_solver.
  - intros b Hb Hl. destruct (Hw1 b Hb Hl) as [?|(s' & Hs' & Hl' & [?|?])]; [by left|set_solver|]. right. exists s'. auto.
  - intros s' Hs' Hl _. split; [done|]. unfold c1 in Hs'. rewrite mod_conn_eq, Hs in Hs'. injection Hs' as <-.
    intros H. change (outgoing_queue_full s = true) in H. congruence.
  - done.
Qed.
#[local] Hint Resolve on_write_done_moving : pres.

(** *** The start of a connection *)

Lemma try_next_settles e d conn c : in_hand [] c -> settled e d conn c -> waits_ok e d (try_next_candidate conn c).2.
Proof.
  intros Hok Hc. pose proof Hc as [Hw Hn]. unfold try_next_candidate, get_now, get_conn. unfold bind at 1 2, gets at 1 2.
  destruct (cr_conns c !! conn) as [s|] eqn:Hs; [|done]. destruct (cn_candidates s !! _) as [address|].
  - assert (Hm : forall slot, pres (settled e d conn) (mod_conn conn (fun s => s <| cn_next_candidate ::= Z.add 1 |>
      <| cn_expected_endpoint := Some address |> <| cn_socket_open := true |> <| cn_connecting := true |>
      <| cn_connect_deadline := slot |>))) by (intros; by apply settled_conn).
    match goal with |- waits_ok e d (?m c).2 => assert (Hp : pres (settled e d conn) m) by pres_tac; exact (proj1 (Hp c Hc)) end.
  - apply shutdown_settles; [done|done|]. intros s' Hs' _. by apply Hn.
Qed.

(** A connection not started is dead. *)
Lemma unstarted_dead ex conn c : conns_ok ex c -> (forall s, cr_conns c !! conn = Some s -> unstarted s) -> no_live conn c.
Proof.
  intros Hc Hu s Hs. destruct (cn_living s) eqn:Hl; [|done]. destruct (co_live _ _ _ (Hc _ _ Hs) Hl) as [_ _ Hst _ _ _ _].
  by destruct (Hst (Hu s Hs)).
Qed.

Lemma on_resolved_moving conn candidates c :
  moving no_ex c -> (forall s, cr_conns c !! conn = Some s -> cn_candidates s = []) -> moving no_ex (on_resolved conn candidates c).2.
Proof.
  intros Hm Hn. pose proof Hm as [[[Hc Hok] Hi] Hw].
  assert (Hd : no_live conn c) by (eapply unstarted_dead; [done|]; intros s Hs; right; auto).
  split; [split; [split; [by apply on_resolved_ok|by apply (on_resolved_pres outbox_counted)]|by apply (on_resolved_pres conn_ids)]|].
  unfold on_resolved, get_conn. unfold bind at 1, gets. destruct (cr_conns c !! conn) as [s|]; [|done].
  destruct (cn_shuts_down s); [done|]. destruct candidates; [by apply (st_shutdown (I := moving no_ex))|]. rewrite bind_tt.
  apply try_next_settles; [apply Hok|]. by apply settled_conn.
Qed.

Lemma start_moving conn c :
  moving no_ex c -> (forall s, cr_conns c !! conn = Some s -> idle s /\ cn_connecting s = false /\ cn_candidates s <> []) ->
  moving no_ex (start_connection conn c).2.
Proof.
  intros Hm Hi. unfold start_connection, bind at 1. pose proof (welcome_frame_conns c) as Hw.
  pose proof (welcome_frame_pres (moving no_ex) c Hm) as Hm1. destruct (welcome_frame c) as [welcome c1]. cbn [snd] in *.
  unfold get_conn. unfold bind at 1, gets. destruct (cr_conns c1 !! conn) as [s|] eqn:Hs; [|done]. rewrite bind_tt.
  rewrite Hw in Hs. destruct (Hi s Hs) as (Hid & Hcon & Hcand).
  assert (H2 : moving no_ex (mod_conn conn (fun s => (set_living true s) <| cn_reading := true |>) c1).2).
  { destruct Hm as [[[Hc _] _] _]. destruct Hm1 as [[[_ Hok] Hids] Hwt].
    split; [split; [split; [by eapply started_ok|done]|by apply ids_conn]|]. apply waits_conn; [|done].
    intros s' Hs'. rewrite Hw, Hs in Hs'. injection Hs' as <-. by rewrite (id_living _ Hid). }
  revert H2. match goal with |- moving _ ?c2 -> _ => generalize c2 end.
  match goal with |- forall c2, moving ?e' c2 -> moving ?e' (?m c2).2 => change (pres (moving e') m) end. pres_tac.
Qed.

Lemma connected_moving conn ok c :
  moving no_ex c -> (forall s, cr_conns c !! conn = Some s -> cn_connecting s = true) -> moving no_ex (connected conn ok c).2.
Proof.
  intros Hm Hcon. pose proof Hm as [[[Hc Hok] Hi] Hw].
  split; [split; [split; [by apply connected_ok|by apply (connected_pres outbox_counted)]|by apply (connected_pres conn_ids)]|].
  assert (Hd : no_live conn c) by (eapply unstarted_dead; [done|]; intros s Hs; left; auto).
  unfold connected, get_conn. unfold bind at 1 2, gets. destruct (cr_conns c !! conn) as [s|] eqn:Hs; [|done].
  pose proof (Hc _ _ Hs) as Hcs. assert (Hu : unstarted s) by (left; auto).
  assert (Hds : cn_shuts_down s = false).
  { destruct (cn_shuts_down s) eqn:Hds; [|done]. by apply (co_closing _ _ _ Hcs (Hcon s eq_refl)), elem_of_empty in Hds. }
  pose proof (unstarted_idle _ _ _ Hcs Hu Hds) as Hid. pose proof (co_candidates _ _ _ Hcs (Hcon s eq_refl)) as Hcand.
  unfold bind at 1. pose proof (cancel_pres (moving no_ex) (cn_connect_deadline s) c Hm) as Hm1.
  pose proof (cancel_pres (no_live conn) (cn_connect_deadline s) c Hd) as Hd1.
  assert (H1 : cr_conns (cancel (cn_connect_deadline s) c).2 = cr_conns c) by (unfold cancel; by case_match).
  destruct (cancel _ c) as [slot c1]. cbn [snd] in *. rewrite bind_tt.
  match goal with |- context [mod_conn conn ?f c1] => set (f1 := f) end.
  assert (Hid1 : idle (f1 s)) by (destruct Hid; by split).
  assert (Hs2 : cr_conns (mod_conn conn f1 c1).2 !! conn = Some (f1 s)) by (by rewrite mod_conn_eq, H1, Hs).
  assert (Hm2 : moving no_ex (mod_conn conn f1 c1).2).
  { destruct Hm1 as [[[Hc1 Hok1] Hi1] Hw1]. split; [split; [split; [|done]|by apply ids_conn]|].
    - intros conn' s'. destruct (decide (conn' = conn)) as [->|Hn]; [|rewrite mod_conn_ne, H1 by done; apply Hc].
      rewrite Hs2. intros [= <-]. by apply idle_unstarted.
    - apply (settled_conn ∅ ∅ conn f1); [by intros|done]. }
  assert (Hd2 : no_live conn (mod_conn conn f1 c1).2) by (by apply nl_conn).
  destruct ok.
  - rewrite bind_tt. apply start_moving; [by apply st_conn|]. intros s'. rewrite mod_conn_eq, Hs2. intros [= <-].
    split_and!; [destruct Hid1; by split|done|done].
  - rewrite Hds. cbn [negb when]. apply try_next_settles; [apply Hm2|]. split; [apply Hm2|done].
Qed.

(** *** Registration *)

Lemma waits_dead e d conn c : in_hand [] c -> no_live conn c -> waits_ok ({[conn]} ∪ e) d c -> waits_ok e d c.
Proof.
  intros Hok Hn Hc. apply (waits_settled e d conn); [done|done|]. intros b Hb Hl.
  destruct (backlog_Some _ _ _ Hb) as (l1 & l2 & Hs & Hcn & _).
  destruct (Hc b) as [?|(s & Hcs & Hlv & _)]; [rewrite Hs; apply elem_of_app; right; left|done|left; by rewrite <- Hcn|].
  rewrite Hcn in Hcs. by rewrite (Hn s Hcs) in Hlv.
Qed.

Lemma waits_more e e' d c : e ⊆ e' -> waits_ok e d c -> waits_ok e' d c.
Proof.
  intros He Hc b Hb Hl. destruct (Hc b Hb Hl) as [?|(s & Hs & Hlv & [?|?])]; [by left|right; exists s..]; split_and!; auto.
Qed.

(** [conn] registers: its queue may have got room. *)
Definition registering (conn : Z) (ex : Ex) (c : Core) : Prop :=
  (conns_ok (begun conn ex) c /\ in_hand [] c) /\ waits_ok ({[conn]} ∪ ∅) ∅ c.

#[local] Instance registering_stable conn ex : Stable (registering conn ex).
Proof. apply and_stable; [apply and_stable|]; exact _. Qed.

Lemma register_settles conn welcome ex : leads (moving (begun conn ex)) (registering conn ex) (register_connection conn welcome).
Proof.
  assert (Hw : forall c, moving (begun conn ex) c -> registering conn ex c).
  { intros c [[[? [? _]] _] Hw]. split; [done|]. eapply waits_more; [|done]. set_solver. }
  assert (Hr : leads (moving (begun conn ex)) (registering conn ex) (record_registration conn (wm_id welcome))).
  { intros c Hc. destruct (Hw c Hc) as [[H1 H2] H3]. split; [split; [by apply record_registration_ok|done]|].
    apply waits_conn; [|done]. intros s _ Hl _. split; [done|]. right. set_solver. }
  assert (Hs : forall conn', leads (moving (begun conn ex)) (registering conn ex) (shutdown_connection conn')).
  { intros conn' c Hc. by apply Hw, (st_shutdown (I := moving (begun conn ex))). }
  unfold register_connection. apply leads_then; [pres_tac|intros [state|]]; [|by apply leads_ret].
  apply leads_then; [pres_tac|intros _]. apply leads_then; [pres_tac|intros c0].
  repeat case_match; first [apply Hs|apply Hr|apply leads_then; [pres_tac|intros _; apply Hr]].
Qed.

Lemma after_registration_settles conn ex : leads (registering conn ex) (waits_ok ∅ ∅) (after_connection_registration conn).
Proof.
  unfold after_connection_registration. apply leads_then; [pres_tac|intros version]. apply leads_gets. intros state.
  destruct state as [state|].
  2:{ apply leads_ret. intros c [[[_ Hok] Hw] Hs]. apply (waits_dead ∅ ∅ conn); [done| |done]. intros s Hs'. congruence. }
  apply (leads_weaken _ (registering conn ex) _ (waits_ok ∅ ∅)); [by intros c []|done|].
  apply leads_then; [by apply st_conn|intros _]. do 3 (apply leads_then; [pres_tac|intros _]).
  apply (leads_bind _ (waits_ok ∅ ∅)); [|intros _; apply pres_leads; pres_tac].
  apply (leads_weaken _ (fun c => in_hand [] c /\ waits_ok ({[conn]} ∪ ∅) ∅ c) _ (waits_ok ∅ ∅)); [by intros c [[? ?] ?]|done|].
  apply has_room_settles.
Qed.

Lemma receive_internal_settles conn message ex :
  leads (moving (begun conn ex)) (waits_ok ∅ ∅) (receive_internal_message conn message).
Proof.
  assert (Hw : forall A (m : CM A), pres (moving (begun conn ex)) m -> leads (moving (begun conn ex)) (waits_ok ∅ ∅) m).
  { intros A m Hm c Hc. by apply Hm. }
  unfold receive_internal_message. apply leads_then; [pres_tac|intros state]. destruct (mm_type message =? types.CONNECTION_WELCOME); [|apply Hw; pres_tac].
  apply (leads_bind _ (waits_ok ∅ ∅)); [|intros _; apply pres_leads; pres_tac].
  case_match; [apply Hw; pres_tac|]. destruct (mm_message message ≫= welcome_decode); [|apply Hw; pres_tac]. apply leads_then; [by apply st_conn|intros _].
  eapply leads_bind; [apply register_settles|intros _]. apply leads_gets. intros state'.
  destruct (match state' with Some s => cn_shuts_down s | None => true end) eqn:Hd.
  - apply leads_ret. intros c [[[Hc Hok] Hwt] Hs]. apply (waits_dead ∅ ∅ conn); [done| |done]. intros s Hs'. rewrite Hs' in Hs. subst state'.
    destruct (cn_living s) eqn:Hl; [|done]. destruct (co_live _ _ _ (Hc _ _ Hs') Hl). congruence.
  - apply (leads_weaken _ (registering conn ex) _ (waits_ok ∅ ∅)); [by intros c []|done|].
    apply leads_then; [|intros _; apply after_registration_settles]. apply pres_and; [apply pres_and|].
    + apply begun_mod_ok. intros s _. split_and!; try done. by intros [].
    + by intros c Hc.
    + by apply wo_same_queue.
Qed.

Lemma receive_internal_moving conn message ex : pres (moving (begun conn ex)) (receive_internal_message conn message).
Proof.
  apply moving_pres; [apply receive_internal_ok|intros; by apply receive_internal_message_pres|apply receive_internal_settles].
Qed.

Lemma on_frame_moving ex conn body : pres (moving ex) (on_frame conn body).
Proof.
  apply moving_pres; [apply on_frame_ok|intros; by apply on_frame_pres|]. intros c Hm.
  unfold on_frame, get_conn. unfold bind at 1, gets. destruct (cr_conns c !! conn) as [s|] eqn:Hs; [|apply Hm].
  destruct (negb (cn_reading s) || cn_shuts_down s) eqn:Hr; [apply Hm|]. apply orb_false_iff in Hr as [Hr%negb_false_iff _].
  assert (Hb : moving (begun conn ex) c).
  { destruct Hm as [[[Hc ?] ?] ?]. split; [split; [split; [by eapply reading_begun|]|]|]; done. }
  revert Hb. generalize c.
  match goal with |- forall c, moving ?e' c -> waits_ok _ _ (?m c).2 => assert (Hp : pres (moving e') m) end.
  { pres_tac; [by apply st_conn|apply receive_internal_moving]. }
  intros c' Hc'. by apply Hp.
Qed.

(** *** New connections *)

Lemma add_conn_moving target :
  gives (moving no_ex) (add_conn target)
    (fun conn c => moving no_ex c /\ exists new, cr_conns c !! conn = Some new /\ idle new /\ cn_connecting new = false).
Proof.
  intros c Hm. pose proof Hm as [[[Hc Hok] Hi] Hw]. destruct (add_conn_ok target c Hc) as (Hc1 & Hnew).
  pose proof (st_add_conn (I := outbox_counted) target c Hok) as Hok1. pose proof (st_add_conn (I := conn_ids) target c Hi) as Hi1.
  destruct (add_conn_eq target c) as [h Ha]. destruct (add_conn target c) as [conn c1]. cbn [fst snd] in *.
  destruct Ha as (-> & _ & Ho & Hs). split; [|done]. split; [done|]. intros b. rewrite Ho. intros Hb Hl.
  destruct (Hw b Hb Hl) as [?|(s & Hcs & ?)]; [by left|]. right. exists s. split; [|done]. rewrite Hs, lookup_insert_ne; [done|].
  intros Heq. specialize (Hi (bl_conn b) ltac:(by eexists)). lia.
Qed.

Lemma async_connect_moving host port : pres (moving no_ex) (async_connect host port).
Proof.
  apply moving_pres; [apply async_connect_ok|intros; by apply async_connect_pres|].
  assert (Hret : forall A (a : A), leads (moving no_ex) (waits_ok ∅ ∅) (ret a)) by (intros A a c Hc; apply Hc).
  unfold async_connect. apply leads_then; [pres_tac|intros []; [apply Hret|]]. apply leads_then; [pres_tac|intros [live|]; [apply Hret|]].
  apply leads_then; [pres_tac|intros old]. apply leads_then; [pres_tac|intros _].
  eapply leads_gives; [apply add_conn_moving|]. intros conn c (Hm & new & Hs & Hid & Hcon). rewrite !bind_tt.
  set (c1 := (mod_client _ _).2). assert (Hm1 : moving no_ex c1) by (by apply (mod_client_pres (moving no_ex))).
  assert (Hs1 : cr_conns c1 !! conn = Some new) by done. cbn [ret snd].
  destruct (parse_ip _) as [address|]; [|by apply (resolve_and_start_pres (waits_ok ∅ ∅)), Hm1].
  rewrite bind_tt. apply try_next_settles; [apply Hm1|]. apply settled_conn; [done|]. split; [apply Hm1|].
  intros s' Hs'. rewrite Hs1 in Hs'. injection Hs' as <-. apply Hid.
Qed.
#[local] Hint Resolve on_frame_moving async_connect_moving : pres.

Lemma reconnect_moving number : pres (moving no_ex) (reconnect_after_timeout number).
Proof. unfold reconnect_after_timeout. pres_tac. Qed.
Lemma start_connect_moving host port timeout done_ : pres (moving no_ex) (start_connect host port timeout done_).
Proof. unfold start_connect. pres_tac. Qed.
#[local] Hint Resolve reconnect_moving start_connect_moving : pres.
Lemma run_due_moving due : pres (moving no_ex) (run_due due).
Proof. unfold run_due. pres_tac. Qed.
#[local] Hint Resolve run_due_moving : pres.
Lemma run_one_timer_moving : pres (moving no_ex) run_one_timer.
Proof. unfold run_one_timer. pres_tac. apply pres_rest; [exact _|]. intros c. by destruct (take_due _ _). Qed.
#[local] Hint Resolve run_one_timer_moving : pres.

Lemma run_call_moving call : pres (moving no_ex) (run_call call).
Proof. induction call; cbn [run_call]; try apply void_pres; pres_tac. Qed.

Context (commands : Z -> Call).

Lemma run_input_moving c input : input_ok c input -> moving no_ex c -> moving no_ex (run_input commands input c).2.
Proof.
  intros Hi Hc. destruct input as [ready|call| | | | | | |]; [|by apply run_call_moving|done ..].
  assert (Hp : forall m : CM unit, pres (moving no_ex) m -> moving no_ex (m c).2) by auto.
  destruct ready as [posted|conn ok| |conn candidates| | | |]; cbn [run_input run_ready input_ok] in *;
    [| | | |apply Hp; pres_tac ..].
  - destruct posted as [conn why| | | | | | |]; cbn [run_posted];
      [apply connected_moving; [done|]; intros s; exact (of_conn_Some c conn _ s Hi)|apply Hp; pres_tac ..]; [|apply run_call_moving].
    apply pres_outbox; [exact _|]. intros o. by split_and!.
  - apply connected_moving; [done|]. intros s. exact (of_conn_Some c conn _ s Hi).
  - apply Hp. pres_tac.
  - apply on_resolved_moving; [done|]. intros s. exact (of_conn_Some c conn _ s Hi).
Qed.

Lemma reachable_moving c : reachable commands c -> moving no_ex c.
Proof.
  induction 1 as [peer_type ids mode now|c input _ IH Hi]; [|by apply run_input_moving].
  pose proof (reach_new commands peer_type ids mode now) as Hr.
  split; [split; [split; [by eapply reachable_conns|by eapply reachable_counted]|]|].
  - intros conn. unfold Core_new. destruct (default _ _). cbn [cr_conns]. rewrite lookup_empty. by intros [].
  - intros b. unfold Core_new. destruct (default _ _). cbn [cr_outbox]. by intros ?%elem_of_nil.
Qed.

(** A message that waits, waits on a live connection with a full queue. *)
Lemma reachable_waits_full (c : Core) (b : Backlog) :
  reachable commands c -> b ∈ ob_backlogs (cr_outbox c) -> 0 < bl_live b ->
  exists s, cr_conns c !! bl_conn b = Some s /\ cn_living s = true /\ 0 < cn_outgoing_max s <= outgoing_len s.
Proof.
  intros Hr Hb Hl. destruct (reachable_moving c Hr) as [[[Hc _] _] Hw].
  destruct (Hw b Hb Hl) as [?%elem_of_empty|(s & Hs & Hlv & [?%elem_of_empty|Hf])]; [done|done|].
  exists s. destruct (co_live _ _ _ (Hc _ _ Hs) Hlv) as [_ _ _ _ Hmax _ _]. unfold outgoing_queue_full in Hf. split_and!; done || lia.
Qed.

(** C6: No message waits for room there is.  In every state of a run a message that waits for room on a connection
    waits on one that lives, whose queue is full to its bound and whose first frame is being written: the last write
    the driver was asked for on it is of that frame.  And once that write ends with the whole frame gone, the room it
    made was given to those who wait: whatever still waits on the connection waits on a full queue again, with a write
    in flight. *)
Theorem waits_only_when_full peer_type ids mode now (inputs : list Input) (c : Core) (b : Backlog) :
  let c0 := Core_new peer_type ids mode now in
  inputs_ok commands inputs c0 -> c = run_inputs commands inputs c0 ->
  b ∈ ob_backlogs (cr_outbox c) -> 0 < bl_live b ->
  exists s tracker front rest, cr_conns c !! bl_conn b = Some s /\ cn_living s = true
    /\ cn_outgoing s = (tracker, front) :: rest /\ cn_outgoing_max s <= outgoing_len s
    /\ cn_out s = Busy /\ cn_write_in_flight s = true
    /\ last_write (bl_conn b) (asked_for commands inputs c0) = Some (of_head front, of_bytes front)
    /\ let c' := (on_write_done (bl_conn b) (wire_length front) false c).2 in
       forall b', b' ∈ ob_backlogs (cr_outbox c') -> bl_conn b' = bl_conn b -> 0 < bl_live b' ->
         exists s', cr_conns c' !! bl_conn b = Some s' /\ cn_living s' = true
           /\ cn_outgoing_max s' <= outgoing_len s' /\ cn_write_in_flight s' = true.
Proof.
  intros c0 Hi Hc Hb Hl. assert (Hr : reachable commands c) by (rewrite Hc; by apply reachable_run; [apply reach_new|]).
  destruct (reachable_waits_full c b Hr Hb Hl) as (s & Hs & Hlv & Hmax & Hf). rewrite Hc in Hs.
  pose proof (living_front commands peer_type ids mode now inputs c0 _ s eq_refl Hi Hs Hlv) as Hfront. rewrite <- Hc in Hs.
  unfold outgoing_len in Hf. destruct (cn_outgoing s) as [|[tracker front] rest] eqn:Hq; [simpl in Hf; lia|].
  destruct Hfront as (Hbusy & Hfl & Hlast). exists s, tracker, front, rest. unfold outgoing_len. rewrite Hq. split_and!; try done.
  set (c' := (on_write_done (bl_conn b) (wire_length front) false c).2). intros b' Hb' Hconn Hl'.
  assert (Hr' : reachable commands c').
  { exact (reach_step commands c (InReady (ReadyWriteDone (bl_conn b) (wire_length front) false)) Hr I). }
  destruct (reachable_waits_full c' b' Hr' Hb' Hl') as (s' & Hs' & Hlv' & Hmax' & Hf'). rewrite Hconn in Hs'. exists s'. split_and!; try done.
  pose proof (living_channel commands c' _ s' Hr' Hs' Hlv') as Hch. unfold outgoing_len in Hf'.
  destruct (cn_outgoing s'); [simpl in Hf'; lia|apply Hch].
Qed.
End Moving.

(** ** A run: more messages than the connection's queue takes *)

(** The client of [demo_run] hears the multiplexer's welcome and sends 1030
    messages: 1024 frames are queued, the welcome among them, 7 messages wait. *)
Definition demo_full_inputs : list Input :=
  demo_inputs ++ [InReady (ReadyFrame 1 [2; 1; 77] true)]
  ++ replicate 1030 (InCall (CallSend (demo_message 7) false None None 0 false None false)).

Definition demo_full : Core := run_inputs (fun _ => CallClosing) demo_full_inputs demo_core.

Lemma demo_full_inputs_ok : inputs_ok (fun _ => CallClosing) demo_full_inputs demo_core.
Proof. vm_compute. repeat (split; [exact I || reflexivity|]). exact I. Qed.

Lemma demo_full_eq : demo_full = run_inputs (fun _ => CallClosing) demo_full_inputs (Core_new 200 12345 Queue 0).
Proof. unfold demo_full, demo_core. reflexivity. Qed.

Lemma demo_full_backlog : (fun b => (bl_conn b, bl_live b)) <$> head (ob_backlogs (cr_outbox demo_full)) = Some (1, 7).
Proof. vm_compute. reflexivity. Qed.

Lemma waits_only_when_full_witness :
  exists b s tracker front rest, b ∈ ob_backlogs (cr_outbox demo_full) /\ bl_live b = 7 /\ cr_conns demo_full !! bl_conn b = Some s
    /\ cn_outgoing s = (tracker, front) :: rest /\ cn_outgoing_max s <= outgoing_len s /\ cn_write_in_flight s = true
    /\ last_write (bl_conn b) (asked_for (fun _ => CallClosing) demo_full_inputs demo_core) = Some (of_head front, of_bytes front).
Proof.
  destruct (proj1 (fmap_Some _ _ _) demo_full_backlog) as (b & Hb & Heq). injection Heq as Hc Hl.
  assert (Hin : b ∈ ob_backlogs (cr_outbox demo_full)).
  { revert Hb. generalize (ob_backlogs (cr_outbox demo_full)) as l. intros [|b' l]; [discriminate|]. intros [= ->]. left. }
  assert (Hpos : 0 < bl_live b) by (rewrite <- Hl; reflexivity).
  destruct (waits_only_when_full (fun _ => CallClosing) 200 12345 Queue 0 demo_full_inputs demo_full b demo_full_inputs_ok demo_full_eq Hin Hpos)
    as (s & tracker & front & rest & Hs & _ & Hq & Hf & _ & Hw & Hlast & _).
  exists b, s, tracker, front, rest. exact (conj Hin (conj (eq_sym Hl) (conj Hs (conj Hq (conj Hf (conj Hw Hlast)))))).
Defined.
