(* ===== verification/Inbox.v ===== *)
(** * Inbox: what other threads hand the io thread (inbox.rs)

    A sender queues under the lock, sets [pending] and only then looks at
    [asleep]; the io thread sets [asleep] before it looks at [pending] a last
    time.  [inbox_step] interleaves any number of senders with the io thread, an
    atomic access at a time.  The senders at each point of their call are counted;
    what they queued and what was taken is kept in order beside the state. *)
From S2P Require Import Prelude Records Interleaving Messages CoreTypes Bodies.
Open Scope Z_scope.

Record InboxState := mkInboxState {
  is_posted : list Posted;
  is_confirmations : list HandedConfirmation;
  is_returned : Bodies;
}.
#[export] Instance eta_InboxState : Eta InboxState := fun r =>
  mkInboxState (is_posted r) (is_confirmations r) (is_returned r).

Record Inbox := mkInbox { ib_state : InboxState; ib_pending : bool; ib_asleep : bool }.
#[export] Instance eta_Inbox : Eta Inbox := fun r => mkInbox (ib_state r) (ib_pending r) (ib_asleep r).

Definition Inbox_default : Inbox := mkInbox (mkInboxState [] [] (mkBodies [] 0)) false false.

(** ** The operations, a locked section or an atomic access each *)

(** What [push], [push_plain] and [push_confirmation] do under the lock. *)
Definition queue_posted (posted : Posted) (i : Inbox) : Inbox :=
  i <| ib_state ::= fun s => s <| is_posted ::= fun l => l ++ [posted] |> |> <| ib_pending := true |>.

Definition queue_plain (plain : Plain) (deadline : option Z) (i : Inbox) : Vec8 * Inbox :=
  let i := queue_posted (PostPlain plain deadline) i in
  let '(spare, returned) := Bodies_take (is_returned (ib_state i)) in
  (spare, i <| ib_state ::= fun s => s <| is_returned := returned |> |>).

Definition queue_confirmation (confirmation : HandedConfirmation) (i : Inbox) : Inbox :=
  i <| ib_state ::= fun s => s <| is_confirmations ::= fun l => l ++ [confirmation] |> |> <| ib_pending := true |>.

(** [wake_needed]'s swap: whether the caller wakes the io thread. *)
Definition swap_asleep (i : Inbox) : bool * Inbox := (ib_asleep i, i <| ib_asleep := false |>).

(** [take] looks before it locks. *)
Definition take_looks (spent : Bodies) (i : Inbox) : bool := ib_pending i || negb (bool_decide (bo_kept spent = [])).

(** [take] under the lock: what was queued, and [spent]'s bodies handed back. *)
Definition take_queued (spent : Bodies) (i : Inbox) : list Posted * list HandedConfirmation * Inbox :=
  let s := ib_state i in
  (is_posted s, is_confirmations s,
   mkInbox (mkInboxState [] [] (Bodies_take_all (is_returned s) spent).1) false (ib_asleep i)).

Definition take_confirmations (i : Inbox) : list HandedConfirmation * Inbox :=
  if ib_pending i then
    (is_confirmations (ib_state i), i <| ib_state ::= fun s => s <| is_confirmations := [] |> |>)
  else ([], i).

Definition set_asleep (b : bool) (i : Inbox) : Inbox := i <| ib_asleep := b |>.

(** ** The calls, run by one thread alone *)

Definition wake_needed (i : Inbox) : bool * Inbox := if ib_asleep i then swap_asleep i else (false, i).

Definition Inbox_push (posted : Posted) (i : Inbox) : bool * Inbox := wake_needed (queue_posted posted i).

Definition Inbox_push_plain (plain : Plain) (deadline : option Z) (i : Inbox) : Vec8 * bool * Inbox :=
  let '(spare, i) := queue_plain plain deadline i in
  let '(wake, i) := wake_needed i in (spare, wake, i).

Definition Inbox_push_confirmation (confirmation : HandedConfirmation) (i : Inbox) : bool * Inbox :=
  wake_needed (queue_confirmation confirmation i).

Definition Inbox_take (spent : Bodies) (i : Inbox) : list Posted * list HandedConfirmation * Inbox :=
  if take_looks spent i then take_queued spent i else ([], [], i).

Definition fall_asleep (i : Inbox) : bool * Inbox :=
  let i := set_asleep true i in
  if ib_pending i then (false, set_asleep false i) else (true, i).

(** ** The threads *)

(** Where the io thread is. *)
Inductive IoPoint :=
| IoRuns
| IoFallsAsleep      (* in [fall_asleep], [asleep] set *)
| IoStaysUp          (* in [fall_asleep], [pending] seen *)
| IoWaits            (* in the reactor's wait *)
| IoReturns          (* the wait is over, [wake_up] to come *)
| IoTakes (spent : Bodies).  (* in [take], about to lock *)

Record InboxRun := mkInboxRun {
  ir_inbox : Inbox;
  ir_io : IoPoint;
  ir_signalled : bool;        (* the reactor's waker fired, and no wait took it yet *)
  ir_queued : nat;            (* senders that queued, and are to look at [asleep] *)
  ir_saw : nat;               (* senders that saw [asleep] set, and are to swap it *)
  ir_waking : nat;            (* senders that are to wake the io thread *)
  ir_sent : list Posted;
  ir_got : list Posted;
  ir_confirmed : list HandedConfirmation;
  ir_heard : list HandedConfirmation;
  ir_sleeps : Z;              (* times [asleep] was set *)
  ir_wakes : Z;               (* senders told to wake the io thread *)
}.
#[export] Instance eta_InboxRun : Eta InboxRun := fun r =>
  mkInboxRun (ir_inbox r) (ir_io r) (ir_signalled r) (ir_queued r) (ir_saw r) (ir_waking r) (ir_sent r) (ir_got r)
    (ir_confirmed r) (ir_heard r) (ir_sleeps r) (ir_wakes r).

Inductive InboxLabel :=
| LPush (posted : Posted)
| LPushPlain (plain : Plain) (deadline : option Z)
| LPushConfirmation (confirmation : HandedConfirmation)
| LLook                      (* a sender loads [asleep] *)
| LSwap                      (* a sender swaps it *)
| LWake                      (* a sender wakes the reactor *)
| LSetAsleep | LReadPending | LStayUp | LReturn | LWakeUp | LPoll
| LLookTake (spent : Bodies) | LTake | LTakeConfirmations.

Definition is_sender (l : InboxLabel) : bool :=
  match l with LLook | LSwap | LWake => true | _ => false end.

Definition inbox_step (l : InboxLabel) (r : InboxRun) : option InboxRun :=
  let i := ir_inbox r in
  match l, ir_io r with
  | LPush posted, _ =>
      Some (r <| ir_inbox := queue_posted posted i |> <| ir_queued ::= S |> <| ir_sent ::= fun l => l ++ [posted] |>)
  | LPushPlain plain deadline, _ =>
      Some (r <| ir_inbox := (queue_plain plain deadline i).2 |> <| ir_queued ::= S |>
              <| ir_sent ::= fun l => l ++ [PostPlain plain deadline] |>)
  | LPushConfirmation confirmation, _ =>
      Some (r <| ir_inbox := queue_confirmation confirmation i |> <| ir_queued ::= S |>
              <| ir_confirmed ::= fun l => l ++ [confirmation] |>)
  | LLook, _ =>
      guard_step (0 <? ir_queued r)%nat
        ((if ib_asleep i then r <| ir_saw ::= S |> else r) <| ir_queued ::= pred |>)
  | LSwap, _ =>
      guard_step (0 <? ir_saw r)%nat
        ((if (swap_asleep i).1 then r <| ir_waking ::= S |> <| ir_wakes ::= Z.add 1 |> else r)
           <| ir_inbox := (swap_asleep i).2 |> <| ir_saw ::= pred |>)
  | LWake, _ => guard_step (0 <? ir_waking r)%nat (r <| ir_signalled := true |> <| ir_waking ::= pred |>)
  | LSetAsleep, IoRuns =>
      Some (r <| ir_inbox := set_asleep true i |> <| ir_io := IoFallsAsleep |> <| ir_sleeps ::= Z.add 1 |>)
  | LReadPending, IoFallsAsleep => Some (r <| ir_io := if ib_pending i then IoStaysUp else IoWaits |>)
  | LStayUp, IoStaysUp => Some (r <| ir_inbox := set_asleep false i |> <| ir_io := IoRuns |>)
  | LReturn, IoWaits => Some (r <| ir_io := IoReturns |> <| ir_signalled := false |>)
  | LWakeUp, IoReturns => Some (r <| ir_inbox := set_asleep false i |> <| ir_io := IoRuns |>)
  | LPoll, IoRuns => Some (r <| ir_signalled := false |>)
  | LLookTake spent, IoRuns => Some (if take_looks spent i then r <| ir_io := IoTakes spent |> else r)
  | LTake, IoTakes spent =>
      Some (r <| ir_inbox := (take_queued spent i).2 |> <| ir_io := IoRuns |>
              <| ir_got ::= fun l => l ++ (take_queued spent i).1.1 |>
              <| ir_heard ::= fun l => l ++ (take_queued spent i).1.2 |>)
  | LTakeConfirmations, IoRuns =>
      Some (r <| ir_inbox := (take_confirmations i).2 |> <| ir_heard ::= fun l => l ++ (take_confirmations i).1 |>)
  | _, _ => None
  end.

Definition inbox_start : InboxRun := mkInboxRun Inbox_default IoRuns false 0 0 0 [] [] [] [] 0 0.

Definition inbox_reaches : InboxRun -> Prop := steps_to inbox_step inbox_start.

(** A call's steps with nothing between them are the call. *)
Lemma fall_asleep_alone r :
  ir_io r = IoRuns ->
  exists r', run_steps inbox_step (LSetAsleep :: LReadPending :: if ib_pending (ir_inbox r) then [LStayUp] else []) r = Some r'
             /\ ir_inbox r' = (fall_asleep (ir_inbox r)).2
             /\ ir_io r' = if (fall_asleep (ir_inbox r)).1 then IoWaits else IoRuns.
Proof.
  intros Hio. unfold fall_asleep. cbn [run_steps inbox_step]. rewrite Hio. cbn. destruct (ib_pending (ir_inbox r)); eexists; by cbn.
Qed.

Lemma push_alone posted r :
  ir_queued r = 0%nat -> ir_saw r = 0%nat ->
  exists r', run_steps inbox_step (LPush posted :: LLook :: if ib_asleep (ir_inbox r) then [LSwap] else []) r = Some r'
             /\ ir_inbox r' = (Inbox_push posted (ir_inbox r)).2
             /\ ir_waking r' = ((if (Inbox_push posted (ir_inbox r)).1 then 1 else 0) + ir_waking r)%nat.
Proof.
  intros Hq Hs. unfold Inbox_push, wake_needed. cbn. rewrite Hq. cbn.
  destruct (ib_asleep (ir_inbox r)) eqn:Ha; cbn; rewrite ?Hs, ?Ha; eexists; by cbn.
Qed.

Lemma take_alone spent r :
  ir_io r = IoRuns ->
  exists r', run_steps inbox_step (LLookTake spent :: if take_looks spent (ir_inbox r) then [LTake] else []) r = Some r'
             /\ ir_inbox r' = (Inbox_take spent (ir_inbox r)).2
             /\ ir_got r' = ir_got r ++ (Inbox_take spent (ir_inbox r)).1.1.
Proof.
  intros Hio. unfold Inbox_take. cbn [run_steps inbox_step]. rewrite Hio. cbn [mbind option_bind].
  destruct (take_looks spent (ir_inbox r)) eqn:Ht; cbn; eexists; split_and!; try done. by rewrite app_nil_r.
Qed.

(** ** The invariant *)

(** Something is queued. *)
Definition holds_something (i : Inbox) : Prop := is_posted (ib_state i) <> [] \/ is_confirmations (ib_state i) <> [].

Record inbox_ok (r : InboxRun) : Prop := {
  io_pending : holds_something (ir_inbox r) -> ib_pending (ir_inbox r) = true;
  io_posted : ir_got r ++ is_posted (ib_state (ir_inbox r)) = ir_sent r;
  io_confirmations : ir_heard r ++ is_confirmations (ib_state (ir_inbox r)) = ir_confirmed r;
  io_wakes : ir_wakes r + (if ib_asleep (ir_inbox r) then 1 else 0) <= ir_sleeps r;
  io_called : ir_io r = IoFallsAsleep \/ ir_io r = IoWaits ->
    ib_asleep (ir_inbox r) = true \/ ir_signalled r = true \/ (0 < ir_waking r)%nat;
  io_wakes_come : ir_io r = IoWaits -> ib_pending (ir_inbox r) = true ->
    ir_signalled r = true \/ (0 < ir_waking r)%nat \/ (0 < ir_queued r + ir_saw r)%nat;
}.

Lemma inbox_step_ok l r r' : inbox_ok r -> inbox_step l r = Some r' -> inbox_ok r'.
Proof.
  intros [Hp Hs Hc Hw Ha Hk] Hl. destruct r as [[[posted confs ret] pending asleep] io sig nq ns nw sent got conf heard sl wk].
  cbn [ir_inbox ib_state is_posted is_confirmations ib_pending ib_asleep ir_io ir_signalled ir_queued ir_saw ir_waking ir_sent ir_got
       ir_confirmed ir_heard ir_sleeps ir_wakes] in *.
  destruct l; cbn [inbox_step ir_inbox ir_io] in Hl; unfold queue_plain, take_confirmations, take_looks in Hl; step_cases Hl;
    try (destruct (Bodies_take _) as [spare returned]); split; cbn in *; subst; unfold holds_something in *; cbn in *.
  all: try (rewrite ?app_nil_r, ?app_assoc; congruence).
  all: try (intros; assumption || reflexivity || congruence || (destruct asleep; lia)).
  all: try (intros; intuition (lia || congruence)).
Qed.

Lemma inbox_reaches_ok r : inbox_reaches r -> inbox_ok r.
Proof. apply (steps_keep inbox_step inbox_ok); [exact inbox_step_ok|]. split; cbn; try done; by intros []. Qed.

(** ** The theorems *)

(** C31: No send is left to a sleeping io thread.  Whenever the io thread waits for
    its sockets with something queued, the reactor's waker has fired, or the
    senders still in their calls fire it, whatever else happens meanwhile: running
    their steps alone ends the wait. *)
Theorem io_thread_is_woken (r : InboxRun) :
  inbox_reaches r -> ir_io r = IoWaits -> holds_something (ir_inbox r) ->
  exists ls r', Forall (fun l => is_sender l = true) ls /\ run_steps inbox_step ls r = Some r' /\ ir_signalled r' = true.
Proof.
  intros Hr Hio Hq. destruct (inbox_reaches_ok r Hr) as [Hp _ _ _ Ha Hk]. specialize (Hk Hio (Hp Hq)). specialize (Ha (or_intror Hio)).
  assert (Hwake : forall r, (0 < ir_waking r)%nat -> inbox_step LWake r = Some (r <| ir_signalled := true |> <| ir_waking ::= pred |>)).
  { intros r0 H0. cbn [inbox_step]. apply Nat.ltb_lt in H0. by rewrite H0. }
  destruct (ir_signalled r) eqn:Hs; [by exists [], r|]. destruct (decide (0 < ir_waking r)%nat) as [Hw|Hw].
  { eexists [LWake], _. split_and!; [by repeat constructor|cbn [run_steps]; by rewrite Hwake|done]. }
  assert (Hasl : ib_asleep (ir_inbox r) = true) by (destruct Ha as [?|[?|?]]; done).
  assert (Hswap : forall r, ib_asleep (ir_inbox r) = true -> (0 < ir_saw r)%nat -> inbox_step LSwap r
    = Some (r <| ir_waking ::= S |> <| ir_wakes ::= Z.add 1 |> <| ir_inbox := (swap_asleep (ir_inbox r)).2 |> <| ir_saw ::= pred |>)).
  { intros r0 H0 H1. cbn [inbox_step]. cbn [swap_asleep fst]. apply Nat.ltb_lt in H1. by rewrite H0, H1. }
  destruct (decide (0 < ir_saw r)%nat) as [Hsaw|Hsaw].
  { eexists [LSwap; LWake], _. split; [by repeat constructor|]. cbn [run_steps]. rewrite Hswap by done.
    cbn [mbind option_bind]. rewrite Hwake by (cbn; lia). by split. }
  assert (Hlook : inbox_step LLook r = Some (r <| ir_saw ::= S |> <| ir_queued ::= pred |>)).
  { cbn [inbox_step]. rewrite Hasl. rewrite (proj2 (Nat.ltb_lt _ _)); [done|]. destruct Hk as [?|[?|?]]; done || lia. }
  eexists [LLook; LSwap; LWake], _. split; [by repeat constructor|]. cbn [run_steps]. rewrite Hlook.
  cbn [mbind option_bind]. rewrite Hswap by (cbn; done || lia). cbn [mbind option_bind]. rewrite Hwake by (cbn; lia). by split.
Qed.

(** The io thread takes what was queued, each once and in the order it was
    queued, commands and confirmations each in theirs; whatever is still there is
    announced by [pending]; and it is woken at most once for each time it was about
    to sleep. *)
Theorem inbox_in_order (r : InboxRun) :
  inbox_reaches r ->
  ir_got r ++ is_posted (ib_state (ir_inbox r)) = ir_sent r
  /\ ir_heard r ++ is_confirmations (ib_state (ir_inbox r)) = ir_confirmed r
  /\ (ib_pending (ir_inbox r) = false -> ir_got r = ir_sent r /\ ir_heard r = ir_confirmed r)
  /\ ir_wakes r <= ir_sleeps r.
Proof.
  intros Hr. destruct (inbox_reaches_ok r Hr) as [Hp Hs Hc Hw _ _]. split_and!; [done|done| |destruct (ib_asleep _); lia].
  intros Hf. unfold holds_something in Hp.
  destruct (is_posted _) eqn:H1; [|exfalso; rewrite Hp in Hf; [done|by left]].
  destruct (is_confirmations _) eqn:H2; [|exfalso; rewrite Hp in Hf; [done|by right]].
  rewrite <- Hs, <- Hc, !app_nil_r. done.
Qed.

(** ** A run: a send and a confirmation reach an io thread as it falls asleep *)

Definition demo_inbox_labels : list InboxLabel :=
  [LSetAsleep; LPush PostFill; LLook; LReadPending; LStayUp; LLookTake (mkBodies [] 0); LTake;
   LSetAsleep; LReadPending; LPushConfirmation (mkHanded 7 1 Processed); LLook; LPush PostProcessCallbacks].

Definition demo_inbox : InboxRun := default inbox_start (run_steps inbox_step demo_inbox_labels inbox_start).

Lemma demo_inbox_reached : inbox_reaches demo_inbox.
Proof. exists demo_inbox_labels. vm_compute. reflexivity. Qed.

Lemma io_thread_is_woken_witness :
  ir_io demo_inbox = IoWaits /\ ir_signalled demo_inbox = false
  /\ exists ls r', run_steps inbox_step ls demo_inbox = Some r' /\ ir_signalled r' = true.
Proof.
  split; [vm_compute; reflexivity|]. split; [vm_compute; reflexivity|].
  destruct (io_thread_is_woken demo_inbox demo_inbox_reached) as (ls & r' & _ & Hr & Hs);
    [vm_compute; reflexivity|left; vm_compute; discriminate|]. exists ls, r'. split; [exact Hr|exact Hs].
Defined.

Lemma inbox_in_order_witness :
  ir_got demo_inbox = [PostFill] /\ ir_sent demo_inbox = [PostFill; PostProcessCallbacks]
  /\ ir_got demo_inbox ++ is_posted (ib_state (ir_inbox demo_inbox)) = ir_sent demo_inbox.
Proof.
  split; [vm_compute; reflexivity|]. split; [vm_compute; reflexivity|].
  exact (proj1 (inbox_in_order demo_inbox demo_inbox_reached)).
Defined.
