(* ===== verification/Driver.v ===== *)
(** * Driver: a client's sockets and its loop (driver.rs, engine.rs)

    The driver waits for the sockets, feeds the core what happened and carries
    out what it asks.  The system, mio's reactor and the threads beside it are
    [Os]: what each call answers, which may depend on every call before it.  A
    loop of the code runs on fuel and gives [None] when it is not enough, so that
    an answer is one the code gives.  What goes to each socket is kept beside the
    driver, [mc_wire]: the frames its writes were given, and the bytes taken. *)
From S2P Require Import Prelude Words Defaults Frame FrameReader Xxh3Simd Timers Endpoint LogSummary Records Fork.
From S2P Require Import Messages CoreTypes CoreBase Bodies Client Run System Inbox.
Open Scope Z_scope.

(** ** The system *)

(** An event of the reactor, [mio::event::Event]. *)
Record Event := mkEvent {
  ev_token : Z;
  ev_readable : bool;
  ev_read_closed : bool;
  ev_writable : bool;
  ev_write_closed : bool;
  ev_error : bool;
}.

Inductive WriteResult := Wrote (count : nat) | WriteWouldBlock | WriteInterrupted | WriteFailed.
Inductive ReadResult := Read (data : list Z) | ReadWouldBlock | ReadInterrupted | ReadFailed.
Inductive Peer := PeerKnown | PeerNotConnected | PeerFailed.

(** What another thread hands the inbox. *)
Inductive Handed :=
| HandCommand (command : Z)
| HandPlain (plain : Plain) (deadline : option Z)
| HandConfirmation (confirmation : HandedConfirmation).

Class Os := {
  os : Type;
  os_now : os -> Z * os;                                  (* Instant::now *)
  os_poll : option Z -> os -> option (list Event) * os;   (* Poll::poll, None an error *)
  os_connect : SocketAddr -> os -> (Z + str) * os;        (* TcpStream::connect: the descriptor, or why not *)
  os_register : Z -> Z -> os -> option str * os;          (* Registry::register: why not *)
  os_take_error : Z -> os -> bool * os;                   (* take_error: whether there is one *)
  os_peer_addr : Z -> os -> Peer * os;
  os_write : Z -> list Z -> os -> WriteResult * os;       (* one write of these bytes *)
  os_read : Z -> nat -> os -> ReadResult * os;            (* one read into this much room *)
  os_shutdown : Z -> bool -> os -> os;                    (* shutdown, of both halves or the writes' *)
  os_close : Z -> os -> os;                               (* deregister and the socket's drop *)
  os_spawn : os -> bool * os;                             (* the resolver thread's start *)
  os_request : Z -> str -> Z -> os -> bool * os;          (* the name handed to it *)
  os_answers : os -> list (Z * list SocketAddr) * os;     (* what it answered since *)
  os_others : os -> list Handed * os;                     (* what other threads handed the inbox since *)
}.

(** ** The driver *)

Definition WAKER : Z := 0.
Definition TURN : nat := 64.

Record Writing := mkWriting { wr_head : option (list Z); wr_bytes : list Z; wr_written : nat }.
#[export] Instance eta_Writing : Eta Writing := fun r => mkWriting (wr_head r) (wr_bytes r) (wr_written r).

Definition Writing_length (w : Writing) : nat :=
  match wr_head w with Some head => length head | None => 0 end + length (wr_bytes w).

(** The bytes the next write is given.  A head is an array of [HEADER_LENGTH]
    bytes by its type, whose length stands for the constant here. *)
Definition write_to (w : Writing) : list Z :=
  match wr_head w with
  | Some head =>
      if (wr_written w <? length head)%nat then drop (wr_written w) head ++ wr_bytes w
      else drop (wr_written w - length head) (wr_bytes w)
  | None => drop (wr_written w) (wr_bytes w)
  end.

Record Socket := mkSocket {
  sk_token : Z;
  sk_fd : Z;
  sk_connecting : bool;
  sk_reading : bool;
  sk_readable : bool;
  sk_writable : bool;
  sk_read_ended : bool;
  sk_reader : FrameReader;
  sk_write : option Writing;
}.
#[export] Instance eta_Socket : Eta Socket := fun r =>
  mkSocket (sk_token r) (sk_fd r) (sk_connecting r) (sk_reading r) (sk_readable r) (sk_writable r) (sk_read_ended r)
    (sk_reader r) (sk_write r).

Inductive Step := Ran | Deadline | StepIdle | Woken | NoWork.

(** The buffers the code keeps from one use to the next, empty between them, are left out. *)
Record Driver := mkDriver {
  dr_sockets : gmap Z Socket;
  dr_by_token : gmap Z Z;
  dr_next_token : Z;
  dr_turns : list Z;
  dr_ready : list Ready;
  dr_resolving : gset Z;
  dr_resolver : bool;
  dr_inbox : option Inbox;
  dr_since_pass : nat;
  dr_since_poll : nat;
  dr_woken : bool;
}.
#[export] Instance eta_Driver : Eta Driver := fun r =>
  mkDriver (dr_sockets r) (dr_by_token r) (dr_next_token r) (dr_turns r) (dr_ready r) (dr_resolving r) (dr_resolver r)
    (dr_inbox r) (dr_since_pass r) (dr_since_poll r) (dr_woken r).

Definition Driver_new (inbox : option Inbox) : Driver := mkDriver ∅ ∅ 1 [] [] ∅ false inbox 0 0 false.

Definition Driver_has_work (d : Driver) : bool :=
  negb (bool_decide (dr_sockets d = ∅)) || negb (bool_decide (dr_resolving d = ∅)) || negb (bool_decide (length (dr_ready d) = 0%nat)).

(** Of one socket: the frames its writes were given, in order, and the bytes it took. *)
Record Wire := mkWire { wi_frames : list (list Z); wi_sent : list Z }.
#[export] Instance eta_Wire : Eta Wire := fun r => mkWire (wi_frames r) (wi_sent r).

(** The driver with its core, the system, and the client's table of descriptors. *)
Record Machine {OS : Os} := mkMachine {
  mc_core : Core;
  mc_driver : Driver;
  mc_descriptors : DescriptorTable;
  mc_wire : gmap Z Wire;
  mc_os : os;
}.
#[export] Instance eta_Machine {OS : Os} : Eta Machine := fun r =>
  mkMachine OS (mc_core r) (mc_driver r) (mc_descriptors r) (mc_wire r) (mc_os r).

(** ** Programs over the machine *)

Section Monad.
Context {OS : Os}.

Definition DM (A : Type) : Type := Machine -> option (A * Machine).

Definition dret {A} (a : A) : DM A := fun m => Some (a, m).
Definition dbind {A B} (p : DM A) (k : A -> DM B) : DM B :=
  fun m => match p m with Some (a, m') => k a m' | None => None end.
Definition out_of_fuel {A} : DM A := fun _ => None.
Definition dgets {A} (f : Machine -> A) : DM A := fun m => Some (f m, m).
Definition dmodify (f : Machine -> Machine) : DM unit := fun m => Some (tt, f m).
Definition dwhen (b : bool) (p : DM unit) : DM unit := if b then p else dret tt.

Fixpoint dfor_each {A} (l : list A) (body : A -> DM unit) : DM unit :=
  match l with
  | [] => dret tt
  | x :: l => dbind (body x) (fun _ => dfor_each l body)
  end.

(** A call of the system. *)
Definition sys {A} (f : os -> A * os) : DM A :=
  fun m => let '(a, s) := f (mc_os m) in Some (a, m <| mc_os := s |>).
(** A call of the core. *)
Definition on_core {A} (p : CM A) : DM A :=
  fun m => let '(a, c) := p (mc_core m) in Some (a, m <| mc_core := c |>).
Definition mod_driver (f : Driver -> Driver) : DM unit := dmodify (fun m => m <| mc_driver ::= f |>).
Definition mod_socket (conn : Z) (f : Socket -> Socket) : DM unit := mod_driver (fun d => d <| dr_sockets ::= alter f conn |>).
Definition get_socket (conn : Z) : DM (option Socket) := dgets (fun m => dr_sockets (mc_driver m) !! conn).
Definition push_ready (ready : Ready) : DM unit := mod_driver (fun d => d <| dr_ready ::= fun l => l ++ [ready] |>).
End Monad.

Declare Scope driver_scope.
Delimit Scope driver_scope with driver.
Notation "'let+' x ':=' p 'in' k" := (dbind p (fun x => k))
  (at level 10, x pattern, k at level 200, format "'[v' 'let+'  x  ':='  p  'in' '/' k ']'") : driver_scope.
Notation "p '+;' k" := (dbind p (fun _ => k))
  (at level 199, right associativity, format "'[v' p  '+;' '/' k ']'") : driver_scope.
Open Scope driver_scope.

(** ** The driver's operations *)

Section Driver.
Context {E : Env} {P : Program} {OS : Os} (commands : Z -> Call) (cpu : Cpu) (fuel : nat).

(** An input of the core's. *)
Definition hand (input : Input) : DM unit := on_core (run_input commands input).

(** [self.ready.extend(core.posted.drain(..).map(Ready::Posted))]. *)
Definition extend_posted : DM unit :=
  let+ posted := dgets (fun m => cr_posted (mc_core m)) in
  hand InPostedTaken +;
  mod_driver (fun d => d <| dr_ready ::= fun l => l ++ map ReadyPosted posted |>).

(** [core.timers.next_deadline()], and whether it came. *)
Definition core_deadline : DM (option Z) :=
  let+ deadline := dgets (fun m => (next_deadline (cr_timers (mc_core m))).2) in
  hand InDeadline +;
  dret deadline.
Definition timers_due : DM bool :=
  let+ deadline := core_deadline in
  let+ now := dgets (fun m => cr_now (mc_core m)) in
  dret match deadline with Some due => due <=? now | None => false end.

(** *** Writes *)

(** The bytes the socket took. *)
Definition sent (token : Z) (bytes : list Z) : DM unit :=
  dmodify (fun m => m <| mc_wire ::= alter (fun w => w <| wi_sent ::= fun l => l ++ bytes |>) token |>).

(** The loop of [write_some]: how it ended, [None] when the socket would block. *)
Fixpoint write_loop (n : nat) (socket : Socket) (w : Writing) : DM (option bool * Writing) :=
  match n with
  | O => out_of_fuel
  | S n =>
      if (wr_written w =? Writing_length w)%nat then dret (Some false, w)
      else
        let+ result := sys (os_write (sk_fd socket) (write_to w)) in
        match result with
        | Wrote O => dret (Some true, w)
        | Wrote count =>
            sent (sk_token socket) (take count (write_to w)) +;
            write_loop n socket (w <| wr_written ::= Nat.add count |>)
        | WriteWouldBlock => dret (None, w)
        | WriteInterrupted => write_loop n socket w
        | WriteFailed => dret (Some true, w)
        end
  end.

Definition write_some (conn : Z) : DM unit :=
  let+ socket := get_socket conn in
  match socket with
  | None => dret tt
  | Some socket =>
      match sk_write socket with
      | None => dret tt
      | Some writing =>
          mod_socket conn (fun s => s <| sk_write := None |>) +;
          let+ (ended, writing) := write_loop fuel socket writing in
          match ended with
          | None => mod_socket conn (fun s => s <| sk_writable := false |> <| sk_write := Some writing |>)
          | Some failed => push_ready (ReadyWriteDone conn (Z.of_nat (wr_written writing)) failed)
          end
      end
  end.

(** A write under way ends now, as written so far. *)
Definition end_write (conn : Z) : DM unit :=
  let+ socket := get_socket conn in
  match socket with
  | Some socket =>
      match sk_write socket with
      | Some writing =>
          mod_socket conn (fun s => s <| sk_write := None |>) +;
          push_ready (ReadyWriteDone conn (Z.of_nat (wr_written writing)) true)
      | None => dret tt
      end
  | None => dret tt
  end.

(** *** Connects *)

Definition check_connect (conn : Z) : DM unit :=
  let+ socket := get_socket conn in
  match socket with
  | None => dret tt
  | Some socket =>
      let+ error := sys (os_take_error (sk_fd socket)) in
      let+ ended :=
        if error : bool then dret (Some false)
        else
          let+ peer := sys (os_peer_addr (sk_fd socket)) in
          dret match peer with PeerKnown => Some true | PeerNotConnected => None | PeerFailed => Some false end in
      match ended with
      | None => dret tt
      | Some ok =>
          mod_socket conn (fun s => s <| sk_connecting := false |>) +;
          push_ready (ReadyConnected conn ok)
      end
  end.

(** Closes [conn]'s socket, if it has one. *)
Definition close (conn : Z) : DM unit :=
  let+ socket := get_socket conn in
  match socket with
  | None => dret tt
  | Some socket =>
      mod_driver (fun d => d <| dr_sockets ::= delete conn |> <| dr_by_token ::= delete (sk_token socket) |>
                             <| dr_turns ::= filter (fun each => each <> conn) |>) +;
      dmodify (fun m => m <| mc_descriptors ::= remove (sk_fd socket) |>) +;
      dmodify (fun m => m <| mc_os ::= os_close (sk_fd socket) |>)
  end.

Definition Socket_new (token fd : Z) : Socket := mkSocket token fd true false false false false FrameReader_default None.

(** [Action::Open]. *)
Definition open (conn : Z) (address : SocketAddr) : DM unit :=
  close conn +;
  let+ stream := sys (os_connect address) in
  match stream with
  | inr why => hand (InOpenFailed conn why)
  | inl fd =>
      let+ token := dgets (fun m => dr_next_token (mc_driver m)) in
      mod_driver (fun d => d <| dr_next_token ::= Z.add 1 |>) +;
      let+ refused := sys (os_register fd token) in
      match refused with
      | Some why =>
          hand (InOpenFailed conn why) +;
          dmodify (fun m => m <| mc_os ::= os_close fd |>)
      | None =>
          dmodify (fun m => m <| mc_descriptors ::= fun t => (add fd t).2 |> <| mc_wire ::= <[token := mkWire [] []]> |>) +;
          mod_driver (fun d => d <| dr_by_token ::= <[token := conn]> |> <| dr_turns ::= fun l => l ++ [conn] |>
                                 <| dr_sockets ::= <[conn := Socket_new token fd]> |>)
      end
  end.

(** *** Names *)

Definition resolve (conn : Z) (host : str) (port : Z) : DM unit :=
  let+ resolver := dgets (fun m => dr_resolver (mc_driver m)) in
  let+ started := if resolver : bool then dret true else sys os_spawn in
  if negb started then push_ready (ReadyResolved conn [])
  else
    mod_driver (fun d => d <| dr_resolver := true |>) +;
    let+ taken := sys (os_request conn host port) in
    dwhen taken (mod_driver (fun d => d <| dr_resolving ::= union {[conn]} |>)).

(** The answers still waited for. *)
Definition take_resolved : DM unit :=
  let+ resolver := dgets (fun m => dr_resolver (mc_driver m)) in
  if negb resolver then dret tt
  else
    let+ answers := sys os_answers in
    dfor_each answers (fun '(conn, candidates) =>
      let+ waited := dgets (fun m => bool_decide (conn ∈ dr_resolving (mc_driver m))) in
      dwhen waited
        (mod_driver (fun d => d <| dr_resolving ::= (.∖ {[conn]}) |>) +;
         push_ready (ReadyResolved conn candidates))).

(** *** Actions *)

Definition wire_bytes (head : option (list Z)) (bytes : list Z) : list Z := default [] head ++ bytes.

Definition carry_out (action : Action) : DM unit :=
  match action with
  | ActResolve conn host port => resolve conn host port
  | ActOpen conn address => open conn address
  | ActCancelConnect conn =>
      let+ socket := get_socket conn in
      match socket with
      | Some socket => dwhen (sk_connecting socket) (close conn +; push_ready (ReadyConnected conn false))
      | None => dret tt
      end
  | ActStartReading conn => mod_socket conn (fun s => s <| sk_reading := true |>)
  | ActWrite conn head bytes =>
      let+ socket := get_socket conn in
      match socket with
      | Some socket =>
          dmodify (fun m => m <| mc_wire ::= alter (fun w => w <| wi_frames ::= fun l => l ++ [wire_bytes head bytes] |>) (sk_token socket) |>) +;
          mod_socket conn (fun s => s <| sk_write := Some (mkWriting head bytes 0) |> <| sk_writable := true |>) +;
          write_some conn
      | None => push_ready (ReadyWriteDone conn 0 true)
      end
  | ActShutdownWrite conn =>
      end_write conn +;
      let+ socket := get_socket conn in
      match socket with
      | Some socket => dmodify (fun m => m <| mc_os ::= os_shutdown (sk_fd socket) false |>)
      | None => dret tt
      end
  | ActShutdown conn =>
      end_write conn +;
      let+ socket := get_socket conn in
      match socket with
      | Some socket =>
          dmodify (fun m => m <| mc_os ::= os_shutdown (sk_fd socket) true |>) +;
          mod_socket conn (fun s => s <| sk_reading := false |>)
      | None => dret tt
      end
  | ActClose conn => end_write conn +; close conn
  | ActCancelResolves => mod_driver (fun d => d <| dr_resolving := ∅ |>)
  end.

(** [while !core.actions.is_empty()]. *)
Fixpoint apply_loop (n : nat) : DM unit :=
  match n with
  | O => out_of_fuel
  | S n =>
      let+ actions := dgets (fun m => cr_actions (mc_core m)) in
      match actions with
      | [] => dret tt
      | _ => hand InActionsTaken +; dfor_each actions carry_out +; apply_loop n
      end
  end.
Definition apply_actions : DM unit := apply_loop fuel.

Definition carry_out_actions : DM unit := apply_actions +; extend_posted.

(** *** Readiness *)

(** What a wait's event says of its socket. *)
Definition fired (event : Event) : Z * bool * bool :=
  (ev_token event, ev_readable event || ev_read_closed event || ev_error event,
   ev_writable event || ev_write_closed event || ev_error event).

Definition handle_fired (f : Z * bool * bool) : DM unit :=
  let '(token, readable, writable) := f in
  if token =? WAKER then mod_driver (fun d => d <| dr_woken := true |>)
  else
    let+ conn := dgets (fun m => dr_by_token (mc_driver m) !! token) in
    match conn with
    | None => dret tt
    | Some conn =>
        let+ socket := get_socket conn in
        match socket with
        | None => dret tt
        | Some socket =>
            mod_socket conn (fun s => s <| sk_readable ::= orb readable |> <| sk_writable ::= orb writable |>) +;
            dwhen (sk_connecting socket && (writable || readable)) (check_connect conn) +;
            let+ socket := get_socket conn in
            match socket with
            | Some socket => dwhen (bool_decide (is_Some (sk_write socket)) && sk_writable socket) (write_some conn)
            | None => dret tt
            end
        end
    end.

Definition wait (timeout : option Z) : DM unit :=
  mod_driver (fun d => d <| dr_since_poll := 0%nat |>) +;
  let+ events := sys (os_poll timeout) in
  match events with
  | None => dret tt
  | Some events => dfor_each (map fired events) handle_fired
  end.

(** *** The inbox *)

Definition hand_over (i : Inbox) (handed : Handed) : Inbox :=
  match handed with
  | HandCommand command => queue_posted (PostCommand command) i
  | HandPlain plain deadline => (queue_plain plain deadline i).2
  | HandConfirmation confirmation => queue_confirmation confirmation i
  end.

(** What other threads did meanwhile. *)
Definition others : DM unit :=
  let+ handed := sys os_others in
  mod_driver (fun d => d <| dr_inbox ::= fmap (fun i => foldl hand_over i handed) |>).

Definition take_inbox : DM unit :=
  others +;
  let+ inbox := dgets (fun m => dr_inbox (mc_driver m)) in
  match inbox with
  | None => dret tt
  | Some i =>
      let+ spent := dgets (fun m => bc_bodies (cr_batcher (mc_core m))) in
      let '(taken, confirmations, i') := Inbox_take spent i in
      dwhen (take_looks spent i) (hand InSpent) +;
      mod_driver (fun d => d <| dr_inbox := Some i' |> <| dr_ready ::= fun l => l ++ map ReadyPosted taken |>) +;
      match confirmations with
      | [] => dret tt
      | _ => hand (InCall (CallConfirmHanded confirmations)) +; extend_posted
      end
  end.

Definition sleep (timeout : option Z) : DM unit :=
  others +;
  let+ inbox := dgets (fun m => dr_inbox (mc_driver m)) in
  match inbox with
  | None => wait timeout
  | Some i =>
      let '(asleep, i) := fall_asleep i in
      mod_driver (fun d => d <| dr_inbox := Some i |>) +;
      if negb asleep then dret tt
      else
        wait timeout +;
        mod_driver (fun d => d <| dr_inbox ::= fmap (set_asleep false) |>)
  end.

(** *** Reads *)

(** [pull_from]'s loop: what the socket gives, and the socket. *)
Fixpoint pull_loop (n : nat) (conn : Z) (socket : Socket) : DM (option Ready * Socket) :=
  match n with
  | O => out_of_fuel
  | S n =>
      let '(reader, next) := next_frame cpu (sk_reader socket) in
      let socket := socket <| sk_reader := reader |> in
      match next with
      | NextFrame body => dret (Some (ReadyFrame conn body (negb (holds_next reader))), socket)
      | Started => dret (Some (ReadyStarted conn), socket)
      | BadHeader | BadChecksum => dret (Some (ReadyEnd conn), socket <| sk_read_ended := true |>)
      | Nothing =>
          if negb (sk_readable socket) then dret (None, socket)
          else
            let+ result := sys (os_read (sk_fd socket) (read_room reader)) in
            let read data := (read_from reader (fun _ => data)).1 in
            match result with
            | Read [] => dret (Some (ReadyEnd conn), socket <| sk_reader := read [] |> <| sk_read_ended := true |>)
            | Read data => pull_loop n conn (socket <| sk_reader := read data |>)
            | ReadWouldBlock => dret (None, socket <| sk_reader := read [] |> <| sk_readable := false |>)
            | ReadInterrupted => pull_loop n conn (socket <| sk_reader := read [] |>)
            | ReadFailed => dret (Some (ReadyEnd conn), socket <| sk_reader := read [] |> <| sk_read_ended := true |>)
            end
      end
  end.

Definition pull_from (conn : Z) : DM (option Ready) :=
  let+ socket := get_socket conn in
  match socket with
  | None => dret None
  | Some socket =>
      if negb (sk_reading socket) || sk_read_ended socket then dret None
      else
        let+ (pulled, socket) := pull_loop fuel conn socket in
        mod_socket conn (fun _ => socket) +;
        dret pulled
  end.

Definition pull_pass : DM unit :=
  let+ turns := dgets (fun m => dr_turns (mc_driver m)) in
  dfor_each turns (fun conn =>
    let+ pulled := pull_from conn in
    match pulled with Some pulled => push_ready pulled | None => dret tt end) +;
  mod_driver (fun d => d <| dr_turns ::= fun l => match l with first :: rest => rest ++ [first] | [] => [] end |>).

(** *** The loop *)

Definition pass : DM unit :=
  mod_driver (fun d => d <| dr_since_pass := 0%nat |>) +;
  let+ due := timers_due in
  let+ since_poll := dgets (fun m => dr_since_poll (mc_driver m)) in
  dwhen (due || (TURN <=? since_poll)%nat) (wait (Some 0)) +;
  take_inbox +;
  take_resolved +;
  pull_pass +;
  dwhen due (push_ready ReadyTimers).

Definition is_plain (ready : Ready) : bool := match ready with ReadyPosted (PostPlain _ _) => true | _ => false end.
Definition is_command (ready : Ready) : bool :=
  match ready with ReadyPosted (PostPlain _ _) | ReadyPosted (PostCommand _) => true | _ => false end.

(** An entry run counts. *)
Definition count_run (d : Driver) : Driver := d <| dr_since_pass ::= S |> <| dr_since_poll ::= S |>.

(** [while self.since_pass < TURN]: the plain sends at the queue's front. *)
Fixpoint run_plains (n : nat) : DM unit :=
  match n with
  | O => out_of_fuel
  | S n =>
      let+ d := dgets mc_driver in
      if (TURN <=? dr_since_pass d)%nat then dret tt
      else
        match dr_ready d with
        | ReadyPosted (PostPlain plain deadline) :: rest =>
            mod_driver (fun d => count_run (d <| dr_ready := rest |>)) +;
            hand (InReady (ReadyPosted (PostPlain plain deadline))) +;
            run_plains n
        | _ => dret tt
        end
  end.

Definition commands_queued (d : Driver) : bool := existsb is_command (dr_ready d).

Definition run (ready : Ready) : DM unit :=
  match ready with
  | ReadyPosted PostWriteOutStep =>
      let+ queued := dgets (fun m => commands_queued (mc_driver m)) in
      if queued : bool then push_ready (ReadyPosted PostWriteOutStep) else hand (InReady ready)
  | ReadyPosted (PostPlain _ _) => hand (InReady ready) +; run_plains fuel
  | ReadyTimers =>
      let+ ran := on_core run_one_timer in
      let+ again := if ran : bool then timers_due else dret false in
      dwhen again (mod_driver (fun d => d <| dr_ready ::= cons ReadyTimers |>))
  | _ => hand (InReady ready)
  end +;
  apply_actions +;
  take_inbox +;
  extend_posted.

(** [deadline.saturating_duration_since(now)]. *)
Definition until (deadline now : Z) : Z := Z.max 0 (deadline - now).

Fixpoint step_loop (n : nat) (deadline : option Z) (block looked : bool) : DM Step :=
  match n with
  | O => out_of_fuel
  | S n =>
      let+ now := sys os_now in
      hand (InTime now) +;
      extend_posted +;
      let+ d := dgets mc_driver in
      match (if (dr_since_pass d <? TURN)%nat then head (dr_ready d) else None) with
      | Some ready =>
          mod_driver (fun d => count_run (d <| dr_ready ::= tail |>)) +;
          run ready +;
          dret Ran
      | None =>
          pass +;
          let+ d := dgets mc_driver in
          let+ c := dgets mc_core in
          if negb (bool_decide (length (dr_ready d) = 0%nat)) then step_loop n deadline block looked
          else if match deadline with Some deadline => deadline <=? cr_now c | None => false end then dret Deadline
          else if negb block then
            if looked then dret StepIdle else wait (Some 0) +; step_loop n deadline block true
          else if dr_woken d then
            mod_driver (fun d => d <| dr_woken := false |>) +; dret Woken
          else if negb (Driver_has_work d) && negb (has_work c) && negb (bool_decide (is_Some (dr_inbox d))) then
            match deadline with
            | None => dret NoWork
            | Some deadline => wait (Some (until deadline (cr_now c))) +; step_loop n (Some deadline) block looked
            end
          else
            let+ timer := core_deadline in
            let next :=
              match timer, deadline with
              | Some timer, Some deadline => Some (Z.min timer deadline)
              | Some timer, None => Some timer
              | None, deadline => deadline
              end in
            sleep ((fun next => until next (cr_now c)) <$> next) +;
            step_loop n deadline block looked
      end
  end.

Definition step (deadline : option Z) (block : bool) : DM Step := step_loop fuel deadline block false.

(** ** The engine (engine.rs) *)

Definition call (body : Call) : DM unit :=
  let+ now := sys os_now in
  hand (InTime now) +;
  hand (InCall body) +;
  carry_out_actions.

Definition run_one (deadline : option Z) : DM nat :=
  let+ ended := step deadline true in
  dret match ended with NoWork => 0%nat | _ => 1%nat end.

Fixpoint poll_loop (n : nat) (until : Z) : DM unit :=
  match n with
  | O => out_of_fuel
  | S n =>
      let+ handled := dgets (fun m => cl_frames_handled (cr_client (mc_core m))) in
      if until <=? handled then dret tt
      else
        let+ ended := step None false in
        match ended with Ran => poll_loop n until | _ => dret tt end
  end.
Definition poll : DM unit :=
  let+ handled := dgets (fun m => cl_frames_handled (cr_client (mc_core m))) in
  poll_loop fuel (handled + Z.max 1 DEFAULT_INCOMING_QUEUE_MAX_SIZE).

Definition idle (m : Machine) : bool := negb (Driver_has_work (mc_driver m)) && negb (has_work (mc_core m)).
End Driver.

Definition Engine_new {OS : Os} (peer_type ids : Z) (mode : IncomingMode) (inbox : option Inbox) (s : os) : Machine :=
  let '(now, s) := os_now s in
  mkMachine OS (Core_new peer_type ids mode now) (Driver_new inbox) DescriptorTable_default ∅ s.
