(* ===== verification/DriverSpec.v ===== *)
(** * DriverSpec: the driver gives the core what it waits for

    [input_ok] of System.v is what the core's theorems ask of its driver.  Here
    the driver keeps to it: what it owes the core, in its sockets, its queue and
    its hands, is what the core's connections wait for ([asked_ok]), through
    every call and every step, whatever the system answers.  So a client's core
    only comes by [reachable] states ([client_reachable]), and the theorems of
    the core hold of a client as it runs. *)
From S2P Require Import Prelude Words Defaults Frame FrameReader Xxh3Simd Timers Endpoint LogSummary Records Fork.
From S2P Require Import Messages CoreTypes CoreBase ConnQueue Bodies Client Run System Inbox Driver Stable ConnIds ConnSpec.
From S2P Require Import Concrete Asked.
Open Scope Z_scope.

(** ** Composing programs *)

Section Keeps.
Context {OS : Os}.

Definition dleads (P Q : Machine -> Prop) {A} (p : DM A) : Prop := forall m a m', p m = Some (a, m') -> P m -> Q m'.
Abbreviation keeps I p := (dleads I I p).
Definition dgives (P : Machine -> Prop) {A} (p : DM A) (Q : A -> Machine -> Prop) : Prop :=
  forall m a m', p m = Some (a, m') -> P m -> Q a m'.

Lemma dgives_bind P A B (p : DM A) (k : A -> DM B) (Q : A -> Machine -> Prop) (R : B -> Machine -> Prop) :
  dgives P p Q -> (forall a, dgives (Q a) (k a) R) -> dgives P (dbind p k) R.
Proof.
  intros Hp Hk m b m' Hm Hs. unfold dbind in Hm. destruct (p m) as [[a m1]|] eqn:E; [|done].
  eapply Hk; [exact Hm|]. by eapply Hp.
Qed.
Lemma dleads_gives P Q A (p : DM A) : dleads P Q p <-> dgives P p (fun _ => Q).
Proof. done. Qed.
Lemma dleads_bind P Q R A B (p : DM A) (k : A -> DM B) : dleads P Q p -> (forall a, dleads Q R (k a)) -> dleads P R (dbind p k).
Proof. intros Hp Hk. apply dleads_gives. eapply dgives_bind; [exact Hp|]. exact Hk. Qed.
Lemma keeps_ret I A (a : A) : keeps I (dret a).
Proof. by intros m b m' [= <- <-]. Qed.
Lemma keeps_gets I A (f : Machine -> A) : keeps I (dgets f).
Proof. by intros m b m' [= <- <-]. Qed.
Lemma keeps_fuel I A : keeps I (@out_of_fuel _ A).
Proof. done. Qed.
Lemma keeps_sys I A (f : os -> A * os) : (forall m s, I m -> I (m <| mc_os := s |>)) -> keeps I (sys f).
Proof. intros H m a m'. unfold sys. destruct (f (mc_os m)). intros [= <- <-]. apply H. Qed.
Lemma keeps_when I b (p : DM unit) : (b = true -> keeps I p) -> keeps I (dwhen b p).
Proof. destruct b; [by intros H; apply H|intros _; apply keeps_ret]. Qed.
Lemma keeps_for_each I A (l : list A) body : (forall x, keeps I (body x)) -> keeps I (dfor_each l body).
Proof. intros H. induction l as [|x l IH]; [apply keeps_ret|]. by apply (dleads_bind _ I). Qed.
Lemma dleads_for_each A (l : list A) (I : list A -> Machine -> Prop) body :
  (forall x l', dleads (I (x :: l')) (I l') (body x)) -> dleads (I l) (I []) (dfor_each l body).
Proof. intros H. induction l as [|x l IH]; [apply keeps_ret|]. eapply dleads_bind; [apply H|]. intros _. apply IH. Qed.
(** What was read. *)
Lemma dleads_gets P Q A B (f : Machine -> A) (k : A -> DM B) :
  (forall a, dleads (fun m => P m /\ f m = a) Q (k a)) -> dleads P Q (dbind (dgets f) k).
Proof. intros Hk m b m' Hm Hs. by apply (Hk (f m) m b m' Hm). Qed.
Lemma dleads_weaken (P P' Q Q' : Machine -> Prop) A (p : DM A) :
  (forall m, P m -> P' m) -> (forall m, Q' m -> Q m) -> dleads P' Q' p -> dleads P Q p.
Proof. intros HP HQ Hp m a m' Hm Hs. eapply HQ, Hp; [exact Hm|]. by apply HP. Qed.
End Keeps.
Abbreviation keeps I p := (dleads I I p).

Create HintDb keeps discriminated.
Ltac keeps_step :=
  match goal with
  | |- dleads _ _ (dret _) => apply keeps_ret
  | |- dleads _ _ (dgets _) => apply keeps_gets
  | |- dleads _ _ out_of_fuel => apply keeps_fuel
  | |- dleads ?I _ (dbind _ _) => apply (dleads_bind _ I); [|intros ?]
  | |- dleads _ _ (dwhen _ _) => apply keeps_when; intros ?
  | |- dleads _ _ (dfor_each _ _) => apply keeps_for_each; intros ?
  | |- dleads _ _ (match ?x with _ => _ end) => destruct x eqn:?
  | |- dleads _ _ _ => solve [eauto 3 with keeps nocore]
  end.
Ltac keeps_tac := repeat keeps_step.

(** ** Invariants of the driver's counters and its inbox *)

(** What the sockets' operations leave alone. *)
Class Outer {OS : Os} (I : Machine -> Prop) :=
  st_outer m m' :
    dr_inbox (mc_driver m') = dr_inbox (mc_driver m) -> dr_since_pass (mc_driver m') = dr_since_pass (mc_driver m) ->
    dr_since_poll (mc_driver m') = dr_since_poll (mc_driver m) -> I m -> I m'.

Section Outer.
Context {E : Env} {P : Program} {OS : Os} (commands : Z -> Call) (cpu : Cpu) (fuel : nat).
Context (I : Machine -> Prop) `{!Outer I}.

Lemma outer_core A (p : CM A) : keeps I (on_core p).
Proof. intros m a m'. unfold on_core. destruct (p (mc_core m)). intros [= <- <-]. by apply st_outer. Qed.
Lemma outer_sys A (f : os -> A * os) : keeps I (sys f).
Proof. apply keeps_sys. intros m s. by apply st_outer. Qed.
Lemma outer_modify f : (forall m, mc_driver (f m) = mc_driver m) -> keeps I (dmodify f).
Proof. intros Hf m a m' [= <- <-]. apply st_outer; by rewrite Hf. Qed.
Lemma outer_driver f :
  (forall d, dr_inbox (f d) = dr_inbox d /\ dr_since_pass (f d) = dr_since_pass d /\ dr_since_poll (f d) = dr_since_poll d) ->
  keeps I (mod_driver f).
Proof. intros Hf m a m' [= <- <-]. destruct (Hf (mc_driver m)) as (? & ? & ?). by apply st_outer. Qed.
#[local] Hint Resolve outer_core outer_sys : keeps.
#[local] Hint Extern 1 (dleads I I (mod_driver _)) => (apply outer_driver; intros ?; by split_and!) : keeps.
#[local] Hint Extern 1 (dleads I I (mod_socket _ _)) => (apply outer_driver; intros ?; by split_and!) : keeps.
#[local] Hint Extern 1 (dleads I I (push_ready _)) => (apply outer_driver; intros ?; by split_and!) : keeps.
#[local] Hint Extern 1 (dleads I I (dmodify _)) => (apply outer_modify; by intros ?) : keeps.
#[local] Hint Extern 1 (dleads I I (sent _ _)) => (apply outer_modify; by intros ?) : keeps.
#[local] Hint Extern 1 (dleads I I (get_socket _)) => apply keeps_gets : keeps.

Lemma outer_hand input : keeps I (hand commands input).
Proof. apply outer_core. Qed.
#[local] Hint Resolve outer_hand : keeps.
Lemma outer_extend_posted : keeps I (extend_posted commands).
Proof. unfold extend_posted. keeps_tac. Qed.
Lemma outer_core_deadline : keeps I (core_deadline commands).
Proof. unfold core_deadline. keeps_tac. Qed.
#[local] Hint Resolve outer_extend_posted outer_core_deadline : keeps.
Lemma outer_timers_due : keeps I (timers_due commands).
Proof. unfold timers_due. keeps_tac. Qed.
Lemma outer_write_loop n socket w : keeps I (write_loop n socket w).
Proof. revert w. induction n; intros w; cbn [write_loop]; keeps_tac. Qed.
#[local] Hint Resolve outer_write_loop outer_timers_due : keeps.
Lemma outer_write_some conn : keeps I (write_some fuel conn).
Proof. unfold write_some. keeps_tac. Qed.
Lemma outer_end_write conn : keeps I (end_write conn).
Proof. unfold end_write. keeps_tac. Qed.
Lemma outer_check_connect conn : keeps I (check_connect conn).
Proof. unfold check_connect. keeps_tac. Qed.
Lemma outer_close conn : keeps I (close conn).
Proof. unfold close. keeps_tac. Qed.
#[local] Hint Resolve outer_write_some outer_end_write outer_check_connect outer_close : keeps.
Lemma outer_open conn address : keeps I (open commands conn address).
Proof. unfold open. keeps_tac. Qed.
Lemma outer_resolve conn host port : keeps I (resolve conn host port).
Proof. unfold resolve. keeps_tac. Qed.
Lemma outer_take_resolved : keeps I take_resolved.
Proof. unfold take_resolved. keeps_tac. Qed.
#[local] Hint Resolve outer_open outer_resolve outer_take_resolved : keeps.
Lemma outer_carry_out action : keeps I (carry_out commands fuel action).
Proof. destruct action; cbn [carry_out]; keeps_tac. Qed.
#[local] Hint Resolve outer_carry_out : keeps.
Lemma outer_apply_loop n : keeps I (apply_loop commands fuel n).
Proof. induction n; cbn [apply_loop]; keeps_tac. Qed.
#[local] Hint Resolve outer_apply_loop : keeps.
Lemma outer_apply_actions : keeps I (apply_actions commands fuel).
Proof. apply outer_apply_loop. Qed.
#[local] Hint Resolve outer_apply_actions : keeps.
Lemma outer_carry_out_actions : keeps I (carry_out_actions commands fuel).
Proof. unfold carry_out_actions. keeps_tac. Qed.
Lemma outer_handle_fired f : keeps I (handle_fired fuel f).
Proof. unfold handle_fired. keeps_tac. Qed.
Lemma outer_pull_loop n conn socket : keeps I (pull_loop cpu n conn socket).
Proof. revert socket. induction n; intros socket; cbn [pull_loop]; keeps_tac. Qed.
#[local] Hint Resolve outer_pull_loop : keeps.
Lemma outer_pull_from conn : keeps I (pull_from cpu fuel conn).
Proof. unfold pull_from. keeps_tac. Qed.
#[local] Hint Resolve outer_pull_from : keeps.
Lemma outer_pull_pass : keeps I (pull_pass cpu fuel).
Proof. unfold pull_pass. keeps_tac. Qed.
Lemma outer_call body : keeps I (call commands fuel body).
Proof. pose proof outer_carry_out_actions. unfold call. keeps_tac. Qed.
End Outer.
#[export] Hint Resolve outer_core outer_sys outer_hand outer_extend_posted outer_core_deadline outer_timers_due
  outer_carry_out_actions outer_take_resolved outer_apply_actions outer_handle_fired outer_pull_pass outer_call : keeps.

(** ** What the driver owes *)

Definition oplus (a b : Owing) : Owing :=
  mkOwing (fun conn => ow_connects a conn + ow_connects b conn)%nat (fun conn => ow_writes a conn + ow_writes b conn)%nat
    (fun conn => ow_resolves a conn + ow_resolves b conn)%nat.

(** The answer an input gives. *)
Definition answer_of (input : Input) : Owing := answered_by nothing_owed input.

Fixpoint owed_ready (l : list Ready) : Owing :=
  match l with
  | [] => nothing_owed
  | ready :: l => oplus (answer_of (InReady ready)) (owed_ready l)
  end.

Definition held (f : Socket -> bool) (s : option Socket) : nat := match s with Some s => one_if (f s) | None => 0%nat end.
Definition at_socket (f : Socket -> bool) (sockets : gmap Z Socket) (conn : Z) : nat := held f (sockets !! conn).
Definition has_write (s : Socket) : bool := bool_decide (is_Some (sk_write s)).

Definition owed_sockets (sockets : gmap Z Socket) (resolving : gset Z) : Owing :=
  mkOwing (at_socket sk_connecting sockets) (at_socket has_write sockets)
    (fun conn => one_if (bool_decide (conn ∈ resolving))).

Definition owed (d : Driver) : Owing := oplus (owed_sockets (dr_sockets d) (dr_resolving d)) (owed_ready (dr_ready d)).

Lemma owed_ready_app l k conn :
  ow_connects (owed_ready (l ++ k)) conn = (ow_connects (owed_ready l) conn + ow_connects (owed_ready k) conn)%nat
  /\ ow_writes (owed_ready (l ++ k)) conn = (ow_writes (owed_ready l) conn + ow_writes (owed_ready k) conn)%nat
  /\ ow_resolves (owed_ready (l ++ k)) conn = (ow_resolves (owed_ready l) conn + ow_resolves (owed_ready k) conn)%nat.
Proof.
  induction l as [|ready l IH]; [done|]. cbn [owed_ready app oplus ow_connects ow_writes ow_resolves].
  destruct IH as (-> & -> & ->). lia.
Qed.

(** Posted work in the queue owes as it does in the core. *)
Lemma owed_posted l conn :
  ow_connects (owed_ready (map ReadyPosted l)) conn = count_if (fails conn) l
  /\ ow_writes (owed_ready (map ReadyPosted l)) conn = 0%nat /\ ow_resolves (owed_ready (map ReadyPosted l)) conn = 0%nat.
Proof.
  induction l as [|p l IH]; [done|]. cbn [owed_ready map oplus ow_connects ow_writes ow_resolves count_if].
  destruct IH as (-> & -> & ->).
  destruct p; cbn [answer_of answered_by nothing_owed owes_connect ow_connects ow_writes ow_resolves fails]; unfold one_more;
    try done. rewrite (Z.eqb_sym conn). cbn. lia.
Qed.

(** One socket changed. *)
Lemma at_socket_ne f sockets sockets' conn conn' :
  (forall c, c <> conn -> sockets' !! c = sockets !! c) -> conn' <> conn -> at_socket f sockets' conn' = at_socket f sockets conn'.
Proof. intros H Hne. unfold at_socket. by rewrite H. Qed.

Section Client.
Context {E : Env} {P : Program} {OS : Os} (commands : Z -> Call) (cpu : Cpu) (fuel : nat).

(** The client with [extra] in the driver's hands. *)
Definition owes (extra : Owing) (m : Machine) : Owing := oplus extra (owed (mc_driver m)).
Definition client (extra : Owing) (m : Machine) : Prop :=
  reachable commands (mc_core m) /\ asked_ok (owes extra m) (mc_core m).

Definition client_ok : Machine -> Prop := client nothing_owed.

Lemma client_less extra extra' m m' :
  mc_core m' = mc_core m ->
  (forall conn, (ow_connects (owes extra' m') conn <= ow_connects (owes extra m) conn)%nat
     /\ (ow_resolves (owes extra' m') conn <= ow_resolves (owes extra m) conn)%nat
     /\ ow_writes (owes extra' m') conn = ow_writes (owes extra m) conn) ->
  client extra m -> client extra' m'.
Proof. intros Hc Hle [Hr Ha]. unfold client. rewrite Hc. split; [done|]. by eapply asked_less. Qed.

(** As much owed. *)
Lemma client_same extra extra' m m' :
  mc_core m' = mc_core m ->
  (forall conn, ow_connects (owes extra' m') conn = ow_connects (owes extra m) conn
     /\ ow_resolves (owes extra' m') conn = ow_resolves (owes extra m) conn
     /\ ow_writes (owes extra' m') conn = ow_writes (owes extra m) conn) ->
  client extra m -> client extra' m'.
Proof. intros Hc H. apply client_less; [done|]. intros conn. by destruct (H conn) as (-> & -> & ->). Qed.

(** An input given, its answer out of the driver's hands. *)
Lemma client_hand extra input :
  takes input = false -> dleads (client (oplus (answer_of input) extra)) (client extra) (hand commands input).
Proof.
  intros Ht m a m' Hm [Hr Ha]. unfold hand, on_core in Hm. destruct (run_input commands input (mc_core m)) as [b c] eqn:Hi.
  injection Hm as <- <-. set (o := owes extra m).
  assert (Ha' : asked_ok (answered_by o input) (mc_core m)).
  { eapply asked_less; [|exact Ha]. intros conn. subst o. unfold answer_of.
    destruct input as [[[] | | | | | | |]| | | | | | | |]; cbn; unfold one_more; repeat case_match; split_and!; lia. }
  assert (Hc : c = (run_input commands input (mc_core m)).2) by (by rewrite Hi).
  split; cbn [upd mc_core mc_driver]; rewrite Hc.
  - apply reach_step; [done|]. by eapply answered_input_ok.
  - apply asked_input; [done| |done]. by eapply reachable_conns.
Qed.

(** An input that answers nothing. *)
Lemma keeps_hand input :
  takes input = false -> answer_of input = nothing_owed -> keeps client_ok (hand commands input).
Proof.
  intros Ht Hn. eapply dleads_weaken; [|intros m H; exact H|apply (client_hand nothing_owed input Ht)].
  intros m. apply client_same; [done|]. rewrite Hn. done.
Qed.

(** *** The driver alone changes *)

Lemma client_driver extra f :
  (forall d, dr_sockets (f d) = dr_sockets d /\ dr_resolving (f d) = dr_resolving d /\ dr_ready (f d) = dr_ready d) ->
  keeps (client extra) (mod_driver f).
Proof.
  intros Hf m a m' [= <- <-]. apply client_same; [done|]. intros conn. destruct (Hf (mc_driver m)) as (E1 & E2 & E3).
  unfold owes, owed. cbn [upd mc_driver]. by rewrite E1, E2, E3.
Qed.

Lemma client_rest extra f :
  (forall m, mc_core (f m) = mc_core m /\ mc_driver (f m) = mc_driver m) -> keeps (client extra) (dmodify f).
Proof.
  intros Hf m a m' [= <- <-]. destruct (Hf m) as [E1 E2]. apply client_same; [done|]. unfold owes. by rewrite E2.
Qed.

Lemma client_sys extra A (f : os -> A * os) : keeps (client extra) (sys f).
Proof. apply keeps_sys. intros m s. by apply client_same. Qed.

(** What the queue holds. *)
Lemma client_push extra ready :
  dleads (client (oplus (answer_of (InReady ready)) extra)) (client extra) (push_ready ready).
Proof.
  intros m a m' [= <- <-]. apply client_same; [done|]. intros conn. unfold owes, owed. cbn [upd mc_driver dr_sockets dr_resolving dr_ready].
  destruct (owed_ready_app (dr_ready (mc_driver m)) [ready] conn) as (E1 & E2 & E3).
  cbn [oplus ow_connects ow_writes ow_resolves]. rewrite E1, E2, E3. cbn [owed_ready oplus ow_connects ow_writes ow_resolves nothing_owed]. lia.
Qed.

Lemma keeps_push extra ready :
  answer_of (InReady ready) = nothing_owed -> keeps (client extra) (push_ready ready).
Proof.
  intros Hn. eapply dleads_weaken; [|intros m H; exact H|apply (client_push extra ready)].
  intros m. apply client_same; [done|]. by rewrite Hn.
Qed.

Lemma client_extend_posted extra : keeps (client extra) (extend_posted commands).
Proof.
  intros m a m' Hm [Hr Ha]. unfold extend_posted, dbind, dgets, hand, on_core in Hm. cbn [run_input modify] in Hm.
  injection Hm as <- <-. split; cbn [upd mc_core mc_driver].
  - exact (reach_step commands (mc_core m) InPostedTaken Hr I).
  - eapply asked_less; [|exact (asked_posted_taken _ _ Ha)]. intros conn. unfold owes, owed.
    cbn [upd mc_driver mc_core dr_sockets dr_resolving dr_ready owes_posted oplus ow_connects ow_writes ow_resolves].
    destruct (owed_ready_app (dr_ready (mc_driver m)) (map ReadyPosted (cr_posted (mc_core m))) conn) as (-> & -> & ->).
    destruct (owed_posted (cr_posted (mc_core m)) conn) as (-> & -> & ->). split_and!; lia.
Qed.

(** *** One socket changes *)

(** What is owed once the socket of [conn] alone is another and the queue grew by
    [ready]. *)
Lemma client_socket extra extra' m m' conn old new (ready : list Ready) :
  mc_core m' = mc_core m -> dr_resolving (mc_driver m') = dr_resolving (mc_driver m) ->
  dr_ready (mc_driver m') = dr_ready (mc_driver m) ++ ready ->
  dr_sockets (mc_driver m) !! conn = old -> dr_sockets (mc_driver m') !! conn = new ->
  (forall c, c <> conn -> dr_sockets (mc_driver m') !! c = dr_sockets (mc_driver m) !! c) ->
  (forall conn', (ow_resolves extra' conn' + ow_resolves (owed_ready ready) conn' <= ow_resolves extra conn')%nat) ->
  (forall conn', conn' <> conn -> (ow_connects extra' conn' + ow_connects (owed_ready ready) conn' <= ow_connects extra conn')%nat
     /\ (ow_writes extra' conn' + ow_writes (owed_ready ready) conn' = ow_writes extra conn')%nat) ->
  (ow_connects extra' conn + ow_connects (owed_ready ready) conn + held sk_connecting new
   <= ow_connects extra conn + held sk_connecting old)%nat ->
  (ow_writes extra' conn + ow_writes (owed_ready ready) conn + held has_write new
   = ow_writes extra conn + held has_write old)%nat ->
  client extra m -> client extra' m'.
Proof.
  intros Hc Hr Hq <- <- Hs Hres Hne H1 H2. apply client_less; [done|]. intros conn'. unfold owes, owed. rewrite Hr, Hq.
  cbn [oplus owed_sockets ow_connects ow_writes ow_resolves].
  destruct (owed_ready_app (dr_ready (mc_driver m)) ready conn') as (-> & -> & ->). specialize (Hres conn').
  destruct (decide (conn' = conn)) as [->|Hn]; [unfold at_socket; split_and!; lia|].
  rewrite !(at_socket_ne _ (dr_sockets (mc_driver m)) (dr_sockets (mc_driver m')) conn conn' Hs Hn).
  destruct (Hne conn' Hn). split_and!; lia.
Qed.

(** The same with nothing in hand, and as much owed of its write. *)
Lemma client_socket_eq extra m m' conn old new (ready : list Ready) :
  mc_core m' = mc_core m -> dr_resolving (mc_driver m') = dr_resolving (mc_driver m) ->
  dr_ready (mc_driver m') = dr_ready (mc_driver m) ++ ready ->
  dr_sockets (mc_driver m) !! conn = old -> dr_sockets (mc_driver m') !! conn = new ->
  (forall c, c <> conn -> dr_sockets (mc_driver m') !! c = dr_sockets (mc_driver m) !! c) ->
  (forall conn', ow_resolves (owed_ready ready) conn' = 0%nat /\ (conn' <> conn ->
     ow_connects (owed_ready ready) conn' = 0%nat /\ ow_writes (owed_ready ready) conn' = 0%nat)) ->
  (ow_connects (owed_ready ready) conn + held sk_connecting new <= held sk_connecting old)%nat ->
  (ow_writes (owed_ready ready) conn + held has_write new = held has_write old)%nat ->
  client extra m -> client extra m'.
Proof.
  intros Hc Hr Hq Ho Hn Hs Hz H1 H2. eapply client_socket; try done; [| |lia|lia]; intros conn'; destruct (Hz conn') as [H3 H4];
    [lia|]. intros Hne. destruct (H4 Hne). lia.
Qed.

Lemma client_mod_socket extra conn f :
  (forall s, sk_connecting (f s) = sk_connecting s /\ has_write (f s) = has_write s) -> keeps (client extra) (mod_socket conn f).
Proof.
  intros Hf m a m' [= <- <-].
  eapply (client_socket_eq _ _ _ conn _ (f <$> dr_sockets (mc_driver m) !! conn) []); try done;
    cbn [upd mc_driver dr_sockets dr_ready]; [by rewrite app_nil_r|by rewrite lookup_alter_eq|intros c Hne; by rewrite lookup_alter_ne| |].
  all: destruct (_ !! conn) as [s|]; [|done]; cbn; destruct (Hf s) as [E1 E2]; rewrite ?E1, ?E2; done.
Qed.

(** *** Writes *)

(** A write's loop leaves the driver alone. *)
Lemma write_loop_frame n socket w m ended w' m' :
  write_loop n socket w m = Some ((ended, w'), m') -> mc_core m' = mc_core m /\ mc_driver m' = mc_driver m.
Proof.
  revert w m. induction n as [|n IH]; intros w m; cbn [write_loop]; [done|].
  destruct (_ =? _)%nat; [by intros [= <- <- <-]|]. unfold dbind, sys. destruct (os_write _ _ _) as [result s].
  destruct result as [[|count]| | |]; try (by intros [= <- <- <-]); [|by intros [H1 H2]%IH].
  intros [H1 H2]%IH. done.
Qed.

(** The end of a write joins the queue alone. *)
Lemma write_done_owed conn written failed conn' :
  ow_resolves (owed_ready [ReadyWriteDone conn written failed]) conn' = 0%nat
  /\ ow_connects (owed_ready [ReadyWriteDone conn written failed]) conn' = 0%nat
  /\ ow_writes (owed_ready [ReadyWriteDone conn written failed]) conn' = if conn' =? conn then 1%nat else 0%nat.
Proof. cbn. unfold one_more. split_and!; [done|done|]. destruct (_ =? _); lia. Qed.

Lemma client_write_ended extra m m' conn s s' written failed :
  mc_core m' = mc_core m -> dr_resolving (mc_driver m') = dr_resolving (mc_driver m) ->
  dr_ready (mc_driver m') = dr_ready (mc_driver m) ++ [ReadyWriteDone conn written failed] ->
  dr_sockets (mc_driver m) !! conn = Some s -> has_write s = true ->
  dr_sockets (mc_driver m') = alter (fun _ => s') conn (dr_sockets (mc_driver m)) ->
  sk_connecting s' = sk_connecting s -> has_write s' = false ->
  client extra m -> client extra m'.
Proof.
  intros Hc Hr Hq Hs Hw Hs' Hcon Hw'. eapply (client_socket_eq _ _ _ conn (Some s) (Some s')); [done|done|done|done|..]; rewrite ?Hs'.
  - by rewrite lookup_alter_eq, Hs.
  - intros c Hne. by rewrite lookup_alter_ne.
  - intros conn'. destruct (write_done_owed conn written failed conn') as (E1 & E2 & E3). rewrite E1, E2, E3.
    split; [done|]. intros Hne. by apply Z.eqb_neq in Hne as ->.
  - destruct (write_done_owed conn written failed conn) as (_ & -> & _). cbn. by rewrite Hcon.
  - destruct (write_done_owed conn written failed conn) as (_ & _ & ->). cbn. by rewrite Hw, Hw', Z.eqb_refl.
Qed.

Lemma alter_const (f : Socket -> Socket) conn (sockets : gmap Z Socket) s :
  sockets !! conn = Some s -> alter f conn sockets = alter (fun _ => f s) conn sockets.
Proof.
  intros Hs. apply map_eq. intros c. destruct (decide (c = conn)) as [->|]; [by rewrite !lookup_alter_eq, Hs|by rewrite !lookup_alter_ne].
Qed.

Lemma client_write_some extra conn : keeps (client extra) (write_some fuel conn).
Proof.
  intros m a m' Hm Hc. unfold write_some, dbind, get_socket, dgets in Hm.
  destruct (dr_sockets (mc_driver m) !! conn) as [socket|] eqn:Hs; [|by injection Hm as <- <-].
  destruct (sk_write socket) as [writing|] eqn:Hw; [|by injection Hm as <- <-]. cbn [mod_socket mod_driver dmodify] in Hm.
  destruct (write_loop fuel socket writing _) as [[[ended w'] m1]|] eqn:Hl; [|done].
  apply write_loop_frame in Hl as [Hcore Hdrv]. cbn [upd mc_core mc_driver] in Hcore, Hdrv.
  assert (Hhas : has_write socket = true) by (unfold has_write; rewrite Hw; done).
  destruct ended as [failed|]; cbn in Hm; injection Hm as <- <-.
  - eapply (client_write_ended _ _ _ conn socket (socket <| sk_write := None |>)); [..|exact Hc]; try done;
      cbn [upd mc_core mc_driver dr_resolving dr_ready dr_sockets]; rewrite ?Hdrv; try done.
    cbn [upd dr_sockets]. by erewrite alter_const.
  - eapply (client_socket_eq _ _ _ conn (Some socket) (Some (socket <| sk_writable := false |> <| sk_write := Some w' |>)) []); [..|exact Hc]; try done;
      cbn [upd mc_core mc_driver dr_resolving dr_ready dr_sockets]; rewrite ?Hdrv; cbn [upd dr_resolving dr_ready dr_sockets]; try done.
    + by rewrite app_nil_r.
    + by rewrite !lookup_alter_eq, Hs.
    + intros c Hne. by rewrite !lookup_alter_ne.
    + cbn. by rewrite Hhas.
Qed.

Lemma client_end_write extra conn : keeps (client extra) (end_write conn).
Proof.
  intros m a m' Hm Hc. unfold end_write, dbind, get_socket, dgets in Hm.
  destruct (dr_sockets (mc_driver m) !! conn) as [socket|] eqn:Hs; [|by injection Hm as <- <-].
  destruct (sk_write socket) as [writing|] eqn:Hw; [|by injection Hm as <- <-]. cbn in Hm. injection Hm as <- <-.
  eapply (client_write_ended _ _ _ conn socket (socket <| sk_write := None |>)); [..|exact Hc]; try done.
  - unfold has_write. by rewrite Hw.
  - cbn [upd mc_driver dr_sockets]. by erewrite alter_const.
Qed.

(** After it [conn]'s socket writes nothing. *)
Definition no_write (conn : Z) (m : Machine) : Prop := forall s, dr_sockets (mc_driver m) !! conn = Some s -> has_write s = false.

Lemma end_write_none conn m a m' : end_write conn m = Some (a, m') -> no_write conn m'.
Proof.
  unfold end_write, dbind, get_socket, dgets. destruct (dr_sockets (mc_driver m) !! conn) as [socket|] eqn:Hs.
  2:{ intros [= <- <-] s. by rewrite Hs. }
  destruct (sk_write socket) as [writing|] eqn:Hw.
  - cbn. intros [= <- <-] s. cbn [upd mc_driver dr_sockets]. rewrite lookup_alter_eq, Hs. by intros [= <-].
  - intros [= <- <-] s. rewrite Hs. intros [= <-]. unfold has_write. by rewrite Hw.
Qed.

(** *** Connects *)

Lemma client_check_connect extra conn :
  dleads (fun m => client extra m /\ exists s, dr_sockets (mc_driver m) !! conn = Some s /\ sk_connecting s = true)
    (client extra) (check_connect conn).
Proof.
  intros m a m' Hm (Hc & s & Hs & Hcon). unfold check_connect, dbind, get_socket, dgets in Hm. rewrite Hs in Hm.
  assert (Hpush : forall s1 ok, mc_core s1 = mc_core m -> mc_driver s1 = mc_driver m ->
    (mod_socket conn (fun s => s <| sk_connecting := false |>) +; push_ready (ReadyConnected conn ok)) s1 = Some (a, m') -> client extra m').
  { intros m1 ok E1 E2. cbn. intros [= _ <-].
    eapply (client_socket_eq _ m _ conn (Some s) (Some (s <| sk_connecting := false |>)) [ReadyConnected conn ok]); [..|exact Hc]; try done;
      cbn [upd mc_core mc_driver dr_resolving dr_ready dr_sockets]; rewrite ?E2; try done.
    - by rewrite lookup_alter_eq, Hs.
    - intros c Hne. by rewrite lookup_alter_ne.
    - intros conn'. cbn. split; [done|]. intros Hne. by rewrite one_more_ne.
    - cbn. by rewrite one_more_eq, Hcon. }
  unfold sys in Hm at 1. destruct (os_take_error _ _) as [[|] s1]; cbn [dret] in Hm.
  - apply (Hpush _ false) in Hm; done.
  - unfold sys in Hm at 1. cbn [dbind] in Hm. destruct (os_peer_addr _ _) as [[| |] s2]; cbn [dret] in Hm.
    + apply (Hpush _ true) in Hm; done.
    + injection Hm as _ <-. eapply client_same; [| |exact Hc]; done.
    + apply (Hpush _ false) in Hm; done.
Qed.

(** Closing a socket that writes nothing. *)
Lemma client_close extra conn :
  dleads (fun m => client extra m /\ no_write conn m) (client extra) (close conn).
Proof.
  intros m a m' Hm (Hc & Hw). unfold close, dbind, get_socket, dgets in Hm.
  destruct (dr_sockets (mc_driver m) !! conn) as [socket|] eqn:Hs; [|by injection Hm as <- <-]. cbn in Hm. injection Hm as _ <-.
  eapply (client_socket _ _ _ _ conn (Some socket) None []); [..|exact Hc]; try done;
    cbn [upd mc_core mc_driver dr_resolving dr_ready dr_sockets].
  - by rewrite app_nil_r.
  - by rewrite lookup_delete_eq.
  - intros c Hne. by rewrite lookup_delete_ne.
  - intros conn'. cbn. lia.
  - intros conn' _. cbn. lia.
  - cbn. lia.
  - specialize (Hw socket Hs). cbn. rewrite Hw. cbn. lia.
Qed.

Lemma close_closed conn m a m' : close conn m = Some (a, m') -> dr_sockets (mc_driver m') !! conn = None.
Proof.
  unfold close, dbind, get_socket, dgets. destruct (dr_sockets (mc_driver m) !! conn) as [socket|] eqn:Hs; [|by intros [= <- <-]].
  cbn. intros [= _ <-]. cbn [upd mc_driver dr_sockets]. apply lookup_delete_eq.
Qed.

(** The answers an action asks for. *)
Definition action_owes (a : Action) : Owing := owes_actions [a] nothing_owed.

(** A connection a socket is asked for writes nothing. *)
Lemma opening_no_write extra conn m :
  client (oplus (owes_connect conn nothing_owed) extra) m -> no_write conn m.
Proof.
  intros [Hr [Hc _ Hg _]] socket Hsk. destruct (cr_conns (mc_core m) !! conn) as [s|] eqn:Hs.
  2:{ specialize (Hg conn Hs). unfold writes_due, owes, owed in Hg. cbn in Hg. unfold at_socket in Hg. rewrite Hsk in Hg. cbn in Hg.
      destruct (has_write socket); [cbn in Hg; lia|done]. }
  destruct (Hc conn s Hs) as [G1 G2 _ _].
  unfold connects_due, writes_due, owes, owed in G1, G2. cbn in G1, G2. rewrite one_more_eq in G1.
  destruct (cn_connecting s) eqn:Hcon; [|lia].
  destruct (co_fresh _ _ _ (reachable_conns _ _ Hr conn s Hs) (or_introl Hcon)) as [_ _ _ Hfl _ _]. rewrite Hfl in G2.
  unfold at_socket in G2. rewrite Hsk in G2. cbn in G2. destruct (has_write socket); [cbn in G2; lia|done].
Qed.

(** So does one that connects. *)
Lemma connecting_no_write extra conn socket m :
  client extra m -> dr_sockets (mc_driver m) !! conn = Some socket -> sk_connecting socket = true -> has_write socket = false.
Proof.
  intros Hc Hs Hcon.
  assert (H : client (oplus (owes_connect conn nothing_owed) extra)
    (m <| mc_driver ::= fun d => d <| dr_sockets ::= alter (fun s => s <| sk_connecting := false |>) conn |> |>)).
  { eapply (client_socket _ _ m _ conn (Some socket) (Some (socket <| sk_connecting := false |>)) []); [..|exact Hc]; try done;
      cbn [upd mc_core mc_driver dr_resolving dr_ready dr_sockets].
    - by rewrite app_nil_r.
    - by rewrite lookup_alter_eq, Hs.
    - intros c Hne. by rewrite lookup_alter_ne.
    - intros conn'. cbn. lia.
    - intros conn' Hne. cbn. rewrite one_more_ne by done. lia.
    - cbn. rewrite one_more_eq, Hcon. cbn. lia.
    - cbn. unfold has_write. cbn. lia. }
  change (has_write (socket <| sk_connecting := false |>) = false).
  apply (opening_no_write extra conn _ H (socket <| sk_connecting := false |>)). cbn [upd mc_driver dr_sockets].
  by rewrite lookup_alter_eq, Hs.
Qed.

Lemma client_opened extra conn token fd m :
  dr_sockets (mc_driver m) !! conn = None -> client (oplus (owes_connect conn nothing_owed) extra) m ->
  client extra (m <| mc_driver ::= fun d => d <| dr_by_token ::= <[token := conn]> |> <| dr_turns ::= fun l => l ++ [conn] |>
                                              <| dr_sockets ::= <[conn := Socket_new token fd]> |> |>).
Proof.
  intros Hs. eapply (client_socket _ _ _ _ conn None (Some (Socket_new token fd)) []); try done;
    cbn [upd mc_core mc_driver dr_resolving dr_ready dr_sockets].
  - by rewrite app_nil_r.
  - by rewrite lookup_insert_eq.
  - intros c Hne. by rewrite lookup_insert_ne.
  - intros conn'. cbn. lia.
  - intros conn' Hne. cbn. rewrite one_more_ne by done. lia.
  - cbn. rewrite one_more_eq. lia.
Qed.

Lemma client_open extra conn address :
  dleads (client (oplus (owes_connect conn nothing_owed) extra)) (client extra) (open commands conn address).
Proof.
  set (due := oplus (owes_connect conn nothing_owed) extra). unfold open.
  eapply (dleads_bind _ (fun m => client due m /\ dr_sockets (mc_driver m) !! conn = None)).
  { intros m u m1 Hcl Hc. split; [|by eapply close_closed]. eapply client_close; [exact Hcl|]. split; [done|]. by eapply opening_no_write. }
  intros _. eapply (dleads_bind _ (fun m => client due m /\ dr_sockets (mc_driver m) !! conn = None)).
  { apply keeps_sys. intros m s [Hc Hn]. split; [|done]. revert Hc. by apply client_same. }
  assert (Hfail : forall why, dleads (fun m => client due m /\ dr_sockets (mc_driver m) !! conn = None) (client extra)
    (hand commands (InOpenFailed conn why))).
  { intros why m u m1 Hh [Hc _]. exact (client_hand extra (InOpenFailed conn why) eq_refl m u m1 Hh Hc). }
  intros [fd|why]; [|apply Hfail]. apply dleads_gets. intros token.
  eapply (dleads_bind _ (fun m => client due m /\ dr_sockets (mc_driver m) !! conn = None)).
  { intros m u m1 [= _ <-] [[Hc Hn] _]. split; [|done]. revert Hc. by apply client_same. }
  intros _. eapply (dleads_bind _ (fun m => client due m /\ dr_sockets (mc_driver m) !! conn = None)).
  { apply keeps_sys. intros m s [Hc Hn]. split; [|done]. revert Hc. by apply client_same. }
  intros [why|].
  - eapply dleads_bind; [apply Hfail|]. intros _. by apply client_rest.
  - eapply (dleads_bind _ (fun m => client due m /\ dr_sockets (mc_driver m) !! conn = None)).
    { intros m u m1 [= _ <-] [Hc Hn]. split; [|done]. revert Hc. by apply client_same. }
    intros _ m u m1 [= _ <-] [Hc Hn]. by apply client_opened.
Qed.

(** *** Names *)

Lemma client_resolve extra conn host port :
  dleads (client (oplus (owes_resolve conn nothing_owed) extra)) (client extra) (resolve conn host port).
Proof.
  unfold resolve. set (due := client (oplus (owes_resolve conn nothing_owed) extra)).
  apply (dleads_bind _ due); [apply keeps_gets|intros resolver].
  apply (dleads_bind _ due); [destruct resolver; [apply keeps_ret|apply client_sys]|intros started].
  destruct (negb started); [apply client_push|].
  apply (dleads_bind _ due); [by apply client_driver|intros _]. apply (dleads_bind _ due); [apply client_sys|intros [|]].
  - intros m u m1 [= _ <-] Hc. eapply client_less; [| |exact Hc]; [done|]. intros conn'. unfold owes, owed.
    cbn. unfold one_more. destruct (Z.eqb_spec conn' conn) as [->|Hne]; [split_and!; [lia| |lia]; unfold one_if; case_match; lia|].
    split_and!; [lia| |lia]. rewrite (bool_decide_ext (conn' ∈ {[conn]} ∪ _) (conn' ∈ dr_resolving (mc_driver m))) by set_solver. lia.
  - intros m u m1 [= _ <-] Hc. eapply client_less; [| |exact Hc]; [done|]. intros conn'. unfold owes, owed. cbn. unfold one_more.
    split_and!; lia.
Qed.

Lemma client_take_resolved extra : keeps (client extra) take_resolved.
Proof.
  unfold take_resolved. apply (dleads_bind _ (client extra)); [apply keeps_gets|intros [|]; [|apply keeps_ret]].
  apply (dleads_bind _ (client extra)); [apply client_sys|intros answers]. apply keeps_for_each. intros [conn candidates].
  apply dleads_gets. intros waited. destruct waited; [|intros m u m1 [= _ <-] [Hc _]; exact Hc]. cbn [dwhen].
  eapply dleads_bind; [|intros _; apply (client_push extra (ReadyResolved conn candidates))].
  intros m u m1 [= _ <-] [Hc Hin%bool_decide_eq_true]. eapply client_less; [| |exact Hc]; [done|]. intros conn'. unfold owes, owed. cbn.
  unfold one_more. destruct (Z.eqb_spec conn' conn) as [->|Hne].
  - rewrite (bool_decide_eq_true_2 (conn ∈ dr_resolving (mc_driver m))) by done.
    rewrite (bool_decide_eq_false_2 (conn ∈ _ ∖ _)) by set_solver. cbn. split_and!; lia.
  - rewrite (bool_decide_ext (conn' ∈ _ ∖ {[conn]}) (conn' ∈ dr_resolving (mc_driver m))) by set_solver. split_and!; lia.
Qed.

(** *** Actions *)

(** The write asked for replaces none. *)
Lemma writing_no_write extra conn m :
  client (oplus (owes_write conn nothing_owed) extra) m -> no_write conn m.
Proof.
  intros [Hr [Hc _ Hg _]] socket Hsk. destruct (cr_conns (mc_core m) !! conn) as [s|] eqn:Hs.
  2:{ specialize (Hg conn Hs). unfold writes_due, owes, owed in Hg. cbn in Hg. rewrite one_more_eq in Hg. lia. }
  destruct (Hc conn s Hs) as [_ G2 _ _]. unfold writes_due, owes, owed in G2. cbn in G2.
  rewrite one_more_eq in G2. unfold at_socket in G2. rewrite Hsk in G2. cbn in G2.
  destruct (has_write socket); [cbn in G2; destruct (cn_write_in_flight s); lia|done].
Qed.

Lemma client_write extra conn socket writing m :
  dr_sockets (mc_driver m) !! conn = Some socket -> client (oplus (owes_write conn nothing_owed) extra) m ->
  client extra (m <| mc_driver ::= fun d => d <| dr_sockets ::= alter (fun s => s <| sk_write := Some writing |> <| sk_writable := true |>) conn |> |>).
Proof.
  intros Hs Hc. pose proof (writing_no_write extra conn m Hc) as Hw. revert Hc.
  eapply (client_socket _ _ _ _ conn (Some socket) (Some (socket <| sk_write := Some writing |> <| sk_writable := true |>)) []); try done;
    cbn [upd mc_core mc_driver dr_resolving dr_ready dr_sockets].
  - by rewrite app_nil_r.
  - by rewrite lookup_alter_eq, Hs.
  - intros c Hne. by rewrite lookup_alter_ne.
  - intros conn'. cbn. lia.
  - intros conn' Hne. cbn. rewrite one_more_ne by done. lia.
  - cbn. lia.
  - specialize (Hw socket Hs). cbn. rewrite one_more_eq, Hw. cbn. lia.
Qed.

(** What is in hand may be written another way. *)
Lemma dleads_hand extra extra' (Q : Machine -> Prop) A (p : DM A) :
  (forall conn, ow_connects extra conn = ow_connects extra' conn /\ ow_resolves extra conn = ow_resolves extra' conn
                /\ ow_writes extra conn = ow_writes extra' conn) ->
  dleads (client extra') Q p -> dleads (client extra) Q p.
Proof.
  intros H Hp m a m' Hm Hc. eapply Hp; [exact Hm|]. revert Hc. apply client_same; [done|]. intros conn.
  destruct (H conn) as (E1 & E2 & E3). unfold owes. cbn. by rewrite E1, E2, E3.
Qed.

Lemma client_get_socket extra conn (Q : Machine -> Prop) A (k : option Socket -> DM A) :
  (forall socket, dleads (fun m => client extra m /\ dr_sockets (mc_driver m) !! conn = socket) Q (k socket)) ->
  dleads (client extra) Q (dbind (get_socket conn) k).
Proof. apply dleads_gets. Qed.

Lemma dleads_and_l (I J Q : Machine -> Prop) A (p : DM A) : dleads I Q p -> dleads (fun m => I m /\ J m) Q p.
Proof. intros H. eapply dleads_weaken; [|intros m Hm; exact Hm|exact H]. by intros m []. Qed.

#[local] Hint Resolve client_sys client_write_some client_end_write client_take_resolved client_extend_posted : keeps.
#[local] Hint Extern 2 (dleads (client _) _ (mod_driver _)) => (apply client_driver; intros ?; by split_and!) : keeps.
#[local] Hint Extern 2 (dleads (client _) _ (dmodify _)) => (apply client_rest; by intros ?) : keeps.
#[local] Hint Extern 2 (dleads (client _) _ (mod_socket _ _)) => (apply client_mod_socket; by intros ?) : keeps.
#[local] Hint Extern 2 (dleads (client _) _ (get_socket _)) => apply keeps_gets : keeps.

Lemma client_cancel_connect extra conn : keeps (client extra) (carry_out commands fuel (ActCancelConnect conn)).
Proof.
  cbn [carry_out]. apply client_get_socket. intros [socket|]; [|apply dleads_and_l, keeps_ret].
  destruct (sk_connecting socket) eqn:Hcon; cbn [dwhen]; [|apply dleads_and_l, keeps_ret].
  eapply dleads_bind; [|intros _; apply (client_push extra (ReadyConnected conn false))].
  intros m u m1 Hcl (Hc & Hs). unfold close, dbind, get_socket, dgets in Hcl. rewrite Hs in Hcl. cbn in Hcl. injection Hcl as _ <-.
  assert (Hw : has_write socket = false) by (by eapply connecting_no_write).
  eapply (client_socket _ _ m _ conn (Some socket) None []); [..|exact Hc]; try done;
    cbn [upd mc_core mc_driver dr_resolving dr_ready dr_sockets].
  - by rewrite app_nil_r.
  - by rewrite lookup_delete_eq.
  - intros c Hne. by rewrite lookup_delete_ne.
  - intros conn'. cbn. lia.
  - intros conn' Hne. cbn. rewrite one_more_ne by done. lia.
  - cbn. rewrite one_more_eq, Hcon. cbn. lia.
  - cbn. rewrite Hw. cbn. lia.
Qed.

Lemma client_carry_out extra a : dleads (client (oplus (action_owes a) extra)) (client extra) (carry_out commands fuel a).
Proof.
  destruct a as [conn host port|conn address|conn|conn|conn head bytes|conn|conn|conn|].
  - eapply dleads_hand; [|apply (client_resolve extra)]. intros conn'. cbn. unfold one_more. rewrite (Z.eqb_sym conn). split_and!; lia.
  - eapply dleads_hand; [|apply (client_open extra)]. intros conn'. cbn. unfold one_more. rewrite (Z.eqb_sym conn). split_and!; lia.
  - eapply dleads_hand; [|apply client_cancel_connect]. done.
  - eapply (dleads_hand _ extra); [done|]. cbn [carry_out]. keeps_tac.
  - eapply (dleads_hand _ (oplus (owes_write conn nothing_owed) extra)).
    { intros conn'. cbn. unfold one_more. rewrite (Z.eqb_sym conn). split_and!; lia. }
    cbn [carry_out]. apply client_get_socket. intros [socket|].
    2:{ eapply dleads_weaken; [intros m [Hc _]; exact Hc|intros m Hm; exact Hm|apply (client_push extra (ReadyWriteDone conn 0 true))]. }
    eapply (dleads_bind _ (fun m => client (oplus (owes_write conn nothing_owed) extra) m /\ dr_sockets (mc_driver m) !! conn = Some socket)).
    { intros m u m1 [= _ <-] [Hc Hs]. split; [|done]. revert Hc. by apply client_same. }
    intros _. eapply dleads_bind; [|intros _; apply client_write_some]. intros m u m1 [= _ <-] [Hc Hs]. by eapply client_write.
  - eapply (dleads_hand _ extra); [done|]. cbn [carry_out]. keeps_tac.
  - eapply (dleads_hand _ extra); [done|]. cbn [carry_out]. keeps_tac.
  - eapply (dleads_hand _ extra); [done|]. cbn [carry_out].
    apply (dleads_bind _ (fun m => client extra m /\ no_write conn m)); [|intros _; eapply dleads_weaken; [|intros m Hm; exact Hm|apply (client_close extra)]].
    + intros m u m1 Hm Hc. split; [by eapply client_end_write|by eapply end_write_none].
    + done.
  - eapply (dleads_hand _ extra); [done|]. intros m u m1 [= _ <-] Hc. eapply client_less; [| |exact Hc]; [done|]. intros conn'.
    unfold owes, owed. cbn. rewrite bool_decide_eq_false_2 by set_solver. cbn. split_and!; lia.
Qed.

(** The actions taken are in the driver's hands. *)
Lemma client_take_actions actions :
  dleads (fun m => client_ok m /\ cr_actions (mc_core m) = actions) (client (owes_actions actions nothing_owed)) (hand commands InActionsTaken).
Proof.
  intros m u m1 Hm [[Hr Ha] <-]. unfold hand, on_core in Hm. cbn [run_input modify] in Hm. injection Hm as _ <-.
  split; cbn [upd mc_core]; [exact (reach_step commands (mc_core m) InActionsTaken Hr I)|].
  eapply asked_less; [|exact (asked_actions_taken _ _ Ha)]. intros conn. unfold owes. cbn. split_and!; lia.
Qed.

Lemma client_next_action action l m :
  client (owes_actions (action :: l) nothing_owed) m -> client (oplus (action_owes action) (owes_actions l nothing_owed)) m.
Proof. apply client_same; [done|]. intros conn. unfold owes. cbn. split_and!; lia. Qed.

Lemma client_apply n : keeps client_ok (apply_loop commands fuel n).
Proof.
  induction n as [|n IH]; cbn [apply_loop]; [apply keeps_fuel|]. apply dleads_gets. intros [|a l].
  { intros m u m1 [= _ <-] [Hc _]. exact Hc. }
  remember (a :: l) as actions eqn:Hl. clear Hl.
  eapply dleads_bind; [apply client_take_actions|intros _]. apply (dleads_bind _ client_ok); [|intros _; apply IH].
  apply (dleads_for_each _ actions (fun l => client (owes_actions l nothing_owed))). intros action l'.
  eapply dleads_weaken; [intros m; apply client_next_action|intros m Hm; exact Hm|apply client_carry_out].
Qed.

Lemma client_apply_actions : keeps client_ok (apply_actions commands fuel).
Proof. apply client_apply. Qed.
#[local] Hint Resolve client_apply_actions : keeps.
#[local] Hint Extern 2 (dleads client_ok _ (sys _)) => apply client_sys : keeps.
#[local] Hint Extern 2 (dleads client_ok _ (write_some _ _)) => apply client_write_some : keeps.
#[local] Hint Extern 2 (dleads client_ok _ (take_resolved)) => apply client_take_resolved : keeps.
#[local] Hint Extern 2 (dleads client_ok _ (extend_posted _)) => apply client_extend_posted : keeps.
#[local] Hint Extern 2 (dleads client_ok _ (mod_driver _)) => (apply client_driver; intros ?; by split_and!) : keeps.
#[local] Hint Extern 2 (dleads client_ok _ (mod_socket _ _)) => (apply client_mod_socket; by intros ?) : keeps.
#[local] Hint Extern 2 (dleads client_ok _ (get_socket _)) => apply keeps_gets : keeps.
#[local] Hint Extern 2 (dleads client_ok _ (push_ready _)) => (apply keeps_push; reflexivity) : keeps.
#[local] Hint Extern 2 (dleads client_ok _ (hand _ _)) => (apply keeps_hand; reflexivity) : keeps.

Lemma client_carry_out_actions : keeps client_ok (carry_out_actions commands fuel).
Proof. unfold carry_out_actions. keeps_tac. Qed.

(** *** Readiness *)

Lemma client_handle_fired f : keeps client_ok (handle_fired fuel f).
Proof.
  destruct f as [[token readable] writable]. unfold handle_fired. destruct (token =? WAKER); [keeps_tac|].
  keeps_step; [keeps_tac|]. case_match; [|keeps_tac]. rename z into conn. apply client_get_socket. intros [socket|]; [|apply dleads_and_l, keeps_ret].
  apply (dleads_bind _ (fun m => client_ok m /\ exists s, dr_sockets (mc_driver m) !! conn = Some s /\ sk_connecting s = sk_connecting socket)).
  { intros m u m1 Hm [Hc Hs]. split; [by eapply (client_mod_socket nothing_owed conn); [|exact Hm|exact Hc]|].
    injection Hm as _ <-. cbn [upd mc_driver dr_sockets]. rewrite lookup_alter_eq, Hs. eexists. done. }
  intros _. apply (dleads_bind _ client_ok); [|intros _; keeps_tac]. destruct (sk_connecting socket) eqn:Hcon; cbn [andb].
  - destruct (writable || readable); cbn [dwhen]; [apply client_check_connect|apply dleads_and_l, keeps_ret].
  - apply dleads_and_l, keeps_ret.
Qed.
#[local] Hint Resolve client_handle_fired : keeps.

Lemma client_wait timeout : keeps client_ok (wait fuel timeout).
Proof. unfold wait. keeps_tac. Qed.
#[local] Hint Resolve client_wait : keeps.

(** *** The inbox *)

Lemma client_others : keeps client_ok others.
Proof. unfold others. keeps_tac. Qed.
#[local] Hint Resolve client_others : keeps.

(** What other threads hand over answers nothing. *)
Definition from_others (p : Posted) : Prop := match p with PostCommand _ | PostPlain _ _ => True | _ => False end.
Definition inbox_ok (m : Machine) : Prop :=
  forall i, dr_inbox (mc_driver m) = Some i -> Forall from_others (is_posted (ib_state i)).

Lemma hand_over_ok handed i : Forall from_others (is_posted (ib_state i)) -> Forall from_others (is_posted (ib_state (foldl hand_over i handed))).
Proof.
  revert i. induction handed as [|h handed IH]; intros i Hi; [done|]. cbn [foldl]. apply IH.
  assert (Hq : forall p, from_others p -> Forall from_others (is_posted (ib_state (queue_posted p i)))).
  { intros p Hp. apply Forall_app. split; [done|by constructor]. }
  destruct h as [command|plain deadline|confirmation]; cbn [hand_over]; [by apply Hq| |done].
  specialize (Hq (PostPlain plain deadline) I). unfold queue_plain. by destruct (Bodies_take (is_returned (ib_state (queue_posted _ i)))).
Qed.

Lemma others_owe_nothing posted conn :
  Forall from_others posted ->
  ow_connects (owed_ready (map ReadyPosted posted)) conn = 0%nat.
Proof.
  intros Hf. destruct (owed_posted posted conn) as (-> & _ & _). apply count_if_zero. intros p Hp.
  rewrite Forall_forall in Hf. specialize (Hf p Hp). by destruct p.
Qed.

#[export] Instance inbox_outer : Outer inbox_ok.
Proof. intros m m' Hi _ _ H i. rewrite Hi. apply H. Qed.

(** The whole of it. *)
Definition engine_ok (m : Machine) : Prop := client_ok m /\ inbox_ok m.

Lemma keeps_engine A (p : DM A) : keeps client_ok p -> keeps inbox_ok p -> keeps engine_ok p.
Proof. intros Hc Hi m a m' Hm [H1 H2]. split; [by eapply Hc|by eapply Hi]. Qed.

#[local] Hint Extern 1 (Outer _) => exact _ : keeps.

Lemma inbox_others : keeps inbox_ok others.
Proof.
  unfold others. keeps_step; [eauto with keeps|]. intros m u m1 [= _ <-] Hi i. cbn [upd mc_driver dr_inbox].
  intros (i0 & Hi0 & ->)%fmap_Some. by apply hand_over_ok, Hi.
Qed.

Lemma inbox_mod f :
  (forall d i, dr_inbox (f d) = Some i -> exists i0, dr_inbox d = Some i0 /\ is_posted (ib_state i) = is_posted (ib_state i0)) ->
  keeps inbox_ok (mod_driver f).
Proof. intros Hf m u m1 [= _ <-] Hi i H. cbn [upd mc_driver] in H. destruct (Hf _ _ H) as (i0 & H0 & ->). by apply Hi. Qed.

Lemma inbox_driver f : (forall d, dr_inbox (f d) = dr_inbox d) -> keeps inbox_ok (mod_driver f).
Proof. intros Hf. apply inbox_mod. intros d i. rewrite Hf. eauto. Qed.

Lemma inbox_wait timeout : keeps inbox_ok (wait fuel timeout).
Proof. unfold wait. keeps_step; [by apply inbox_driver|]. keeps_tac. Qed.

Lemma inbox_sleep timeout : keeps inbox_ok (sleep fuel timeout).
Proof.
  unfold sleep. keeps_step; [apply inbox_others|]. apply dleads_gets. intros [i|].
  2:{ eapply dleads_weaken; [intros m [H _]; exact H|intros m H; exact H|apply inbox_wait]. }
  unfold fall_asleep. destruct (ib_pending _); cbn [negb].
  - apply (dleads_bind _ inbox_ok); [|intros _; apply keeps_ret]. intros m u m1 [= _ <-] [Hi Hd] i'. cbn [upd mc_driver dr_inbox].
    intros [= <-]. by apply (Hi i).
  - apply (dleads_bind _ inbox_ok).
    + intros m u m1 [= _ <-] [Hi Hd] i'. cbn [upd mc_driver dr_inbox]. intros [= <-]. by apply (Hi i).
    + intros _. keeps_step; [apply inbox_wait|]. apply inbox_mod. intros d i'. cbn [upd dr_inbox].
      intros (i0 & -> & ->)%fmap_Some. by exists i0.
Qed.

Lemma client_sleep timeout : keeps client_ok (sleep fuel timeout).
Proof. unfold sleep. keeps_tac. Qed.

(** Taking what the other threads handed over, commands and plain sends alone. *)
Lemma engine_take_inbox : keeps engine_ok (take_inbox commands).
Proof.
  unfold take_inbox. keeps_step; [apply keeps_engine; [apply client_others|apply inbox_others]|].
  apply dleads_gets. intros [i|]; [|apply dleads_and_l, keeps_ret]. apply dleads_gets. intros spent.
  destruct (Inbox_take spent i) as [[taken confirmations] i'] eqn:Ht.
  apply (dleads_bind _ (fun m => engine_ok m /\ Forall from_others taken /\ Forall from_others (is_posted (ib_state i')))).
  { assert (Hf : Forall from_others (is_posted (ib_state i)) -> Forall from_others taken /\ Forall from_others (is_posted (ib_state i'))).
    { unfold Inbox_take in Ht. destruct (take_looks spent i); cbn in Ht; injection Ht as <- <- <-; [|by split].
      intros H. split; [done|constructor]. }
    intros m u m1 Hm [[[Hc Hi] Hd] _]. split; [|by apply Hf, Hi].
    eapply (keeps_engine _ (dwhen (take_looks spent i) (hand commands InSpent))); [| |exact Hm|by split]; keeps_tac. }
  intros _. apply (dleads_bind _ engine_ok).
  - intros m u m1 [= _ <-] [[Hc _] [Hf Hf']]. split; [|intros i0; cbn [upd mc_driver dr_inbox]; by intros [= <-]].
    revert Hc. apply client_same; [done|]. intros conn. unfold owes, owed. cbn [upd mc_driver dr_sockets dr_resolving dr_ready].
    cbn [oplus ow_connects ow_writes ow_resolves].
    destruct (owed_ready_app (dr_ready (mc_driver m)) (map ReadyPosted taken) conn) as (-> & -> & ->).
    rewrite (others_owe_nothing taken conn Hf). destruct (owed_posted taken conn) as (_ & -> & ->). lia.
  - intros _. apply keeps_engine; keeps_tac.
Qed.

(** *** Reads *)

Lemma pull_loop_frame n conn socket m pulled socket' m' :
  pull_loop cpu n conn socket m = Some ((pulled, socket'), m') ->
  mc_core m' = mc_core m /\ mc_driver m' = mc_driver m /\ mc_wire m' = mc_wire m /\ sk_connecting socket' = sk_connecting socket
  /\ sk_write socket' = sk_write socket /\ sk_token socket' = sk_token socket /\ sk_writable socket' = sk_writable socket
  /\ match pulled with Some ready => answer_of (InReady ready) = nothing_owed | None => True end.
Proof.
  revert socket m. induction n as [|n IH]; intros socket m; cbn [pull_loop]; [done|].
  destruct (next_frame cpu (sk_reader socket)) as [reader next]. destruct next; try (by intros [= <- <- <-]).
  cbn [upd sk_readable]. destruct (negb _); [by intros [= <- <- <-]|]. unfold dbind, sys. destruct (os_read _ _ _) as [result s].
  destruct result as [[|byte data]| | |]; try (by intros [= <- <- <-]); intros H; by apply IH in H.
Qed.

Lemma client_pull_from conn :
  dgives client_ok (pull_from cpu fuel conn)
    (fun pulled m => client_ok m /\ match pulled with Some ready => answer_of (InReady ready) = nothing_owed | None => True end).
Proof.
  intros m a m' Hm Hc. unfold pull_from, dbind, get_socket, dgets in Hm.
  destruct (dr_sockets (mc_driver m) !! conn) as [socket|] eqn:Hs; [|by injection Hm as <- <-].
  destruct (_ || _); [by injection Hm as <- <-|].
  destruct (pull_loop cpu fuel conn socket m) as [[[pulled socket'] m1]|] eqn:Hl; [|done].
  apply pull_loop_frame in Hl as (Hcore & Hdrv & _ & Hcon & Hwr & _ & _ & Hans). cbn in Hm. injection Hm as <- <-. split; [|done].
  eapply (client_socket_eq _ m _ conn (Some socket) (Some socket') []); [..|exact Hc]; try done;
    cbn [upd mc_core mc_driver dr_resolving dr_ready dr_sockets]; rewrite ?Hdrv; try done.
  - by rewrite app_nil_r.
  - by rewrite lookup_alter_eq, Hs.
  - intros c Hne. by rewrite lookup_alter_ne.
  - cbn. by rewrite Hcon.
  - cbn. unfold has_write. by rewrite Hwr.
Qed.

Lemma client_pull_pass : keeps client_ok (pull_pass cpu fuel).
Proof.
  unfold pull_pass. keeps_step; [keeps_tac|]. keeps_step; [|keeps_tac]. apply keeps_for_each. intros conn.
  apply dleads_gives. eapply dgives_bind; [apply client_pull_from|]. intros [ready|].
  - intros m u m1 Hm [Hc Hn]. eapply keeps_push; [exact Hn|exact Hm|exact Hc].
  - intros m u m1 [= _ <-] [Hc _]. exact Hc.
Qed.

(** *** The loop *)

Lemma engine_sys A (f : os -> A * os) : keeps engine_ok (sys f).
Proof. apply keeps_engine; [apply client_sys|apply outer_sys; exact _]. Qed.
Lemma engine_extend_posted : keeps engine_ok (extend_posted commands).
Proof. apply keeps_engine; [apply client_extend_posted|apply outer_extend_posted; exact _]. Qed.
#[local] Hint Resolve engine_sys engine_extend_posted : keeps.
#[local] Hint Extern 2 (dleads engine_ok _ (hand _ _)) =>
  (apply keeps_engine; [apply keeps_hand; reflexivity|apply outer_hand; exact _]) : keeps.
#[local] Hint Extern 2 (dleads engine_ok _ (mod_driver _)) =>
  (apply keeps_engine; [apply client_driver; intros ?; by split_and!|by apply inbox_driver]) : keeps.
#[local] Hint Extern 2 (dleads engine_ok _ (push_ready _)) =>
  (apply keeps_engine; [apply keeps_push; reflexivity|by apply inbox_driver]) : keeps.
#[local] Hint Extern 2 (dleads engine_ok _ (apply_actions _ _)) =>
  (apply keeps_engine; [apply client_apply_actions|apply outer_apply_actions; exact _]) : keeps.
#[local] Hint Resolve engine_take_inbox : keeps.

Lemma engine_wait timeout : keeps engine_ok (wait fuel timeout).
Proof. apply keeps_engine; [apply client_wait|apply inbox_wait]. Qed.
Lemma engine_sleep timeout : keeps engine_ok (sleep fuel timeout).
Proof. apply keeps_engine; [apply client_sleep|apply inbox_sleep]. Qed.
Lemma engine_take_resolved : keeps engine_ok take_resolved.
Proof. apply keeps_engine; [apply client_take_resolved|apply outer_take_resolved; exact _]. Qed.
Lemma engine_pull_pass : keeps engine_ok (pull_pass cpu fuel).
Proof. apply keeps_engine; [apply client_pull_pass|apply outer_pull_pass; exact _]. Qed.
Lemma engine_carry_out_actions : keeps engine_ok (carry_out_actions commands fuel).
Proof. apply keeps_engine; [apply client_carry_out_actions|apply outer_carry_out_actions; exact _]. Qed.
#[local] Hint Resolve engine_wait engine_sleep engine_take_resolved engine_pull_pass engine_carry_out_actions : keeps.
Lemma engine_core_deadline : keeps engine_ok (core_deadline commands).
Proof. unfold core_deadline. keeps_tac. Qed.
#[local] Hint Resolve engine_core_deadline : keeps.
Lemma engine_timers_due : keeps engine_ok (timers_due commands).
Proof. unfold timers_due. keeps_tac. Qed.
#[local] Hint Resolve engine_timers_due : keeps.
Lemma engine_pass : keeps engine_ok (pass commands cpu fuel).
Proof. unfold pass. keeps_tac. Qed.
#[local] Hint Resolve engine_pass : keeps.

(** The entry at the queue's front in the driver's hands. *)
Definition in_hand (ready : Ready) (m : Machine) : Prop := client (answer_of (InReady ready)) m /\ inbox_ok m.

Lemma engine_pop ready rest g :
  (forall d, dr_ready d = ready :: rest -> dr_sockets (g d) = dr_sockets d /\ dr_resolving (g d) = dr_resolving d
             /\ dr_ready (g d) = rest /\ dr_inbox (g d) = dr_inbox d) ->
  dleads (fun m => engine_ok m /\ dr_ready (mc_driver m) = ready :: rest) (in_hand ready) (mod_driver g).
Proof.
  intros Hg m u m1 [= _ <-] [[Hc Hi] Hd]. destruct (Hg (mc_driver m) Hd) as (E1 & E2 & E3 & E4).
  split; [|intros i; cbn [upd mc_driver]; rewrite E4; apply Hi]. revert Hc. apply client_same; [done|]. intros conn.
  unfold owes, owed. cbn [upd mc_driver]. rewrite E1, E2, E3, Hd. cbn. lia.
Qed.

Lemma engine_hand_ready ready : dleads (in_hand ready) engine_ok (hand commands (InReady ready)).
Proof.
  intros m u m1 Hm [Hc Hi]. split; [|by eapply outer_hand; [exact _|exact Hm|]].
  eapply (client_hand nothing_owed (InReady ready) eq_refl); [exact Hm|]. revert Hc. apply client_same; [done|].
  intros conn. unfold owes. cbn. lia.
Qed.

(** One that answers nothing. *)
Lemma in_hand_none ready m : answer_of (InReady ready) = nothing_owed -> in_hand ready m -> engine_ok m.
Proof. intros Hn [Hc Hi]. split; [|done]. unfold client_ok. by rewrite <- Hn. Qed.

Lemma engine_run_plains n : keeps engine_ok (run_plains commands n).
Proof.
  induction n as [|n IH]; cbn [run_plains]; [apply keeps_fuel|]. apply dleads_gets. intros d.
  destruct (_ <=? _)%nat; [apply dleads_and_l, keeps_ret|]. destruct (dr_ready d) as [|[posted| | | | | | |] rest] eqn:Hd;
    try (apply dleads_and_l, keeps_ret). destruct posted; try (apply dleads_and_l, keeps_ret).
  eapply (dleads_bind _ (in_hand (ReadyPosted (PostPlain plain deadline)))).
  - eapply dleads_weaken; [|intros m H; exact H|eapply (engine_pop _ rest)]; [|done]. intros m [He <-]. by split.
  - intros _. apply (dleads_bind _ engine_ok); [apply engine_hand_ready|intros _; apply IH].
Qed.

Lemma engine_run_one_timer : keeps engine_ok (on_core run_one_timer).
Proof.
  intros m a m' Hm He. assert (H : hand commands (InReady ReadyTimers) m = Some (tt, m')).
  { unfold hand, on_core in *. cbn [run_input run_ready]. unfold bind, ret.
    destruct (run_one_timer (mc_core m)) as [b c]. by injection Hm as <- <-. }
  revert H He. apply keeps_engine; [by apply keeps_hand|apply outer_hand; exact _].
Qed.
#[local] Hint Resolve engine_run_plains engine_run_one_timer : keeps.

Lemma engine_timers_again : keeps engine_ok (mod_driver (fun d => d <| dr_ready ::= cons ReadyTimers |>)).
Proof. apply keeps_engine; [|by apply inbox_driver]. intros m u m1 [= _ <-]. by apply client_same. Qed.

Lemma engine_run ready : dleads (in_hand ready) engine_ok (run commands fuel ready).
Proof.
  unfold run. apply (dleads_bind _ engine_ok); [|intros _; keeps_tac].
  assert (Hn : answer_of (InReady ready) = nothing_owed -> forall p : DM unit, keeps engine_ok p -> dleads (in_hand ready) engine_ok p).
  { intros Hn p Hp. eapply dleads_weaken; [intros m; by apply in_hand_none|intros m H; exact H|exact Hp]. }
  destruct ready as [posted| | | | | | |]; try apply engine_hand_ready.
  - destruct posted; try apply engine_hand_ready; (apply Hn; [done|]); keeps_tac.
  - apply Hn; [done|]. keeps_tac. apply engine_timers_again.
Qed.

Lemma engine_step_loop n deadline block looked : keeps engine_ok (step_loop commands cpu fuel n deadline block looked).
Proof.
  revert deadline looked. induction n as [|n IH]; intros deadline looked; cbn [step_loop]; [apply keeps_fuel|].
  keeps_step; [keeps_tac|]. keeps_step; [keeps_tac|]. keeps_step; [keeps_tac|]. apply dleads_gets. intros d.
  destruct (if (_ <? _)%nat then head (dr_ready d) else None) as [ready|] eqn:Hh.
  - destruct (_ <? _)%nat; [|done]. destruct (dr_ready d) as [|ready' rest] eqn:Hd; [done|]. injection Hh as ->.
    apply (dleads_bind _ (in_hand ready)); [|intros _; apply (dleads_bind _ engine_ok); [apply engine_run|intros _; apply keeps_ret]].
    eapply dleads_weaken; [|intros m H; exact H|apply (engine_pop ready rest)]; [intros m [He <-]; by split|].
    intros d' Hd'. cbn. by rewrite Hd'.
  - apply dleads_and_l. keeps_tac.
Qed.

Lemma engine_step deadline block : keeps engine_ok (step commands cpu fuel deadline block).
Proof. apply engine_step_loop. Qed.

Lemma engine_call body : keeps engine_ok (call commands fuel body).
Proof. unfold call. keeps_tac. Qed.

(** ** A client's run *)

(** What the class on top does with its engine. *)
Inductive EngineOp :=
| OpCall (body : Call)
| OpStep (deadline : option Z) (block : bool)
| OpKept (kept : list Z).

Definition run_op (op : EngineOp) : DM unit :=
  match op with
  | OpCall body => call commands fuel body
  | OpStep deadline block => let+ _ := step commands cpu fuel deadline block in dret tt
  | OpKept kept => hand commands (InKept kept)
  end.

Definition run_ops (ops : list EngineOp) : DM unit := dfor_each ops run_op.

Lemma engine_run_ops ops : keeps engine_ok (run_ops ops).
Proof.
  apply keeps_for_each. intros [body|deadline block|kept]; cbn [run_op];
    [apply engine_call|keeps_step; [apply engine_step|keeps_tac]|keeps_tac].
Qed.

(** An inbox no thread used yet. *)
Definition fresh_inbox (inbox : option Inbox) : Prop := forall i, inbox = Some i -> is_posted (ib_state i) = [].

Lemma engine_new peer_type ids mode inbox s :
  fresh_inbox inbox -> engine_ok (Engine_new peer_type ids mode inbox s).
Proof.
  intros Hi. unfold Engine_new. destruct (os_now s) as [now s']. split; [split|].
  - apply reach_new.
  - eapply asked_less; [|apply asked_new]. intros conn. unfold owes, owed, Driver_new. cbn. unfold at_socket. rewrite lookup_empty. cbn.
    by rewrite bool_decide_eq_false_2 by set_solver.
  - intros i. cbn [mc_driver Driver_new dr_inbox]. intros H. rewrite (Hi i H). constructor.
Qed.

(** The driver gives the core only what it waits for.  Whatever the system, the other threads and the program do,
    whatever calls and steps a client makes, its core is in a state of [reachable]: the end of a connect came to it
    only for a connection that was connecting, the addresses of a name only for one that had none.  So the theorems
    about a client's core hold of the client as it runs. *)
Theorem client_reachable peer_type ids mode inbox (s : os) ops m :
  fresh_inbox inbox -> run_ops ops (Engine_new peer_type ids mode inbox s) = Some (tt, m) ->
  reachable commands (mc_core m).
Proof. intros Hi Hm. apply (engine_run_ops ops _ tt m Hm). by apply engine_new. Qed.
End Client.
#[export] Hint Resolve engine_take_inbox engine_wait engine_sleep engine_take_resolved engine_pull_pass engine_carry_out_actions
  engine_core_deadline engine_timers_due engine_pass engine_run_one_timer engine_extend_posted engine_sys : keeps.
#[export] Hint Extern 2 (dleads (engine_ok _) _ (hand _ _)) =>
  (apply keeps_engine; [apply keeps_hand; reflexivity|apply outer_hand; exact _]) : keeps.
#[export] Hint Extern 2 (dleads (engine_ok _) _ (mod_driver _)) =>
  (apply keeps_engine; [apply client_driver; intros ?; by split_and!|by apply inbox_driver]) : keeps.
#[export] Hint Extern 2 (dleads (engine_ok _) _ (push_ready _)) =>
  (apply keeps_engine; [apply keeps_push; reflexivity|by apply inbox_driver]) : keeps.

(** ** A run *)

(** A system whose poll says the first socket can be written to, and every other write of which takes five bytes. *)
Definition demo_chunk (bytes : list Z) : nat := Nat.min 5 (length bytes).
#[export] Instance demo_os : Os := {|
  os := Z;
  os_now s := (s, s + 1);
  os_poll _ s := (Some [mkEvent 1 false false true false false], s + 1);
  os_connect _ s := (inl 7, s);
  os_register _ _ s := (None, s);
  os_take_error _ s := (false, s);
  os_peer_addr _ s := (PeerKnown, s);
  os_write _ bytes s := (if Z.even s then Wrote (demo_chunk bytes) else WriteWouldBlock, s + 1);
  os_read _ _ s := (ReadWouldBlock, s);
  os_shutdown _ _ s := s;
  os_close _ s := s;
  os_spawn s := (true, s);
  os_request _ _ _ s := (true, s);
  os_answers s := ([], s);
  os_others s := ([], s);
|}.

(** A client connects to 127.0.0.1; the connect succeeds and its welcome is on the way. *)
Definition demo_ops : list EngineOp := [OpCall (CallAsyncConnect [49; 50; 55; 46; 48; 46; 48; 46; 49] 8000); OpStep None true].
Definition demo_cpu : Cpu := mkCpu false false false.
Definition demo_engine : Machine := Engine_new 5 7 Queue None (1 : @os demo_os).
Definition demo_ran : option (unit * Machine) := run_ops (fun _ => CallClosing) demo_cpu 20 demo_ops demo_engine.

Lemma no_inbox : fresh_inbox None.
Proof. by intros i. Qed.
Definition ended (ran : option (unit * Machine)) (m : Machine) : Machine := match ran with Some (_, m) => m | None => m end.
Lemma ended_run ran m : match ran with Some _ => true | None => false end = true -> ran = Some (tt, ended ran m).
Proof. by destruct ran as [[[] m']|]. Qed.

Definition demo_machine : Machine := ended demo_ran demo_engine.
Lemma demo_runs : run_ops (fun _ => CallClosing) demo_cpu 20 demo_ops (Engine_new 5 7 Queue None (1 : @os demo_os)) = Some (tt, demo_machine).
Proof. unfold demo_machine, demo_ran, demo_engine. apply ended_run. vm_compute. reflexivity. Qed.

Lemma client_reachable_witness : reachable (fun _ => CallClosing) (mc_core demo_machine).
Proof. exact (client_reachable (fun _ => CallClosing) demo_cpu 20 5 7 Queue None (1 : @os demo_os) demo_ops demo_machine no_inbox demo_runs). Defined.
