(* ===== verification/Writes.v ===== *)
(** * Writes: the frame at a socket is the one last asked for

    The driver takes the core's actions and carries them out in order, so the
    frame a socket is writing is that of the last write carried out for its
    connection.  [written_ok l] says so of a machine that still has the actions
    [l] in its hands, together with [fronts_ok] of Fronts.v: the last write asked
    for, carried out or not, is of the frame at the front of the queue. *)
From S2P Require Import Prelude Words Defaults Frame FrameReader Xxh3Simd Timers Endpoint LogSummary Records Fork.
From S2P Require Import Messages CoreTypes CoreBase ConnQueue Bodies Client Run Stable ConnIds ConnSpec System Asked Fronts.
From S2P Require Import Inbox Driver DriverSpec.
Open Scope Z_scope.

Definition writing_parts (w : Writing) : option (list Z) * list Z := (wr_head w, wr_bytes w).

Section Writes.
Context {E : Env} {P : Program} {OS : Os} (commands : Z -> Call) (cpu : Cpu) (fuel : nat).

(** Each socket's write is the last of [h] on its connection. *)
Definition carried (h : list Action) (sockets : gmap Z Socket) : Prop :=
  forall conn sk w, sockets !! conn = Some sk -> sk_write sk = Some w -> last_write conn h = Some (writing_parts w).

Definition written_ok (l : list Action) (m : Machine) : Prop :=
  exists h, fronts_ok None (h ++ l) (mc_core m) /\ carried h (dr_sockets (mc_driver m)).

(** ** What changes it *)

(** No write is new. *)
Definition writes_le (sockets sockets' : gmap Z Socket) : Prop :=
  forall conn sk' w', sockets' !! conn = Some sk' -> sk_write sk' = Some w' ->
    exists sk w, sockets !! conn = Some sk /\ sk_write sk = Some w /\ writing_parts w = writing_parts w'.

Lemma writes_le_refl sockets : writes_le sockets sockets.
Proof. intros conn sk w Hs Hw. by exists sk, w. Qed.

Lemma writes_le_alter sockets conn f :
  (forall sk, sockets !! conn = Some sk -> sk_write (f sk) = None
     \/ exists w w', sk_write sk = Some w /\ sk_write (f sk) = Some w' /\ writing_parts w = writing_parts w') ->
  writes_le sockets (alter f conn sockets).
Proof.
  intros Hf conn' sk' w'. destruct (decide (conn' = conn)) as [->|Hne]; [|rewrite lookup_alter_ne by done; apply writes_le_refl].
  rewrite lookup_alter_eq. intros (sk & Hs & ->)%fmap_Some Hw. destruct (Hf sk Hs) as [H|(w & w2 & H1 & H2 & H3)]; [congruence|].
  exists sk, w. split_and!; [done|done|]. congruence.
Qed.

Lemma writes_le_keep sockets conn f :
  (forall sk, sk_write (f sk) = sk_write sk \/ sk_write (f sk) = None) -> writes_le sockets (alter f conn sockets).
Proof.
  intros Hf. apply writes_le_alter. intros sk _. destruct (Hf sk) as [H|H]; [|by left].
  destruct (sk_write sk) as [w|]; [right; by exists w, w|by left].
Qed.

Lemma written_same l m m' :
  mc_core m' = mc_core m -> writes_le (dr_sockets (mc_driver m)) (dr_sockets (mc_driver m')) -> written_ok l m -> written_ok l m'.
Proof.
  intros Hc Hs (h & Hf & Hw). exists h. rewrite Hc. split; [done|]. intros conn sk' w' Hsk' Hw'.
  destruct (Hs conn sk' w' Hsk' Hw') as (sk & w & H1 & H2 & <-). by apply (Hw conn sk).
Qed.

Lemma written_driver l f : (forall d, dr_sockets (f d) = dr_sockets d) -> keeps (written_ok l) (mod_driver f).
Proof.
  intros Hf m u m1 [= _ <-]. apply written_same; [done|]. cbn [upd mc_driver]. rewrite Hf. apply writes_le_refl.
Qed.
Lemma written_rest l f :
  (forall m, mc_core (f m) = mc_core m /\ mc_driver (f m) = mc_driver m) -> keeps (written_ok l) (dmodify f).
Proof.
  intros Hf m u m1 [= _ <-]. destruct (Hf m) as [H1 H2]. apply written_same; [done|]. rewrite H2. apply writes_le_refl.
Qed.
Lemma written_sys l A (f : os -> A * os) : keeps (written_ok l) (sys f).
Proof. apply keeps_sys. intros m s. apply written_same; [done|]. apply writes_le_refl. Qed.
Lemma written_mod_socket l conn f :
  (forall sk, sk_write (f sk) = sk_write sk \/ sk_write (f sk) = None) -> keeps (written_ok l) (mod_socket conn f).
Proof. intros Hf m u m1 [= _ <-]. apply written_same; [done|]. by apply writes_le_keep. Qed.

(** The core asks; only the taking of its actions concerns the driver's hands. *)
Lemma written_core l A (p : CM A) : (forall h, pres (fronts_ok None h) p) -> keeps (written_ok l) (on_core p).
Proof.
  intros Hp m a m' Hm (h & Hf & Hw). unfold on_core in Hm. specialize (Hp (h ++ l) _ Hf). destruct (p (mc_core m)) as [b c].
  injection Hm as _ <-. by exists h.
Qed.
Lemma written_hand l input : takes input = false -> keeps (written_ok l) (hand commands input).
Proof. intros Hi. apply written_core. intros h. apply fronts_input. by intros ->. Qed.
Lemma written_posted_taken l : keeps (written_ok l) (hand commands InPostedTaken).
Proof. apply written_core. intros h. by apply fronts_input. Qed.

#[local] Hint Resolve written_sys written_posted_taken : keeps.
#[local] Hint Extern 2 (dleads (written_ok _) _ (mod_driver _)) => (apply written_driver; by intros ?) : keeps.
#[local] Hint Extern 2 (dleads (written_ok _) _ (push_ready _)) => (apply written_driver; by intros ?) : keeps.
#[local] Hint Extern 2 (dleads (written_ok _) _ (dmodify _)) => (apply written_rest; by intros ?) : keeps.
#[local] Hint Extern 2 (dleads (written_ok _) _ (sent _ _)) => (apply written_rest; by intros ?) : keeps.
#[local] Hint Extern 2 (dleads (written_ok _) _ (mod_socket _ _)) => (apply written_mod_socket; intros ?; (by left) || (by right)) : keeps.
#[local] Hint Extern 2 (dleads (written_ok _) _ (get_socket _)) => apply keeps_gets : keeps.
#[local] Hint Extern 2 (dleads (written_ok _) _ (hand _ _)) => (apply written_hand; reflexivity) : keeps.

(** ** The driver's operations *)

Lemma write_loop_parts n socket w m ended w' m' :
  write_loop n socket w m = Some ((ended, w'), m') -> writing_parts w' = writing_parts w.
Proof.
  revert w m. induction n as [|n IH]; intros w m; cbn [write_loop]; [done|].
  destruct (_ =? _)%nat; [by intros [= <- <- <-]|]. unfold dbind, sys. destruct (os_write _ _ _) as [result s].
  destruct result as [[|count]| | |]; try (by intros [= <- <- <-]); intros H%IH; exact H.
Qed.

Lemma written_write_some l conn : keeps (written_ok l) (write_some fuel conn).
Proof.
  intros m u m1 Hm. unfold write_some, dbind, get_socket, dgets in Hm.
  destruct (dr_sockets (mc_driver m) !! conn) as [sk|] eqn:Hs; [|by injection Hm as <- <-].
  destruct (sk_write sk) as [w|] eqn:Hw; [|by injection Hm as <- <-]. cbn [mod_socket mod_driver dmodify] in Hm.
  destruct (write_loop fuel sk w _) as [[[ended w'] m2]|] eqn:Hl; [|done]. pose proof (write_loop_parts _ _ _ _ _ _ _ Hl) as Hp.
  apply write_loop_frame in Hl as [Hcore Hdrv]. cbn [upd mc_core mc_driver] in Hcore, Hdrv.
  destruct ended as [failed|]; cbn in Hm; injection Hm as <- <-; (apply written_same; [done|]);
    cbn [upd mc_driver dr_sockets]; rewrite Hdrv; cbn [upd dr_sockets].
  - apply writes_le_keep. by right.
  - rewrite alter_alter_eq. apply writes_le_alter. intros sk'. rewrite Hs. intros [= <-]. right. exists w, w'. by split_and!.
Qed.
Lemma written_end_write l conn : keeps (written_ok l) (end_write conn).
Proof. unfold end_write. keeps_tac. Qed.
Lemma written_check_connect l conn : keeps (written_ok l) (check_connect conn).
Proof. unfold check_connect. keeps_tac. Qed.
Lemma written_close l conn : keeps (written_ok l) (close conn).
Proof.
  unfold close. keeps_step; [keeps_tac|]. case_match; [|keeps_tac]. keeps_step; [|keeps_tac]. intros m u m1 [= _ <-].
  apply written_same; [done|]. intros c sk' w'. cbn [upd mc_driver dr_sockets]. intros [_ Hs]%lookup_delete_Some Hw. by exists sk', w'.
Qed.
#[local] Hint Resolve written_write_some written_end_write written_check_connect written_close : keeps.
Lemma written_open l conn address : keeps (written_ok l) (open commands conn address).
Proof.
  unfold open. keeps_tac. intros m u m1 [= _ <-]. apply written_same; [done|]. intros c sk' w'. cbn [upd mc_driver dr_sockets].
  intros [[<- <-]|[_ Hs]]%lookup_insert_Some Hw; [done|by exists sk', w'].
Qed.
Lemma written_resolve l conn host port : keeps (written_ok l) (resolve conn host port).
Proof. unfold resolve. keeps_tac. Qed.
Lemma written_take_resolved l : keeps (written_ok l) take_resolved.
Proof. unfold take_resolved. keeps_tac. Qed.
#[local] Hint Resolve written_open written_resolve written_take_resolved : keeps.

(** *** Actions *)

(** An action that writes nothing is out of the driver's hands. *)
Lemma written_put_down a l m : (forall conn, write_on conn a = None) -> written_ok (a :: l) m -> written_ok l m.
Proof.
  intros Ha (h & Hf & Hw). exists (h ++ [a]). split; [by rewrite <- app_assoc|]. intros conn sk w Hs Hsw.
  rewrite last_write_app. unfold last_write at 1. cbn. rewrite Ha. by apply (Hw conn sk).
Qed.

(** A write carried out is its socket's. *)
Lemma written_write l conn head bytes :
  dleads (written_ok (ActWrite conn head bytes :: l)) (written_ok l) (carry_out commands fuel (ActWrite conn head bytes)).
Proof.
  set (a := ActWrite conn head bytes). cbn [carry_out].
  assert (Hdone : forall m m', mc_core m' = mc_core m -> (forall sk, dr_sockets (mc_driver m') !! conn = Some sk ->
      forall w, sk_write sk = Some w -> writing_parts w = (head, bytes)) ->
    (forall c, c <> conn -> dr_sockets (mc_driver m') !! c = dr_sockets (mc_driver m) !! c) -> written_ok (a :: l) m -> written_ok l m').
  { intros m m' Hc Hs Hne (h & Hf & Hw). exists (h ++ [a]). rewrite Hc, <- app_assoc. split; [done|]. intros c sk w Hsk Hsw.
    rewrite last_write_app. unfold last_write at 1. cbn. destruct (Z.eqb_spec conn c) as [<-|Hn]; cbn; [by rewrite (Hs sk Hsk w Hsw)|].
    apply (Hw c sk); [|done]. by rewrite <- Hne. }
  apply dleads_gets. intros [sk|].
  - eapply (dleads_bind _ (fun m => written_ok (a :: l) m /\ dr_sockets (mc_driver m) !! conn = Some sk)).
    { intros m u m1 [= _ <-] [Hok Hs]. split; [|done]. revert Hok. apply written_same; [done|]. apply writes_le_refl. }
    intros _. apply (dleads_bind _ (written_ok l)); [|intros _; apply written_write_some].
    intros m u m1 [= _ <-] [Hok Hs]. apply (Hdone m); [done| | |done]; cbn [upd mc_driver dr_sockets].
    + intros sk'. rewrite lookup_alter_eq, Hs. intros [= <-] w [= <-]. done.
    + intros c Hne. by rewrite lookup_alter_ne.
  - intros m u m1 [= _ <-] [Hok Hs]. apply (Hdone m); [done| |done|done]. cbn [upd mc_driver dr_sockets]. by rewrite Hs.
Qed.

Lemma written_carry_out a l : dleads (written_ok (a :: l)) (written_ok l) (carry_out commands fuel a).
Proof.
  destruct a; try apply written_write; (apply (dleads_weaken _ (written_ok l) _ (written_ok l)); [by intros m H; eapply written_put_down, H|done|]);
    cbn [carry_out]; keeps_tac.
Qed.

Lemma written_apply n : keeps (written_ok []) (apply_loop commands fuel n).
Proof.
  induction n as [|n IH]; cbn [apply_loop]; [apply keeps_fuel|]. apply dleads_gets. intros [|a l].
  { by intros m u m1 [= _ <-] [H _]. }
  remember (a :: l) as actions eqn:Hl. clear Hl. apply (dleads_bind _ (written_ok actions)).
  { intros m u m1 Hm [(h & Hf & Hw) Ha]. unfold hand, on_core in Hm. cbn [run_input modify] in Hm. injection Hm as _ <-.
    rewrite app_nil_r in Hf. exists h. split; [|done]. cbn [upd mc_core]. rewrite <- Ha. by apply fronts_actions_taken. }
  intros _. apply (dleads_bind _ (written_ok [])); [|intros _; apply IH].
  apply (dleads_for_each _ actions written_ok). intros action l'. apply written_carry_out.
Qed.
Lemma written_apply_actions : keeps (written_ok []) (apply_actions commands fuel).
Proof. apply written_apply. Qed.
#[local] Hint Resolve written_apply_actions : keeps.

(** *** Readiness and reads *)

Lemma written_handle_fired l f : keeps (written_ok l) (handle_fired fuel f).
Proof. unfold handle_fired. keeps_tac. Qed.
#[local] Hint Resolve written_handle_fired : keeps.
Lemma written_wait l timeout : keeps (written_ok l) (wait fuel timeout).
Proof. unfold wait. keeps_tac. Qed.
Lemma written_others l : keeps (written_ok l) others.
Proof. unfold others. keeps_tac. Qed.
#[local] Hint Resolve written_wait written_others : keeps.
Lemma written_sleep l timeout : keeps (written_ok l) (sleep fuel timeout).
Proof. unfold sleep. keeps_tac. Qed.
Lemma written_extend_posted l : keeps (written_ok l) (extend_posted commands).
Proof. unfold extend_posted. keeps_tac. Qed.
Lemma written_core_deadline l : keeps (written_ok l) (core_deadline commands).
Proof. unfold core_deadline. keeps_tac. Qed.
#[local] Hint Resolve written_sleep written_extend_posted written_core_deadline : keeps.
Lemma written_timers_due l : keeps (written_ok l) (timers_due commands).
Proof. unfold timers_due. keeps_tac. Qed.
Lemma written_take_inbox l : keeps (written_ok l) (take_inbox commands).
Proof. unfold take_inbox. keeps_tac. Qed.
#[local] Hint Resolve written_timers_due written_take_inbox : keeps.

Lemma written_pull_from l conn : keeps (written_ok l) (pull_from cpu fuel conn).
Proof.
  intros m a m' Hm. unfold pull_from, dbind, get_socket, dgets in Hm.
  destruct (dr_sockets (mc_driver m) !! conn) as [sk|] eqn:Hs; [|by injection Hm as <- <-].
  destruct (_ || _); [by injection Hm as <- <-|].
  destruct (pull_loop cpu fuel conn sk m) as [[[pulled sk'] m1]|] eqn:Hl; [|done].
  apply pull_loop_frame in Hl as (Hcore & Hdrv & _ & _ & Hwr & _). cbn in Hm. injection Hm as <- <-.
  apply written_same; [done|]. cbn [upd mc_driver dr_sockets]. rewrite Hdrv. apply writes_le_alter. intros sk0. rewrite Hs. intros [= <-].
  rewrite Hwr. destruct (sk_write sk) as [w|]; [right; by exists w, w|by left].
Qed.
#[local] Hint Resolve written_pull_from : keeps.
Lemma written_pull_pass l : keeps (written_ok l) (pull_pass cpu fuel).
Proof. unfold pull_pass. keeps_tac. Qed.
#[local] Hint Resolve written_pull_pass : keeps.
Lemma written_pass l : keeps (written_ok l) (pass commands cpu fuel).
Proof. unfold pass. keeps_tac. Qed.
#[local] Hint Resolve written_pass : keeps.

(** *** The loop *)

Lemma written_run_plains l n : keeps (written_ok l) (run_plains commands n).
Proof. induction n; cbn [run_plains]; keeps_tac. Qed.
Lemma written_run_one_timer l : keeps (written_ok l) (on_core run_one_timer).
Proof. apply written_core. intros h. apply la_run_one_timer. exact _. Qed.
#[local] Hint Resolve written_run_plains written_run_one_timer : keeps.
Lemma written_run ready : keeps (written_ok []) (run commands fuel ready).
Proof. unfold run. keeps_tac. Qed.
#[local] Hint Resolve written_run : keeps.
Lemma written_step_loop n deadline block looked : keeps (written_ok []) (step_loop commands cpu fuel n deadline block looked).
Proof. revert deadline looked. induction n; intros deadline looked; cbn [step_loop]; keeps_tac. Qed.

Lemma written_run_ops ops : keeps (written_ok []) (run_ops commands cpu fuel ops).
Proof.
  apply keeps_for_each. intros [body|deadline block|kept]; cbn [run_op]; [unfold call, carry_out_actions; keeps_tac| |keeps_tac].
  keeps_step; [apply written_step_loop|keeps_tac].
Qed.

Lemma written_new peer_type ids mode inbox s : written_ok [] (Engine_new peer_type ids mode inbox s).
Proof.
  unfold Engine_new. destruct (os_now s) as [now s']. exists []. split; [apply fronts_new|].
  intros conn sk w. cbn [mc_driver Driver_new dr_sockets]. by rewrite lookup_empty.
Qed.

Lemma last_write_none conn h l : count_if (writes conn) l = 0%nat -> last_write conn (h ++ l) = last_write conn h.
Proof.
  rewrite last_write_app. intros Hn. assert (last_write conn l = None) as ->; [|done]. unfold last_write.
  induction l as [|a l IH]; [done|]. cbn [count_if] in Hn. destruct (writes conn a) eqn:Ha; [cbn in Hn; lia|].
  cbn. destruct (write_on conn a) eqn:Hwa; [|by apply IH]. destruct a; try done. cbn in *. by rewrite Ha in Hwa.
Qed.

(** The one write asked for and not carried out. *)
Lemma last_write_pending conn h l head bytes :
  (count_if (writes conn) l <= 1)%nat -> ActWrite conn head bytes ∈ l -> last_write conn (h ++ l) = Some (head, bytes).
Proof.
  intros Hn (l1 & l2 & ->)%list_elem_of_split. rewrite count_if_app in Hn. cbn [count_if writes] in Hn. rewrite Z.eqb_refl in Hn.
  change (ActWrite conn head bytes :: l2) with ([ActWrite conn head bytes] ++ l2). rewrite !app_assoc, last_write_none by lia.
  rewrite last_write_app. unfold last_write. cbn. by rewrite Z.eqb_refl.
Qed.
End Writes.
