(* ===== verification/WireSpec.v ===== *)
(** * WireSpec: what goes to a socket is frames, in order and whole

    A frame goes to a socket in as many writes as the system takes it in.
    [wire_is_frames]: the bytes a socket took are at every moment a prefix of the
    frames the core asked to be written on it, one after the other; and a frame
    not yet written whole waits for the system's word that the socket takes more.
    Once a write failed the core asks no other on its connection ([dead]). *)
From S2P Require Import Prelude Words Defaults Frame FrameReader Xxh3Simd Timers Endpoint IpAddr LogSummary Records Fork.
From S2P Require Import Messages CoreTypes CoreBase ConnQueue OutboxState ConfirmingState Placing Bodies Batching Confirming.
From S2P Require Import Sending Handover Query Connection Client Connect Run Stable StableRun ConnIds ConnSpec System Asked.
From S2P Require Import Fronts Inbox Driver DriverSpec Writes.
Open Scope Z_scope.

(** ** A connection that asks no more writes *)

Definition dead (conn : Z) (c : Core) : Prop :=
  conn <= cr_next_conn c
  /\ forall s, cr_conns c !! conn = Some s -> cn_out s <> Free /\ cn_write_in_flight s = false.

Section Dead.
Context {E : Env} {P : Program} (conn : Z).

#[export] Instance dead_blind : Blind (dead conn).
Proof. intros c c' Hs _ Hn [Hle H]. split; [lia|]. by rewrite Hs. Qed.

Lemma dead_other conn' f : conn' <> conn -> pres (dead conn) (mod_conn conn' f).
Proof. intros Hne c [Hle H]. split; [done|]. intros s. rewrite mod_conn_ne by done. apply H. Qed.

Lemma dead_conn conn' f :
  (forall s, cn_write_in_flight (f s) = cn_write_in_flight s /\ (cn_out (f s) = Free -> cn_out s = Free)) ->
  pres (dead conn) (mod_conn conn' f).
Proof.
  intros Hf c Hc. destruct (decide (conn' = conn)) as [->|Hne]; [|by apply dead_other]. destruct Hc as [Hle H]. split; [done|].
  intros s. rewrite mod_conn_eq. intros (s0 & Hs & ->)%fmap_Some. destruct (H s0 Hs) as [H1 H2]. destruct (Hf s0) as [-> Hout]. auto.
Qed.

#[export] Instance dead_enduring : Enduring (dead conn).
Proof.
  split; [split| |].
  - intros c c' Hs _ Hn [Hle H]. split; [lia|]. by rewrite Hs.
  - intros conn' f Hf. apply dead_conn. intros s. specialize (Hf s). unfold channel_view in Hf. injection Hf as _ _ E3 E4.
    rewrite E3. auto.
  - intros conn' c Hc. unfold process_send_queue, bind at 1, get_conn, gets.
    destruct (cr_conns c !! conn') as [s|] eqn:Hs; [|done]. destruct (_ || _) eqn:Hb; [done|].
    apply orb_false_iff in Hb as [Hfree%negb_false_iff%bool_decide_eq_true _].
    destruct (cn_outgoing s) as [|[t front] rest]; [done|]. rewrite bind_tt. apply any_action_pres; [exact _|].
    destruct (decide (conn' = conn)) as [->|Hne]; [|by apply dead_other]. by destruct (proj2 Hc s Hs) as [Hout _].
  - intros conn' f Hf. apply dead_conn. intros s. destruct (Hf s) as (_ & _ & ? & ?). done.
  - intros conn' c [Hle H]. unfold forget_if_finished, modify. cbn [snd]. repeat case_match; try done. split; [done|].
    intros s' Hs'. cbn [upd cr_conns] in Hs'. apply lookup_delete_Some in Hs' as [_ Hs']. by apply H.
Qed.

#[local] Hint Extern 1 (Quiet _) => exact _ : pres.
#[local] Hint Extern 1 (Placing _) => exact _ : pres.
#[local] Hint Extern 1 (Stable _) => exact _ : pres.
#[local] Hint Extern 1 (Closing _) => exact _ : pres.
#[local] Hint Extern 1 (Ending _) => exact _ : pres.
#[local] Hint Extern 1 (Blind _) => exact _ : pres.
#[local] Hint Resolve any_action_pres resolve_and_start_pres ed_forget en_start_connection en_write_ended en_write_failed : pres.
#[local] Hint Extern 1 (pres (dead conn) (mod_conn _ _)) => (apply dead_conn; intros ?; repeat case_match; by split_and!) : pres.

Lemma dead_try_next conn' : pres (dead conn) (try_next_candidate conn').
Proof. unfold try_next_candidate. pres_tac. Qed.
#[local] Hint Resolve dead_try_next : pres.
Lemma dead_resolved conn' candidates : pres (dead conn) (on_resolved conn' candidates).
Proof. unfold on_resolved. pres_tac. Qed.
Lemma dead_connected conn' ok : pres (dead conn) (connected conn' ok).
Proof. unfold connected. pres_tac. Qed.

Lemma dead_add_conn target : pres (dead conn) (add_conn target).
Proof.
  intros c [Hle H]. destruct (add_conn_eq target c) as [h Ha]. destruct (add_conn target c) as [new c']. destruct Ha as (-> & Hn & _ & Hs).
  cbn [snd]. split; [lia|]. rewrite Hs. intros s. rewrite lookup_insert_ne by lia. apply H.
Qed.
#[local] Hint Resolve dead_add_conn : pres.

#[export] Instance dead_lasting : Lasting (dead conn).
Proof. split; [exact _|]. intros host port. unfold async_connect. pres_tac. Qed.

Lemma dead_write_done conn' written failed : conn' <> conn -> pres (dead conn) (on_write_done conn' written failed).
Proof.
  intros Hne. unfold on_write_done. pres_tac; by apply dead_other.
Qed.

(** A failed write leaves its connection so. *)
Lemma failed_is_dead written c :
  conn <= cr_next_conn c -> (forall s, cr_conns c !! conn = Some s -> cn_out s <> Free) ->
  dead conn (on_write_done conn written true c).2.
Proof.
  intros Hle Hout. unfold on_write_done, bind at 1, get_conn, gets. destruct (cr_conns c !! conn) as [s|] eqn:Hs.
  2:{ split; [done|]. cbn [ret snd]. intros s. by rewrite Hs. }
  rewrite bind_tt. set (c1 := (mod_conn _ _ c).2).
  assert (H1 : dead conn c1).
  { split; [done|]. intros s'. subst c1. rewrite mod_conn_eq, Hs. intros [= <-]. split; [exact (Hout s eq_refl)|done]. }
  clearbody c1. destruct (bool_decide _); [|cbn [orb]; by apply (en_write_failed (dead conn))].
  revert c1 H1. change (pres (dead conn) (settle_set_aside conn written true ;;; forget_if_finished conn)). pres_tac.
Qed.

Context (commands : Z -> Call).

(** Only the end of a write of its own may free it. *)
Lemma dead_input input c :
  (forall written failed, input <> InReady (ReadyWriteDone conn written failed)) -> dead conn c -> dead conn (run_input commands input c).2.
Proof.
  intros Hi Hc. destruct input as [ready|call| | | | | | |]; try (by apply (st_blind c)); [|by apply (la_call (dead conn))].
  destruct (answers_none ready) eqn:Hn; [by apply (la_ready (dead conn))|].
  destruct ready as [[]|conn' ok|conn' written failed|conn' candidates| | | |]; try done; cbn [run_input run_ready run_posted].
  - by apply dead_connected.
  - by apply dead_connected.
  - apply dead_write_done; [|done]. intros ->. by apply (Hi written failed).
  - by apply dead_resolved.
Qed.
End Dead.

(** ** A frame being written *)

(** What std::io documents of a write: it takes no more than it is given. *)
Class OsOk {OS : Os} :=
  os_write_bound fd bytes s count s' : os_write fd bytes s = (Wrote count, s') -> (count <= length bytes)%nat.

Definition wire_frame (w : Writing) : list Z := wire_bytes (wr_head w) (wr_bytes w).

Lemma Writing_length_frame w : Writing_length w = length (wire_frame w).
Proof. unfold Writing_length, wire_frame, wire_bytes. rewrite length_app. by destruct (wr_head w). Qed.

(** A write is given what is left of the frame. *)
Lemma write_to_drop w : write_to w = drop (wr_written w) (wire_frame w).
Proof.
  unfold write_to, wire_frame, wire_bytes. destruct (wr_head w) as [head|]; [|done]. change (default [] (Some head)) with head.
  destruct (Nat.ltb_spec (wr_written w) (length head)); [by rewrite drop_app_le by lia|by rewrite drop_app_ge by lia].
Qed.

(** The frames before it went whole, and of it what was written. *)
Definition writing_ok (wi : Wire) (w : Writing) : Prop :=
  (wr_written w <= length (wire_frame w))%nat
  /\ exists before, wi_frames wi = before ++ [wire_frame w] /\ wi_sent wi = concat before ++ take (wr_written w) (wire_frame w).

Lemma writing_more wi w count :
  (count <= length (write_to w))%nat -> writing_ok wi w ->
  writing_ok (wi <| wi_sent ::= fun l => l ++ take count (write_to w) |>) (w <| wr_written ::= Nat.add count |>).
Proof.
  rewrite write_to_drop, length_drop. intros Hn [Hle (before & Hf & Hs)].
  change (wire_frame w) with (wire_frame (w <| wr_written ::= Nat.add count |>)) in Hf. split; cbn [upd wr_written].
  - change (count + wr_written w <= length (wire_frame w))%nat. lia.
  - exists before. split; [exact Hf|]. cbn [upd wi_sent]. rewrite Hs, <- app_assoc. f_equal.
    change (take (wr_written w) (wire_frame w) ++ take count (drop (wr_written w) (wire_frame w)) = take (count + wr_written w) (wire_frame w)).
    rewrite (Nat.add_comm count). apply take_take_drop.
Qed.

Section Wire.
Context {E : Env} {P : Program} {OS : Os} {OSOK : OsOk} (commands : Z -> Call) (cpu : Cpu) (fuel : nat).

Lemma write_loop_wire n socket w m ended w' m' wi :
  write_loop n socket w m = Some ((ended, w'), m') -> mc_wire m !! sk_token socket = Some wi -> writing_ok wi w ->
  exists wi', mc_wire m' = <[sk_token socket := wi']> (mc_wire m) /\ writing_ok wi' w'
              /\ (ended = Some false -> wr_written w' = length (wire_frame w')).
Proof.
  revert w m wi. induction n as [|n IH]; intros w m wi; cbn [write_loop]; [done|]. intros Hm Hw Hok.
  assert (Hsame : forall s, (exists wi', mc_wire (m <| mc_os := s |>) = <[sk_token socket := wi']> (mc_wire m) /\ writing_ok wi' w)).
  { intros s. exists wi. split; [by rewrite insert_id|done]. }
  destruct (Nat.eqb_spec (wr_written w) (Writing_length w)) as [Heq|Hne].
  { injection Hm as <- <- <-. destruct (Hsame (mc_os m)) as (wi' & H1 & H2). exists wi'. split; [exact H1|]. split; [done|].
    intros _. by rewrite <- Writing_length_frame. }
  unfold dbind, sys in Hm. destruct (os_write _ _ _) as [result s] eqn:Hos. destruct (Hsame s) as (wi' & H1 & H2).
  destruct result as [[|count]| | |]; try (injection Hm as <- <- <-; exists wi'; by split_and!); [|by eapply IH in Hm].
  apply os_write_bound in Hos. eapply IH in Hm; [| |by apply (writing_more wi)].
  - destruct Hm as (wi2 & H3 & H4 & H5). exists wi2. split; [|done]. rewrite H3. cbn [upd mc_wire].
    apply map_eq. intros t. destruct (decide (t = sk_token socket)) as [->|Hn]; [by rewrite !lookup_insert_eq|].
    by rewrite !lookup_insert_ne, lookup_alter_ne by done.
  - cbn [upd mc_wire]. by rewrite lookup_alter_eq, Hw.
Qed.

(** ** The invariant *)

(** A failed write of [conn] is on its way to the core, or the core knows. *)
Definition cut (h : list Ready) (conn : Z) (m : Machine) : Prop :=
  (exists written, ReadyWriteDone conn written true ∈ h ++ dr_ready (mc_driver m)) \/ dead conn (mc_core m).

Definition wire_ok (h : list Ready) (m : Machine) (conn : Z) (wi : Wire) (w : option Writing) : Prop :=
  match w with
  | Some w => writing_ok wi w
  | None => wi_sent wi = concat (wi_frames wi) \/ (wi_sent wi `prefix_of` concat (wi_frames wi) /\ cut h conn m)
  end.

(** A socket of [conn]: its write, but that of [e], waits for the system's word, and the bytes it took are frames. *)
Record socket_ok (e : option Z) (h : list Ready) (m : Machine) (conn : Z) (sk : Socket) : Prop := {
  so_parked : e = Some conn \/ sk_write sk = None \/ sk_writable sk = false;
  so_token : sk_token sk < dr_next_token (mc_driver m);
  so_wire : exists wi, mc_wire m !! sk_token sk = Some wi /\ wire_ok h m conn wi (sk_write sk);
}.

Record wired (e : option Z) (h : list Ready) (m : Machine) : Prop := {
  wd_sockets conn sk : dr_sockets (mc_driver m) !! conn = Some sk -> socket_ok e h m conn sk;
  wd_tokens conn conn' sk sk' :
    dr_sockets (mc_driver m) !! conn = Some sk -> dr_sockets (mc_driver m) !! conn' = Some sk' -> sk_token sk = sk_token sk' -> conn = conn';
}.

(** Nothing of a socket changes, and what was cut stays. *)
Lemma socket_ok_same e e' h h' m m' conn sk :
  (e = Some conn -> e' = Some conn) ->
  dr_next_token (mc_driver m) <= dr_next_token (mc_driver m') -> mc_wire m' !! sk_token sk = mc_wire m !! sk_token sk ->
  (cut h conn m -> cut h' conn m') -> socket_ok e h m conn sk -> socket_ok e' h' m' conn sk.
Proof.
  intros He Hn Hw Hcut [H1 H2 (wi & H3 & H4)]. split; [by destruct H1; auto|lia|]. exists wi. split; [by rewrite Hw|].
  unfold wire_ok in *. destruct (sk_write sk); [done|]. destruct H4 as [H4|[H4 H5]]; [by left|right; auto].
Qed.

Lemma wired_same e h h' m m' :
  dr_sockets (mc_driver m') = dr_sockets (mc_driver m) -> dr_next_token (mc_driver m) <= dr_next_token (mc_driver m') ->
  mc_wire m' = mc_wire m -> (forall conn, cut h conn m -> cut h' conn m') -> wired e h m -> wired e h' m'.
Proof.
  intros Hs Hn Hw Hcut [H1 H2]. split; rewrite Hs; [|exact H2]. intros conn sk Hsk.
  eapply socket_ok_same; [done|exact Hn|by rewrite Hw|apply Hcut|by apply H1].
Qed.

(** One socket changes, or goes. *)
Lemma wired_socket e e' h m m' conn :
  (forall c, c <> conn -> e = Some c -> e' = Some c) ->
  (forall c, c <> conn -> dr_sockets (mc_driver m') !! c = dr_sockets (mc_driver m) !! c) ->
  dr_next_token (mc_driver m) <= dr_next_token (mc_driver m') ->
  (forall c sk, c <> conn -> dr_sockets (mc_driver m) !! c = Some sk -> mc_wire m' !! sk_token sk = mc_wire m !! sk_token sk) ->
  (forall c, cut h c m -> cut h c m') ->
  (forall sk, dr_sockets (mc_driver m') !! conn = Some sk ->
     socket_ok e' h m' conn sk
     /\ forall c old, c <> conn -> dr_sockets (mc_driver m) !! c = Some old -> sk_token old <> sk_token sk) ->
  wired e h m -> wired e' h m'.
Proof.
  intros He Hs Hn Hw Hcut Hnew [H1 H2]. split.
  - intros c sk. destruct (decide (c = conn)) as [->|Hne]; [intros Hsk; by apply Hnew|]. rewrite Hs by done. intros Hsk.
    eapply socket_ok_same; [by apply He|exact Hn|by eapply Hw|apply Hcut|by apply H1].
  - assert (Hone : forall c sk sk', c <> conn -> dr_sockets (mc_driver m) !! c = Some sk -> dr_sockets (mc_driver m') !! conn = Some sk' ->
      sk_token sk = sk_token sk' -> False).
    { intros c sk sk' Hne Hsk Hsk'. destruct (Hnew sk' Hsk') as [_ H]. by apply (H c). }
    intros c c' sk sk' Hsk Hsk' Ht. destruct (decide (c = conn)) as [->|Hne], (decide (c' = conn)) as [->|Hne']; [done| | |].
    + rewrite Hs in Hsk' by done. exfalso. by eapply (Hone c' sk' sk).
    + rewrite Hs in Hsk by done. exfalso. by eapply (Hone c sk sk').
    + rewrite Hs in Hsk, Hsk' by done. by eapply H2.
Qed.

(** More in the queue cuts no less. *)
Lemma cut_more h conn m m' :
  mc_core m' = mc_core m -> (forall r, r ∈ dr_ready (mc_driver m) -> r ∈ dr_ready (mc_driver m')) -> cut h conn m -> cut h conn m'.
Proof.
  intros Hc Hr [[written H]|H]; [left; exists written|right; by rewrite Hc]. apply elem_of_app in H as [H|H]; apply elem_of_app; auto.
Qed.

(** ** The operations *)

Lemma wired_driver e h f :
  (forall d, dr_sockets (f d) = dr_sockets d /\ dr_next_token d <= dr_next_token (f d) /\ (forall r, r ∈ dr_ready d -> r ∈ dr_ready (f d))) ->
  keeps (wired e h) (mod_driver f).
Proof.
  intros Hf m u m1 [= _ <-]. destruct (Hf (mc_driver m)) as (H1 & H2 & H3). apply wired_same; [done|done|done|]. intros conn. by apply cut_more.
Qed.

Lemma wired_rest e h f :
  (forall m, mc_core (f m) = mc_core m /\ mc_driver (f m) = mc_driver m /\ mc_wire (f m) = mc_wire m) -> keeps (wired e h) (dmodify f).
Proof.
  intros Hf m u m1 [= _ <-]. destruct (Hf m) as (H1 & H2 & H3).
  apply wired_same; [by rewrite H2|by rewrite H2|done|]. intros conn. apply cut_more; [done|by rewrite H2].
Qed.

Lemma wired_sys e h A (f : os -> A * os) : keeps (wired e h) (sys f).
Proof. apply keeps_sys. intros m s. apply wired_same; [done|done|done|]. intros conn. by apply cut_more. Qed.

Lemma wired_push e h ready : keeps (wired e h) (push_ready ready).
Proof. apply wired_driver. intros d. split_and!; [done|done|]. intros r Hr. apply elem_of_app. by left. Qed.

(** [m] with the socket [sk] of [conn] changed to [sk'], the queue grown. *)
Lemma wired_change e e' h m m' conn sk sk' :
  mc_core m' = mc_core m -> (forall r, r ∈ dr_ready (mc_driver m) -> r ∈ dr_ready (mc_driver m')) ->
  dr_next_token (mc_driver m') = dr_next_token (mc_driver m) ->
  dr_sockets (mc_driver m) !! conn = Some sk ->
  (forall c, dr_sockets (mc_driver m') !! c = if decide (c = conn) then Some sk' else dr_sockets (mc_driver m) !! c) ->
  (forall t, t <> sk_token sk -> mc_wire m' !! t = mc_wire m !! t) ->
  (forall c, c <> conn -> e = Some c -> e' = Some c) -> sk_token sk' = sk_token sk ->
  (e' = Some conn \/ sk_write sk' = None \/ sk_writable sk' = false) ->
  (exists wi, mc_wire m' !! sk_token sk = Some wi /\ wire_ok h m' conn wi (sk_write sk')) ->
  wired e h m -> wired e' h m'.
Proof.
  intros Hc Hr Hn Hs Hs' Hw He Ht Hp Hwi Hok. pose proof Hok as [H1 H2]. eapply (wired_socket _ _ _ _ _ conn); [..|exact Hok].
  - done.
  - intros c Hne. rewrite Hs'. by rewrite decide_False.
  - lia.
  - intros c sk0 Hne Hsk0. apply Hw. intros Heq. apply Hne. by eapply H2.
  - intros c. by apply cut_more.
  - intros sk0. rewrite Hs', decide_True by done. intros [= <-]. split; [|intros c old Hne Hold Heq; apply Hne; by eapply H2; [..|rewrite Heq]].
    split; [done|rewrite Ht, Hn; apply (H1 conn sk Hs)|]. by rewrite Ht.
Qed.

Lemma alter_decide {A} (f : A -> A) conn (l : gmap Z A) x :
  l !! conn = Some x -> forall c, alter f conn l !! c = if decide (c = conn) then Some (f x) else l !! c.
Proof. intros Hx c. destruct (decide (c = conn)) as [->|]; [by rewrite lookup_alter_eq, Hx|by rewrite lookup_alter_ne]. Qed.

Lemma wired_mod_socket e h conn f :
  (forall s, sk_token (f s) = sk_token s /\ sk_write (f s) = sk_write s /\ (sk_writable s = false -> sk_writable (f s) = false)) ->
  keeps (wired e h) (mod_socket conn f).
Proof.
  intros Hf m u m1 [= _ <-] Hok. destruct (dr_sockets (mc_driver m) !! conn) as [sk|] eqn:Hs.
  - destruct (wd_sockets _ _ _ Hok conn sk Hs) as [P1 P2 (wi & P3 & P4)]. destruct (Hf sk) as (F1 & F2 & F3).
    eapply (wired_change e e h m _ conn sk (f sk)); try done.
    + by apply alter_decide.
    + destruct P1 as [P1|[P1|P1]]; [by left|right; left; by rewrite F2|right; right; auto].
    + exists wi. rewrite F2. split; [done|]. unfold wire_ok in *. destruct (sk_write sk); [done|].
      destruct P4 as [P4|[P4 P5]]; [by left|right; split; [done|]]. revert P5. by apply cut_more.
  - eapply wired_same; [| | | |exact Hok]; try done. cbn [upd mc_driver dr_sockets]. apply map_eq. intros c.
    destruct (decide (c = conn)) as [->|]; [by rewrite lookup_alter_eq, Hs|by rewrite lookup_alter_ne].
Qed.

(** *** The core *)

Definition is_write_done (input : Input) : bool := match input with InReady (ReadyWriteDone _ _ _) => true | _ => false end.

Lemma on_core_eq A (p : CM A) m a m' :
  on_core p m = Some (a, m') -> m' = m <| mc_core := (p (mc_core m)).2 |>.
Proof. unfold on_core. destruct (p (mc_core m)) as [b c]. by intros [= _ <-]. Qed.

Lemma wired_hand e h input : is_write_done input = false -> keeps (wired e h) (hand commands input).
Proof.
  intros Hi m u m1 Hm. apply on_core_eq in Hm as ->. apply wired_same; [done|done|done|].
  intros conn [[written H]|H]; [left; by exists written|right]. apply dead_input; [|done]. by intros written failed ->.
Qed.

(** The end of a write given to the core. *)
Lemma wired_write_done extra e conn written failed :
  dleads (fun m => client commands (oplus (answer_of (InReady (ReadyWriteDone conn written failed))) extra) m
                   /\ wired e [ReadyWriteDone conn written failed] m)
    (wired e []) (hand commands (InReady (ReadyWriteDone conn written failed))).
Proof.
  intros m u m1 Hm [[_ Ha] Hok]. apply on_core_eq in Hm as ->. revert Hok. apply wired_same; [done|done|done|].
  assert (Hdue : (1 <= writes_due (owes (oplus (answer_of (InReady (ReadyWriteDone conn written failed))) extra) m) (mc_core m) conn)%nat).
  { unfold writes_due, owes. cbn. rewrite one_more_eq. lia. }
  assert (Hle : conn <= cr_next_conn (mc_core m)).
  { destruct (Z_le_gt_dec conn (cr_next_conn (mc_core m))); [done|]. destruct (ao_new _ _ Ha conn) as (_ & Hz & _); [lia|lia]. }
  assert (Hfl : forall s, cr_conns (mc_core m) !! conn = Some s -> cn_write_in_flight s = true /\ cn_out s <> Free).
  { intros s Hs. destruct (ao_conns _ _ Ha conn s Hs) as [_ Hw _ Hf]. destruct (cn_write_in_flight s); [|lia].
    split; [done|]. intros H. by specialize (Hf H). }
  intros c [[w H]|H].
  - apply elem_of_app in H as [H|H]; [|left; exists w; exact H]. apply list_elem_of_singleton in H. injection H as -> -> <-. right.
    apply failed_is_dead; [done|]. intros s Hs. by apply Hfl.
  - right. destruct (decide (c = conn)) as [->|Hne]; [|by apply dead_input; [intros ? ? [= <-]|]].
    exfalso. destruct H as [_ Hd]. destruct (cr_conns (mc_core m) !! conn) as [s|] eqn:Hs.
    + destruct (Hd s eq_refl), (Hfl s eq_refl). congruence.
    + pose proof (ao_gone _ _ Ha conn Hs). lia.
Qed.

(** *** Writes *)

(** The write looked at waits, or there is none. *)
Lemma wired_rested h conn m :
  (forall sk, dr_sockets (mc_driver m) !! conn = Some sk -> sk_write sk = None \/ sk_writable sk = false) ->
  wired (Some conn) h m -> wired None h m.
Proof.
  intros Hr [H1 H2]. split; [|exact H2]. intros c sk Hs. destruct (H1 c sk Hs) as [[[= ->]|P1] P2 P3]; (split; [|done|done]); right; [|done].
  by apply Hr.
Qed.

Lemma wired_write_some h conn : dleads (wired (Some conn) h) (wired None h) (write_some fuel conn).
Proof.
  intros m u m1 Hm Hok. unfold write_some, dbind, get_socket, dgets in Hm.
  destruct (dr_sockets (mc_driver m) !! conn) as [sk|] eqn:Hs; [|injection Hm as <- <-; apply (wired_rested h conn); [by rewrite Hs|done]].
  destruct (sk_write sk) as [w|] eqn:Hw.
  2:{ injection Hm as <- <-. apply (wired_rested h conn); [|done]. intros sk'. rewrite Hs. intros [= <-]. by left. }
  cbn [mod_socket mod_driver dmodify] in Hm.
  destruct (wd_sockets _ _ _ Hok conn sk Hs) as [_ P2 (wi & P3 & P4)]. rewrite Hw in P4. cbn [wire_ok] in P4.
  destruct (write_loop fuel sk w _) as [[[ended w'] m2]|] eqn:Hl; [|done]. pose proof Hl as Hfr.
  apply write_loop_frame in Hfr as [Hcore Hdrv]. eapply write_loop_wire in Hl as (wi' & Hwire & Hwok & Hwhole); [|exact P3|exact P4].
  cbn [upd mc_core mc_driver mc_wire] in Hcore, Hdrv, Hwire.
  assert (Hwne : forall t, t <> sk_token sk -> mc_wire m2 !! t = mc_wire m !! t) by (intros t Ht; by rewrite Hwire, lookup_insert_ne).
  assert (Hweq : mc_wire m2 !! sk_token sk = Some wi') by (by rewrite Hwire, lookup_insert_eq).
  destruct ended as [failed|]; cbn in Hm; injection Hm as <- <-.
  - eapply (wired_change (Some conn) None h m _ conn sk (sk <| sk_write := None |>)); [..|exact Hok]; try done;
      cbn [upd mc_core mc_driver mc_wire dr_sockets dr_ready dr_next_token]; rewrite ?Hdrv; try done.
    + intros r Hr. apply elem_of_app. by left.
    + exact (alter_decide (fun s => s <| sk_write := None |>) conn _ sk Hs).
    + by intros c Hne [= ->].
    + by right; left.
    + exists wi'. split; [done|]. cbn [upd sk_write wire_ok]. destruct Hwok as [Hle (before & Hf & Hsent)].
      rewrite Hf, concat_app, Hsent. cbn [concat]. rewrite app_nil_r. destruct failed.
      * right. split; [apply prefix_app, prefix_take|]. left. exists (Z.of_nat (wr_written w')). apply elem_of_app. right.
        cbn [upd mc_driver dr_ready]. apply elem_of_app. right. constructor.
      * left. by rewrite (Hwhole eq_refl), firstn_all.
  - eapply (wired_change (Some conn) None h m _ conn sk (sk <| sk_writable := false |> <| sk_write := Some w' |>)); [..|exact Hok]; try done;
      cbn [upd mc_core mc_driver mc_wire dr_sockets dr_ready dr_next_token]; rewrite ?Hdrv; try done.
    + cbn [upd dr_sockets]. intros c. destruct (decide (c = conn)) as [->|]; [by rewrite !lookup_alter_eq, Hs|by rewrite !lookup_alter_ne].
    + by intros c Hne [= ->].
    + by right; right.
    + by exists wi'.
Qed.

Lemma wired_end_write e h conn : keeps (wired e h) (end_write conn).
Proof.
  intros m u m1 Hm Hok. unfold end_write, dbind, get_socket, dgets in Hm.
  destruct (dr_sockets (mc_driver m) !! conn) as [sk|] eqn:Hs; [|by injection Hm as <- <-].
  destruct (sk_write sk) as [w|] eqn:Hw; [|by injection Hm as <- <-]. cbn in Hm. injection Hm as <- <-.
  destruct (wd_sockets _ _ _ Hok conn sk Hs) as [_ P2 (wi & P3 & P4)]. rewrite Hw in P4. destruct P4 as [Hle (before & Hf & Hsent)].
  eapply (wired_change e e h m _ conn sk (sk <| sk_write := None |>)); [..|exact Hok]; try done.
  - intros r Hr. apply elem_of_app. by left.
  - exact (alter_decide (fun s => s <| sk_write := None |>) conn _ sk Hs).
  - by right; left.
  - exists wi. split; [done|]. cbn [upd sk_write wire_ok]. right. rewrite Hf, concat_app, Hsent. cbn [concat]. rewrite app_nil_r.
    split; [apply prefix_app, prefix_take|]. left. exists (Z.of_nat (wr_written w)). apply elem_of_app. right.
    cbn [upd mc_driver dr_ready]. apply elem_of_app. right. constructor.
Qed.

(** *** Connects *)

Lemma wired_close e h conn : keeps (wired e h) (close conn).
Proof.
  intros m u m1 Hm Hok. unfold close, dbind, get_socket, dgets in Hm.
  destruct (dr_sockets (mc_driver m) !! conn) as [sk|] eqn:Hs; [|by injection Hm as <- <-]. cbn in Hm. injection Hm as _ <-.
  eapply (wired_socket e e h m _ conn); [..|exact Hok]; try done; cbn [upd mc_driver dr_sockets].
  - intros c Hne. by rewrite lookup_delete_ne.
  - intros sk'. by rewrite lookup_delete_eq.
Qed.

#[local] Hint Resolve wired_sys wired_push wired_close wired_end_write : keeps.
#[local] Hint Extern 2 (dleads (wired _ _) _ (mod_driver _)) => (apply wired_driver; intros ?; split_and!; [done|done|by intros ? ?]) : keeps.
#[local] Hint Extern 2 (dleads (wired _ _) _ (dmodify _)) => (apply wired_rest; by intros ?) : keeps.
#[local] Hint Extern 2 (dleads (wired _ _) _ (mod_socket _ _)) => (apply wired_mod_socket; intros ?; by split_and!) : keeps.
#[local] Hint Extern 2 (dleads (wired _ _) _ (get_socket _)) => apply keeps_gets : keeps.
#[local] Hint Extern 2 (dleads (wired _ _) _ (hand _ _)) => (apply wired_hand; reflexivity) : keeps.

Lemma wired_check_connect e h conn : keeps (wired e h) (check_connect conn).
Proof. unfold check_connect. keeps_tac. Qed.
#[local] Hint Resolve wired_check_connect : keeps.

(** A socket opened has a token of its own. *)
Lemma wired_open e h conn address : keeps (wired e h) (open commands conn address).
Proof.
  unfold open. keeps_step; [keeps_tac|]. keeps_step; [keeps_tac|]. destruct a0 as [fd|why]; [|keeps_tac]. apply dleads_gets. intros token.
  set (before := fun m => wired e h m /\ token < dr_next_token (mc_driver m)
    /\ forall c sk, dr_sockets (mc_driver m) !! c = Some sk -> sk_token sk < token).
  apply (dleads_bind _ before).
  { intros m u m1 Hm [Hok <-]. split; [by eapply wired_driver; [|exact Hm|exact Hok]; intros d; split_and!; [done|cbn; lia|]|].
    injection Hm as _ <-. cbn. split; [lia|]. intros c sk Hs. apply (so_token _ _ _ _ _ (wd_sockets _ _ _ Hok c sk Hs)). }
  intros _. apply (dleads_bind _ before).
  { intros m u m1 Hm (Hok & Hrest). split; [by eapply wired_sys|]. unfold sys in Hm. destruct (os_register _ _ _). by injection Hm as _ <-. }
  intros [why|]; [eapply dleads_weaken; [intros m [H _]; exact H|intros m H; exact H|keeps_tac]|].
  intros m u m1 Hm (Hok & Hlt & Hall). cbn in Hm. injection Hm as _ <-.
  eapply (wired_socket e e h m _ conn); [..|exact Hok]; cbn [upd mc_core mc_driver mc_wire dr_sockets dr_next_token dr_ready]; try done.
  - intros c Hne. by rewrite lookup_insert_ne.
  - intros c sk Hne Hs. apply lookup_insert_ne. specialize (Hall c sk Hs). lia.
  - intros sk. rewrite lookup_insert_eq. intros [= <-]. cbn [Socket_new sk_token].
    split; [|intros c old _ Hs; specialize (Hall c old Hs); lia]. split; [by right; left|done|].
    exists (mkWire [] []). split; [apply lookup_insert_eq|by left].
Qed.
#[local] Hint Resolve wired_open : keeps.

(** *** Names *)

Lemma wired_resolve e h conn host port : keeps (wired e h) (resolve conn host port).
Proof. unfold resolve. keeps_tac. Qed.
Lemma wired_take_resolved e h : keeps (wired e h) take_resolved.
Proof. unfold take_resolved. keeps_tac. Qed.
#[local] Hint Resolve wired_resolve wired_take_resolved : keeps.

(** *** Actions *)

Lemma write_done_counted l conn written failed :
  ReadyWriteDone conn written failed ∈ l -> (1 <= ow_writes (owed_ready l) conn)%nat.
Proof.
  induction l as [|x l IH]; [by intros ?%not_elem_of_nil|]. cbn [owed_ready oplus ow_writes].
  intros [<-|H]%elem_of_cons; [|specialize (IH H); lia]. cbn. rewrite one_more_eq. lia.
Qed.

Lemma write_done_queued l conn : (0 < ow_writes (owed_ready l) conn)%nat -> exists written failed, ReadyWriteDone conn written failed ∈ l.
Proof.
  induction l as [|x l IH]; cbn [owed_ready oplus ow_writes]; [cbn; lia|]. intros H.
  destruct (decide (0 < ow_writes (owed_ready l) conn)%nat) as [(w & f & Hin)%IH|Hz]; [exists w, f; by constructor|].
  assert (Hx : (0 < ow_writes (answer_of (InReady x)) conn)%nat) by lia. destruct x as [[]| |c w f| | | | |]; cbn in Hx; try lia.
  exists w, f. unfold one_more in Hx. destruct (Z.eqb_spec conn c) as [->|]; [constructor|lia].
Qed.

(** A write is not asked for of a connection whose last one failed. *)
Lemma write_not_cut extra conn m : client commands (oplus (owes_write conn nothing_owed) extra) m -> ~ cut [] conn m.
Proof.
  intros [_ Ha] Hcut.
  assert (Hdue : (1 <= writes_due (owes (oplus (owes_write conn nothing_owed) extra) m) (mc_core m) conn)%nat).
  { unfold writes_due, owes. cbn. rewrite one_more_eq. lia. }
  destruct (cr_conns (mc_core m) !! conn) as [s|] eqn:Hs; [|pose proof (ao_gone _ _ Ha conn Hs); lia].
  destruct (ao_conns _ _ Ha conn s Hs) as [_ Hw _ Hf]. destruct Hcut as [[written Hin]|[_ Hd]].
  - apply write_done_counted in Hin. unfold writes_due, owes, owed in Hw. cbn in Hw. rewrite one_more_eq in Hw.
    cbn [app] in Hin. destruct (cn_write_in_flight s); lia.
  - destruct (Hd s Hs) as [Hfree Hfl]. rewrite Hfl in Hw. lia.
Qed.

Lemma wired_write extra conn head bytes :
  dleads (fun m => client commands (oplus (owes_write conn nothing_owed) extra) m /\ wired None [] m) (wired None [])
    (carry_out commands fuel (ActWrite conn head bytes)).
Proof.
  cbn [carry_out]. apply dleads_gets. intros [sk|]; [|eapply dleads_weaken; [intros m [[_ H] _]; exact H|intros m H; exact H|keeps_tac]].
  set (asks := fun m => m <| mc_wire ::= alter (fun w => w <| wi_frames ::= fun l => l ++ [wire_bytes head bytes] |>) (sk_token sk) |>).
  apply (dleads_bind _ (fun m => exists m0, m = asks m0 /\ client commands (oplus (owes_write conn nothing_owed) extra) m0
    /\ wired None [] m0 /\ dr_sockets (mc_driver m0) !! conn = Some sk)).
  { intros m u m1 [= _ <-] [[Hc Hok] Hs]. by exists m. }
  intros _. eapply dleads_bind; [|intros _; apply wired_write_some]. intros m u m1 [= _ <-] (m0 & -> & Hc & Hok & Hs).
  destruct (wd_sockets _ _ _ Hok conn sk Hs) as [_ P2 (wi & P3 & P4)].
  assert (Hn : sk_write sk = None).
  { pose proof (writing_no_write _ _ _ _ Hc sk Hs) as Hw. unfold has_write in Hw. apply bool_decide_eq_false in Hw. by apply eq_None_not_Some. }
  rewrite Hn in P4. destruct P4 as [P4|[_ []%(write_not_cut _ _ _ Hc)]].
  apply (wired_change None (Some conn) [] m0 _ conn sk (sk <| sk_write := Some (mkWriting head bytes 0) |> <| sk_writable := true |>));
    [done|done|done|done| | |done|done| | |done].
  - exact (alter_decide (fun s => s <| sk_write := Some (mkWriting head bytes 0) |> <| sk_writable := true |>) conn _ sk Hs).
  - intros t Ht. by apply lookup_alter_ne.
  - by left.
  - exists (wi <| wi_frames ::= fun l => l ++ [wire_bytes head bytes] |>). split; [subst asks; cbn [upd mc_wire]; by rewrite lookup_alter_eq, P3|].
    cbn [upd sk_write wire_ok]. split; [cbn; lia|]. exists (wi_frames wi). split; [done|]. cbn [upd wi_sent wr_written]. by rewrite take_0, app_nil_r.
Qed.

Lemma wired_carry_out extra a :
  dleads (fun m => client commands (oplus (action_owes a) extra) m /\ wired None [] m) (wired None []) (carry_out commands fuel a).
Proof.
  destruct a as [conn host port|conn address|conn|conn|conn head bytes|conn|conn|conn|];
    try (eapply dleads_weaken; [intros m [_ H]; exact H|intros m H; exact H|cbn [carry_out]; keeps_tac]; fail).
  eapply dleads_weaken; [|intros m H; exact H|apply (wired_write extra)]. intros m [Hc H]. split; [|done].
  revert Hc. apply client_same; [done|]. intros c. unfold owes. cbn. unfold one_more. rewrite (Z.eqb_sym conn). split_and!; lia.
Qed.

Lemma dleads_and (P1 P2 Q1 Q2 : Machine -> Prop) A (p : DM A) :
  dleads P1 Q1 p -> dleads P2 Q2 p -> dleads (fun m => P1 m /\ P2 m) (fun m => Q1 m /\ Q2 m) p.
Proof. intros H1 H2 m a m' Hm [Hp1 Hp2]. split; [by eapply H1|by eapply H2]. Qed.

Lemma wired_apply n : keeps (fun m => client_ok commands m /\ wired None [] m) (apply_loop commands fuel n).
Proof.
  induction n as [|n IH]; cbn [apply_loop]; [apply keeps_fuel|]. apply dleads_gets. intros [|a l].
  { by intros m u m1 [= _ <-] [H _]. }
  remember (a :: l) as actions eqn:Hl. clear Hl.
  apply (dleads_bind _ (fun m => client commands (owes_actions actions nothing_owed) m /\ wired None [] m)).
  { intros m u m1 Hm [[Hc Hok] Ha]. split; [by eapply client_take_actions|by eapply (wired_hand None [] InActionsTaken)]. }
  intros _. apply (dleads_bind _ (fun m => client_ok commands m /\ wired None [] m)); [|intros _; apply IH].
  apply (dleads_for_each _ actions (fun l m => client commands (owes_actions l nothing_owed) m /\ wired None [] m)).
  intros action l' m u m1 Hm [Hc%client_next_action Hok]. split; [by eapply client_carry_out|by eapply wired_carry_out].
Qed.

(** *** Readiness *)

Lemma wired_handle_fired h f : keeps (wired None h) (handle_fired fuel f).
Proof.
  destruct f as [[token readable] writable]. unfold handle_fired. destruct (token =? WAKER); [keeps_tac|].
  keeps_step; [keeps_tac|]. case_match; [|keeps_tac]. rename z into conn. apply dleads_gets. intros [socket|]; [|apply dleads_and_l, keeps_ret].
  apply (dleads_bind _ (wired (Some conn) h)).
  { intros m u m1 [= _ <-] [Hok Hs]. destruct (wd_sockets _ _ _ Hok conn socket Hs) as [_ P2 P3].
    set (f := fun s => s <| sk_readable ::= orb readable |> <| sk_writable ::= orb writable |>).
    apply (wired_change None (Some conn) h m _ conn socket (f socket)); [done|done|done|done| |done|done|done|by left|done|done].
    exact (alter_decide f conn _ socket Hs). }
  intros _. apply (dleads_bind _ (wired (Some conn) h)); [keeps_tac|intros _].
  apply dleads_gets. intros sk.
  assert (Hrest : (forall s, sk = Some s -> sk_write s = None \/ sk_writable s = false) ->
    dleads (fun m => wired (Some conn) h m /\ dr_sockets (mc_driver m) !! conn = sk) (wired None h) (dret tt)).
  { intros Hr m u m1 [= _ <-] [Hok Hs]. apply (wired_rested h conn); [|done]. by rewrite Hs. }
  destruct sk as [sk|]; [|by apply Hrest]. destruct (bool_decide_reflect (is_Some (sk_write sk))) as [Hw|Hw%eq_None_not_Some]; cbn [andb].
  - destruct (sk_writable sk) eqn:Hwr; cbn [dwhen]; [apply dleads_and_l, wired_write_some|]. apply Hrest. intros s [= <-]. by right.
  - apply Hrest. intros s [= <-]. by left.
Qed.
#[local] Hint Resolve wired_handle_fired : keeps.

Lemma wired_wait h timeout : keeps (wired None h) (wait fuel timeout).
Proof. unfold wait. keeps_tac. Qed.
Lemma wired_others e h : keeps (wired e h) others.
Proof. unfold others. keeps_tac. Qed.
#[local] Hint Resolve wired_wait wired_others : keeps.
Lemma wired_sleep h timeout : keeps (wired None h) (sleep fuel timeout).
Proof. unfold sleep. keeps_tac. Qed.
#[local] Hint Resolve wired_sleep : keeps.

(** More in the queue. *)
Lemma wired_queue e h f :
  (forall d, dr_sockets (f d) = dr_sockets d /\ dr_next_token (f d) = dr_next_token d /\ exists more, dr_ready (f d) = dr_ready d ++ more) ->
  keeps (wired e h) (mod_driver f).
Proof.
  intros Hf. apply wired_driver. intros d. destruct (Hf d) as (E1 & E2 & more & E3). rewrite E1, E2, E3. split_and!; [done|done|].
  intros r Hr. apply elem_of_app. by left.
Qed.
#[local] Hint Extern 3 (dleads (wired _ _) _ (mod_driver _)) =>
  (apply wired_queue; intros ?; split_and!; [done|done|eexists; reflexivity]) : keeps.

Lemma wired_extend_posted e h : keeps (wired e h) (extend_posted commands).
Proof. unfold extend_posted. keeps_tac. Qed.
#[local] Hint Resolve wired_extend_posted : keeps.
Lemma wired_core_deadline e h : keeps (wired e h) (core_deadline commands).
Proof. unfold core_deadline. keeps_tac. Qed.
#[local] Hint Resolve wired_core_deadline : keeps.
Lemma wired_timers_due e h : keeps (wired e h) (timers_due commands).
Proof. unfold timers_due. keeps_tac. Qed.
Lemma wired_take_inbox e h : keeps (wired e h) (take_inbox commands).
Proof. unfold take_inbox. keeps_tac. Qed.
#[local] Hint Resolve wired_timers_due wired_take_inbox : keeps.

(** *** Reads *)

Lemma wired_pull_from e h conn : keeps (wired e h) (pull_from cpu fuel conn).
Proof.
  intros m a m' Hm Hok. unfold pull_from, dbind, get_socket, dgets in Hm.
  destruct (dr_sockets (mc_driver m) !! conn) as [sk|] eqn:Hs; [|by injection Hm as <- <-].
  destruct (_ || _); [by injection Hm as <- <-|].
  destruct (pull_loop cpu fuel conn sk m) as [[[pulled sk'] m1]|] eqn:Hl; [|done].
  apply pull_loop_frame in Hl as (Hcore & Hdrv & Hwire & _ & Hwr & Htok & Hwrt & _). cbn in Hm. injection Hm as <- <-.
  destruct (wd_sockets _ _ _ Hok conn sk Hs) as [P1 P2 (wi & P3 & P4)].
  eapply (wired_change e e h m _ conn sk sk'); [..|exact Hok]; try done;
    cbn [upd mc_core mc_driver mc_wire dr_sockets dr_ready dr_next_token]; rewrite ?Hdrv, ?Hwire; try done.
  - exact (alter_decide (fun _ => sk') conn _ sk Hs).
  - by rewrite Hwr, Hwrt.
  - exists wi. rewrite Hwr. split; [done|]. unfold wire_ok in *. destruct (sk_write sk); [done|].
    destruct P4 as [P4|[P4 P5]]; [by left|right; split; [done|]]. revert P5. apply cut_more; [done|]. by intros r.
Qed.
#[local] Hint Resolve wired_pull_from : keeps.
Lemma wired_pull_pass e h : keeps (wired e h) (pull_pass cpu fuel).
Proof. unfold pull_pass. keeps_tac. Qed.
#[local] Hint Resolve wired_pull_pass : keeps.
Lemma wired_pass : keeps (wired None []) (pass commands cpu fuel).
Proof. unfold pass. keeps_tac. Qed.

(** *** The loop *)

(** The whole of it. *)
Definition wires_ok (m : Machine) : Prop := engine_ok commands m /\ wired None [] m.

Lemma keeps_wires A (p : DM A) : keeps (engine_ok commands) p -> keeps (wired None []) p -> keeps wires_ok p.
Proof. apply dleads_and. Qed.

Lemma wires_apply_actions : keeps wires_ok (apply_actions commands fuel).
Proof.
  intros m u m1 Hm [[Hc Hi] Hok]. destruct (wired_apply fuel m u m1 Hm (conj Hc Hok)) as [Hc' Hok'].
  split; [split; [done|]|done]. by eapply (outer_apply_actions commands fuel inbox_ok).
Qed.

(** The front of the queue in hand. *)
Lemma wired_pop ready rest g :
  (forall d, dr_ready d = ready :: rest -> dr_sockets (g d) = dr_sockets d /\ dr_next_token (g d) = dr_next_token d /\ dr_ready (g d) = rest) ->
  dleads (fun m => wired None [] m /\ dr_ready (mc_driver m) = ready :: rest) (wired None [ready]) (mod_driver g).
Proof.
  intros Hg m u m1 [= _ <-] [Hok Hd]. destruct (Hg (mc_driver m) Hd) as (E1 & E2 & E3). revert Hok.
  apply wired_same; cbn [upd mc_driver]; [done|by rewrite E2|done|]. intros conn [H|H]; [left|by right].
  cbn [upd mc_driver]. by rewrite E3; rewrite Hd in H.
Qed.

Lemma wired_put_down ready m :
  is_write_done (InReady ready) = false -> wired None [ready] m -> wired None [] m.
Proof.
  intros Hn. apply wired_same; [done|done|done|]. intros conn [[written H]|H]; [left; exists written|by right].
  apply elem_of_app in H as [H%list_elem_of_singleton|H]; [by subst ready|exact H].
Qed.

(** An entry in hand, as the system sees it too. *)
Definition wire_in_hand (ready : Ready) (m : Machine) : Prop := in_hand commands ready m /\ wired None [ready] m.

Lemma wires_hand_ready ready : dleads (wire_in_hand ready) wires_ok (hand commands (InReady ready)).
Proof.
  intros m u m1 Hm [Hh Hok]. split; [by eapply engine_hand_ready|]. destruct (is_write_done (InReady ready)) eqn:Hw.
  - destruct ready as [| |conn written failed| | | | |]; try done.
    eapply (wired_write_done nothing_owed); [exact Hm|split; [|exact Hok]]. destruct Hh as [Hc _]. revert Hc. apply client_same; [done|].
    intros c. unfold owes. cbn. lia.
  - eapply wired_hand; [exact Hw|exact Hm|]. by eapply wired_put_down.
Qed.

#[local] Hint Resolve wired_pass wires_apply_actions : keeps.
#[local] Hint Extern 3 (dleads wires_ok _ _) => (apply keeps_wires; [solve [eauto 3 with keeps nocore]|solve [eauto 3 with keeps nocore]]) : keeps.

Lemma wires_pop ready rest g :
  (forall d, dr_ready d = ready :: rest -> dr_sockets (g d) = dr_sockets d /\ dr_resolving (g d) = dr_resolving d
             /\ dr_ready (g d) = rest /\ dr_inbox (g d) = dr_inbox d /\ dr_next_token (g d) = dr_next_token d) ->
  dleads (fun m => wires_ok m /\ dr_ready (mc_driver m) = ready :: rest) (wire_in_hand ready) (mod_driver g).
Proof.
  intros Hg m u m1 Hm [[He Hok] Hd]. split.
  - eapply (engine_pop commands ready rest g); [|exact Hm|by split]. intros d H. by destruct (Hg d H) as (? & ? & ? & ? & ?).
  - eapply (wired_pop ready rest g); [|exact Hm|by split]. intros d H. by destruct (Hg d H) as (? & ? & ? & ? & ?).
Qed.

Lemma wires_run_plains n : keeps wires_ok (run_plains commands n).
Proof.
  induction n as [|n IH]; cbn [run_plains]; [apply keeps_fuel|]. apply dleads_gets. intros d.
  destruct (_ <=? _)%nat; [apply dleads_and_l, keeps_ret|]. destruct (dr_ready d) as [|[posted| | | | | | |] rest] eqn:Hd;
    try (apply dleads_and_l, keeps_ret). destruct posted; try (apply dleads_and_l, keeps_ret).
  eapply (dleads_bind _ (wire_in_hand (ReadyPosted (PostPlain plain deadline)))).
  - eapply dleads_weaken; [|intros m H; exact H|eapply (wires_pop _ rest)]; [|done]. intros m [He <-]. by split.
  - intros _. apply (dleads_bind _ wires_ok); [apply wires_hand_ready|intros _; apply IH].
Qed.
Lemma wired_run_one_timer e h : keeps (wired e h) (on_core run_one_timer).
Proof.
  intros m a m' Hm. apply (wired_hand e h (InReady ReadyTimers) eq_refl m tt m'). apply on_core_eq in Hm as ->.
  unfold hand, on_core. cbn [run_input run_ready]. unfold bind, ret. by destruct (run_one_timer (mc_core m)).
Qed.
#[local] Hint Resolve wires_run_plains wired_run_one_timer : keeps.

Lemma wires_run ready : dleads (wire_in_hand ready) wires_ok (run commands fuel ready).
Proof.
  unfold run. apply (dleads_bind _ wires_ok); [|intros _; keeps_tac].
  assert (Hn : answer_of (InReady ready) = nothing_owed -> is_write_done (InReady ready) = false ->
    forall p : DM unit, keeps wires_ok p -> dleads (wire_in_hand ready) wires_ok p).
  { intros Hn Hw p Hp. eapply dleads_weaken; [|intros m H; exact H|exact Hp]. intros m [Hh Hok].
    split; [by eapply in_hand_none|by eapply wired_put_down]. }
  destruct ready as [posted| | | | | | |]; try apply wires_hand_ready.
  - destruct posted; try apply wires_hand_ready; (apply Hn; [done|done|]); keeps_tac.
  - apply Hn; [done|done|]. keeps_tac. apply keeps_wires; [apply engine_timers_again|]. apply wired_driver. intros d. split_and!; [done|done|].
    intros r Hr. by constructor.
Qed.

Lemma wires_step_loop n deadline block looked : keeps wires_ok (step_loop commands cpu fuel n deadline block looked).
Proof.
  revert deadline looked. induction n as [|n IH]; intros deadline looked; cbn [step_loop]; [apply keeps_fuel|].
  keeps_step; [keeps_tac|]. keeps_step; [keeps_tac|]. keeps_step; [keeps_tac|]. apply dleads_gets. intros d.
  destruct (if (_ <? _)%nat then head (dr_ready d) else None) as [ready|] eqn:Hh.
  - destruct (_ <? _)%nat; [|done]. destruct (dr_ready d) as [|ready' rest] eqn:Hd; [done|]. injection Hh as ->.
    apply (dleads_bind _ (wire_in_hand ready)); [|intros _; apply (dleads_bind _ wires_ok); [apply wires_run|intros _; apply keeps_ret]].
    eapply dleads_weaken; [|intros m H; exact H|apply (wires_pop ready rest)]; [intros m [He <-]; by split|].
    intros d' Hd'. cbn. by rewrite Hd'.
  - apply dleads_and_l. keeps_tac.
Qed.

(** What the class on top does. *)
Lemma wires_sys A (f : os -> A * os) : keeps wires_ok (sys f).
Proof. keeps_tac. Qed.
Lemma wires_hand input :
  takes input = false -> answer_of input = nothing_owed -> is_write_done input = false -> keeps wires_ok (hand commands input).
Proof. intros. apply keeps_wires; [apply keeps_engine; [by apply keeps_hand|apply outer_hand; exact _]|by apply wired_hand]. Qed.
Lemma wires_rest f :
  (forall m, mc_core (f m) = mc_core m /\ mc_driver (f m) = mc_driver m /\ mc_wire (f m) = mc_wire m) -> keeps wires_ok (dmodify f).
Proof.
  intros Hf. apply keeps_wires; [apply keeps_engine|by apply wired_rest].
  - apply client_rest. intros m. by destruct (Hf m) as (? & ? & ?).
  - apply outer_modify; [exact _|]. intros m. by destruct (Hf m) as (? & ? & ?).
Qed.
Lemma wires_carry_out_actions : keeps wires_ok (carry_out_actions commands fuel).
Proof. unfold carry_out_actions. keeps_tac. Qed.

Lemma wires_run_ops ops : keeps wires_ok (run_ops commands cpu fuel ops).
Proof.
  apply keeps_for_each. intros [body|deadline block|kept]; cbn [run_op]; [unfold call, carry_out_actions; keeps_tac| |keeps_tac].
  keeps_step; [apply wires_step_loop|keeps_tac].
Qed.

Lemma wires_new peer_type ids mode inbox s :
  fresh_inbox inbox -> wires_ok (Engine_new peer_type ids mode inbox s).
Proof.
  intros Hi. split; [by apply engine_new|]. unfold Engine_new. destruct (os_now s) as [now s'].
  split; cbn [mc_driver Driver_new dr_sockets]; intros conn *; by rewrite lookup_empty.
Qed.

(** The bytes are a prefix of the frames either way. *)
Lemma wire_prefix h m conn wi w : wire_ok h m conn wi w -> wi_sent wi `prefix_of` concat (wi_frames wi).
Proof.
  destruct w as [w|]; cbn [wire_ok]; [|by intros [->|[]]]. intros (_ & before & -> & ->).
  rewrite concat_app. cbn [concat]. rewrite app_nil_r. apply prefix_app, prefix_take.
Qed.

(** A client's run and one socket of it. *)
Lemma run_wired peer_type ids mode inbox s ops m conn sk :
  fresh_inbox inbox -> run_ops commands cpu fuel ops (Engine_new peer_type ids mode inbox s) = Some (tt, m) ->
  dr_sockets (mc_driver m) !! conn = Some sk -> socket_ok None [] m conn sk.
Proof. intros Hi Hm. destruct (wires_run_ops ops _ _ _ Hm (wires_new _ _ _ _ _ Hi)) as [_ Hok]. apply (wd_sockets _ _ _ Hok). Qed.

(** C3: What a socket takes is the frames its connection asked to write, in their order.  However the system cuts the
    writes up, the bytes it took are a prefix of those frames joined; while one is being written, those before it went
    whole, of it what was written, and the driver waits for the system to say the socket can take more; while none is,
    all of them went, or the last write failed and the core knows or is about to. *)
Theorem wire_is_frames peer_type ids mode inbox (s : os) ops m conn sk :
  fresh_inbox inbox -> run_ops commands cpu fuel ops (Engine_new peer_type ids mode inbox s) = Some (tt, m) ->
  dr_sockets (mc_driver m) !! conn = Some sk ->
  exists wi, mc_wire m !! sk_token sk = Some wi
    /\ wi_sent wi `prefix_of` concat (wi_frames wi)
    /\ match sk_write sk with
       | Some w => sk_writable sk = false
           /\ exists before, wi_frames wi = before ++ [wire_frame w]
                /\ wi_sent wi = concat before ++ take (wr_written w) (wire_frame w)
       | None => wi_sent wi = concat (wi_frames wi)
           \/ (exists written, ReadyWriteDone conn written true ∈ dr_ready (mc_driver m)) \/ dead conn (mc_core m)
       end.
Proof.
  intros Hi Hm Hs. destruct (run_wired _ _ _ _ _ _ _ _ _ Hi Hm Hs) as [P1 _ (wi & P3 & P4)]. exists wi. split; [done|].
  split; [by eapply wire_prefix|]. destruct (sk_write sk) as [w|]; cbn [wire_ok] in P4.
  - destruct P4 as (_ & before & Hf & Hsent). split; [by destruct P1 as [|[]]|by exists before].
  - destruct P4 as [->|[Hp [Hc|Hc]]]; [by left|right; by left|right; by right].
Qed.

(** Where the write in flight on a connection is, and that it is of the front. *)
Lemma front_in_flight m conn cs front :
  wires_ok m -> written_ok [] m -> cr_conns (mc_core m) !! conn = Some cs ->
  cn_write_in_flight cs = true -> cn_out cs = Busy -> snd <$> head (cn_outgoing cs) = Some front ->
  (exists sk w, dr_sockets (mc_driver m) !! conn = Some sk /\ sk_write sk = Some w /\ sk_writable sk = false
     /\ writing_parts w = frame_parts front)
  \/ (exists written failed, ReadyWriteDone conn written failed ∈ dr_ready (mc_driver m))
  \/ ActWrite conn (of_head front) (of_bytes front) ∈ cr_actions (mc_core m).
Proof.
  intros [[[Hr Ha] _] Hok] (h & Hf & Hcar) Hs Hfl Hb Hq. rewrite app_nil_r in Hf.
  destruct (Hf conn cs Hs) as [_ Hfront]. destruct (Hfront Hfl Hb) as (f & Hhd & Hlast). rewrite Hq in Hhd. injection Hhd as <-.
  destruct (ao_conns _ _ Ha conn cs Hs) as [_ Hw _ _]. rewrite Hfl in Hw. unfold writes_due, owes, owed in Hw. cbn in Hw.
  destruct (decide (0 < count_if (writes conn) (cr_actions (mc_core m)))%nat) as [(a & Hin & Ha')%count_if_pos|Hz].
  { destruct a; try done. cbn in Ha'. apply Z.eqb_eq in Ha' as ->. right. right.
    assert (Hp := last_write_pending conn h (cr_actions (mc_core m)) _ _ ltac:(lia) Hin). rewrite Hlast in Hp. by injection Hp as -> ->. }
  destruct (decide (0 < ow_writes (owed_ready (dr_ready (mc_driver m))) conn)%nat) as [H|Hz'];
    [right; left; by apply write_done_queued|left].
  unfold at_socket, held in Hw. destruct (dr_sockets (mc_driver m) !! conn) as [sk|] eqn:Hsk; [|lia].
  unfold has_write in Hw. destruct (sk_write sk) as [w|] eqn:Hsw; [|cbn in Hw; lia].
  exists sk, w. split_and!; [done|done|by destruct (so_parked _ _ _ _ _ (wd_sockets _ _ _ Hok conn sk Hsk)) as [|[|]]; [|congruence|]|].
  rewrite last_write_none, (Hcar conn sk w Hsk Hsw) in Hlast by lia. congruence.
Qed.

(** C5: A client's connections do not stall, down to the sockets.  A live connection with frames queued has its first
    frame with the system: it is what the socket is writing, parked until the socket can take more, or its write's end
    is in the driver's queue, or its write is among the actions still to be carried out. *)
Theorem client_never_stalls peer_type ids mode inbox (s : os) ops m conn cs tracker front rest :
  fresh_inbox inbox -> run_ops commands cpu fuel ops (Engine_new peer_type ids mode inbox s) = Some (tt, m) ->
  cr_conns (mc_core m) !! conn = Some cs -> cn_living cs = true -> cn_outgoing cs = (tracker, front) :: rest ->
  (exists sk w, dr_sockets (mc_driver m) !! conn = Some sk /\ sk_write sk = Some w /\ sk_writable sk = false
     /\ wr_head w = of_head front /\ wr_bytes w = of_bytes front)
  \/ (exists written failed, ReadyWriteDone conn written failed ∈ dr_ready (mc_driver m))
  \/ ActWrite conn (of_head front) (of_bytes front) ∈ cr_actions (mc_core m).
Proof.
  intros Hi Hm Hs Hl Hq. pose proof (wires_run_ops ops _ _ _ Hm (wires_new _ _ _ _ _ Hi)) as Hok.
  pose proof (written_run_ops commands cpu fuel ops _ _ _ Hm (written_new _ _ _ _ _)) as Hw.
  pose proof (living_channel _ _ _ _ (proj1 (proj1 (proj1 Hok))) Hs Hl) as Hch. rewrite Hq in Hch. destruct Hch as [Hb Hfl].
  destruct (front_in_flight m conn cs front Hok Hw Hs Hfl Hb) as [(sk & w & H1 & H2 & H3 & H4)|H]; [by rewrite Hq| |by right].
  left. exists sk, w. injection H4 as H4 H5. by split_and!.
Qed.
End Wire.

(** ** A run *)

#[export] Instance demo_os_ok : OsOk.
Proof. intros fd bytes s count s'. unfold os_write, demo_os. destruct (Z.even s); intros [= <- <-]. unfold demo_chunk. lia. Qed.

Lemma demo_socket : (fun sk => (sk_token sk, wr_written <$> sk_write sk)) <$> dr_sockets (mc_driver demo_machine) !! 1 = Some (1, Some 5%nat).
Proof. vm_compute. reflexivity. Qed.

Lemma wire_is_frames_witness :
  exists sk wi w before, dr_sockets (mc_driver demo_machine) !! 1 = Some sk /\ mc_wire demo_machine !! sk_token sk = Some wi
    /\ sk_write sk = Some w /\ sk_writable sk = false /\ wr_written w = 5%nat
    /\ wi_frames wi = before ++ [wire_frame w] /\ wi_sent wi = concat before ++ take 5 (wire_frame w).
Proof.
  destruct (proj1 (fmap_Some _ _ _) demo_socket) as (sk & Hs & Heq). injection Heq as _ Hw.
  destruct (wire_is_frames (fun _ => CallClosing) demo_cpu 20 5 7 Queue None (1 : @os demo_os) demo_ops demo_machine 1 sk no_inbox demo_runs Hs)
    as (wi & Hwi & _ & Hok).
  exists sk, wi. destruct (sk_write sk) as [w|]; [|discriminate Hw]. injection Hw as Hw. destruct Hok as (Hp & before & Hf & Hsent).
  rewrite <- Hw in Hsent. exists w, before. exact (conj Hs (conj Hwi (conj eq_refl (conj Hp (conj (eq_sym Hw) (conj Hf Hsent)))))).
Defined.

Lemma demo_queue : (fun cs => (cn_living cs, length (cn_outgoing cs))) <$> cr_conns (mc_core demo_machine) !! 1 = Some (true, 1%nat).
Proof. vm_compute. reflexivity. Qed.

Lemma demo_no_action : dr_ready (mc_driver demo_machine) = [] /\ cr_actions (mc_core demo_machine) = [].
Proof. vm_compute. split; reflexivity. Qed.

Lemma client_never_stalls_witness :
  exists cs entry sk w, cr_conns (mc_core demo_machine) !! 1 = Some cs /\ cn_outgoing cs = [entry]
    /\ dr_sockets (mc_driver demo_machine) !! 1 = Some sk /\ sk_write sk = Some w /\ sk_writable sk = false
    /\ wr_head w = of_head entry.2 /\ wr_bytes w = of_bytes entry.2.
Proof.
  destruct (proj1 (fmap_Some _ _ _) demo_queue) as (cs & Hs & Heq). injection Heq as Hl Hq. destruct demo_no_action as [Hr Ha].
  destruct (cn_outgoing cs) as [|[t front] [|]] eqn:Ho; [discriminate Hq| |discriminate Hq].
  destruct (client_never_stalls (fun _ => CallClosing) demo_cpu 20 5 7 Queue None (1 : @os demo_os) demo_ops demo_machine 1 cs t front []
    no_inbox demo_runs Hs (eq_sym Hl) Ho) as [(sk & w & H)|[(written & failed & H)|H]].
  - exists cs, (t, front), sk, w. exact (conj Hs (conj Ho H)).
  - rewrite Hr in H. destruct (not_elem_of_nil _ H).
  - rewrite Ha in H. destruct (not_elem_of_nil _ H).
Defined.
