(* ===== verification/Pending.v ===== *)
(** * Pending: what a threaded client's caller waits on (pending.rs)

    One result delivered later ([Slot], with its [Completer] and its [Pending]),
    and a bounded queue of messages that drops its oldest ([Queue], read through
    [Messages]).  Both are used by several threads: the callers' steps, a locked
    section, a notify or a wake each, interleave.  A task's waker is known by its
    number; a condition variable is how many threads wait in it and how many were
    woken and have not run yet. *)
From S2P Require Import Prelude Records Defaults Interleaving.
Open Scope Z_scope.

(** ** One result *)

Module Slot.
Section Slot.
Context {T : Type}.

Record SlotState := mkSlotState { ss_result : option (result T Error); ss_waker : option Z; ss_blocked : nat }.
#[export] Instance eta_SlotState : Eta SlotState := fun r => mkSlotState (ss_result r) (ss_waker r) (ss_blocked r).

Definition SlotState_new : SlotState := mkSlotState None None 0.

(** [deliver] under the lock: the waker it then wakes, and whether a thread
    blocks. *)
Definition deliver_locked (res : result T Error) (s : SlotState) : option Z * bool * SlotState :=
  let s := match ss_result s with None => s <| ss_result := Some res |> | Some _ => s end in
  (ss_waker s, (0 <? ss_blocked s)%nat, s <| ss_waker := None |>).

(** A turn of [wait]'s loop: the result, or the thread blocks. *)
Definition wait_turn (s : SlotState) : option (result T Error) * SlotState :=
  match ss_result s with
  | Some res => (Some res, s <| ss_result := None |>)
  | None => (None, s <| ss_blocked ::= S |>)
  end.

(** [Future::poll]: [None] is [Poll::Pending]. *)
Definition poll (waker : Z) (s : SlotState) : option (result T Error) * SlotState :=
  match ss_result s with
  | Some res => (Some res, s <| ss_result := None |>)
  | None => (None, s <| ss_waker := Some waker |>)
  end.

(** Where the completer is: it holds the slot until it completed or was dropped,
    then notifies, then wakes. *)
Inductive CompleterPoint := CHolds | CNotifies (waker : option Z) (blocked : bool) | CWakes (waker : option Z) | CGone.

(** Where the [Pending] is: with its owner, a thread in [wait], a task that awaits
    it by a waker, or spent, with what it gave. *)
Inductive PendingPoint :=
| PHeld | PWaits | PBlocked | PNotified | PParked (waker : Z) (woken : bool) | PSpent (given : result T Error).

Record SlotRun := mkSlotRun {
  sr_slot : SlotState;
  sr_completer : CompleterPoint;
  sr_pending : PendingPoint;
  sr_delivered : option (result T Error);
}.
#[export] Instance eta_SlotRun : Eta SlotRun := fun r => mkSlotRun (sr_slot r) (sr_completer r) (sr_pending r) (sr_delivered r).

Inductive SlotLabel :=
| LComplete (res : result T Error)
| LDrop                       (* the completer dropped: [NotConnected] *)
| LNotify
| LWakeTask
| LWait (on_io_thread : bool)
| LTurn                       (* a turn of [wait]'s loop *)
| LSpurious                   (* the condition variable lets a thread go unasked *)
| LPoll (waker : Z).

Definition deliver (res : result T Error) (r : SlotRun) : option SlotRun :=
  match sr_completer r with
  | CHolds =>
      let '(waker, blocked, s) := deliver_locked res (sr_slot r) in
      Some (r <| sr_slot := s |> <| sr_completer := CNotifies waker blocked |> <| sr_delivered := Some res |>)
  | _ => None
  end.

Definition notify (blocked : bool) (p : PendingPoint) : PendingPoint :=
  match p with PBlocked => if blocked then PNotified else PBlocked | p => p end.

Definition wake_task (waker : option Z) (p : PendingPoint) : PendingPoint :=
  match p with
  | PParked w woken => PParked w (woken || bool_decide (waker = Some w))
  | p => p
  end.

Definition slot_step (l : SlotLabel) (r : SlotRun) : option SlotRun :=
  match l with
  | LComplete res => deliver res r
  | LDrop => deliver (Err NotConnected) r
  | LNotify =>
      match sr_completer r with
      | CNotifies waker blocked => Some (r <| sr_completer := CWakes waker |> <| sr_pending ::= notify blocked |>)
      | _ => None
      end
  | LWakeTask =>
      match sr_completer r with
      | CWakes waker => Some (r <| sr_completer := CGone |> <| sr_pending ::= wake_task waker |>)
      | _ => None
      end
  | LWait on_io_thread =>
      match sr_pending r with
      | PHeld | PParked _ _ =>
          Some (r <| sr_pending := if on_io_thread && bool_decide (ss_result (sr_slot r) = None)
                                   then PSpent (Err OnIoThread) else PWaits |>)
      | _ => None
      end
  | LTurn =>
      match sr_pending r with
      | PWaits =>
          let '(given, s) := wait_turn (sr_slot r) in
          Some (r <| sr_slot := s |> <| sr_pending := match given with Some res => PSpent res | None => PBlocked end |>)
      | PNotified =>
          let '(given, s) := wait_turn ((sr_slot r) <| ss_blocked ::= pred |>) in
          Some (r <| sr_slot := s |> <| sr_pending := match given with Some res => PSpent res | None => PBlocked end |>)
      | _ => None
      end
  | LSpurious => match sr_pending r with PBlocked => Some (r <| sr_pending := PNotified |>) | _ => None end
  | LPoll waker =>
      match sr_pending r with
      | PHeld | PParked _ _ =>
          let '(given, s) := poll waker (sr_slot r) in
          Some (r <| sr_slot := s |> <| sr_pending := match given with Some res => PSpent res | None => PParked waker false end |>)
      | _ => None
      end
  end.

(** [pending]: a slot with its completer and its [Pending]. *)
Definition slot_start : SlotRun := mkSlotRun SlotState_new CHolds PHeld None.
Definition slot_reaches : SlotRun -> Prop := steps_to slot_step slot_start.

(** *** The invariant *)

(** Before the result: a blocked thread is counted, and a task that waits left its waker. *)
Definition awaited (s : SlotState) (p : PendingPoint) : Prop :=
  match p with
  | PHeld | PWaits => ss_blocked s = 0%nat
  | PBlocked | PNotified => ss_blocked s = 1%nat
  | PParked w woken => ss_blocked s = 0%nat /\ (woken = false -> ss_waker s = Some w)
  | PSpent given => ss_blocked s = 0%nat /\ given = Err OnIoThread
  end.

(** After it: the result is there for whoever waits, and the completer still owes a
    blocked thread its notify and a task its wake. *)
Definition served (d : result T Error) (c : CompleterPoint) (s : SlotState) (p : PendingPoint) : Prop :=
  match p with
  | PHeld | PWaits => ss_result s = Some d /\ ss_blocked s = 0%nat
  | PBlocked => ss_result s = Some d /\ ss_blocked s = 1%nat /\ match c with CNotifies _ blocked => blocked = true | _ => False end
  | PNotified => ss_result s = Some d /\ ss_blocked s = 1%nat
  | PParked w woken =>
      ss_result s = Some d /\ ss_blocked s = 0%nat
      /\ (woken = false -> match c with CNotifies waker _ | CWakes waker => waker = Some w | _ => False end)
  | PSpent given => ss_blocked s = 0%nat /\ (given = Err OnIoThread \/ given = d)
  end.

Definition slot_ok (r : SlotRun) : Prop :=
  match sr_completer r with
  | CHolds => ss_result (sr_slot r) = None /\ sr_delivered r = None /\ awaited (sr_slot r) (sr_pending r)
  | c => exists d, sr_delivered r = Some d /\ served d c (sr_slot r) (sr_pending r)
  end.

Lemma slot_step_ok l r r' : slot_ok r -> slot_step l r = Some r' -> slot_ok r'.
Proof.
  intros Hok Hl. destruct r as [[res waker blocked] comp pend del].
  destruct comp, pend; unfold slot_ok in Hok; cbn in Hok; destr_all; subst; destruct l; cbn in Hl; try discriminate Hl.
  all: unfold deliver, deliver_locked, wait_turn, poll in Hl; cbn in Hl; step_cases Hl; unfold slot_ok; cbn.
  all: try (eexists; split; [reflexivity|]); repeat split; auto.
  intros [-> Hf%bool_decide_eq_false]%orb_false_iff. auto.
Qed.

Lemma slot_reaches_ok r : slot_reaches r -> slot_ok r.
Proof. apply (steps_keep slot_step slot_ok); [exact slot_step_ok|]. by repeat split. Qed.

(** What a step of the completer's is to deliver: its result, or [NotConnected] when it is dropped. *)
Definition delivery (l : SlotLabel) : option (result T Error) :=
  match l with LComplete res => Some res | LDrop => Some (Err NotConnected) | _ => None end.

(** What the labels so far say of a state. *)
Definition slot_trace (ls : list SlotLabel) (r : SlotRun) : Prop :=
  slot_ok r /\ omap delivery ls = match sr_delivered r with Some d => [d] | None => [] end
  /\ forall given, sr_pending r = PSpent given -> sr_delivered r = Some given \/ given = Err OnIoThread /\ LWait true ∈ ls.

Lemma slot_step_trace ls l r r' : slot_trace ls r -> slot_step l r = Some r' -> slot_trace (ls ++ [l]) r'.
Proof.
  intros (Hok & Hd & Hg) Hl. pose proof (slot_step_ok l r r' Hok Hl) as Hok'.
  assert (Hin : forall x, x ∈ ls ++ [l] <-> x ∈ ls \/ x = l) by (intros; rewrite elem_of_app, list_elem_of_singleton; done).
  split; [done|]. rewrite omap_app, Hd. clear Hok' Hd. setoid_rewrite Hin. clear Hin.
  destruct r as [[res waker blocked] comp pend del]. cbn in Hg |- *.
  destruct comp, pend; unfold slot_ok in Hok; cbn in Hok; destr_all; subst; destruct l; cbn in Hl; try discriminate Hl.
  all: unfold deliver, deliver_locked, wait_turn, poll in Hl; cbn in Hl; step_cases Hl; cbn; rewrite ?app_nil_r.
  all: split; [reflexivity|]; intros ? Hp; try discriminate Hp; injection Hp as <-; try naive_solver.
  all: match goal with H : _ && _ = true |- _ => apply andb_true_iff in H as [-> _] end; auto.
Qed.

Lemma slot_run_trace ls r : run_steps slot_step ls slot_start = Some r -> slot_trace ls r.
Proof. apply (steps_trace slot_step slot_trace); [exact slot_step_trace|]. by repeat split. Qed.

(** C30: A result is delivered once and nobody waits for it in vain.  Once the completer is gone, it delivered exactly
    one result: the one it completed with, or [NotConnected] if it was dropped.  No thread is blocked for it, a task
    that waits was woken, and what the [Pending] gave or will give is that result; or it gave [OnIoThread], to a wait on
    the io thread. *)
Theorem slot_delivers (ls : list SlotLabel) (r : SlotRun) :
  run_steps slot_step ls slot_start = Some r -> sr_completer r = CGone ->
  exists d, omap delivery ls = [d] /\
    match sr_pending r with
    | PBlocked => False
    | PHeld | PWaits | PNotified => ss_result (sr_slot r) = Some d
    | PParked _ woken => ss_result (sr_slot r) = Some d /\ woken = true
    | PSpent given => given = d \/ given = Err OnIoThread /\ LWait true ∈ ls
    end.
Proof.
  intros Hr Hg. destruct (slot_run_trace ls r Hr) as (Hok & Hd & Hgiven). unfold slot_ok in Hok. rewrite Hg in Hok.
  destruct Hok as (d & Hdel & Hs). rewrite Hdel in Hd, Hgiven. exists d. split; [done|].
  destruct (sr_pending r) as [| | | |w woken|given]; cbn in Hs; try tauto.
  - destruct Hs as (H1 & _ & H2). destruct woken; [done|by specialize (H2 eq_refl)].
  - destruct (Hgiven given eq_refl) as [[= ->]|H]; [by left|by right].
Qed.
End Slot.
Arguments SlotState : clear implicits.
Arguments SlotRun : clear implicits.
Arguments PendingPoint : clear implicits.
Arguments SlotLabel : clear implicits.
End Slot.

(** A thread waits, the completer delivers 7 and notifies. *)
Definition demo_slot_labels : list (Slot.SlotLabel Z) :=
  [Slot.LWait false; Slot.LTurn; Slot.LComplete (Ok 7); Slot.LNotify; Slot.LWakeTask].

Definition demo_slot : Slot.SlotRun Z := default Slot.slot_start (run_steps Slot.slot_step demo_slot_labels Slot.slot_start).

Lemma slot_delivers_witness :
  omap Slot.delivery demo_slot_labels = [Ok 7] /\ Slot.ss_result (Slot.sr_slot demo_slot) = Some (Ok 7).
Proof.
  assert (Hr : run_steps Slot.slot_step demo_slot_labels Slot.slot_start = Some demo_slot) by (vm_compute; reflexivity).
  destruct (Slot.slot_delivers demo_slot_labels demo_slot Hr eq_refl) as (d & Hd & Hs).
  assert (Heq : d = Ok 7) by (vm_compute in Hd; injection Hd as <-; reflexivity). rewrite Heq in Hd, Hs. exact (conj Hd Hs).
Defined.

(** ** A queue of messages *)

Module Queue.
Section Queue.
Context {A : Type}.

Record QueueState := mkQueueState {
  qs_messages : list A;
  qs_wakers : list (Z * Z);       (* the key of a [Next], its task's waker *)
  qs_next_key : Z;
  qs_closed : bool;
  qs_dropped : Z;
  qs_dropping : bool;
  qs_blocked : nat;
}.
#[export] Instance eta_QueueState : Eta QueueState := fun r =>
  mkQueueState (qs_messages r) (qs_wakers r) (qs_next_key r) (qs_closed r) (qs_dropped r) (qs_dropping r) (qs_blocked r).

Definition QueueState_new : QueueState := mkQueueState [] [] 0 false 0 false 0.

(** [push] under the lock: the wakers to wake, the message it warns of, and whether
    a reader blocks; [None] when the queue is closed. *)
Definition push_locked (capacity : nat) (message : A) (s : QueueState) :
    option (list (Z * Z) * option A * bool * QueueState) :=
  if qs_closed s then None
  else
    let '(warning, s) :=
      if (length (qs_messages s) <? capacity)%nat then (None, s <| qs_dropping := false |>)
      else
        match qs_messages s with
        | oldest :: rest =>
            (if qs_dropping s then None else Some oldest,
             s <| qs_messages := rest |> <| qs_dropped ::= Z.add 1 |> <| qs_dropping := true |>)
        | [] => (None, s)
        end in
    Some (qs_wakers s, warning, (0 <? qs_blocked s)%nat,
          s <| qs_messages ::= fun l => l ++ [message] |> <| qs_wakers := [] |>).

(** [close] under the lock. *)
Definition close_locked (s : QueueState) : list (Z * Z) * QueueState :=
  (qs_wakers s, s <| qs_closed := true |> <| qs_wakers := [] |>).

(** What a turn of a reader comes to. *)
Inductive Read := Given (message : A) | Ended | Waits.

(** A turn of [recv]'s loop, its time up or not. *)
Definition recv_turn (time_up : bool) (s : QueueState) : Read * QueueState :=
  match qs_messages s with
  | message :: rest => (Given message, s <| qs_messages := rest |>)
  | [] => if qs_closed s || time_up then (Ended, s) else (Waits, s <| qs_blocked ::= S |>)
  end.

Definition try_recv (s : QueueState) : option A * QueueState :=
  match qs_messages s with
  | message :: rest => (Some message, s <| qs_messages := rest |>)
  | [] => (None, s)
  end.

(** The first waker kept under [k], replaced. *)
Fixpoint set_waker (k waker : Z) (l : list (Z * Z)) : list (Z * Z) :=
  match l with
  | [] => []
  | (each, w) :: l => if each =? k then (each, waker) :: l else (each, w) :: set_waker k waker l
  end.

Definition has_waker (k : Z) (l : list (Z * Z)) : bool := existsb (fun e : Z * Z => e.1 =? k) l.

Definition new_waker (waker : Z) (s : QueueState) : QueueState :=
  s <| qs_next_key := qs_next_key s + 1 |> <| qs_wakers ::= fun l => l ++ [(qs_next_key s + 1, waker)] |>.

(** [Next::poll], and the key the [Next] then holds. *)
Definition next_poll (key : option Z) (waker : Z) (s : QueueState) : Read * option Z * QueueState :=
  match qs_messages s with
  | message :: rest => (Given message, key, s <| qs_messages := rest |>)
  | [] =>
      if qs_closed s then (Ended, key, s)
      else
        match key with
        | Some k =>
            if has_waker k (qs_wakers s) then (Waits, key, s <| qs_wakers ::= set_waker k waker |>)
            else (Waits, Some (qs_next_key s + 1), new_waker waker s)
        | None => (Waits, Some (qs_next_key s + 1), new_waker waker s)
        end
  end.

(** [Next]'s drop. *)
Definition next_drop (key : option Z) (s : QueueState) : QueueState :=
  match key with
  | Some k => s <| qs_wakers ::= filter (fun e : Z * Z => e.1 <> k) |>
  | None => s
  end.

(** *** The readers and the pushers *)

(** A [Next] that some task holds: its key, the waker it waits by, and whether that
    was woken since. *)
Record Next := mkNext { nx_key : option Z; nx_parked : option Z; nx_woken : bool }.

Record QueueRun := mkQueueRun {
  qr_state : QueueState;
  qr_waiting : nat;               (* readers in the condition variable *)
  qr_notified : nat;              (* readers let go by it that have not run yet *)
  qr_notifies : nat;              (* [notify_one] calls to come *)
  qr_notify_alls : nat;           (* [notify_all] calls to come *)
  qr_to_wake : list (Z * Z);      (* wakers taken, to be woken *)
  qr_nexts : gmap Z Next;
  qr_pushed : list A;             (* what was pushed while the queue was open *)
  qr_left : list (A * bool);      (* what left it, in order: read, or dropped *)
}.
#[export] Instance eta_QueueRun : Eta QueueRun := fun r =>
  mkQueueRun (qr_state r) (qr_waiting r) (qr_notified r) (qr_notifies r) (qr_notify_alls r) (qr_to_wake r) (qr_nexts r)
    (qr_pushed r) (qr_left r).

Inductive QueueLabel :=
| QPush (message : A) | QClose | QNotifyOne | QNotifyAll | QWake
| QRecv (time_up : bool)      (* a reader calls [recv] *)
| QRun (time_up : bool)       (* a reader let go runs on *)
| QLetGo                      (* the condition variable lets a reader go, its time up or for no reason *)
| QTryRecv
| QNew (next : Z) | QPoll (next waker : Z) | QDrop (next : Z).

Definition reads (read : Read) (r : QueueRun) : QueueRun :=
  match read with
  | Given message => r <| qr_left ::= fun l => l ++ [(message, true)] |>
  | Ended => r
  | Waits => r <| qr_waiting ::= S |>
  end.

Definition woken_by (waker : Z) (n : Next) : Next :=
  if bool_decide (nx_parked n = Some waker) then mkNext (nx_key n) (nx_parked n) true else n.

(** The oldest message, when a push drops it. *)
Definition pushed_out (capacity : nat) (messages : list A) : list (A * bool) :=
  if (length messages <? capacity)%nat then [] else match messages with oldest :: _ => [(oldest, false)] | [] => [] end.

Definition queue_step (capacity : nat) (l : QueueLabel) (r : QueueRun) : option QueueRun :=
  let s := qr_state r in
  match l with
  | QPush message =>
      match push_locked capacity message s with
      | None => Some r
      | Some (wakers, _, blocked, s') =>
          Some (r <| qr_state := s' |> <| qr_to_wake ::= fun l => l ++ wakers |>
                  <| qr_notifies ::= (if blocked : bool then S else id) |>
                  <| qr_pushed ::= fun l => l ++ [message] |>
                  <| qr_left ::= fun l => l ++ pushed_out capacity (qs_messages s) |>)
      end
  | QClose =>
      Some (r <| qr_state := (close_locked s).2 |> <| qr_to_wake ::= fun l => l ++ (close_locked s).1 |>
              <| qr_notify_alls ::= S |>)
  | QNotifyOne =>
      guard_step (0 <? qr_notifies r)%nat
        ((if (0 <? qr_waiting r)%nat then r <| qr_waiting ::= pred |> <| qr_notified ::= S |> else r)
           <| qr_notifies ::= pred |>)
  | QNotifyAll =>
      guard_step (0 <? qr_notify_alls r)%nat
        (r <| qr_notified ::= Nat.add (qr_waiting r) |> <| qr_waiting := 0%nat |> <| qr_notify_alls ::= pred |>)
  | QWake =>
      match qr_to_wake r with
      | (_, waker) :: rest => Some (r <| qr_to_wake := rest |> <| qr_nexts ::= fmap (woken_by waker) |>)
      | [] => None
      end
  | QRecv time_up => Some (reads (recv_turn time_up s).1 (r <| qr_state := (recv_turn time_up s).2 |>))
  | QRun time_up =>
      let s := s <| qs_blocked ::= pred |> in
      guard_step (0 <? qr_notified r)%nat
        (reads (recv_turn time_up s).1 (r <| qr_state := (recv_turn time_up s).2 |> <| qr_notified ::= pred |>))
  | QLetGo => guard_step (0 <? qr_waiting r)%nat (r <| qr_waiting ::= pred |> <| qr_notified ::= S |>)
  | QTryRecv =>
      Some (r <| qr_state := (try_recv s).2 |>
              <| qr_left ::= fun l => l ++ match (try_recv s).1 with Some message => [(message, true)] | None => [] end |>)
  | QNew next =>
      guard_step (bool_decide (qr_nexts r !! next = None)) (r <| qr_nexts ::= <[next := mkNext None None false]> |>)
  | QPoll next waker =>
      match qr_nexts r !! next with
      | None => None
      | Some n =>
          let '(read, key, s') := next_poll (nx_key n) waker s in
          let parked := match read with Waits => Some waker | _ => None end in
          Some (r <| qr_state := s' |> <| qr_nexts ::= <[next := mkNext key parked false]> |>
                  <| qr_left ::= fun l => l ++ match read with Given message => [(message, true)] | _ => [] end |>)
      end
  | QDrop next =>
      match qr_nexts r !! next with
      | None => None
      | Some n => Some (r <| qr_state ::= next_drop (nx_key n) |> <| qr_nexts ::= delete next |>)
      end
  end.

Definition queue_start : QueueRun := mkQueueRun QueueState_new 0 0 0 0 [] ∅ [] [].

(** [Queue::new] makes the capacity 1 at least. *)
Definition queue_reaches (capacity : nat) : QueueRun -> Prop := steps_to (queue_step (Nat.max capacity 1)) queue_start.

(** *** The messages *)

Definition drops (l : list (A * bool)) : Z := sum_of (fun e : A * bool => if e.2 then 0 else 1) l.

Record order_ok (capacity : nat) (r : QueueRun) : Prop := {
  qo_order : map fst (qr_left r) ++ qs_messages (qr_state r) = qr_pushed r;
  qo_bound : (length (qs_messages (qr_state r)) <= capacity)%nat;
  qo_dropped : qs_dropped (qr_state r) = drops (qr_left r);
}.

(** Reads take the first message, or nothing. *)
Lemma order_read capacity r r' given :
  qs_messages (qr_state r) = match given with Some m => m :: qs_messages (qr_state r') | None => qs_messages (qr_state r') end ->
  qr_left r' = qr_left r ++ match given with Some m => [(m, true)] | None => [] end ->
  qr_pushed r' = qr_pushed r -> qs_dropped (qr_state r') = qs_dropped (qr_state r) -> order_ok capacity r -> order_ok capacity r'.
Proof.
  intros Hm Hl Hp Hd [Ho Hb Hdr]. split; rewrite ?Hl, ?Hp, ?Hd.
  - rewrite <- Ho, Hm, map_app, <- app_assoc. by destruct given.
  - rewrite Hm in Hb. destruct given; simpl in Hb; lia.
  - rewrite Hdr. unfold drops. rewrite sum_of_app. destruct given; simpl; lia.
Qed.

Lemma recv_turn_order capacity time_up r r' s n :
  order_ok capacity r -> qs_messages s = qs_messages (qr_state r) -> qs_dropped s = qs_dropped (qr_state r) ->
  qr_left r' = qr_left r -> qr_pushed r' = qr_pushed r -> qr_notified r' = n -> qr_state r' = (recv_turn time_up s).2 ->
  order_ok capacity (reads (recv_turn time_up s).1 r').
Proof.
  intros Hok Hm Hd Hl Hp _ Hs. unfold recv_turn in *. destruct (qs_messages s) as [|m rest] eqn:Hq.
  - apply (order_read capacity r _ None); [|..|done]; destruct (qs_closed s || time_up); cbn; rewrite ?Hs, ?app_nil_r; cbn; congruence.
  - apply (order_read capacity r _ (Some m)); [|..|done]; cbn; rewrite ?Hs; cbn; congruence.
Qed.

Lemma order_step capacity l r r' :
  (0 < capacity)%nat -> order_ok capacity r -> queue_step capacity l r = Some r' -> order_ok capacity r'.
Proof.
  intros Hcap Hok Hl. destruct l; cbn [queue_step] in Hl.
  - unfold push_locked in Hl. destruct (qs_closed (qr_state r)); [by injection Hl as <-|]. destruct Hok as [Ho Hb Hd].
    unfold pushed_out in Hl. destruct (length (qs_messages (qr_state r)) <? capacity)%nat eqn:Hc.
    + injection Hl as <-. split; cbn.
      * by rewrite app_nil_r, <- Ho, app_assoc.
      * rewrite length_app. apply Nat.ltb_lt in Hc. simpl. lia.
      * by rewrite app_nil_r.
    + destruct (qs_messages (qr_state r)) as [|oldest rest] eqn:Hm; [simpl in Hc; apply Nat.ltb_ge in Hc; lia|]. injection Hl as <-. split; cbn.
      * rewrite <- Ho, map_app. simpl. by rewrite <- !app_assoc.
      * rewrite length_app. simpl in *. lia.
      * unfold drops. rewrite Hd, sum_of_app. simpl. unfold drops. lia.
  - injection Hl as <-. by destruct Hok.
  - step_cases Hl; by destruct Hok.
  - step_cases Hl; by destruct Hok.
  - step_cases Hl; by destruct Hok.
  - injection Hl as <-. by eapply (recv_turn_order capacity time_up r).
  - step_cases Hl. by eapply (recv_turn_order capacity time_up r).
  - step_cases Hl; by destruct Hok.
  - injection Hl as <-. unfold try_recv. destruct (qs_messages (qr_state r)) as [|m rest] eqn:Hm.
    + apply (order_read capacity r _ None); cbn; rewrite ?Hm; done.
    + apply (order_read capacity r _ (Some m)); cbn; rewrite ?Hm; done.
  - step_cases Hl; by destruct Hok.
  - destruct (qr_nexts r !! next) as [n|]; [|done]. unfold next_poll in Hl. destruct (qs_messages (qr_state r)) as [|m rest] eqn:Hm.
    + destruct (qs_closed (qr_state r)), (nx_key n); try (destruct (has_waker _ _)); injection Hl as <-;
        (apply (order_read capacity r _ None); cbn; rewrite ?Hm, ?app_nil_r; done).
    + injection Hl as <-. apply (order_read capacity r _ (Some m)); cbn; rewrite ?Hm; done.
  - step_cases Hl; destruct Hok; split; unfold next_drop; by destruct (nx_key _).
Qed.

(** *** The readers blocked in [recv] *)

(** With a reader waiting, every message has a reader on its way: one let go, or one
    a notify to come lets go. *)
Record recv_ok (r : QueueRun) : Prop := {
  rk_blocked : qs_blocked (qr_state r) = (qr_waiting r + qr_notified r)%nat;
  rk_notified : (0 < qr_waiting r)%nat -> (length (qs_messages (qr_state r)) <= qr_notified r + qr_notifies r)%nat;
  rk_closed : (0 < qr_waiting r)%nat -> qs_closed (qr_state r) = true -> (0 < qr_notify_alls r)%nat;
}.

#[local] Arguments Nat.ltb : simpl never.

Lemma push_locked_spec capacity m s wakers warning blocked s' :
  push_locked capacity m s = Some (wakers, warning, blocked, s') ->
  (wakers = qs_wakers s /\ blocked = (0 <? qs_blocked s)%nat /\ (length (qs_messages s') <= S (length (qs_messages s)))%nat)
  /\ (qs_blocked s' = qs_blocked s /\ qs_closed s = false /\ qs_closed s' = false)
  /\ qs_wakers s' = [] /\ qs_next_key s' = qs_next_key s /\ qs_messages s' <> [].
Proof.
  unfold push_locked. destruct (qs_closed s) eqn:Hc; [done|]. intros H.
  assert (Hne : forall l : list A, l ++ [m] <> []) by (by intros []).
  destruct (length (qs_messages s) <? capacity)%nat, (qs_messages s) as [|o l] eqn:Hm; injection H as <- <- <- <-; cbn;
    rewrite ?Hm, ?length_app; cbn; split_and!; auto; lia.
Qed.

Lemma recv_step capacity l r r' : recv_ok r -> queue_step capacity l r = Some r' -> recv_ok r'.
Proof.
  intros [Hb Hn Hc] Hl. destruct l; cbn [queue_step] in Hl; unfold guard_step in Hl.
  - destruct (push_locked _ _ _) as [[[[wakers warning] blocked] s']|] eqn:Hp; [|by injection Hl as <-].
    destruct (push_locked_spec _ _ _ _ _ _ _ Hp) as ((_ & -> & Hlen) & (Hb' & Hc1 & Hc2) & _). injection Hl as <-.
    destruct (Nat.ltb_spec 0 (qs_blocked (qr_state r))); split; cbn; rewrite ?Hb', ?Hc2; try done; intros; unfold id; lia.
  - injection Hl as <-. split; cbn; [done|done|lia].
  - destruct (Nat.ltb_spec 0 (qr_notifies r)); [|done]. injection Hl as <-.
    destruct (Nat.ltb_spec 0 (qr_waiting r)); split; cbn; intros; try lia; by apply Hc.
  - destruct (Nat.ltb_spec 0 (qr_notify_alls r)); [|done]. injection Hl as <-. split; cbn; lia.
  - step_cases Hl; by split.
  - injection Hl as <-. unfold recv_turn. destruct (qs_messages (qr_state r)) as [|m rest] eqn:Hm.
    + destruct (qs_closed (qr_state r) || time_up) eqn:Ht; split; cbn; rewrite ?Hm; try done; cbn; try lia.
      intros _ Hcl. by rewrite Hcl in Ht.
    + split; cbn; try done. cbn in Hn. lia.
  - destruct (Nat.ltb_spec 0 (qr_notified r)); [|done]. injection Hl as <-. unfold recv_turn. cbn [upd qs_messages qs_closed].
    destruct (qs_messages (qr_state r)) as [|m rest] eqn:Hm.
    + destruct (qs_closed (qr_state r) || time_up) eqn:Ht; split; cbn; rewrite ?Hm; try done; cbn; try lia.
      intros _ Hcl. by rewrite Hcl in Ht.
    + split; cbn; try done; cbn in Hn; lia.
  - destruct (Nat.ltb_spec 0 (qr_waiting r)); [|done]. injection Hl as <-. split; cbn; intros; try lia; apply Hc; done || lia.
  - injection Hl as <-. unfold try_recv. destruct (qs_messages (qr_state r)) as [|m rest] eqn:Hm; split; cbn; rewrite ?Hm; try done.
    cbn in Hn. lia.
  - step_cases Hl; by split.
  - destruct (qr_nexts r !! next) as [n|]; [|done]. unfold next_poll in Hl. destruct (qs_messages (qr_state r)) as [|m rest] eqn:Hm.
    + destruct (qs_closed (qr_state r)) eqn:Hcl, (nx_key n); try (destruct (has_waker _ _)); injection Hl as <-;
        split; cbn; rewrite ?Hm, ?Hcl; done.
    + injection Hl as <-. split; cbn; try done. cbn in Hn. lia.
  - step_cases Hl; unfold next_drop; destruct (nx_key _); by split.
Qed.

(** *** The tasks that wait *)

Record nexts_ok (r : QueueRun) : Prop := {
  nk_idle : qs_wakers (qr_state r) <> [] -> qs_messages (qr_state r) = [] /\ qs_closed (qr_state r) = false;
  nk_keys i n k : qr_nexts r !! i = Some n -> nx_key n = Some k -> k <= qs_next_key (qr_state r);
  nk_distinct i j n n' k :
    qr_nexts r !! i = Some n -> qr_nexts r !! j = Some n' -> nx_key n = Some k -> nx_key n' = Some k -> i = j;
  nk_owned k w : (k, w) ∈ qs_wakers (qr_state r) -> exists i n, qr_nexts r !! i = Some n /\ nx_key n = Some k;
  nk_once : NoDup (qs_wakers (qr_state r)).*1;
  nk_parked i n w :
    qr_nexts r !! i = Some n -> nx_parked n = Some w -> nx_woken n = false ->
    (exists k, nx_key n = Some k /\ (k, w) ∈ qs_wakers (qr_state r)) \/ exists k, (k, w) ∈ qr_to_wake r;
}.

Lemma set_waker_keys k w l : (set_waker k w l).*1 = l.*1.
Proof. induction l as [|[e v] l IH]; [done|]. cbn. destruct (e =? k); cbn; [done|by f_equal]. Qed.

Lemma set_waker_own k w l : has_waker k l = true -> (k, w) ∈ set_waker k w l.
Proof.
  induction l as [|[e v] l IH]; [done|]. cbn. destruct (Z.eqb_spec e k) as [->|]; cbn; [intros; by left|]. intros. right. auto.
Qed.

Lemma set_waker_other k w k' w' l : k' <> k -> (k', w') ∈ l -> (k', w') ∈ set_waker k w l.
Proof.
  intros Hk. induction l as [|[e v] l IH]; [done|]. cbn. intros [Heq|Hin]%elem_of_cons.
  - injection Heq as <- <-. destruct (Z.eqb_spec k' k); [done|]. by left.
  - destruct (Z.eqb_spec e k); right; auto.
Qed.

Lemma has_waker_key k l : has_waker k l = true <-> k ∈ l.*1.
Proof.
  induction l as [|[e v] l IH]; cbn; [split; [done|by intros ?%not_elem_of_nil]|]. rewrite elem_of_cons, <- IH.
  destruct (Z.eqb_spec e k) as [->|]; cbn; [tauto|]. split; [auto|intros [?|?]; [congruence|done]].
Qed.

(** A read by a thread changes nothing a task waits by. *)
Lemma nexts_read r r' :
  nexts_ok r ->
  (qs_wakers (qr_state r') = qs_wakers (qr_state r) /\ qs_next_key (qr_state r') = qs_next_key (qr_state r)
   /\ qs_closed (qr_state r') = qs_closed (qr_state r) /\ (qs_messages (qr_state r) = [] -> qs_messages (qr_state r') = [])) ->
  qr_to_wake r' = qr_to_wake r /\ qr_nexts r' = qr_nexts r ->
  nexts_ok r'.
Proof.
  intros [Hi Hk Hd Ho Hn Hp] (Hw & Hnk & Hc & Hm) (Ht & Hx). split; rewrite ?Hw, ?Hnk, ?Hx, ?Ht, ?Hc; auto.
  intros Hne. destruct (Hi Hne). auto.
Qed.

(** A push and a close take every waker, to wake it. *)
Lemma nexts_taken r r' :
  nexts_ok r -> qs_wakers (qr_state r') = [] -> qs_next_key (qr_state r') = qs_next_key (qr_state r) ->
  qr_to_wake r' = qr_to_wake r ++ qs_wakers (qr_state r) -> qr_nexts r' = qr_nexts r ->
  nexts_ok r'.
Proof.
  intros [Hi Hk Hd Ho Hn Hp] Hw Hnk Ht Hx. split; rewrite ?Hw, ?Hnk, ?Hx, ?Ht; auto.
  - done.
  - intros k w Hin. by apply not_elem_of_nil in Hin.
  - constructor.
  - intros i n w Hl Hpk Hwk. right. destruct (Hp i n w Hl Hpk Hwk) as [(k & _ & Hin)|(k & Hin)]; exists k; set_solver.
Qed.

Lemma nexts_woken r waker k rest :
  nexts_ok r -> qr_to_wake r = (k, waker) :: rest ->
  nexts_ok (r <| qr_to_wake := rest |> <| qr_nexts ::= fmap (woken_by waker) |>).
Proof.
  intros [Hi Hk Hd Ho Hn Hp] Ht.
  assert (Hkey : forall n, nx_key (woken_by waker n) = nx_key n) by (intros n; unfold woken_by; by case_bool_decide).
  assert (Hl : forall i n, (woken_by waker <$> qr_nexts r) !! i = Some n -> exists n0, qr_nexts r !! i = Some n0 /\ n = woken_by waker n0).
  { intros i n. rewrite lookup_fmap. destruct (qr_nexts r !! i); [|done]. intros [= <-]. eauto. }
  split; cbn; auto.
  - intros i n k' (n0 & H0 & ->)%Hl. rewrite Hkey. eauto.
  - intros i j n n' k' (n0 & H0 & ->)%Hl (n1 & H1 & ->)%Hl. rewrite !Hkey. eauto.
  - intros k' w Hin. destruct (Ho k' w Hin) as (i & n & H0 & H1). exists i, (woken_by waker n). rewrite lookup_fmap, H0, Hkey. done.
  - intros i n w (n0 & H0 & ->)%Hl. rewrite Hkey. unfold woken_by. case_bool_decide as Hb; cbn; [done|]. intros Hpk Hwk.
    destruct (Hp i n0 w H0 Hpk Hwk) as [?|(k' & Hin)]; [auto|]. right. exists k'. rewrite Ht in Hin. set_solver.
Qed.

(** A [Next] made, or one whose poll does not wait. *)
Lemma nexts_unparked r r' i n :
  nexts_ok r -> nx_parked n = None ->
  (forall k, nx_key n = Some k -> exists old, qr_nexts r !! i = Some old /\ nx_key old = Some k) ->
  qr_nexts r !! i = None \/ qs_wakers (qr_state r) = [] ->
  (qs_wakers (qr_state r') = qs_wakers (qr_state r) /\ qs_next_key (qr_state r') = qs_next_key (qr_state r)
   /\ (qs_wakers (qr_state r) <> [] -> qs_messages (qr_state r') = qs_messages (qr_state r)
                                       /\ qs_closed (qr_state r') = qs_closed (qr_state r))) ->
  qr_to_wake r' = qr_to_wake r -> qr_nexts r' = <[i := n]> (qr_nexts r) ->
  nexts_ok r'.
Proof.
  intros [Hi Hk Hd Ho Hn Hp] Hun Hold Hnew (Hw & Hnk & Hs) Ht Hx. split; rewrite ?Hw, ?Hnk, ?Hx, ?Ht; auto.
  - intros Hne. destruct (Hs Hne) as [-> ->]. auto.
  - intros j m k [(<- & <-)|(_ & Hm)]%lookup_insert_Some Hkey; [|eauto]. destruct (Hold k Hkey) as (old & ? & ?). eauto.
  - intros j1 j2 n1 n2 k Hl1 Hl2 Hk1 Hk2.
    apply lookup_insert_Some in Hl1 as [(<- & <-)|(? & Hl1)]; apply lookup_insert_Some in Hl2 as [(<- & <-)|(? & Hl2)]; [done| | |eauto].
    + destruct (Hold k Hk1) as (old & ? & ?). eauto.
    + destruct (Hold k Hk2) as (old & ? & ?). eauto.
  - intros k w Hin. destruct Hnew as [Hnew|Hnew]; [|rewrite Hnew in Hin; by apply not_elem_of_nil in Hin].
    destruct (Ho k w Hin) as (j & m & Hl & Hm). exists j, m. rewrite lookup_insert_ne; [done|]. by intros ->; rewrite Hnew in Hl.
  - intros j m w [(<- & <-)|(_ & Hm)]%lookup_insert_Some Hpk; [by rewrite Hun in Hpk|eauto].
Qed.

(** A [Next] that waits again, its waker replaced. *)
Lemma nexts_again r i n k waker :
  nexts_ok r -> qr_nexts r !! i = Some n -> nx_key n = Some k -> has_waker k (qs_wakers (qr_state r)) = true ->
  nexts_ok (r <| qr_state ::= fun s => s <| qs_wakers ::= set_waker k waker |> |> <| qr_nexts ::= <[i := mkNext (Some k) (Some waker) false]> |>).
Proof.
  intros [Hi Hk Hd Ho Hn Hp] Hl Hkey Hhas.
  assert (Hold : forall j m k', <[i := mkNext (Some k) (Some waker) false]> (qr_nexts r) !! j = Some m -> nx_key m = Some k' ->
                   exists m0, qr_nexts r !! j = Some m0 /\ nx_key m0 = Some k').
  { intros j m k' [(<- & <-)|(_ & Hm)]%lookup_insert_Some Hk'; [|eauto]. injection Hk' as <-. eauto. }
  split; cbn.
  - intros Hne. apply Hi. intros Hnil. by rewrite Hnil in Hne.
  - intros j m k' Hm Hk'. destruct (Hold j m k' Hm Hk') as (m0 & ? & ?). eauto.
  - intros j1 j2 n1 n2 k' Hl1 Hl2 Hk1 Hk2. destruct (Hold _ _ _ Hl1 Hk1) as (? & ? & ?), (Hold _ _ _ Hl2 Hk2) as (? & ? & ?). eauto.
  - intros k' w Hin%(list_elem_of_fmap_2 fst). rewrite set_waker_keys in Hin. apply list_elem_of_fmap in Hin as ([k0 w0] & Heq & Hin).
    cbn in Heq. subst k0. destruct (Ho k' w0 Hin) as (j & m & Hm & Hk'). destruct (decide (j = i)) as [->|Hne].
    + exists i, (mkNext (Some k) (Some waker) false). rewrite lookup_insert_eq. split; [done|]. cbn. congruence.
    + exists j, m. by rewrite lookup_insert_ne.
  - by rewrite set_waker_keys.
  - intros j m w [(<- & <-)|(Hne & Hm)]%lookup_insert_Some Hpk Hwk.
    + injection Hpk as <-. left. exists k. split; [done|]. by apply set_waker_own.
    + destruct (Hp j m w Hm Hpk Hwk) as [(k' & Hk' & Hin)|?]; [|auto]. left. exists k'. split; [done|].
      apply set_waker_other; [|done]. intros ->. apply Hne. eauto.
Qed.

(** A [Next] that waits under a key of its own. *)
Lemma nexts_fresh r i n waker :
  nexts_ok r -> qr_nexts r !! i = Some n ->
  (forall k, nx_key n = Some k -> has_waker k (qs_wakers (qr_state r)) = false) ->
  qs_messages (qr_state r) = [] -> qs_closed (qr_state r) = false ->
  nexts_ok (r <| qr_state ::= new_waker waker |>
              <| qr_nexts ::= <[i := mkNext (Some (qs_next_key (qr_state r) + 1)) (Some waker) false]> |>).
Proof.
  intros [Hi Hk Hd Ho Hn Hp] Hl Hno Hm Hc. split; cbn; auto.
  - intros j m k [(<- & <-)|(_ & Hj)]%lookup_insert_Some Hkey; [injection Hkey as <-; lia|]. specialize (Hk j m k Hj Hkey). lia.
  - intros j1 j2 n1 n2 k Hl1 Hl2 Hk1 Hk2.
    apply lookup_insert_Some in Hl1 as [(<- & <-)|(? & Hl1)]; apply lookup_insert_Some in Hl2 as [(<- & <-)|(? & Hl2)]; [done| | |eauto].
    + injection Hk1 as <-. specialize (Hk _ _ _ Hl2 Hk2). lia.
    + injection Hk2 as <-. specialize (Hk _ _ _ Hl1 Hk1). lia.
  - intros k w [Hin|Hin]%elem_of_app.
    + destruct (Ho k w Hin) as (j & m & Hj & Hkey). exists j, m. rewrite lookup_insert_ne; [done|]. intros <-.
      rewrite Hl in Hj. injection Hj as <-. specialize (Hno k Hkey). assert (Hyes : has_waker k (qs_wakers (qr_state r)) = true).
      { apply has_waker_key. by apply (list_elem_of_fmap_2 fst) in Hin. }
      congruence.
    + apply list_elem_of_singleton in Hin. injection Hin as -> ->. exists i. eexists. rewrite lookup_insert_eq. by split.
  - rewrite fmap_app. apply NoDup_app. split_and!; [done| |apply NoDup_singleton]. cbn. intros k Hin Heq%list_elem_of_singleton. subst k.
    apply list_elem_of_fmap in Hin as ([k w] & Heq & Hin). cbn in Heq. subst k. destruct (Ho _ _ Hin) as (j & m & Hj & Hkey).
    specialize (Hk _ _ _ Hj Hkey). lia.
  - intros j m w [(<- & <-)|(Hne & Hj)]%lookup_insert_Some Hpk Hwk.
    + injection Hpk as <-. left. eexists. split; [done|]. set_solver.
    + destruct (Hp j m w Hj Hpk Hwk) as [(k' & Hk' & Hin)|?]; [|auto]. left. exists k'. set_solver.
Qed.

Lemma nexts_dropped r i n :
  nexts_ok r -> qr_nexts r !! i = Some n ->
  nexts_ok (r <| qr_state ::= next_drop (nx_key n) |> <| qr_nexts ::= delete i |>).
Proof.
  intros [Hi Hk Hd Ho Hn Hp] Hl.
  assert (Hw : forall k w, (k, w) ∈ qs_wakers (next_drop (nx_key n) (qr_state r)) <-> (k, w) ∈ qs_wakers (qr_state r) /\ nx_key n <> Some k).
  { intros k w. unfold next_drop. destruct (nx_key n) as [own|]; cbn; [|by split; [|tauto]]. rewrite list_elem_of_filter. cbn.
    split; intros [? ?]; split; congruence. }
  assert (Hst : qs_next_key (next_drop (nx_key n) (qr_state r)) = qs_next_key (qr_state r)
                /\ qs_messages (next_drop (nx_key n) (qr_state r)) = qs_messages (qr_state r)
                /\ qs_closed (next_drop (nx_key n) (qr_state r)) = qs_closed (qr_state r)) by (by destruct (nx_key n)).
  destruct Hst as (Hs1 & Hs2 & Hs3). split; cbn [upd qr_state qr_nexts qr_to_wake]; rewrite ?Hs1, ?Hs2, ?Hs3.
  - intros Hne. apply Hi. intros Hnil. apply Hne. unfold next_drop. destruct (nx_key n); cbn; by rewrite Hnil.
  - intros j m k (_ & Hj)%lookup_delete_Some. eauto.
  - intros j1 j2 n1 n2 k (_ & H1)%lookup_delete_Some (_ & H2)%lookup_delete_Some. eauto.
  - intros k w [Hin Hne]%Hw. destruct (Ho k w Hin) as (j & m & Hj & Hkey). exists j, m. rewrite lookup_delete_ne; [done|].
    intros <-. congruence.
  - unfold next_drop. destruct (nx_key n) as [own|]; cbn; [|done]. eapply sublist_NoDup; [exact Hn|]. apply fmap_sublist, sublist_filter.
  - intros j m w (Hne & Hj)%lookup_delete_Some Hpk Hwk. destruct (Hp j m w Hj Hpk Hwk) as [(k' & Hk' & Hin)|?]; [|auto].
    left. exists k'. split; [done|]. apply Hw. split; [done|]. intros Heq. apply Hne. eauto.
Qed.

Lemma nexts_recv time_up r s notified :
  nexts_ok r ->
  qs_wakers s = qs_wakers (qr_state r) /\ qs_next_key s = qs_next_key (qr_state r)
  /\ qs_closed s = qs_closed (qr_state r) /\ qs_messages s = qs_messages (qr_state r) ->
  nexts_ok (reads (recv_turn time_up s).1 (r <| qr_state := (recv_turn time_up s).2 |> <| qr_notified := notified |>)).
Proof.
  intros Hok (H1 & H2 & H3 & H4). unfold recv_turn. destruct (qs_messages s) as [|m rest] eqn:Hm.
  - destruct (qs_closed s || time_up); eapply nexts_read; try exact Hok; cbn; rewrite ?Hm; auto.
  - eapply nexts_read; [exact Hok| |done]. cbn. rewrite <- H4. done.
Qed.

Lemma nexts_step capacity l r r' : nexts_ok r -> queue_step capacity l r = Some r' -> nexts_ok r'.
Proof.
  intros Hok Hl. destruct l; cbn [queue_step] in Hl; unfold guard_step in Hl.
  - destruct (push_locked _ _ _) as [[[[wakers warning] blocked] s']|] eqn:Hp; [|by injection Hl as <-].
    destruct (push_locked_spec _ _ _ _ _ _ _ Hp) as ((-> & _) & _ & Hw & Hk & _). injection Hl as <-.
    by apply (nexts_taken r).
  - injection Hl as <-. by apply (nexts_taken r).
  - destruct (0 <? qr_notifies r)%nat; [|done]. injection Hl as <-. by destruct (0 <? qr_waiting r)%nat; apply (nexts_read r).
  - destruct (0 <? qr_notify_alls r)%nat; [|done]. injection Hl as <-. by apply (nexts_read r).
  - destruct (qr_to_wake r) as [|[k w] rest] eqn:Ht; [done|]. injection Hl as <-. by apply (nexts_woken r w k).
  - injection Hl as <-. by apply (nexts_recv time_up r (qr_state r) (qr_notified r)).
  - destruct (0 <? qr_notified r)%nat; [|done]. injection Hl as <-. by apply nexts_recv.
  - destruct (0 <? qr_waiting r)%nat; [|done]. injection Hl as <-. by apply (nexts_read r).
  - injection Hl as <-. unfold try_recv. destruct (qs_messages (qr_state r)) as [|m rest] eqn:Hm; (eapply nexts_read; [exact Hok| |done]); cbn; rewrite ?Hm; by split_and!.
  - case_bool_decide as Hnone; [|done]. injection Hl as <-. by eapply (nexts_unparked r _ next (mkNext None None false)); auto.
  - destruct (qr_nexts r !! next) as [n|] eqn:Hn; [|done]. unfold next_poll in Hl.
    assert (Hempty : qs_messages (qr_state r) <> [] \/ qs_closed (qr_state r) = true -> qs_wakers (qr_state r) = []).
    { intros Hor. destruct (qs_wakers (qr_state r)) eqn:Hw; [done|]. destruct (nk_idle r Hok); [by rewrite Hw|]. destruct Hor; congruence. }
    destruct (qs_messages (qr_state r)) as [|m rest] eqn:Hm.
    + destruct (qs_closed (qr_state r)) eqn:Hc.
      { injection Hl as <-. eapply (nexts_unparked r _ next (mkNext (nx_key n) None false)); eauto. }
      destruct (nx_key n) as [k|] eqn:Hkey; [destruct (has_waker k (qs_wakers (qr_state r))) eqn:Hh|]; injection Hl as <-.
      * eapply nexts_read; [by eapply (nexts_again r next n k waker)|by cbn|by cbn].
      * eapply nexts_read; [eapply (nexts_fresh r next n waker); [done|done|by rewrite Hkey; intros ? [= <-]|done|done]|by cbn|by cbn].
      * eapply nexts_read; [eapply (nexts_fresh r next n waker); [done|done|by rewrite Hkey|done|done]|by cbn|by cbn].
    + injection Hl as <-. assert (Hw : qs_wakers (qr_state r) = []) by (apply Hempty; by left).
      eapply (nexts_unparked r _ next (mkNext (nx_key n) None false)); eauto. cbn. by rewrite Hw.
  - destruct (qr_nexts r !! next) as [n|] eqn:Hn; [|done]. injection Hl as <-. by apply nexts_dropped.
Qed.

Lemma queue_start_ok capacity : order_ok capacity queue_start /\ recv_ok queue_start /\ nexts_ok queue_start.
Proof.
  split_and!; split; cbn; try done; try lia; try (intros; by rewrite lookup_empty in *).
  - intros k w Hin. by apply not_elem_of_nil in Hin.
  - constructor.
Qed.

(** A stream gives its messages in the order they were pushed, each once, and
    holds [capacity] at most.  What was read or dropped, followed by what it holds,
    is what was pushed; a message is dropped only from a full queue, the oldest, and
    [dropped] counts those. *)
Theorem queue_keeps_order (capacity : nat) (r : QueueRun) :
  queue_reaches capacity r ->
  map fst (qr_left r) ++ qs_messages (qr_state r) = qr_pushed r
  /\ (length (qs_messages (qr_state r)) <= Nat.max capacity 1)%nat
  /\ qs_dropped (qr_state r) = drops (qr_left r).
Proof.
  intros Hr. assert (Hok : order_ok (Nat.max capacity 1) r); [|by destruct Hok].
  eapply (steps_keep (queue_step (Nat.max capacity 1))); [|apply queue_start_ok|exact Hr].
  intros l s s'. apply order_step. lia.
Qed.

(** C29: No reader of a stream waits for what it was not told of.  Once the pushes and
    closes under way have notified and woken, every message held has a reader let go
    for it, if any blocks; no reader blocks on a closed queue; a task that waits for
    a message while one is held, or the queue is closed, was woken; and the queue
    keeps one waker for each [Next] that waits, none for one that is gone. *)
Theorem queue_no_lost_wake (capacity : nat) (r : QueueRun) :
  queue_reaches capacity r -> qr_notifies r = 0%nat -> qr_notify_alls r = 0%nat -> qr_to_wake r = [] ->
  ((0 < qr_waiting r)%nat -> (length (qs_messages (qr_state r)) <= qr_notified r)%nat /\ qs_closed (qr_state r) = false)
  /\ (qs_messages (qr_state r) <> [] \/ qs_closed (qr_state r) = true ->
      forall i n w, qr_nexts r !! i = Some n -> nx_parked n = Some w -> nx_woken n = true)
  /\ NoDup (qs_wakers (qr_state r)).*1
  /\ forall k w, (k, w) ∈ qs_wakers (qr_state r) -> exists i n, qr_nexts r !! i = Some n /\ nx_key n = Some k.
Proof.
  intros Hr H1 H2 H3.
  assert (Hok : recv_ok r /\ nexts_ok r).
  { eapply (steps_keep (queue_step (Nat.max capacity 1)) (fun r => recv_ok r /\ nexts_ok r)); [|by destruct (queue_start_ok 0)|exact Hr].
    intros l s s' [Ha Hb] Hl. split; [by eapply recv_step|by eapply nexts_step]. }
  destruct Hok as [[Hb Hn Hc] [Hi Hk Hd Ho Hnd Hp]]. split_and!; [| |done|done].
  - intros Hw. split; [specialize (Hn Hw); lia|]. destruct (qs_closed (qr_state r)) eqn:Hcl; [|done]. specialize (Hc Hw eq_refl). lia.
  - intros Hor i n w Hl Hpk. destruct (nx_woken n) eqn:Hwk; [done|]. exfalso.
    destruct (Hp i n w Hl Hpk Hwk) as [(k & _ & Hin)|(k & Hin)]; [|rewrite H3 in Hin; by apply not_elem_of_nil in Hin].
    destruct (qs_wakers (qr_state r)) eqn:Hws; [by apply not_elem_of_nil in Hin|]. destruct Hi; [done|]. destruct Hor; congruence.
Qed.
End Queue.
Arguments QueueState : clear implicits.
Arguments QueueRun : clear implicits.
Arguments QueueLabel : clear implicits.
End Queue.

(** A stream of two: a reader blocks and a task waits, three messages come, the
    reader runs on. *)
Definition demo_queue_labels : list (Queue.QueueLabel Z) :=
  [Queue.QRecv false; Queue.QNew 1; Queue.QPoll 1 50; Queue.QPush 7; Queue.QNotifyOne; Queue.QPush 8; Queue.QPush 9;
   Queue.QNotifyOne; Queue.QNotifyOne; Queue.QWake; Queue.QRun false].

Definition demo_queue : Queue.QueueRun Z :=
  default Queue.queue_start (run_steps (Queue.queue_step 2) demo_queue_labels Queue.queue_start).

Lemma queue_keeps_order_witness :
  map fst (Queue.qr_left demo_queue) ++ Queue.qs_messages (Queue.qr_state demo_queue) = Queue.qr_pushed demo_queue
  /\ Queue.qr_pushed demo_queue = [7; 8; 9] /\ Queue.qs_dropped (Queue.qr_state demo_queue) = 1.
Proof.
  assert (Hr : Queue.queue_reaches 2 demo_queue) by (exists demo_queue_labels; vm_compute; reflexivity).
  destruct (Queue.queue_keeps_order 2 demo_queue Hr) as (H & _ & _). split; [exact H|]. split; vm_compute; reflexivity.
Defined.

Lemma queue_no_lost_wake_witness :
  exists n, Queue.qr_nexts demo_queue !! 1 = Some n /\ Queue.nx_parked n = Some 50 /\ Queue.nx_woken n = true.
Proof.
  assert (Hr : Queue.queue_reaches 2 demo_queue) by (exists demo_queue_labels; vm_compute; reflexivity).
  assert (H1 : Queue.qr_notifies demo_queue = 0%nat) by (vm_compute; reflexivity).
  assert (H2 : Queue.qr_notify_alls demo_queue = 0%nat) by (vm_compute; reflexivity).
  assert (H3 : Queue.qr_to_wake demo_queue = []) by (vm_compute; reflexivity).
  assert (H4 : Queue.qs_messages (Queue.qr_state demo_queue) <> []) by (vm_compute; discriminate).
  destruct (Queue.queue_no_lost_wake 2 demo_queue Hr H1 H2 H3) as (_ & H & _).
  assert (Hn : Queue.qr_nexts demo_queue !! 1 = Some (Queue.mkNext (Some 1) (Some 50) true)) by (vm_compute; reflexivity).
  exists (Queue.mkNext (Some 1) (Some 50) true). split; [exact Hn|]. split; [reflexivity|exact (H (or_introl H4) 1 _ 50 Hn eq_refl)].
Defined.
