(* ===== verification/Message.v ===== *)
(** * Message: the crate's own messages and the bytes they are sent as (message.rs)

    [Message], [RoutingRule], [Routing] and [DeliveryError] with their conversions
    from and to the protocol's types of Messages.v, and the three ways a message
    becomes what the core is handed: a sealed frame, a frame sealed when it goes
    alone, and a plain event's bytes.  The prost encoding is [Env]'s. *)
From S2P Require Import Prelude Words Xxh3 Xxh3Simd Xxh3Paths Defaults Frame Records Messages CoreTypes Batching Client Concrete.
Open Scope Z_scope.

Inductive Whom := All | Any.

Record RoutingRule := mkRoutingRule {
  r_peer : option str;
  r_peer_type : option Z;
  r_whom : option Whom;
  r_delivery_error_is_error : option bool;
  r_report_delivery_error : option bool;
  r_include_original_packet_in_report : option bool;
}.

Record Message := mkMessage {
  m_id : Z;
  m_sender : Z;
  m_to : option Z;
  m_report_delivery_error : option bool;
  m_include_original_packet_in_report : option bool;
  m_type : Z;
  m_payload : list Z;
  m_compression : option Z;
  m_timestamp : option Z;
  m_references : Z;
  m_workflow : option str;
  m_override_rrules : list RoutingRule;
  m_logging_method : option Z;
  m_key : option str;
  m_confirmation : option Z;
}.
#[export] Instance eta_Message : Eta Message := fun r =>
  mkMessage (m_id r) (m_sender r) (m_to r) (m_report_delivery_error r) (m_include_original_packet_in_report r)
    (m_type r) (m_payload r) (m_compression r) (m_timestamp r) (m_references r) (m_workflow r)
    (m_override_rrules r) (m_logging_method r) (m_key r) (m_confirmation r).

(** [Message::default()]. *)
Definition Message_default : Message := mkMessage 0 0 None None None 0 [] None None 0 None [] None None None.

Record Routing := mkRouting { rt_any : bool; rt_all : bool; rt_last_resort : bool }.
Definition Routing_default : Routing := mkRouting true true false.

Record DeliveryError := mkDeliveryError {
  d_packet_id : Z;
  d_failed_type : list Z;
  d_failed_to : option Z;
  d_is_known_type : option bool;
  d_original_message : option Message;
  d_original_message_omitted : option bool;
}.

(** ** The conversions *)

Definition nonzero (value : Z) : option Z := if value =? 0 then None else Some value.

(** [ProtoWhom::try_from] of the field's number. *)
Definition whom_of_proto (whom : Z) : option Whom :=
  if whom =? 1 then Some All else if whom =? 2 then Some Any else None.
Definition whom_to_proto (whom : Whom) : Z := match whom with All => 1 | Any => 2 end.

Definition rule_of_proto (rule : Messages.RoutingRule) : RoutingRule :=
  mkRoutingRule (rr_peer rule) (rr_peer_type rule) (rr_whom rule ≫= whom_of_proto) (rr_delivery_error_is_error rule)
    (rr_report_delivery_error rule) (rr_include_original_packet_in_report rule).

Definition rule_to_proto (rule : RoutingRule) : Messages.RoutingRule :=
  Messages.mkRoutingRule (r_peer rule) (r_peer_type rule) (whom_to_proto <$> r_whom rule) (r_delivery_error_is_error rule)
    (r_report_delivery_error rule) (r_include_original_packet_in_report rule).

Definition message_of_proto (message : MultiplexerMessage) : Message :=
  mkMessage (default 0 (mm_id message)) (default 0 (mm_sender message)) (mm_to message)
    (mm_report_delivery_error message) (mm_include_original_packet_in_report message) (mm_type message)
    (default [] (mm_message message)) (mm_compression message) (mm_timestamp message)
    (default 0 (mm_references message)) (mm_workflow message) (map rule_of_proto (mm_override_rrules message))
    (mm_logging_method message) (mm_key message) (mm_confirmation message).

Definition message_to_proto (message : Message) : MultiplexerMessage :=
  Messages.mkMessage (nonzero (m_id message)) (nonzero (m_sender message)) (m_to message)
    (m_report_delivery_error message) (m_include_original_packet_in_report message) (m_type message)
    (Some (m_payload message)) (m_compression message) (m_timestamp message) (nonzero (m_references message))
    (m_workflow message) (map rule_to_proto (m_override_rrules message)) (m_logging_method message) (m_key message)
    None [] (m_confirmation message).

(** The defaults of the fields are Multiplexer.proto's. *)
Definition routing_of_proto (routing : Messages.Routing) : Routing :=
  mkRouting (default true (ro_any routing)) (default true (ro_all routing)) (default false (ro_last_resort routing)).
Definition routing_to_proto (routing : Routing) : Messages.Routing :=
  Messages.mkRouting (Some (rt_any routing)) (Some (rt_all routing)) (Some (rt_last_resort routing)).

Definition delivery_error_of_proto (error : Messages.DeliveryError) : DeliveryError :=
  mkDeliveryError (de_packet_id error) (de_failed_type error) (de_failed_to error) (de_is_known_type error)
    (message_of_proto <$> de_original_message error) (de_original_message_omitted error).
Definition delivery_error_to_proto (error : DeliveryError) : Messages.DeliveryError :=
  Messages.mkDeliveryError (d_packet_id error) (d_failed_type error) (d_failed_to error) (d_is_known_type error)
    (message_to_proto <$> d_original_message error) (d_original_message_omitted error).

(** ** What goes on the wire *)

(** [Vec::reserve]: as [Vec8_extend] grows. *)
Definition Vec8_reserve (v : Vec8) (more : Z) : Vec8 :=
  let needed := v_len v + more in
  mkVec8 (v_bytes v) (if needed <=? v_capacity v then v_capacity v else Z.max (Z.max (2 * v_capacity v) needed) 8).

Section Wire.
Context {E : Env}.

Definition DeliveryError_decode (payload : list Z) : option DeliveryError :=
  delivery_error_of_proto <$> delivery_error_decode payload.
Definition DeliveryError_encode (error : DeliveryError) : list Z := delivery_error_encode (delivery_error_to_proto error).

(** [next_id] is called only for a message without an id; its value. *)
Definition stamped (message : Message) (next_id sender : Z) : MultiplexerMessage :=
  let message := if m_id message =? 0 then message <| m_id := next_id |> else message in
  let message := if m_sender message =? 0 then message <| m_sender := sender |> else message in
  message_to_proto message.

Definition framed (encoded : MultiplexerMessage) (delivery : bool) : result FrameIn Error :=
  let id := default 0 (mm_id encoded) in
  let type := mm_type encoded in
  if delivery && plain_event encoded then
    match encode_unsealed mm_key message_len message_encode encoded with
    | Err e => Err e
    | Ok bytes => Ok (mkFrameIn bytes None id type (MarkEvent (mm_key encoded)))
    end
  else
    match encode mm_key message_len message_encode env_cpu encoded with
    | Err e => Err e
    | Ok bytes => Ok (mkFrameIn bytes None id type MarkNone)
    end.

Definition frame_of (message : Message) (next_id sender : Z) (delivery : bool) : result FrameIn Error :=
  framed (stamped message next_id sender) delivery.

(** [encode] into a vector does not fail: it grows as it is written to. *)
Definition plain_of (encoded : MultiplexerMessage) (body : Vec8) : result Plain (Error * Vec8) :=
  let key := mm_key encoded in
  let size := message_len encoded in
  match check_key_size key with
  | Err e => Err (e, body)
  | Ok _ =>
      match check_message_size size with
      | Err e => Err (e, body)
      | Ok _ =>
          let body := Vec8_reserve (Vec8_clear body) (size + match key with Some key => Z.of_nat (length key) | None => 0 end) in
          let body := Vec8_extend body (message_encode encoded) in
          let body := match key with Some key => Vec8_extend body key | None => body end in
          Ok (mkPlain body size (match key with Some _ => true | None => false end) (default 0 (mm_id encoded)) (mm_type encoded))
      end
  end.
End Wire.

(** ** The conversions lose nothing *)

Lemma nonzero_default value : default 0 (nonzero value) = value.
Proof. unfold nonzero. destruct (Z.eqb_spec value 0); by subst. Qed.

Lemma rule_there_and_back rule : rule_of_proto (rule_to_proto rule) = rule.
Proof. destruct rule as [? ? [[]|] ? ? ?]; reflexivity. Qed.

Lemma message_there_and_back message : message_of_proto (message_to_proto message) = message.
Proof.
  destruct message. unfold message_of_proto, message_to_proto. cbn. rewrite !nonzero_default, map_map.
  f_equal. rewrite <- map_id. apply map_ext. intros. apply rule_there_and_back.
Qed.

Lemma message_cleared encoded :
  message_of_proto (clear_confirmation encoded) = (message_of_proto encoded) <| m_confirmation := None |>.
Proof. unfold clear_confirmation. by destruct encoded as [? ? ? ? ? ? ? ? ? ? ? ? ? ? ? ? [n|]]. Qed.

(** The crate's messages go to the protocol's and back unchanged: every field of
    a message, of its routing rules and of the message a delivery error carries. *)
Theorem conversions_roundtrip (message : Message) (routing : Routing) (error : DeliveryError) :
  message_of_proto (message_to_proto message) = message
  /\ routing_of_proto (routing_to_proto routing) = routing
  /\ delivery_error_of_proto (delivery_error_to_proto error) = error.
Proof.
  split; [apply message_there_and_back|]. split; [by destruct routing|].
  destruct error as [? ? ? ? [original|] ?]; unfold delivery_error_of_proto, delivery_error_to_proto; cbn; [|done].
  by rewrite message_there_and_back.
Qed.

Section WireLaws.
Context {E : Env}.
(** prost: the length it says is the length it writes. *)
Hypothesis message_len_encode : forall m, message_len m = Z.of_nat (length (message_encode m)).

Lemma plain_of_checks encoded body :
  match plain_of encoded body with
  | Ok _ => sizes_ok (mm_key encoded) (message_len encoded)
  | Err (e, kept) => kept = body /\ forall delivery, framed encoded delivery = Err e
  end.
Proof.
  unfold plain_of, framed, encode_unsealed, encode, encode_body, sizes_ok, check_key_size, check_message_size.
  destruct (Z.ltb_spec MAX_KEY_SIZE (match mm_key encoded with Some k => Z.of_nat (length k) | None => 0 end)).
  { split; [done|]. intros []; cbn; [by destruct (plain_event encoded)|done]. }
  destruct (Z.ltb_spec MAX_MESSAGE_SIZE (message_len encoded)); [|done].
  split; [done|]. intros []; cbn; [by destruct (plain_event encoded)|done].
Qed.

Lemma plain_of_body encoded body plain :
  plain_of encoded body = Ok plain ->
  v_bytes (into_body plain) = message_encode encoded /\ Plain_key plain = mm_key encoded
  /\ pl_length plain = message_len encoded /\ pl_id plain = default 0 (mm_id encoded) /\ pl_type plain = mm_type encoded.
Proof.
  unfold plain_of. destruct (check_key_size _); [|done]. destruct (check_message_size _); [|done]. intros [= <-].
  unfold into_body, Plain_key, Vec8_truncate. cbn. rewrite message_len_encode, Nat2Z.id.
  destruct (mm_key encoded) as [key|]; cbn; rewrite ?take_app_length, ?drop_app_length, ?firstn_all; done.
Qed.

(** The ways to send an event come to the same.  A plain event refused as a plain
    send is refused as a frame, with the same error and the caller's buffer back;
    otherwise the two join a batch alike, of the same type, key, size, id and body,
    and the frame sealed for going alone is the frame made sealed at once, whose body
    is the plain send's. *)
Theorem plain_send_is_framed (encoded : MultiplexerMessage) (buffer : Vec8) :
  plain_event encoded = true ->
  match plain_of encoded buffer with
  | Err (e, kept) => kept = buffer /\ framed encoded true = Err e /\ framed encoded false = Err e
  | Ok plain =>
      exists event sealed,
        framed encoded true = Ok event /\ framed encoded false = Ok sealed
        /\ (Joining_type (JoinFrame event) = Joining_type (JoinPlain plain)
            /\ Joining_key (JoinFrame event) = Joining_key (JoinPlain plain)
            /\ Joining_bytes (JoinFrame event) = Joining_bytes (JoinPlain plain)
            /\ fi_id event = pl_id plain
            /\ drop HEADER_LENGTH (fi_bytes event) = v_bytes (into_body plain))
        /\ seal env_cpu (fi_bytes event) = fi_bytes sealed
        /\ frame_of_body env_cpu (v_bytes (into_body plain)) = fi_bytes sealed
  end.
Proof.
  intros Hp. pose proof (plain_of_checks encoded buffer) as Hc. destruct (plain_of encoded buffer) as [plain|[e kept]] eqn:Hpl.
  2: { destruct Hc as [-> He]. by rewrite !He. }
  destruct (plain_of_body _ _ _ Hpl) as (Hb & Hk & Hl & Hi & Ht). unfold framed. rewrite Hp. cbn [andb].
  pose proof (encode_body_ok message_len message_encode encoded (mm_key encoded) Hc) as Hu.
  unfold encode_unsealed. rewrite Hu, (encode_ok mm_key message_len message_encode message_len_encode env_cpu encoded Hc).
  eexists _, _. split; [done|]. split; [done|]. cbn [fi_bytes fi_id]. split.
  - unfold Joining_type, Joining_key, Joining_bytes. cbn [fi_type fi_batch fi_bytes]. rewrite Hb, Hk, Hl, Hi, Ht.
    split_and!; try done. rewrite !length_app, message_len_encode. cbn [length]. rewrite to_le_length, length_replicate. unfold HEADER_LENGTH. lia.
  - rewrite Hb. split; [|done]. unfold seal. rewrite write_checksum_app by (by rewrite ?to_le_length).
    rewrite frame_of_body_eq. unfold header_of. by rewrite message_len_encode, <- app_assoc.
Qed.

End WireLaws.

(** ** A wire format that loses nothing, for the examples *)

#[local] Instance rule_eq_dec : EqDecision Messages.RoutingRule.
Proof. solve_decision. Defined.
#[local] Instance rule_countable : Countable Messages.RoutingRule.
Proof.
  refine (inj_countable'
    (fun r => (rr_peer r, rr_peer_type r, rr_whom r, rr_delivery_error_is_error r, rr_report_delivery_error r,
               rr_include_original_packet_in_report r))
    (fun '(a, b, c, d, e, f) => Messages.mkRoutingRule a b c d e f) _).
  by intros [].
Defined.

#[local] Instance proto_eq_dec : EqDecision MultiplexerMessage.
Proof. solve_decision. Defined.
#[local] Instance proto_countable : Countable MultiplexerMessage.
Proof.
  refine (inj_countable'
    (fun m => (mm_id m, mm_sender m, mm_to m, mm_report_delivery_error m, mm_include_original_packet_in_report m, mm_type m,
               mm_message m, mm_compression m, mm_timestamp m,
               (mm_references m, mm_workflow m, mm_override_rrules m, mm_logging_method m, mm_key m, mm_batch m,
                mm_confirm m, mm_confirmation m)))
    (fun '(a, b, c, d, e, f, g, h, i, (j, k, l, m, n, o, p, q)) => Messages.mkMessage a b c d e f g h i j k l m n o p q) _).
  by intros [].
Defined.

(** The message's number, in bytes. *)
Definition numbered_encode (m : MultiplexerMessage) : list Z :=
  let number := Zpos (countable.encode m) in to_le (S (Z.to_nat (Z.log2 number))) number.
Definition numbered_decode (bytes : list Z) : option MultiplexerMessage := countable.decode (Z.to_pos (from_le bytes)).

Lemma numbered_decode_encode m : numbered_decode (numbered_encode m) = Some m.
Proof.
  unfold numbered_decode, numbered_encode. rewrite from_to_le.
  - cbn [Z.to_pos]. apply countable.decode_encode.
  - split; [done|]. rewrite Nat2Z.inj_succ, Z2Nat.id by apply Z.log2_nonneg. eapply Z.lt_le_trans; [apply Z.log2_spec; lia|].
    apply Z.pow_le_mono_l. lia.
Qed.

Definition numbered_env : Env := {|
  env_cpu := env_cpu;
  log_enabled := log_enabled;
  generation := generation;
  message_len := fun m => Z.of_nat (length (numbered_encode m));
  message_encode := numbered_encode;
  message_decode := numbered_decode;
  envelope_len := envelope_len;
  envelope_encode := envelope_encode;
  batch_decode := batch_decode;
  confirmation_encode := confirmation_encode;
  confirmation_decode := confirmation_decode;
  welcome_encode := welcome_encode;
  welcome_decode := welcome_decode;
  control_encode := control_encode;
  status_decode := status_decode;
  search_encode := search_encode;
  delivery_error_encode := delivery_error_encode;
  delivery_error_decode := delivery_error_decode;
|}.

Definition demo_message : Message := Message_default <| m_type := 300 |> <| m_payload := [1; 2] |> <| m_key := Some [107] |>.

Lemma plain_send_is_framed_witness :
  exists plain event,
    @plain_of numbered_env (message_to_proto demo_message) Vec8_new = Ok plain
    /\ @framed numbered_env (message_to_proto demo_message) true = Ok event
    /\ Joining_key (JoinFrame event) = Joining_key (JoinPlain plain).
Proof.
  assert (Hp : plain_event (message_to_proto demo_message) = true) by (vm_compute; reflexivity).
  pose proof (@plain_send_is_framed numbered_env (fun _ => eq_refl) (message_to_proto demo_message) Vec8_new Hp) as H.
  destruct (@plain_of numbered_env (message_to_proto demo_message) Vec8_new) as [plain|[e kept]] eqn:He.
  - destruct H as (event & sealed & H1 & _ & H2 & _). exists plain, event. split; [reflexivity|]. split; [exact H1|apply H2].
  - exfalso. vm_compute in He. discriminate He.
Defined.

(** A program's message that carries a confirmation's number. *)
Definition demo_numbered : Message := demo_message <| m_confirmation := Some 9 |>.

