(* ===== verification/SyncClient.v ===== *)
(** * SyncClient: the client with no thread of its own (sync_client.rs)

    Every call runs the client's loop inside it, over the engine of Driver.v,
    until its condition holds.  A call is a program of [DM]; the waits are loops
    over [run_one] and [poll] with fuel, [None] once it runs out.  A callback is
    known by its number: what it was told is among the core's events.  A lane is
    its number among the core's ([cr_lanes]).  What a query's [on_unexpected]
    heard, or was logged in its stead, is part of the query's answer. *)
From S2P Require Import Prelude Words Defaults Frame FrameReader Xxh3Simd Timers Endpoint IpAddr LogSummary Records Ordered Fork.
From S2P Require Import Messages CoreTypes CoreBase ConnQueue OutboxState ConfirmingState Placing Bodies Batching Confirming.
From S2P Require Import Sending Handover Query Connection Client Connect Run System Inbox Driver Message.
Open Scope Z_scope.

(** ** Handles and errors (handles.rs, error.rs) *)

(** [handles::Incoming]; a [Connection] is its [Wrapper]. *)
Record Received := mkReceived { re_message : Message; re_connection : Wrapper }.
Definition Incoming_from (incoming : Incoming) : Received :=
  mkReceived (message_of_proto (in_message incoming)) (in_connection incoming).

(** [Error], its [Backend] included. *)
Inductive CallError :=
| Failed (error : Error)
| Backend (reply : Received).

Definition into_result (outcome : Outcome) : result Incoming Error :=
  match outcome with
  | Replied reply => Ok reply
  | TimedOut => Err OperationTimedOut
  | QueryFailed => Err OperationFailed
  | QueryNotConnected | QueryShutDown => Err NotConnected
  end.

Definition connections_count (c : Core) : Z :=
  Z.of_nat (length (filter (fun e : Z * Z => is_Some (cr_conns c !! e.2)) (cr_by_peer_id c))).

(** [waiting_for_connection] of core/query.rs. *)
Definition waiting_for_connection (c : Core) (query : Z) : bool :=
  match bt_get query (qu_in_flight (cr_queries c)) with
  | Some in_flight => bool_decide (if_stage in_flight = StWaiting)
  | None => false
  end.

(** How a flushing send's wait has ended, by what its copies read. *)
Definition flush_ended (copies : list SendState) (deadline_passed none_live : bool) : option (result unit Error) :=
  if existsb (fun copy => bool_decide (copy = Sent)) copies then Some (Ok tt)
  else if deadline_passed then Some (Err (if none_live then NotConnected else OperationTimedOut))
  else if negb (existsb (fun copy => bool_decide (copy = Queued)) copies) then Some (Err NotConnected)
  else None.

(** How a wait for a message ended. *)
Inductive Waited := WaitedMessage (incoming : Received) | WaitedNothing | WaitedAsked.

(** The client beside its engine: the generation it was made in, and whether it has an [on_unexpected]. *)
Record SyncClient := mkSyncClient { sc_generation : Z; sc_on_unexpected : bool }.

Record SyncClientBuilder := mkBuilder {
  sb_peer_type : Z;
  sb_on_drop : bool;
  sb_key_filters : option (list (Z * list str));
  sb_routing : option Routing;
  sb_on_unexpected : bool;
}.

(** A query and a send being built. *)
Record SyncQuery := mkSyncQuery {
  sq_request : Message;
  sq_timeout : option Z;
  sq_lane : option Z;
  sq_received : option Z;
}.
#[export] Instance eta_SyncQuery : Eta SyncQuery := fun r => mkSyncQuery (sq_request r) (sq_timeout r) (sq_lane r) (sq_received r).

Record SyncSend := mkSyncSend {
  sd_message : Message;
  sd_all : bool;
  sd_lane : option Z;
  sd_timeout : option Z;
  sd_on_end : option Z;
}.
#[export] Instance eta_SyncSend : Eta SyncSend := fun r =>
  mkSyncSend (sd_message r) (sd_all r) (sd_lane r) (sd_timeout r) (sd_on_end r).

(** [query_message], [query], [send_message] and [send]. *)
Definition query_message (request : Message) : SyncQuery := mkSyncQuery request (Some DEFAULT_TIMEOUT) None None.
Definition query (type : Z) (payload : list Z) : SyncQuery :=
  query_message (Message_default <| m_type := type |> <| m_payload := payload |>).
Definition send_message (message : Message) : SyncSend := mkSyncSend message false None (Some DEFAULT_TIMEOUT) None.
Definition SyncClient_send (type : Z) (payload : list Z) : SyncSend :=
  send_message (Message_default <| m_type := type |> <| m_payload := payload |>).

Section SyncClient.
Context {E : Env} {P : Program} {OS : Os} (commands : Z -> Call) (cpu : Cpu) (fuel : nat).

Abbreviation carry_out_actions := (carry_out_actions commands fuel).
Abbreviation run_one := (run_one commands cpu fuel).
Abbreviation poll := (poll commands cpu fuel).

(** ** The engine *)

(** [Engine::call] of a body with an answer; [engine().core] used as it is; what the core says. *)
Definition call {A} (body : CM A) : DM A :=
  let+ now := sys os_now in
  hand commands (InTime now) +;
  let+ a := on_core body in
  carry_out_actions +;
  dret a.
Definition ask {A} (f : Core -> A) : DM A := dgets (fun m => f (mc_core m)).

(** The time a call's [timeout] ends, from now, and whether it came. *)
Definition deadline (timeout : option Z) : DM (option Z) :=
  let+ now := sys os_now in
  dret (deadline_after now timeout).
Definition passed (until : option Z) : DM bool :=
  match until with
  | None => dret false
  | Some until => let+ now := sys os_now in dret (until <=? now)
  end.

(** [!p || q] and [p && q] of Rust's, the right side run when it is needed. *)
Definition dor (p q : DM bool) : DM bool := let+ a := p in if a : bool then dret true else q.

(** ** The checks *)

Definition orphaned (sc : SyncClient) : bool := negb (sc_generation sc =? generation).

Definition check {A} (sc : SyncClient) (k : DM (result A CallError)) : DM (result A CallError) :=
  if orphaned sc then dret (Err (Failed UsedAfterFork)) else k.

Definition lane_error (c : Core) (lane : option Z) : option Error :=
  match lane ≫= fun lane => cr_lanes c !! lane with
  | None => None
  | Some inner =>
      if inherited inner then Some UsedAfterFork
      else match Lane_owner inner with
           | Some owner => if negb (owner =? cr_instance_id c) then Some InvalidArgument else None
           | None => None
           end
  end.

Definition check_lane {A} (lane : option Z) (k : DM (result A CallError)) : DM (result A CallError) :=
  let+ error := ask (fun c => lane_error c lane) in
  match error with Some error => dret (Err (Failed error)) | None => k end.

(** A lane nothing goes through any more. *)
Definition lane_closed (c : Core) (lane : option Z) : bool := match lane with Some lane => Lane_closed c lane | None => false end.

(** ** Building *)

Definition set_key_filters (sc : SyncClient) (filters : list (Z * list str)) (acknowledged : option Z) : DM (result unit CallError) :=
  check sc (
    let+ set := call (Connection.set_key_filters filters acknowledged) in
    dret match set with Ok _ => Ok tt | Err e => Err (Failed e) end).

Definition set_routing (sc : SyncClient) (routing : Routing) (acknowledged : option Z) : DM (result unit CallError) :=
  check sc (call (Connection.set_routing (routing_to_proto routing) acknowledged) +; dret (Ok tt)).

(** [build] of the engine made. *)
Definition build (b : SyncClientBuilder) : DM (result SyncClient CallError) :=
  dwhen (sb_on_drop b) (on_core (mod_client (fun cl => cl <| cl_drop_observer := true |>))) +;
  let+ filtered :=
    match sb_key_filters b with
    | None => dret (Ok tt)
    | Some filters => call (Connection.set_key_filters filters None)
    end in
  match filtered with
  | Err e => dret (Err (Failed e))
  | Ok _ =>
      match sb_routing b with
      | None => dret tt
      | Some routing => call (Connection.set_routing (routing_to_proto routing) None)
      end +;
      dret (Ok (mkSyncClient generation (sb_on_unexpected b)))
  end.

Definition new_message (type : Z) (payload : list Z) : DM Message :=
  let+ id := on_core random64 in
  let+ sender := ask cr_instance_id in
  dret (Message_default <| m_id := id |> <| m_sender := sender |> <| m_type := type |> <| m_payload := payload |>).

(** ** Connecting *)

(** A connection whose handshake is over, one way or the other. *)
Definition connect_up (c : Core) (conn : Z) : bool :=
  match cr_conns c !! conn with None => true | Some state => cn_shuts_down state || cn_registered state end.

(** [while !up && !passed && run_one() != 0]: what [connect] and [connect_all] wait with. *)
Fixpoint wait_until (n : nat) (up : Core -> bool) (until : option Z) : DM unit :=
  match n with
  | O => out_of_fuel
  | S n =>
      let+ ended := dor (ask up) (dor (passed until) (let+ ran := run_one until in dret (ran =? 0)%nat)) in
      if ended : bool then dret tt else wait_until n up until
  end.

Definition connect (sc : SyncClient) (address : str) (timeout : option Z) : DM (result Wrapper CallError) :=
  check sc
    match parse_endpoint address None with
    | Err _ => dret (Err (Failed InvalidArgument))
    | Ok (host, port) =>
        let+ conn := call (async_connect host port) in
        match conn with
        | None => dret (Err (Failed NotConnected))
        | Some conn =>
            let+ until := deadline timeout in
            wait_until fuel (fun c => connect_up c conn) until +;
            let+ connection := on_core (wrap_or_gone conn (target_of host port)) in
            dret (Ok connection)
        end
    end.

Fixpoint parse_all (addresses : list str) : option (list (str * Z)) :=
  match addresses with
  | [] => Some []
  | address :: rest =>
      match parse_endpoint address None with
      | Err _ => None
      | Ok parsed => (fun l => parsed :: l) <$> parse_all rest
      end
  end.

(** The connects of [connect_all], up to the first refused. *)
Fixpoint connect_each (parsed : list (str * Z)) : DM (option (list Z)) :=
  match parsed with
  | [] => dret (Some [])
  | (host, port) :: rest =>
      let+ conn := call (async_connect host port) in
      match conn with
      | None => dret None
      | Some conn => let+ conns := connect_each rest in dret ((fun l => conn :: l) <$> conns)
      end
  end.

Definition connect_pending (c : Core) (conn : Z) : bool :=
  match cr_conns c !! conn with Some state => negb (cn_shuts_down state) && negb (cn_registered state) | None => false end.
Definition connect_registered (c : Core) (conn : Z) : bool :=
  match cr_conns c !! conn with Some state => cn_registered state && negb (cn_shuts_down state) | None => false end.

Definition connect_all (sc : SyncClient) (addresses : list str) (timeout : option Z) : DM (result Z CallError) :=
  check sc
    match parse_all addresses with
    | None => dret (Err (Failed InvalidArgument))
    | Some parsed =>
        let+ conns := connect_each parsed in
        match conns with
        | None => dret (Err (Failed NotConnected))
        | Some conns =>
            let+ until := deadline timeout in
            wait_until fuel (fun c => negb (existsb (connect_pending c) conns)) until +;
            let+ up := ask (fun c => length (List.filter (connect_registered c) conns)) in
            dret (Ok (Z.of_nat up))
        end
    end.

Definition disconnect (sc : SyncClient) (address : str) : DM (result bool CallError) :=
  check sc
    match parse_endpoint address None with
    | Err _ => dret (Err (Failed InvalidArgument))
    | Ok (host, port) =>
        let+ had := call (Connect.disconnect host port) in
        dret match had with Some had => Ok had | None => Err (Failed NotConnected) end
    end.

(** [SyncClientBuilder::connect] of the engine made. *)
Definition builder_connect (b : SyncClientBuilder) (addresses : list str) : DM (result SyncClient CallError) :=
  let+ built := build b in
  match built with
  | Err e => dret (Err e)
  | Ok sc =>
      let+ up := connect_all sc addresses (Some DEFAULT_TIMEOUT) in
      dret match up with Ok _ => Ok sc | Err e => Err e end
  end.

(** ** Receiving *)

Definition send_confirmations : DM unit :=
  let+ owed := ask (fun c => cf_owed_count (cr_confirmer c)) in
  dwhen (negb (owed =? 0)) (call Confirming.send_confirmations).

(** The loop of [wait_for_message]: its answer, or that its deadline came. *)
Fixpoint wait_loop (n : nat) (until : option Z) (end_on_acknowledgement : bool) (asked : DM bool) :
    DM (option (result Waited CallError)) :=
  match n with
  | O => out_of_fuel
  | S n =>
      call run_acknowledged_callbacks +;
      let+ next := on_core next_incoming_message in
      match next with
      | Some incoming => dret (Some (Ok (WaitedMessage (Incoming_from incoming))))
      | None =>
          on_core acknowledged_by_receive +;
          let+ woken := if end_on_acknowledgement then on_core take_acknowledged_wake else dret false in
          if woken : bool then dret (Some (Ok WaitedNothing))
          else
            send_confirmations +;
            let+ over := passed until in
            if over : bool then dret None
            else
              let+ wanted := asked in
              if wanted : bool then dret (Some (Ok WaitedAsked))
              else
                let+ ran := run_one until in
                if (ran =? 0)%nat then dret (Some (Err (Failed NotConnected)))
                else wait_loop n until end_on_acknowledgement asked
      end
  end.

Definition wait_for_message (sc : SyncClient) (until : option Z) (end_on_acknowledgement : bool) (asked : DM bool) :
    DM (result Waited CallError) :=
  check sc (
    let+ ended := wait_loop fuel until end_on_acknowledgement asked in
    match ended with
    | Some answer => dret answer
    | None =>
        poll +;
        call run_acknowledged_callbacks +;
        let+ next := on_core next_incoming_message in
        dret (Ok match next with Some incoming => WaitedMessage (Incoming_from incoming) | None => WaitedNothing end)
    end).

Definition wait_to_receive (sc : SyncClient) (timeout : option Z) (end_on_acknowledgement : bool) : DM (result Received CallError) :=
  let+ until := deadline timeout in
  let+ waited := wait_for_message sc until end_on_acknowledgement (dret false) in
  dret match waited with
       | Ok (WaitedMessage incoming) => Ok incoming
       | Ok WaitedNothing | Ok WaitedAsked => Err (Failed OperationTimedOut)
       | Err e => Err e
       end.

Definition receive (sc : SyncClient) (timeout : option Z) : DM (result Received CallError) := wait_to_receive sc timeout false.
Definition receive_until_acknowledged (sc : SyncClient) (timeout : option Z) : DM (result Received CallError) :=
  wait_to_receive sc timeout true.
Definition wait_for_server (sc : SyncClient) (until : option Z) (end_on_acknowledgement : bool) (asked : DM bool) :
    DM (result Waited CallError) :=
  wait_for_message sc until end_on_acknowledgement asked.

(** ** Flushing *)

Definition poll_before_batches_go : DM unit :=
  let+ open := ask batches_open in
  dwhen open poll.

Fixpoint flush_loop (n : nat) (flush : Z) (until : option Z) : DM unit :=
  match n with
  | O => out_of_fuel
  | S n =>
      let+ ended :=
        dor (ask (fun c => flushed c flush))
          (dor (passed until) (ask (fun c => negb (connection_live_or_coming c)))) in
      if ended : bool then dret tt
      else
        let+ ran := run_one until in
        if (ran =? 0)%nat then dret tt else flush_loop n flush until
  end.

Definition flush_all_unchecked (timeout : option Z) : DM bool :=
  poll_before_batches_go +;
  let+ flush := call (begin_flush None) in
  let+ until := deadline timeout in
  flush_loop fuel flush until +;
  let+ written := ask (fun c => all_written c flush) in
  on_core (end_flush flush) +;
  dret written.

Definition flush_all (sc : SyncClient) (timeout : option Z) : DM (result bool CallError) :=
  check sc (let+ written := flush_all_unchecked timeout in dret (Ok written)).

(** ** Deliveries and confirmations *)

Definition set_delivery (sc : SyncClient) (type : Z) (key : option str) (delivery : Delivery) : DM (result unit CallError) :=
  check sc (
    poll_before_batches_go +;
    let+ set := call (Batching.set_delivery type key delivery) in
    dret match set with Ok _ => Ok tt | Err e => Err (Failed e) end).

Definition clear_delivery (sc : SyncClient) (type : Z) (key : option str) : DM (result unit CallError) :=
  check sc (poll_before_batches_go +; call (Batching.clear_delivery type key) +; dret (Ok tt)).

Definition confirm_number (sc : SyncClient) (sender number : Z) (outcome : Confirmed) : DM unit :=
  dwhen (negb (orphaned sc)) (on_core (confirm sender number outcome)).

Definition SyncClient_confirm (sc : SyncClient) (message : Message) (outcome : Confirmed) : DM unit :=
  match m_confirmation message with
  | Some number => confirm_number sc (m_sender message) number outcome
  | None => dret tt
  end.

(** ** The end *)

(** The flushes of [shutdown]: again while anything newer was sent. *)
Fixpoint shutdown_flushes (n : nat) (until : option Z) : DM unit :=
  match n with
  | O => out_of_fuel
  | S n =>
      let+ sent := ask (fun c => ob_last_number (cr_outbox c)) in
      let+ remaining :=
        match until with
        | None => dret None
        | Some until => let+ now := sys os_now in dret (Some (Z.max 0 (until - now)))
        end in
      if bool_decide (remaining = Some 0) then dret tt
      else
        let+ _ := flush_all_unchecked remaining in
        let+ last := ask (fun c => ob_last_number (cr_outbox c)) in
        if last =? sent then dret tt else shutdown_flushes n until
  end.

(** [while closing() && !passed(until)]. *)
Fixpoint closing_loop (n : nat) (until : option Z) : DM unit :=
  match n with
  | O => out_of_fuel
  | S n =>
      let+ ended := dor (let+ closes := on_core closing in dret (negb closes)) (passed until) in
      if ended : bool then dret tt
      else
        let+ _ := run_one until in
        closing_loop n until
  end.

(** The child's copies of the sockets closed. *)
Definition close_inherited : DM unit :=
  let+ fds := dgets (fun m => (close_all (mc_descriptors m)).1) in
  dmodify (fun m => m <| mc_descriptors := (close_all (mc_descriptors m)).2 |>) +;
  dfor_each fds (fun fd => dmodify (fun m => m <| mc_os ::= os_close fd |>)).

Definition shutdown (sc : SyncClient) (timeout : option Z) : DM unit :=
  if orphaned sc then close_inherited
  else
    let+ down := ask (fun c => cl_shuts_down (cr_client c)) in
    if down : bool then dret tt
    else
      dwhen (negb (bool_decide (timeout = Some 0)))
        (let+ until := deadline timeout in shutdown_flushes fuel until) +;
      call shutdown_client +;
      let+ now := sys os_now in
      closing_loop fuel (Some (now + CLOSE_READ_SECONDS + from_millis 500)) +;
      poll +;
      call end_follows.

(** [Drop]; an inherited client's engine is leaked once its sockets are closed. *)
Definition drop_client (sc : SyncClient) : DM unit :=
  if orphaned sc then close_inherited else shutdown sc (Some CLOSE_FLUSH_SECONDS).

Definition SyncClient_refuse_arrivals : DM unit := call refuse_arrivals.
Definition SyncClient_refuse_unread : DM unit := call refuse_unread.

(** ** Queries *)

(** What the query read that is not its reply, told to [on_unexpected] or logged. *)
Fixpoint drop_unexpected_loop (n : nat) : DM (list Incoming) :=
  match n with
  | O => out_of_fuel
  | S n =>
      let+ next := on_core next_incoming_message in
      match next with
      | None => dret []
      | Some incoming =>
          let+ rest := drop_unexpected_loop n in
          dret (if mm_type (in_message incoming) =? types.REQUEST_RECEIVED then rest else incoming :: rest)
      end
  end.
Definition drop_unexpected : DM (list Incoming) := drop_unexpected_loop fuel.

(** What the query's callback was told since. *)
Fixpoint query_outcome (done : Z) (events : list CoreTypes.Event) : option Outcome :=
  match events with
  | [] => None
  | EvQuery callback outcome :: events => if callback =? done then Some outcome else query_outcome done events
  | _ :: events => query_outcome done events
  end.

(** The reply as the call gives it. *)
Definition query_answer (outcome : Outcome) : result Received CallError :=
  match into_result outcome with
  | Err e => Err (Failed e)
  | Ok reply =>
      if m_type (re_message (Incoming_from reply)) =? types.BACKEND_ERROR then Err (Backend (Incoming_from reply))
      else Ok (Incoming_from reply)
  end.

Fixpoint query_loop (n : nat) (query done : Z) (before : nat) : DM (result Received CallError * list Incoming) :=
  match n with
  | O => out_of_fuel
  | S n =>
      let+ outcome := ask (fun c => query_outcome done (drop before (cr_events c))) in
      match outcome with
      | Some outcome => dret (query_answer outcome, [])
      | None =>
          let+ unexpected := drop_unexpected in
          send_confirmations +;
          let+ ended :=
            dor (ask (fun c => waiting_for_connection c query && negb (connection_live_or_coming c)))
              (let+ ran := run_one None in dret (ran =? 0)%nat) in
          dwhen ended (call (finish query QueryNotConnected)) +;
          let+ (answer, more) := query_loop n query done before in
          dret (answer, unexpected ++ more)
      end
  end.

(** [SyncQuery::wait], [done] its callback. *)
Definition query_wait (sc : SyncClient) (q : SyncQuery) (done : Z) : DM (result Received CallError * list Incoming) :=
  let refused e := dret (Err e, []) in
  if orphaned sc then refused (Failed UsedAfterFork)
  else
    let+ error := ask (fun c => lane_error c (sq_lane q)) in
    match error with
    | Some error => refused (Failed error)
    | None =>
        let+ sender := ask cr_instance_id in
        match check_size_sent_again ((message_to_proto (sq_request q)) <| mm_id := None |>) sender with
        | (_, Err e) => refused (Failed e)
        | (prototype, Ok _) =>
            poll +;
            let+ before := ask (fun c => length (cr_events c)) in
            let+ query := call (start_query prototype (sq_timeout q) (sq_lane q) done (sq_received q)) in
            query_loop fuel query done before
        end
    end.

(** ** Sends *)

Definition queue_plain (encoded : MultiplexerMessage) (timeout : option Z) : DM (result Z CallError) :=
  let+ body := on_core take_body in
  match plain_of encoded body with
  | Err (error, body) => on_core (give_body body) +; dret (Err (Failed error))
  | Ok plain =>
      let+ now := sys os_now in
      let+ needs_loop := ask (fun c => plain_needs_loop (cr_batcher c) plain now) in
      dwhen needs_loop poll +;
      let+ taken := call (send_plain plain timeout 0) in
      dret (if taken : bool then Ok (default 0 (mm_id encoded)) else Err (Failed NotConnected))
  end.

(** An id for a message that has none. *)
Definition next_id (message : Message) : DM Z := if m_id message =? 0 then on_core random64 else dret 0.

(** [SyncSend::queue]. *)
Definition send_queue (sc : SyncClient) (s : SyncSend) : DM (result Z CallError) :=
  check sc (check_lane (sd_lane s) (
    let+ closed := ask (fun c => lane_closed c (sd_lane s)) in
    if closed : bool then dret (Err (Failed NotConnected))
    else
      let+ fresh := next_id (sd_message s) in
      let+ c := ask id in
      let encoded := stamped (sd_message s) fresh (cr_instance_id c) in
      let delivery := configured (cr_batcher c) in
      if bool_decide (sd_on_end s = None) && negb (sd_all s) && bool_decide (sd_lane s = None) && delivery && plain_event encoded
         && bool_decide (is_Some (delivery_of (cr_batcher c) (mm_type encoded) (mm_key encoded)))
      then queue_plain encoded (sd_timeout s)
      else
        match framed encoded delivery with
        | Err e => dret (Err (Failed e))
        | Ok frame =>
            let+ now := sys os_now in
            let+ needs_loop :=
              call (gets (fun c => send_needs_loop (cr_batcher c) frame (sd_all s) (bool_decide (is_Some (sd_lane s))) now)) in
            dwhen needs_loop poll +;
            let+ (taken, _, _) :=
              call (send frame (sd_all s) (sd_lane s) (sd_timeout s) 0 false (DoneCallback <$> sd_on_end s) true) in
            dret (if taken : bool then Ok (fi_id frame) else Err (Failed NotConnected))
        end)).

(** The loop of [SyncSend::wait]. *)
Fixpoint send_loop (n : nat) (copies : list Z) (lane : option Z) (until : option Z) : DM (result unit CallError) :=
  match n with
  | O => out_of_fuel
  | S n =>
      let+ over := passed until in
      let+ states := ask (fun c => map (tracker_state c) copies) in
      let+ none_live := ask (fun c => (connections_count c =? 0) || lane_closed c lane) in
      match flush_ended states over none_live with
      | Some (Ok _) => dret (Ok tt)
      | Some (Err e) => dret (Err (Failed e))
      | None =>
          let+ coming := ask connection_live_or_coming in
          if negb coming then
            call (for_each copies drop_held) +;
            dret (Err (Failed NotConnected))
          else
            let+ _ := run_one until in
            send_loop n copies lane until
      end
  end.

(** [SyncSend::wait]; the copies are the call's while it waits. *)
Definition send_wait (sc : SyncClient) (s : SyncSend) : DM (result Z CallError) :=
  check sc (check_lane (sd_lane s) (
    let+ closed := ask (fun c => lane_closed c (sd_lane s)) in
    if closed : bool then dret (Err (Failed NotConnected))
    else
      let+ fresh := next_id (sd_message s) in
      let+ c := ask id in
      match frame_of (sd_message s) fresh (cr_instance_id c) (configured (cr_batcher c)) with
      | Err e => dret (Err (Failed e))
      | Ok frame =>
          let+ until := deadline (sd_timeout s) in
          poll +;
          let room := (fun timeout => timeout + ROOM_GRACE_SECONDS) <$> sd_timeout s in
          let+ (taken, copies, _) :=
            call (send frame (sd_all s) (sd_lane s) room 0 true (DoneCallback <$> sd_on_end s) false) in
          if negb taken then dret (Err (Failed NotConnected))
          else
            hand commands (InKept copies) +;
            let+ ended := send_loop fuel copies (sd_lane s) until in
            hand commands (InKept []) +;
            dret match ended with Ok _ => Ok (fi_id frame) | Err e => Err e end
      end)).

(** [SyncSend::connection] and [SyncQuery::connection]: a lane of its own through [connection]. *)
Definition send_through (connection : Wrapper) (s : SyncSend) : DM SyncSend :=
  let+ lane := on_core (Lane_seeded connection false) in
  dret (s <| sd_lane := Some lane |>).
Definition query_through (connection : Wrapper) (q : SyncQuery) : DM SyncQuery :=
  let+ lane := on_core (Lane_seeded connection false) in
  dret (q <| sq_lane := Some lane |>).
End SyncClient.
