(* ===== verification/SyncSpec.v ===== *)
(** * SyncSpec: the synchronous client's calls

    A [SyncClient]'s calls, in any order, whatever they answer, take its core
    through [reachable] states and its sockets through those of WireSpec.v
    ([sync_client_sound]): what those files prove holds of the class programs
    use.  A receive's answers mean what they say ([receive_answers]);
    a client inherited across a fork refuses every call and touches nothing
    ([inherited_client_refuses]); a flushing send answers what became of its
    copies ([send_wait_answers]). *)
From S2P Require Import Prelude Words Defaults Frame FrameReader Xxh3Simd Timers Endpoint IpAddr LogSummary Records Ordered Fork.
From S2P Require Import Messages CoreTypes CoreBase ConnQueue OutboxState ConfirmingState Placing Bodies Batching Confirming.
From S2P Require Import Sending Handover Query Connection Client Connect Run System Concrete Inbox Driver DriverSpec WireSpec Message SyncClient.
Open Scope Z_scope.

(** ** What the class calls of the core *)

Section Calls.
Context {E : Env} {P : Program}.

Definition run_calls (bodies : list Call) (c : Core) : Core := foldl (fun c body => (run_call body c).2) c bodies.

(** A body that does as some calls of System.v do. *)
Class Callable {A} (p : CM A) := callable c : exists bodies, (p c).2 = run_calls bodies c.

Lemma run_calls_app k l c : run_calls (k ++ l) c = run_calls l (run_calls k c).
Proof. apply foldl_app. Qed.

Lemma callable_void A (p : CM A) body : run_call body = void p -> Callable p.
Proof.
  intros Hb c. exists [body]. unfold run_calls. cbn [foldl]. rewrite Hb. unfold void, bind, ret. by destruct (p c).
Qed.
Lemma callable_call (p : CM unit) body : run_call body = p -> Callable p.
Proof. intros Hb c. exists [body]. by rewrite <- Hb. Qed.

#[export] Instance callable_gets A (f : Core -> A) : Callable (gets f).
Proof. intros c. by exists []. Qed.
#[export] Instance callable_ret A (a : A) : Callable (ret a).
Proof. intros c. by exists []. Qed.
#[export] Instance callable_wrap conn target : Callable (wrap_or_gone conn target).
Proof. intros c. by exists []. Qed.
#[export] Instance callable_bind A B (p : CM A) (k : A -> CM B) : Callable p -> (forall a, Callable (k a)) -> Callable (bind p k).
Proof.
  intros Hp Hk c. unfold bind. destruct (p c) as [a c1] eqn:E1. destruct (Hp c) as [l Hl], (Hk a c1) as [l' Hl'].
  exists (l ++ l'). rewrite run_calls_app, <- Hl, E1. exact Hl'.
Qed.
#[export] Instance callable_for_each A (l : list A) body : (forall x, Callable (body x)) -> Callable (for_each l body).
Proof. intros H. induction l as [|x l IH]; cbn [for_each]; exact _. Qed.

#[export] Instance callable_async_connect host port : Callable (async_connect host port) := callable_void _ _ (CallAsyncConnect host port) eq_refl.
#[export] Instance callable_disconnect host port : Callable (Connect.disconnect host port) := callable_void _ _ (CallDisconnect host port) eq_refl.
#[export] Instance callable_set_routing routing cb : Callable (Connection.set_routing routing cb) := callable_call _ (CallSetRouting routing cb) eq_refl.
#[export] Instance callable_set_key_filters filters cb : Callable (Connection.set_key_filters filters cb) :=
  callable_void _ _ (CallSetKeyFilters filters cb) eq_refl.
#[export] Instance callable_set_delivery type key delivery : Callable (Batching.set_delivery type key delivery) :=
  callable_void _ _ (CallSetDelivery type key delivery) eq_refl.
#[export] Instance callable_clear_delivery type key : Callable (Batching.clear_delivery type key) := callable_call _ (CallClearDelivery type key) eq_refl.
#[export] Instance callable_begin_flush done : Callable (begin_flush done) := callable_void _ _ (CallBeginFlush done) eq_refl.
#[export] Instance callable_end_flush flush : Callable (end_flush flush) := callable_call _ (CallEndFlush flush) eq_refl.
#[export] Instance callable_end_follows : Callable end_follows := callable_call _ CallEndFollows eq_refl.
#[export] Instance callable_drop_held tracker : Callable (drop_held tracker) := callable_call _ (CallDropHeld tracker) eq_refl.
#[export] Instance callable_next_incoming : Callable next_incoming_message := callable_void _ _ CallNextIncoming eq_refl.
#[export] Instance callable_refuse_arrivals : Callable refuse_arrivals := callable_call _ CallRefuseArrivals eq_refl.
#[export] Instance callable_refuse_unread : Callable refuse_unread := callable_call _ CallRefuseUnread eq_refl.
#[export] Instance callable_confirm sender number outcome : Callable (confirm sender number outcome) :=
  callable_call _ (CallConfirm sender number outcome) eq_refl.
#[export] Instance callable_send_confirmations : Callable Confirming.send_confirmations := callable_call _ CallSendConfirmations eq_refl.
#[export] Instance callable_run_acknowledged : Callable run_acknowledged_callbacks := callable_call _ CallRunAcknowledged eq_refl.
#[export] Instance callable_acknowledged_by_receive : Callable acknowledged_by_receive := callable_call _ CallAcknowledgedByReceive eq_refl.
#[export] Instance callable_take_wake : Callable take_acknowledged_wake := callable_void _ _ CallTakeWake eq_refl.
#[export] Instance callable_drop_observer b : Callable (mod_client (fun cl => cl <| cl_drop_observer := b |>)) := callable_call _ (CallDropObserver b) eq_refl.
#[export] Instance callable_closing : Callable closing := callable_void _ _ CallClosing eq_refl.
#[export] Instance callable_shutdown_client : Callable shutdown_client := callable_call _ CallShutdownClient eq_refl.
#[export] Instance callable_random64 : Callable random64 := callable_void _ _ CallRandom64 eq_refl.
#[export] Instance callable_take_body : Callable take_body := callable_void _ _ CallTakeBody eq_refl.
#[export] Instance callable_give_body body : Callable (give_body body) := callable_call _ (CallGiveBody body) eq_refl.
#[export] Instance callable_lane_new pinned : Callable (Lane_new pinned) := callable_void _ _ (CallLaneNew pinned) eq_refl.
#[export] Instance callable_lane_seeded connection pinned : Callable (Lane_seeded connection pinned) :=
  callable_void _ _ (CallLaneSeeded connection pinned) eq_refl.
#[export] Instance callable_send frame all lane timeout number keeps done may_batch :
  Callable (send frame all lane timeout number keeps done may_batch) :=
  callable_void _ _ (CallSend frame all lane timeout number keeps done may_batch) eq_refl.
#[export] Instance callable_send_plain plain timeout number : Callable (send_plain plain timeout number) :=
  callable_void _ _ (CallSendPlain plain timeout number) eq_refl.
#[export] Instance callable_start_query prototype timeout lane done received : Callable (start_query prototype timeout lane done received) :=
  callable_void _ _ (CallStartQuery prototype timeout lane done received) eq_refl.
#[export] Instance callable_finish query outcome : Callable (finish query outcome) := callable_call _ (CallFinish query outcome) eq_refl.
End Calls.

(** ** Invariants of the calls *)

(** What every use of the engine keeps. *)
Class Engined {E : Env} {P : Program} {OS : Os} (commands : Z -> Call) (cpu : Cpu) (fuel : nat) (I : Machine -> Prop) := {
  eg_sys A (f : os -> A * os) : keeps I (sys f);
  eg_time now : keeps I (hand commands (InTime now));
  eg_call body : keeps I (hand commands (InCall body));
  eg_kept kept : keeps I (hand commands (InKept kept));
  eg_carry_out : keeps I (carry_out_actions commands fuel);
  eg_step deadline block : keeps I (step commands cpu fuel deadline block);
  eg_descriptors t : keeps I (dmodify (fun m => m <| mc_descriptors ::= t |>));
  eg_os f : keeps I (dmodify (fun m => m <| mc_os ::= f |>));
}.

Section Engined.
Context {E : Env} {P : Program} {OS : Os} (commands : Z -> Call) (cpu : Cpu) (fuel : nat).
Context (I : Machine -> Prop) `{!Engined commands cpu fuel I}.

Lemma eg_calls bodies m : I m -> I (m <| mc_core := run_calls bodies (mc_core m) |>).
Proof.
  revert m. induction bodies as [|body bodies IH]; intros m Hm; [by destruct m|].
  specialize (IH (m <| mc_core := (run_call body (mc_core m)).2 |>)). apply IH.
  eapply (eg_call (I := I) body m tt); [|done]. unfold hand, on_core. cbn [run_input]. by destruct (run_call body (mc_core m)) as [[] c].
Qed.

Lemma eg_core A (p : CM A) : Callable p -> keeps I (on_core p).
Proof. intros Hp m a m' Hm. apply on_core_eq in Hm as ->. destruct (Hp (mc_core m)) as [bodies ->]. apply eg_calls. Qed.
#[local] Hint Resolve eg_sys eg_time eg_kept eg_carry_out eg_step eg_descriptors eg_os : keeps.
#[local] Hint Extern 2 (dleads I I (on_core _)) => (apply eg_core; exact _) : keeps.
#[local] Hint Extern 1 (dleads I I (ask _)) => apply keeps_gets : keeps.

Lemma eg_do A (p : CM A) : Callable p -> keeps I (SyncClient.call commands fuel p).
Proof. intros Hp. unfold SyncClient.call. keeps_tac. Qed.
#[local] Hint Extern 2 (dleads I I (SyncClient.call _ _ _)) => (apply eg_do; exact _) : keeps.
Lemma eg_run_one until : keeps I (run_one commands cpu fuel until).
Proof. unfold run_one. keeps_tac. Qed.
Lemma eg_poll : keeps I (poll commands cpu fuel).
Proof. unfold poll. keeps_step; [keeps_tac|]. intros. generalize fuel at 2 as n. induction n; cbn [poll_loop]; keeps_tac. Qed.
#[local] Hint Resolve eg_run_one eg_poll : keeps.

Lemma eg_deadline timeout : keeps I (deadline timeout).
Proof. unfold deadline. keeps_tac. Qed.
Lemma eg_passed until : keeps I (passed until).
Proof. unfold passed. keeps_tac. Qed.
Lemma eg_dor p q : keeps I p -> keeps I q -> keeps I (dor p q).
Proof. intros Hp Hq. unfold dor. keeps_step; [done|]. by case_match; [apply keeps_ret|]. Qed.
#[local] Hint Resolve eg_deadline eg_passed : keeps.
#[local] Hint Extern 1 (dleads I I (dor _ _)) => (apply eg_dor; keeps_tac) : keeps.

Lemma eg_check A sc (k : DM (result A CallError)) : keeps I k -> keeps I (check sc k).
Proof. intros Hk. unfold check. by case_match; [apply keeps_ret|]. Qed.
Lemma eg_check_lane A lane (k : DM (result A CallError)) : keeps I k -> keeps I (check_lane lane k).
Proof. intros Hk. unfold check_lane. keeps_step; [keeps_tac|]. by case_match; [apply keeps_ret|]. Qed.
#[local] Hint Extern 1 (dleads I I (check _ _)) => (apply eg_check; keeps_tac) : keeps.
#[local] Hint Extern 1 (dleads I I (check_lane _ _)) => (apply eg_check_lane; keeps_tac) : keeps.

Lemma eg_set_key_filters sc filters cb : keeps I (set_key_filters commands fuel sc filters cb).
Proof. unfold set_key_filters. keeps_tac. Qed.
Lemma eg_set_routing sc routing cb : keeps I (set_routing commands fuel sc routing cb).
Proof. unfold set_routing. keeps_tac. Qed.
Lemma eg_build b : keeps I (build commands fuel b).
Proof. unfold build. keeps_tac. Qed.
Lemma eg_new_message type payload : keeps I (new_message type payload).
Proof. unfold new_message. keeps_tac. Qed.
Lemma eg_wait_until n up until : keeps I (wait_until commands cpu fuel n up until).
Proof. induction n; cbn [wait_until]; keeps_tac. Qed.
#[local] Hint Resolve eg_wait_until eg_build : keeps.
Lemma eg_connect sc address timeout : keeps I (connect commands cpu fuel sc address timeout).
Proof. unfold connect. keeps_tac. Qed.
Lemma eg_connect_each parsed : keeps I (connect_each commands fuel parsed).
Proof. induction parsed as [|[host port] parsed IH]; cbn [connect_each]; keeps_tac. Qed.
#[local] Hint Resolve eg_connect_each : keeps.
Lemma eg_connect_all sc addresses timeout : keeps I (connect_all commands cpu fuel sc addresses timeout).
Proof. unfold connect_all. keeps_tac. Qed.
Lemma eg_disconnect sc address : keeps I (disconnect commands fuel sc address).
Proof. unfold disconnect. keeps_tac. Qed.
#[local] Hint Resolve eg_connect_all : keeps.
Lemma eg_builder_connect b addresses : keeps I (builder_connect commands cpu fuel b addresses).
Proof. unfold builder_connect. keeps_tac. Qed.
Lemma eg_send_confirmations : keeps I (send_confirmations commands fuel).
Proof. unfold send_confirmations. keeps_tac. Qed.
#[local] Hint Resolve eg_send_confirmations : keeps.
Lemma eg_wait_loop n until ack asked : keeps I asked -> keeps I (wait_loop commands cpu fuel n until ack asked).
Proof. intros Ha. induction n; cbn [wait_loop]; keeps_tac. Qed.
#[local] Hint Resolve eg_wait_loop : keeps.
Lemma eg_wait_for_message sc until ack asked : keeps I asked -> keeps I (wait_for_message commands cpu fuel sc until ack asked).
Proof. intros Ha. unfold wait_for_message. keeps_tac. Qed.
#[local] Hint Resolve eg_wait_for_message : keeps.
Lemma eg_wait_to_receive sc timeout ack : keeps I (wait_to_receive commands cpu fuel sc timeout ack).
Proof. unfold wait_to_receive. keeps_step; [keeps_tac|]. keeps_step; [apply eg_wait_for_message, keeps_ret|apply keeps_ret]. Qed.
Lemma eg_poll_before : keeps I (poll_before_batches_go commands cpu fuel).
Proof. unfold poll_before_batches_go. keeps_tac. Qed.
Lemma eg_flush_loop n flush until : keeps I (flush_loop commands cpu fuel n flush until).
Proof. induction n; cbn [flush_loop]; keeps_tac. Qed.
#[local] Hint Resolve eg_poll_before eg_flush_loop : keeps.
Lemma eg_flush_all_unchecked timeout : keeps I (flush_all_unchecked commands cpu fuel timeout).
Proof. unfold flush_all_unchecked. keeps_tac. Qed.
#[local] Hint Resolve eg_flush_all_unchecked : keeps.
Lemma eg_flush_all sc timeout : keeps I (flush_all commands cpu fuel sc timeout).
Proof. unfold flush_all. keeps_tac. Qed.
Lemma eg_set_delivery sc type key delivery : keeps I (set_delivery commands cpu fuel sc type key delivery).
Proof. unfold set_delivery. keeps_tac. Qed.
Lemma eg_clear_delivery sc type key : keeps I (clear_delivery commands cpu fuel sc type key).
Proof. unfold clear_delivery. keeps_tac. Qed.
Lemma eg_confirm_number sc sender number outcome : keeps I (confirm_number sc sender number outcome).
Proof. unfold confirm_number. keeps_tac. Qed.
Lemma eg_shutdown_flushes n until : keeps I (shutdown_flushes commands cpu fuel n until).
Proof. induction n; cbn [shutdown_flushes]; keeps_tac. Qed.
Lemma eg_closing_loop n until : keeps I (closing_loop commands cpu fuel n until).
Proof. induction n; cbn [closing_loop]; keeps_tac. Qed.
Lemma eg_close_inherited : keeps I close_inherited.
Proof.
  unfold close_inherited. keeps_step; [keeps_tac|]. keeps_step; [|keeps_tac]. intros m u m1 [= _ <-].
  by apply (eg_descriptors (I := I) (fun t => (close_all t).2) m tt).
Qed.
#[local] Hint Resolve eg_shutdown_flushes eg_closing_loop eg_close_inherited : keeps.
Lemma eg_shutdown sc timeout : keeps I (shutdown commands cpu fuel sc timeout).
Proof. unfold shutdown. keeps_tac. Qed.
#[local] Hint Resolve eg_shutdown : keeps.
Lemma eg_drop_client sc : keeps I (drop_client commands cpu fuel sc).
Proof. unfold drop_client. keeps_tac. Qed.
Lemma eg_drop_unexpected n : keeps I (drop_unexpected_loop n).
Proof. induction n; cbn [drop_unexpected_loop]; keeps_tac. Qed.
#[local] Hint Resolve eg_drop_unexpected : keeps.
Lemma eg_query_loop n query done before : keeps I (query_loop commands cpu fuel n query done before).
Proof. induction n; cbn [query_loop]; unfold drop_unexpected; keeps_tac. Qed.
#[local] Hint Resolve eg_query_loop : keeps.
Lemma eg_query_wait sc q done : keeps I (query_wait commands cpu fuel sc q done).
Proof. unfold query_wait. keeps_tac. Qed.
Lemma eg_queue_plain encoded timeout : keeps I (queue_plain commands cpu fuel encoded timeout).
Proof. unfold queue_plain. keeps_tac. Qed.
Lemma eg_next_id message : keeps I (next_id message).
Proof. unfold next_id. keeps_tac. Qed.
#[local] Hint Resolve eg_queue_plain eg_next_id : keeps.
Lemma eg_send_queue sc s : keeps I (send_queue commands cpu fuel sc s).
Proof. unfold send_queue. keeps_tac. Qed.
Lemma eg_send_loop n copies lane until : keeps I (send_loop commands cpu fuel n copies lane until).
Proof. induction n; cbn [send_loop]; keeps_tac. Qed.
#[local] Hint Resolve eg_send_loop : keeps.
Lemma eg_send_wait sc s : keeps I (send_wait commands cpu fuel sc s).
Proof. unfold send_wait. keeps_tac. Qed.
End Engined.

(** ** Programs of calls *)

(** The calls of a program on its client, each with what it is given. *)
Inductive SyncOp :=
| SyNewMessage (type : Z) (payload : list Z)
| SyLane (pinned : bool)
| SyThrough (connection : Wrapper) (pinned : bool)
| SyConnect (address : str) (timeout : option Z)
| SyConnectAll (addresses : list str) (timeout : option Z)
| SyDisconnect (address : str)
| SyReceive (timeout : option Z) (until_acknowledged : bool)
| SyFlush (timeout : option Z)
| SySetRouting (routing : Routing) (acknowledged : option Z)
| SySetKeyFilters (filters : list (Z * list str)) (acknowledged : option Z)
| SySetDelivery (type : Z) (key : option str) (delivery : Delivery)
| SyClearDelivery (type : Z) (key : option str)
| SyConfirm (message : Message) (outcome : Confirmed)
| SyQuery (q : SyncQuery) (done : Z)
| SyQueue (s : SyncSend)
| SyWait (s : SyncSend)
| SyShutdown (timeout : option Z)
| SyDrop.

Section Programs.
Context {E : Env} {P : Program} {OS : Os} {OSOK : OsOk} (commands : Z -> Call) (cpu : Cpu) (fuel : nat).

(** A call that cannot fail, and one that can: its error. *)
Definition safe {A} (p : DM A) : DM (option CallError) := let+ _ := p in dret None.
Definition failure {A} (p : DM (result A CallError)) : DM (option CallError) :=
  let+ answer := p in dret match answer with Ok _ => None | Err e => Some e end.

Definition run_sync (sc : SyncClient) (op : SyncOp) : DM (option CallError) :=
  match op with
  | SyNewMessage type payload => safe (new_message type payload)
  | SyLane pinned => safe (on_core (Lane_new pinned))
  | SyThrough connection pinned => safe (on_core (Lane_seeded connection pinned))
  | SyConnect address timeout => failure (connect commands cpu fuel sc address timeout)
  | SyConnectAll addresses timeout => failure (connect_all commands cpu fuel sc addresses timeout)
  | SyDisconnect address => failure (disconnect commands fuel sc address)
  | SyReceive timeout until_acknowledged => failure (wait_to_receive commands cpu fuel sc timeout until_acknowledged)
  | SyFlush timeout => failure (flush_all commands cpu fuel sc timeout)
  | SySetRouting routing acknowledged => failure (set_routing commands fuel sc routing acknowledged)
  | SySetKeyFilters filters acknowledged => failure (set_key_filters commands fuel sc filters acknowledged)
  | SySetDelivery type key delivery => failure (set_delivery commands cpu fuel sc type key delivery)
  | SyClearDelivery type key => failure (clear_delivery commands cpu fuel sc type key)
  | SyConfirm message outcome => safe (SyncClient_confirm sc message outcome)
  | SyQuery q done => failure (let+ (answer, _) := query_wait commands cpu fuel sc q done in dret answer)
  | SyQueue s => failure (send_queue commands cpu fuel sc s)
  | SyWait s => failure (send_wait commands cpu fuel sc s)
  | SyShutdown timeout => safe (shutdown commands cpu fuel sc timeout)
  | SyDrop => safe (drop_client commands cpu fuel sc)
  end.

Lemma eg_safe (I : Machine -> Prop) A (p : DM A) : keeps I p -> keeps I (safe p).
Proof. intros Hp. unfold safe. keeps_step; [done|apply keeps_ret]. Qed.
Lemma eg_failure (I : Machine -> Prop) A (p : DM (result A CallError)) : keeps I p -> keeps I (failure p).
Proof. intros Hp. unfold failure. keeps_step; [done|apply keeps_ret]. Qed.

Lemma eg_run_sync (I : Machine -> Prop) sc op : Engined commands cpu fuel I -> keeps I (run_sync sc op).
Proof.
  intros HI. destruct op; cbn [run_sync]; try (apply eg_safe); try (apply eg_failure);
    eauto using eg_new_message, eg_connect, eg_connect_all, eg_disconnect, eg_wait_to_receive, eg_flush_all, eg_set_routing,
      eg_set_key_filters, eg_set_delivery, eg_clear_delivery, eg_send_queue, eg_send_wait, eg_shutdown, eg_drop_client.
  - apply (eg_core commands cpu fuel); exact _.
  - apply (eg_core commands cpu fuel); exact _.
  - unfold SyncClient_confirm. case_match; [by apply (eg_confirm_number commands cpu fuel)|apply keeps_ret].
  - keeps_step; [by apply eg_query_wait|]. case_match. apply keeps_ret.
Qed.

(** A program: its calls, one after the other. *)
Definition run_program (sc : SyncClient) (ops : list SyncOp) : DM unit := dfor_each ops (fun op => let+ _ := run_sync sc op in dret tt).

#[export] Instance wires_engined : Engined commands cpu fuel (wires_ok commands).
Proof.
  split; intros.
  - apply wires_sys.
  - by apply wires_hand.
  - by apply wires_hand.
  - by apply wires_hand.
  - apply wires_carry_out_actions.
  - apply wires_step_loop.
  - by apply wires_rest.
  - by apply wires_rest.
Qed.

(** C7: Whatever a program does with a client with no thread of its own -- the client built, then any calls in any order,
    each with any answer -- its core is in a state of [reachable], and every socket has taken a prefix of the frames its
    connection asked to write.  So what is proved of those states holds of the class a program uses. *)
Theorem sync_client_sound peer_type ids (s : os) b sc m0 ops m :
  build commands fuel b (Engine_new peer_type ids Queue None s) = Some (Ok sc, m0) ->
  run_program sc ops m0 = Some (tt, m) ->
  reachable commands (mc_core m)
  /\ forall conn sk, dr_sockets (mc_driver m) !! conn = Some sk ->
       exists wi, mc_wire m !! sk_token sk = Some wi /\ wi_sent wi `prefix_of` concat (wi_frames wi).
Proof.
  intros Hb Hm. assert (Hok : wires_ok commands m).
  { eapply (keeps_for_each (wires_ok commands)); [|exact Hm|]; [intros op; cbn beta; keeps_step; [apply eg_run_sync; exact _|apply keeps_ret]|].
    eapply (eg_build commands cpu fuel); [exact _|exact Hb|]. by apply wires_new. }
  destruct Hok as [[[Hr _] _] Hok]. split; [done|]. intros conn sk Hs.
  destruct (wd_sockets _ _ _ Hok conn sk Hs) as [_ _ (wi & P3 & P4)]. exists wi. split; [done|]. by eapply wire_prefix.
Qed.

(** ** Forks *)

(** The program's calls that look at the client; making a message or a lane does not. *)
Definition of_the_client (op : SyncOp) : bool :=
  match op with SyNewMessage _ _ | SyLane _ | SyThrough _ _ => false | _ => true end.
Definition answers (op : SyncOp) : bool :=
  of_the_client op && match op with SyConfirm _ _ | SyShutdown _ | SyDrop => false | _ => true end.

Lemma close_inherited_frame m :
  exists m', close_inherited m = Some (tt, m') /\ mc_core m' = mc_core m /\ mc_driver m' = mc_driver m /\ mc_wire m' = mc_wire m
             /\ mc_descriptors m' = (close_all (mc_descriptors m)).2.
Proof.
  unfold close_inherited, dbind, dgets, dmodify. generalize (close_all (mc_descriptors m)).1. intros fds.
  set (m1 := m <| mc_descriptors := _ |>). assert (H : mc_core m1 = mc_core m /\ mc_driver m1 = mc_driver m /\ mc_wire m1 = mc_wire m
    /\ mc_descriptors m1 = (close_all (mc_descriptors m)).2) by done. clearbody m1. revert m1 H.
  induction fds as [|fd fds IH]; intros m1 H; [by exists m1|]. by apply (IH (m1 <| mc_os ::= os_close fd |>)).
Qed.

(** A client this process inherited across a fork is the parent's.  Every call on it that answers fails with
    [UsedAfterFork]; none of them touches its core, its driver or what its sockets sent. *)
Theorem inherited_client_refuses sc op m :
  orphaned sc = true -> of_the_client op = true ->
  exists m', run_sync sc op m = Some (if answers op then Some (Failed UsedAfterFork) else None, m')
             /\ mc_core m' = mc_core m /\ mc_driver m' = mc_driver m /\ mc_wire m' = mc_wire m.
Proof.
  intros Ho Hc. destruct (close_inherited_frame m) as (m1 & Hcl & H1 & H2 & H3 & _).
  destruct op; try discriminate Hc; cbn [run_sync answers of_the_client andb];
    unfold failure, safe, connect, connect_all, disconnect, flush_all, set_routing, set_key_filters, set_delivery, clear_delivery,
      query_wait, send_queue, send_wait, check, shutdown, drop_client, SyncClient_confirm, confirm_number; rewrite ?Ho; cbn [dbind dret negb dwhen];
    try (by exists m); try (unfold dbind; rewrite Hcl; by exists m1).
  - unfold wait_to_receive, deadline, wait_for_message, check. rewrite Ho. unfold dbind, sys. destruct (os_now (mc_os m)) as [now s]. cbn [dret].
    by eexists.
  - destruct (m_confirmation message); by exists m.
Qed.

(** ** Receiving *)

(** One program of a bind run. *)
Lemma dbind_some A B (p : DM A) (k : A -> DM B) m b m' : dbind p k m = Some (b, m') -> exists a m1, p m = Some (a, m1) /\ k a m1 = Some (b, m').
Proof. unfold dbind. destruct (p m) as [[a m1]|]; [|done]. eauto. Qed.
Ltac dstep H a m E := apply dbind_some in H as (a & m & E & H).

(** Nothing could ever happen. *)
Lemma step_no_work n limit block looked m m' :
  step_loop commands cpu fuel n limit block looked m = Some (NoWork, m') ->
  limit = None /\ block = true /\ idle m' = true /\ dr_inbox (mc_driver m') = None.
Proof.
  revert limit looked m. induction n as [|n IH]; intros limit looked m; cbn [step_loop]; [done|]. intros Hm.
  dstep Hm now m1 E1. dstep Hm u2 m2 E2. dstep Hm u3 m3 E3. dstep Hm d m4 E4.
  destruct (if (_ <? _)%nat then _ else None) as [ready|]; [dstep Hm u5 m5 E5; by dstep Hm u6 m6 E6|].
  dstep Hm u5 m5 E5. dstep Hm d1 m6 E6. injection E6 as <- <-. dstep Hm c m7 E7. injection E7 as <- <-.
  destruct (negb (bool_decide _)); [by apply IH in Hm|]. destruct (match limit with Some _ => _ | None => false end); [done|].
  destruct block; cbn [negb] in Hm.
  2:{ destruct looked; [done|]. dstep Hm u8 m8 E8. by apply IH in Hm. }
  destruct (dr_woken _); [by dstep Hm u8 m8 E8|]. destruct (_ && _ && _) eqn:Hidle.
  - destruct limit as [limit|]; [dstep Hm u8 m8 E8; apply IH in Hm as [Hu _]; discriminate Hu|].
    injection Hm as <-. apply andb_true_iff in Hidle as [Hidle Hi]. split_and!; [done|done|exact Hidle|].
    by destruct (dr_inbox (mc_driver m5)).
  - dstep Hm timer m8 E8. dstep Hm u9 m9 E9. by apply IH in Hm.
Qed.

Lemma run_one_none limit m ran m' : run_one commands cpu fuel limit m = Some (ran, m') -> (ran =? 0)%nat = true -> limit = None /\ idle m' = true.
Proof.
  unfold run_one, step. intros Hm. dstep Hm res m1 Hs. destruct res; injection Hm as <- <-; try done.
  intros _. apply step_no_work in Hs as (? & _ & ? & _). done.
Qed.

(** The clock, and the machine once it was read. *)
Definition clock (m : Machine) : Z := (os_now (mc_os m)).1.
Definition read_clock (m : Machine) : Machine := m <| mc_os := (os_now (mc_os m)).2 |>.

Lemma deadline_eq timeout m limit m' :
  deadline timeout m = Some (limit, m') -> limit = deadline_after (clock m) timeout /\ m' = read_clock m.
Proof. unfold deadline, dbind, sys, clock, read_clock. destruct (os_now (mc_os m)). by intros [= <- <-]. Qed.

Lemma passed_eq limit m over m' :
  passed limit m = Some (over, m') ->
  match limit with Some d => over = (d <=? clock m) /\ m' = read_clock m | None => over = false /\ m' = m end.
Proof.
  destruct limit as [d|]; [|by intros [= <- <-]]. cbn [passed]. unfold dbind, sys, clock, read_clock.
  destruct (os_now (mc_os m)). by intros [= <- <-].
Qed.

(** The messages that wait, the oldest first. *)
Definition queue_of (m : Machine) : list Incoming := cl_incoming (cr_client (mc_core m)).

Definition callbacks_ran (m m' : Machine) : Prop := SyncClient.call commands fuel run_acknowledged_callbacks m = Some (tt, m').

(** A look that found no message, and what a receive does then, before it waits. *)
Definition empty_look (m m' : Machine) : Prop :=
  exists m1, callbacks_ran m m1 /\ queue_of m1 = []
    /\ (on_core acknowledged_by_receive +; SyncClient.send_confirmations commands fuel) m1 = Some (tt, m').

(** Turns of a receive: each look found no message and the deadline had not come, and the engine ran something. *)
Inductive turned (limit : option Z) : Machine -> Machine -> Prop :=
| turned_none m : turned limit m m
| turned_one m m1 m2 ran m3 m4 :
    empty_look m m1 -> passed limit m1 = Some (false, m2) -> run_one commands cpu fuel limit m2 = Some (ran, m3) -> ran <> 0%nat ->
    turned limit m3 m4 -> turned limit m m4.

(** The deadline came at an empty look: the engine is polled once more, without waiting. *)
Definition came_due (limit : option Z) (m m' : Machine) : Prop :=
  exists m1 d m2, empty_look m m1 /\ limit = Some d /\ d <= clock m1
    /\ poll commands cpu fuel (read_clock m1) = Some (tt, m2) /\ callbacks_ran m2 m'.

(** What is taken is the queue's front. *)
Lemma next_incoming_eq m next m' :
  on_core next_incoming_message m = Some (next, m') ->
  match next with Some x => queue_of m = x :: queue_of m' | None => queue_of m = [] /\ m' = m end.
Proof.
  unfold on_core, next_incoming_message, bind, gets, queue_of. destruct (cl_incoming (cr_client (mc_core m))) as [|x rest] eqn:Hq.
  - intros [= <- <-]. split; [done|]. by destruct m.
  - by intros [= <- <-].
Qed.

(** How a receive's loop ends: with the oldest message, with nothing that could ever happen, or once its deadline came. *)
Definition loop_end (limit : option Z) (m : Machine) (ended : option (result Waited CallError)) (m' : Machine) : Prop :=
  match ended with
  | Some (Ok (WaitedMessage r)) =>
      exists m1 m2 x, turned limit m m1 /\ callbacks_ran m1 m2 /\ queue_of m2 = x :: queue_of m' /\ r = Incoming_from x
  | Some (Ok _) => False
  | Some (Err e) =>
      e = Failed NotConnected /\ limit = None /\ idle m' = true
      /\ exists m1 m2, turned limit m m1 /\ empty_look m1 m2 /\ run_one commands cpu fuel limit m2 = Some (0%nat, m')
  | None => exists m1 m2 d, turned limit m m1 /\ empty_look m1 m2 /\ limit = Some d /\ d <= clock m2 /\ m' = read_clock m2
  end.

Lemma turned_before limit m m1 ended m' :
  (forall m2, turned limit m1 m2 -> turned limit m m2) -> loop_end limit m1 ended m' -> loop_end limit m ended m'.
Proof.
  intros Ht. destruct ended as [[[r| |]|e]|]; cbn [loop_end]; [|done|done| |].
  - intros (m2 & m3 & x & H & Hr). exists m2, m3, x. auto.
  - intros (? & ? & ? & m2 & m3 & H & Hr). split_and!; [done|done|done|]. exists m2, m3. auto.
  - intros (m2 & m3 & d & H & Hr). exists m2, m3, d. auto.
Qed.

Lemma wait_loop_end n limit m ended m' :
  wait_loop commands cpu fuel n limit false (dret false) m = Some (ended, m') -> loop_end limit m ended m'.
Proof.
  revert m. induction n as [|n IH]; intros m Hm; cbn [wait_loop] in Hm; [done|].
  dstep Hm u1 m1 E1. destruct u1. dstep Hm next m2 E2. pose proof (next_incoming_eq _ _ _ E2) as Hq. destruct next as [incoming|].
  { injection Hm as <- <-. exists m, m1, incoming. split_and!; [constructor|exact E1|done|done]. }
  destruct Hq as [Hq ->]. dstep Hm u3 m3 E3. dstep Hm woken m4 E4. injection E4 as <- <-. dstep Hm u5 m5 E5.
  assert (Hl : empty_look m m5) by (exists m1; split_and!; [exact E1|done|]; unfold dbind; rewrite E3; by destruct u5).
  dstep Hm over m6 E6. pose proof (passed_eq _ _ _ _ E6) as Hp. destruct over.
  { injection Hm as <- <-. destruct limit as [d|]; destruct Hp as [Hd Hm6]; [|done]. exists m, m5, d. split_and!; [constructor|done|done|lia|done]. }
  dstep Hm wanted m7 E7. injection E7 as <- <-. dstep Hm ran m8 E8. destruct (ran =? 0)%nat eqn:H0.
  - injection Hm as <- <-. destruct (run_one_none _ _ _ _ E8 H0) as [-> Hi]. destruct Hp as [_ ->]. apply Nat.eqb_eq in H0 as ->.
    split_and!; [done|done|done|]. exists m, m5. split_and!; [constructor|done|done].
  - apply IH in Hm. revert Hm. apply turned_before. intros m9. apply (turned_one limit m m5 m6 ran m8); try done. by apply Nat.eqb_neq.
Qed.

(** C27: The answers of a receive.  Its turns start once the clock was read for its deadline; each looks at the messages
    that wait, and only a look that finds none is followed by a wait.  A message is the oldest of those that wait at the
    first look that finds any, or at the last look once the deadline came, and the others stay.  [OperationTimedOut] comes
    only with a deadline, once a reading of the clock at an empty look reached it and a last look, the engine polled without
    waiting, found none; [NotConnected] only without a deadline, when nothing could ever arrive: no socket, no name being
    resolved, no timer, nothing queued; [UsedAfterFork] in a child.  There is no other. *)
Theorem receive_answers sc timeout m answer m' :
  receive commands cpu fuel sc timeout m = Some (answer, m') ->
  let limit := deadline_after (clock m) timeout in
  let m0 := read_clock m in
  match answer with
  | Ok r =>
      exists m1 m2 x, turned limit m0 m1 /\ (callbacks_ran m1 m2 \/ came_due limit m1 m2)
        /\ queue_of m2 = x :: queue_of m' /\ r = Incoming_from x
  | Err (Failed OperationTimedOut) => exists m1, turned limit m0 m1 /\ came_due limit m1 m' /\ queue_of m' = []
  | Err (Failed NotConnected) =>
      limit = None /\ idle m' = true
      /\ exists m1 m2, turned limit m0 m1 /\ empty_look m1 m2 /\ run_one commands cpu fuel limit m2 = Some (0%nat, m')
  | Err (Failed UsedAfterFork) => orphaned sc = true
  | Err _ => False
  end.
Proof.
  unfold receive, wait_to_receive. intros Hm. dstep Hm limit m1 E1. apply deadline_eq in E1 as [<- ->].
  dstep Hm waited m2 E2. injection Hm as <- <-. unfold wait_for_message, check in E2.
  destruct (orphaned sc) eqn:Ho; [by injection E2 as <- <-|]. dstep E2 res m3 E3. apply wait_loop_end in E3.
  destruct res as [answer|].
  { injection E2 as <- <-. destruct answer as [[r| |]|e]; cbn in E3; [|done|done|by destruct E3 as (-> & ? & ? & ?)].
    destruct E3 as (m4 & m5 & x & H1 & H2 & H3 & H4). exists m4, m5, x. auto. }
  destruct E3 as (m4 & m5 & d & Ht & Hl & Hd & Hle & ->). dstep E2 u4 m6 E4. destruct u4. dstep E2 u5 m7 E5. destruct u5.
  dstep E2 next m8 E6. injection E2 as <- <-. pose proof (next_incoming_eq _ _ _ E6) as Hq.
  assert (Hdue : came_due limit m4 m7) by (exists m5, d, m6; auto). destruct next as [x|]; [exists m4, m7, x; auto|].
  destruct Hq as [Hq ->]. exists m4. auto.
Qed.

(** ** Flushing sends *)

Lemma existsb_state (state : SendState) l : existsb (fun copy => bool_decide (copy = state)) l = true <-> state ∈ l.
Proof.
  rewrite existsb_exists. split.
  - intros (x & Hx & ->%bool_decide_eq_true). by apply list_elem_of_In.
  - intros H. exists state. split; [by apply list_elem_of_In|by apply bool_decide_eq_true].
Qed.

(** Ok once a copy was written; before the deadline only once every copy was given up on. *)
Lemma flush_ended_spec copies over none_live :
  match flush_ended copies over none_live with
  | Some (Ok _) => Sent ∈ copies
  | Some (Err e) => (Sent ∉ copies) /\ (if over then e = if none_live then NotConnected else OperationTimedOut
                                     else e = NotConnected /\ (Queued ∉ copies))
  | None => (Sent ∉ copies) /\ over = false /\ Queued ∈ copies
  end.
Proof.
  unfold flush_ended. destruct (existsb _ copies) eqn:Hs; [by apply existsb_state|].
  assert (Hn : Sent ∉ copies) by (intros H%existsb_state; congruence). destruct over; [by split|].
  destruct (existsb (fun copy => bool_decide (copy = Queued)) copies) eqn:Hq; cbn [negb]; split; try done.
  - by apply existsb_state in Hq.
  - split; [done|]. intros H%existsb_state. congruence.
Qed.

(** What the copies of a send read, and whether nothing is live for it. *)
Definition copies_read (copies : list Z) (m : Machine) : list SendState := map (tracker_state (mc_core m)) copies.
Definition none_live (lane : option Z) (m : Machine) : bool := (connections_count (mc_core m) =? 0) || lane_closed (mc_core m) lane.

(** Turns of a flushing send's wait: its deadline had not come, no copy was written, one was still queued and a
    connection was live or coming; and the engine ran. *)
Inductive send_turned (copies : list Z) (limit : option Z) : Machine -> Machine -> Prop :=
| send_turned_none m : send_turned copies limit m m
| send_turned_one m m1 ran m2 m3 :
    passed limit m = Some (false, m1) -> (Sent ∉ copies_read copies m1) -> Queued ∈ copies_read copies m1 ->
    connection_live_or_coming (mc_core m1) = true -> run_one commands cpu fuel limit m1 = Some (ran, m2) ->
    send_turned copies limit m2 m3 -> send_turned copies limit m m3.

(** How the wait of a flushing send ends. *)
Definition send_end (copies : list Z) (lane limit : option Z) (m : Machine) (answer : result unit CallError) (m' : Machine) : Prop :=
  exists m1 over m2, send_turned copies limit m m1 /\ passed limit m1 = Some (over, m2) /\
    match answer with
    | Ok _ => m' = m2 /\ Sent ∈ copies_read copies m2
    | Err (Failed OperationTimedOut) => m' = m2 /\ over = true /\ (Sent ∉ copies_read copies m2) /\ none_live lane m2 = false
    | Err (Failed NotConnected) =>
        (Sent ∉ copies_read copies m2)
        /\ (if over then none_live lane m2 = true
            else (Queued ∉ copies_read copies m2) \/ connection_live_or_coming (mc_core m2) = false)
    | Err _ => False
    end.

Lemma send_loop_end n copies lane limit m answer m' :
  send_loop commands cpu fuel n copies lane limit m = Some (answer, m') -> send_end copies lane limit m answer m'.
Proof.
  revert m. induction n as [|n IH]; intros m Hm; cbn [send_loop] in Hm; [done|].
  dstep Hm over m1 E1. dstep Hm states m2 E2. injection E2 as <- <-. dstep Hm nolive m3 E3. injection E3 as <- <-.
  pose proof (flush_ended_spec (copies_read copies m1) over (none_live lane m1)) as Hf.
  unfold copies_read, none_live in Hf. destruct (flush_ended _ over _) as [[[]|e]|].
  - injection Hm as <- <-. exists m, over, m1. split_and!; [constructor|done|done|done].
  - injection Hm as <- <-. destruct Hf as [Hn Hf]. exists m, over, m1. split_and!; [constructor|done|]. destruct over.
    + subst e. destruct (_ || _) eqn:Hl; split_and!; done.
    + destruct Hf as [-> Hq]. split; [done|by left].
  - destruct Hf as (Hn & -> & Hq). dstep Hm coming m4 E4. injection E4 as <- <-. destruct (connection_live_or_coming _) eqn:Hc; cbn [negb] in Hm.
    + dstep Hm ran m5 E5. apply IH in Hm as (m6 & over & m7 & Ht & Hrest). exists m6, over, m7. split; [|done].
      by apply (send_turned_one copies limit m m1 ran m5).
    + dstep Hm u5 m5 E5. injection Hm as <- <-. exists m, false, m1. split_and!; [constructor|done|done|by right].
Qed.

(** The message framed, its deadline read, the engine polled and the frame sent: the frame, whether it was taken, and the
    copies the client made of it. *)
Definition send_begun (s : SyncSend) : DM (FrameIn * bool * list Z) :=
  let+ fresh := next_id (sd_message s) in
  let+ c := ask id in
  match frame_of (sd_message s) fresh (cr_instance_id c) (configured (cr_batcher c)) with
  | Err _ => out_of_fuel
  | Ok frame =>
      let+ _ := deadline (sd_timeout s) in
      poll commands cpu fuel +;
      let room := (fun timeout => timeout + ROOM_GRACE_SECONDS) <$> sd_timeout s in
      let+ (taken, copies, _) :=
        SyncClient.call commands fuel (send frame (sd_all s) (sd_lane s) room 0 true (DoneCallback <$> sd_on_end s) false) in
      dret (frame, taken, copies)
  end.

(** A message that is no frame is too large. *)
Lemma frame_of_error message id sender delivery e :
  frame_of message id sender delivery = Err e -> exists what size limit, e = TooLarge what size limit.
Proof.
  unfold frame_of, framed, encode_unsealed, encode, encode_body, check_key_size, check_message_size.
  repeat case_match; intros; simplify_eq; eauto.
Qed.

Lemma lane_error_cases c lane e :
  lane_error c lane = Some e -> e = UsedAfterFork \/ e = InvalidArgument.
Proof. unfold lane_error. repeat case_match; intros; simplify_eq; auto. Qed.

(** The clock is read for the deadline before anything is sent. *)
Lemma next_id_clock message m fresh m' : next_id message m = Some (fresh, m') -> clock m' = clock m.
Proof.
  unfold next_id. destruct (m_id message =? 0); [|by intros [= _ <-]]. unfold on_core. destruct (random64 (mc_core m)). by intros [= _ <-].
Qed.

(** C11: The answers of a flushing send, made of the message in this call ([send_begun]) and waited for in turns that start
    there.  It gives the message's id only once a copy of it was written to a socket.  [OperationTimedOut] comes only once a
    reading of the clock reached the deadline, which is the call's own: its timeout after the clock as the call began; then
    no copy was written, and a connection is live and the lane open.  [NotConnected] comes when the lane is closed, when the
    client took no copy, or with no copy written and every copy given up on, no connection live or coming, or, at the
    deadline, none live.  [UsedAfterFork] comes in a child, [UsedAfterFork] and [InvalidArgument] with a lane of another
    client's, [TooLarge] with a message that is no frame.  There is no other. *)
Theorem send_wait_answers sc s m answer m' :
  send_wait commands cpu fuel sc s m = Some (answer, m') ->
  let limit := deadline_after (clock m) (sd_timeout s) in
  let waited frame copies m2 over m3 :=
    exists m1, send_begun s m = Some ((frame, true, copies), m1)
      /\ send_turned copies limit (m1 <| mc_core ::= fun c => c <| cr_kept := copies |> |>) m2 /\ passed limit m2 = Some (over, m3) in
  match answer with
  | Ok id => exists frame copies m2 over m3, waited frame copies m2 over m3 /\ id = fi_id frame /\ Sent ∈ copies_read copies m3
  | Err (Failed OperationTimedOut) =>
      exists frame copies m2 m3 d, waited frame copies m2 true m3 /\ limit = Some d /\ d <= clock m2
        /\ (Sent ∉ copies_read copies m') /\ connections_count (mc_core m') <> 0 /\ lane_closed (mc_core m') (sd_lane s) = false
  | Err (Failed NotConnected) =>
      lane_closed (mc_core m) (sd_lane s) = true
      \/ (exists frame copies, send_begun s m = Some ((frame, false, copies), m'))
      \/ (exists frame copies m2 over m3, waited frame copies m2 over m3 /\ (Sent ∉ copies_read copies m3)
           /\ if over : bool then none_live (sd_lane s) m3 = true
              else (Queued ∉ copies_read copies m3) \/ connection_live_or_coming (mc_core m3) = false)
  | Err (Failed UsedAfterFork) => orphaned sc = true \/ lane_error (mc_core m) (sd_lane s) = Some UsedAfterFork
  | Err (Failed InvalidArgument) => lane_error (mc_core m) (sd_lane s) = Some InvalidArgument
  | Err (Failed (TooLarge what size bound)) =>
      exists fresh sender delivery, frame_of (sd_message s) fresh sender delivery = Err (TooLarge what size bound)
  | Err _ => False
  end.
Proof.
  unfold send_wait, check. destruct (orphaned sc); [intros [= <- <-]; by left|]. unfold check_lane. intros Hm. dstep Hm refused m1 E1.
  injection E1 as E1 <-. destruct refused as [refused|].
  { injection Hm as <- <-. destruct (lane_error_cases _ _ _ E1) as [->| ->]; [by right|done]. }
  clear E1. dstep Hm shut m2 E2. injection E2 as E2 <-. destruct shut; [injection Hm as <- <-; by left|].
  dstep Hm newid m3 E3. dstep Hm c m4 E4. injection E4 as <- <-. pose proof (next_id_clock _ _ _ _ E3) as Hclock.
  destruct (frame_of _ _ _ _) as [frame|e] eqn:Hf.
  2:{ injection Hm as <- <-. pose proof Hf as Hl. apply frame_of_error in Hl as (? & ? & ? & ->). eauto. }
  dstep Hm limit m5 E5. dstep Hm u6 m6 E6. destruct u6. dstep Hm sent7 m7 E7. destruct sent7 as [[taken copies] used].
  assert (Hbegun : send_begun s m = Some ((frame, taken, copies), m7)).
  { unfold send_begun, dbind, ask, dgets, id. rewrite E3. unfold id in Hf. by rewrite Hf, E5, E6, E7. }
  apply deadline_eq in E5 as [-> _]. rewrite Hclock in Hm. destruct taken; cbn [negb] in Hm.
  2:{ injection Hm as <- <-. right. left. eauto. }
  dstep Hm u8 m8 E8. injection E8 as _ <-. dstep Hm res m9 E9. dstep Hm u10 m10 E10. injection Hm as <- <-. injection E10 as _ <-.
  apply send_loop_end in E9 as (m1 & over & m2 & Ht & Hp & Hend). destruct res as [[]|[[]|]]; cbn in Hend; try done.
  - destruct Hend as [-> Hs]. exists frame, copies, m1, over, m2. split; [by exists m7|done].
  - right. right. exists frame, copies, m1, over, m2. split; [by exists m7|done].
  - destruct Hend as (-> & -> & Hs & Hl). apply orb_false_iff in Hl as [Hc Hl].
    pose proof (passed_eq _ _ _ _ Hp) as Hd. destruct (deadline_after _ _) as [d|]; destruct Hd as [Hd _]; [|done].
    exists frame, copies, m1, m2, d. split; [by exists m7|]. split_and!; [done|lia|done|exact (proj1 (Z.eqb_neq _ _) Hc)|done].
Qed.
End Programs.

(** ** Runs *)

(** A system with a multiplexer behind the first socket: it takes what is written and says its welcome once. *)
Definition demo_welcome : list Z := frame_of_body demo_cpu [types.CONNECTION_WELCOME; 1; 77].
#[local] Instance talk_os : Os := {|
  os := Z * bool;
  os_now s := (s.1, (s.1 + 1, s.2));
  os_poll _ s := (Some [mkEvent 1 true false true false false], (s.1 + 1, s.2));
  os_connect _ s := (inl 7, s);
  os_register _ _ s := (None, s);
  os_take_error _ s := (false, s);
  os_peer_addr _ s := (PeerKnown, s);
  os_write _ bytes s := (Wrote (length bytes), s);
  os_read _ _ s := if s.2 then (ReadWouldBlock, s) else (Read demo_welcome, (s.1, true));
  os_shutdown _ _ s := s;
  os_close _ s := s;
  os_spawn s := (true, s);
  os_request _ _ _ s := (true, s);
  os_answers s := ([], s);
  os_others s := ([], s);
|}.
#[local] Instance talk_os_ok : OsOk.
Proof. intros fd bytes s count s' [= <- _]. lia. Qed.

Definition demo_address : str := [49; 50; 55; 46; 48; 46; 48; 46; 49; 58; 56; 48].
Definition demo_builder : SyncClientBuilder := mkBuilder 200 false None None false.
Definition demo_client : SyncClient := mkSyncClient 0 false.
Definition demo_start : Machine := Engine_new 200 7 Queue None ((0, false) : @os talk_os).

(** Where a program of calls ends, and that it does. *)
Definition landed {OS : Os} {A} (ran : option (A * @Machine OS)) (m : @Machine OS) : @Machine OS := match ran with Some (_, m) => m | None => m end.
Lemma landed_run {OS : Os} {A} (ran : option (A * @Machine OS)) (test : A -> bool) m :
  match ran with Some (a, _) => test a | None => false end = true -> exists a, ran = Some (a, landed ran m) /\ test a = true.
Proof. destruct ran as [[a m']|]; [by exists a|done]. Qed.

Definition is_ok {A} (answer : result A CallError) : bool := match answer with Ok _ => true | Err _ => false end.
Definition is_timeout {A} (answer : result A CallError) : bool := match answer with Err (Failed OperationTimedOut) => true | _ => false end.

(** A client is built, connects and sends; then it waits for a message that does not come. *)
Definition demo_built : Machine := landed (build (fun _ => CallClosing) 60 demo_builder demo_start) demo_start.
Definition demo_program : list SyncOp := [SyConnect demo_address (Some 100); SyQueue (SyncClient_send 200 [4; 5; 6])].
Definition demo_done : Machine := landed (run_program (fun _ => CallClosing) demo_cpu 60 demo_client demo_program demo_built) demo_start.

Lemma demo_builds : build (fun _ => CallClosing) 60 demo_builder (Engine_new 200 7 Queue None ((0, false) : @os talk_os)) = Some (Ok demo_client, demo_built).
Proof.
  assert (H : exists a, build (fun _ => CallClosing) 60 demo_builder demo_start = Some (a, demo_built)
    /\ match a with Ok (mkSyncClient 0 false) => true | _ => false end = true).
  { unfold demo_built. apply landed_run. vm_compute. reflexivity. }
  destruct H as ([[[] []]|] & H1 & H2); try discriminate H2. exact H1.
Qed.
Lemma demo_program_runs : run_program (fun _ => CallClosing) demo_cpu 60 demo_client demo_program demo_built = Some (tt, demo_done).
Proof.
  assert (H : exists a, run_program (fun _ => CallClosing) demo_cpu 60 demo_client demo_program demo_built = Some (a, demo_done) /\ true = true).
  { unfold demo_done. apply (landed_run _ (fun _ => true)). vm_compute. reflexivity. }
  destruct H as ([] & H1 & _). exact H1.
Qed.

Lemma sync_client_sound_witness :
  reachable (fun _ => CallClosing) (mc_core demo_done)
  /\ forall conn sk, dr_sockets (mc_driver demo_done) !! conn = Some sk ->
       exists wi, mc_wire demo_done !! sk_token sk = Some wi /\ wi_sent wi `prefix_of` concat (wi_frames wi).
Proof.
  exact (sync_client_sound (fun _ => CallClosing) demo_cpu 60 200 7 ((0, false) : @os talk_os) demo_builder demo_client demo_built demo_program demo_done
    demo_builds demo_program_runs).
Defined.

Lemma inherited_client_refuses_witness :
  exists m', run_sync (fun _ => CallClosing) demo_cpu 60 (mkSyncClient 1 false) (SyFlush None) demo_start = Some (Some (Failed UsedAfterFork), m')
             /\ mc_core m' = mc_core demo_start /\ mc_driver m' = mc_driver demo_start /\ mc_wire m' = mc_wire demo_start.
Proof. exact (inherited_client_refuses (fun _ => CallClosing) demo_cpu 60 (mkSyncClient 1 false) (SyFlush None) demo_start eq_refl eq_refl). Defined.

Lemma demo_waits : exists answer,
  receive (fun _ => CallClosing) demo_cpu 60 demo_client (Some 5) demo_done
  = Some (answer, landed (receive (fun _ => CallClosing) demo_cpu 60 demo_client (Some 5) demo_done) demo_done) /\ is_timeout answer = true.
Proof. apply landed_run. vm_compute. reflexivity. Qed.

Lemma receive_answers_witness :
  exists m1 m', turned (fun _ => CallClosing) demo_cpu 60 (deadline_after (clock demo_done) (Some 5)) (read_clock demo_done) m1
    /\ came_due (fun _ => CallClosing) demo_cpu 60 (deadline_after (clock demo_done) (Some 5)) m1 m' /\ queue_of m' = [].
Proof.
  destruct demo_waits as (answer & H & Ht). pose proof (receive_answers (fun _ => CallClosing) demo_cpu 60 demo_client (Some 5) demo_done answer _ H) as Ha.
  destruct answer as [|[[]|]]; try discriminate Ht. destruct Ha as (m1 & H1 & H2 & H3). exists m1. eexists. exact (conj H1 (conj H2 H3)).
Defined.

Lemma demo_sends : exists answer,
  send_wait (fun _ => CallClosing) demo_cpu 60 demo_client (SyncClient_send 200 [1; 2; 3]) demo_done
  = Some (answer, landed (send_wait (fun _ => CallClosing) demo_cpu 60 demo_client (SyncClient_send 200 [1; 2; 3]) demo_done) demo_done)
  /\ is_ok answer = true.
Proof. apply landed_run. vm_compute. reflexivity. Qed.

Lemma send_wait_answers_witness :
  exists frame copies m1 m2 m3 over,
    send_begun (fun _ => CallClosing) demo_cpu 60 (SyncClient_send 200 [1; 2; 3]) demo_done = Some ((frame, true, copies), m1)
    /\ passed (deadline_after (clock demo_done) (Some DEFAULT_TIMEOUT)) m2 = Some (over, m3) /\ Sent ∈ copies_read copies m3.
Proof.
  destruct demo_sends as (answer & H & Ht).
  pose proof (send_wait_answers (fun _ => CallClosing) demo_cpu 60 demo_client (SyncClient_send 200 [1; 2; 3]) demo_done answer _ H) as Ha.
  destruct answer as [id|]; [|discriminate Ht]. destruct Ha as (frame & copies & m2 & over & m3 & (m1 & H1 & _ & H2) & _ & H3).
  exists frame, copies, m1, m2, m3, over. exact (conj H1 (conj H2 H3)).
Defined.
