(* ===== verification/Requests.v ===== *)
(** * Requests: a message being handled, and what becomes of it (servers/mod.rs)

    [as_reply] and the messages a request is answered with; the shared
    [RequestState]; and [handle], the handler's run and what follows it.  A request
    is held by the program, which may keep it past the handler's return and use it
    from any thread, and by the server that handles it; the two are threads of the
    model, the handler being the program's.  Each load, store, send and drop is a
    step, so that a request kept is answered and let go of at any moment. *)
From S2P Require Import Prelude Defaults Records Interleaving Messages CoreTypes OutboxState Message.
From Stdlib Require String.
Import String.StringSyntax.
Open Scope Z_scope.

Definition direct_only_routing : Routing := mkRouting false false false.

Definition nothing_more_arrives (routing : Routing) : bool :=
  negb (rt_any routing) && negb (rt_all routing) && negb (rt_last_resort routing).

(** [reply] as the reply to [request]. *)
Definition as_reply (request reply : Message) : Message :=
  let reply := if default 0 (m_to reply) =? 0 then reply <| m_to := Some (m_sender request) |> else reply in
  let reply := if m_references reply =? 0 then reply <| m_references := m_id request |> else reply in
  match m_workflow reply with
  | None | Some [] => reply <| m_workflow := m_workflow request |>
  | Some _ => reply
  end.

(** Through what the replies go: the plain server's client, or the threaded's. *)
Inductive Replier := Sync | Threaded.

Record RequestState := mkRequestState {
  rs_message : Message;
  rs_replier : Replier;
  rs_answered : bool;
  rs_kept : bool;
  rs_failed : bool;
  rs_confirms : bool;
}.
#[export] Instance eta_RequestState : Eta RequestState := fun r =>
  mkRequestState (rs_message r) (rs_replier r) (rs_answered r) (rs_kept r) (rs_failed r) (rs_confirms r).

Definition Request_new (message : Message) (replier : Replier) : RequestState :=
  mkRequestState message replier false false false (match replier with Threaded => true | Sync => false end).

Definition unconfirmed (s : RequestState) : RequestState := s <| rs_confirms := false |>.

(** What the last holder's drop confirms. *)
Definition RequestState_drop (s : RequestState) : option Confirmed :=
  if negb (rs_confirms s) || match m_confirmation (rs_message s) with None => true | Some _ => false end then None
  else
    match rs_replier s with
    | Threaded => Some (if rs_failed s then ConfirmedFailed else Processed)
    | Sync => None
    end.

(** What [reply], [report_error] and [notify_start] send. *)
Definition reply_of (request : Message) (type : Z) (payload : list Z) : Message :=
  as_reply request (Message_default <| m_type := type |> <| m_payload := payload |>).
Definition report_error_of (request : Message) (text : list Z) : Message := reply_of request types.BACKEND_ERROR text.
Definition notify_start_of (request : Message) : Message :=
  as_reply request (Message_default <| m_type := types.REQUEST_RECEIVED |>).

Record Handled := mkHandled { ha_failed : bool; ha_end : option (list Z) }.

(** What [on_handler_error] does: its word, or the text it panics with. *)
Inductive OnError := Says (goes_on : bool) | Panics (text : list Z).

(** [on_handler_error panicked: ] before the panic's text. *)
Definition panicked_text (panic : list Z) : list Z := text "on_handler_error panicked: " ++ panic.

Definition end_of (error : list Z) (on_error : OnError) : option (list Z) :=
  match on_error with
  | Says true => None
  | Says false => Some error
  | Panics text => Some (panicked_text text)
  end.

(** ** A request's life *)

(** Where the program is with its [Request]: holding it; in its drop, [kept] read;
    past the drop, its share of the state about to go; gone. *)
Inductive HolderPoint := Holds | Checks | LetsGo | HolderGone.

(** Where [handle] is. *)
Inductive ServerPoint :=
| Handling                                  (* in [handle_message] *)
| Counts                                    (* it returned, and well *)
| Keeps                                     (* another holder was seen *)
| Alone                                     (* none was *)
| Fails (error : list Z)                    (* it failed, an [Err] or a panic *)
| Reports (error : list Z)                  (* marked failed *)
| Reported (error : list Z)                 (* the report sent, or it could not be *)
| Asks (error : list Z)                     (* about to ask [on_handler_error] *)
| Returns (handled : Handled)               (* its share of the state about to go *)
| ServerGone (handled : Handled).

Record RequestRun := mkRequestRun {
  rr_state : RequestState;
  rr_holder : HolderPoint;
  rr_server : ServerPoint;
  rr_answering : nat;              (* replies that went, [answered] not yet set *)
  rr_replies : list Message;       (* sent by the program *)
  rr_reports : list Message;       (* sent by the server, or attempted *)
  rr_warned : nat;                 (* "dropped without a reply or no_response()" *)
  rr_confirmed : list Confirmed;
  rr_first : bool;                 (* answered before the handler returned *)
  rr_raced : bool;                 (* in its drop, [kept] read unset, as the server saw it held *)
}.
#[export] Instance eta_RequestRun : Eta RequestRun := fun r =>
  mkRequestRun (rr_state r) (rr_holder r) (rr_server r) (rr_answering r) (rr_replies r) (rr_reports r) (rr_warned r)
    (rr_confirmed r) (rr_first r) (rr_raced r).

Inductive RequestLabel :=
| RSend (message : Message) (ok : bool)   (* [reply_message]: the send *)
| RAnswered                               (* its store *)
| RNoResponse
| RNotifyStart
| RDrop                                   (* the [Request]'s drop: [kept] read *)
| RCheck                                  (* [answered] read *)
| RLetGo                                  (* its share of the state *)
| RReturn (failure : option (list Z))     (* [handle_message] returns *)
| RServer (on_error : OnError).           (* the next step of [handle] *)

(** The state goes with its last holder. *)
Definition let_go (last : bool) (r : RequestRun) : RequestRun :=
  if last then r <| rr_confirmed ::= fun l => l ++ match RequestState_drop (rr_state r) with Some c => [c] | None => [] end |>
  else r.

Definition holder_gone (r : RequestRun) : bool := match rr_holder r with HolderGone => true | _ => false end.
Definition server_gone (r : RequestRun) : bool := match rr_server r with ServerGone _ => true | _ => false end.
Definition holds (r : RequestRun) : bool := match rr_holder r with Holds => true | _ => false end.

(** [handle] after the handler. *)
Definition handle_step (on_error : OnError) (r : RequestRun) : option RequestRun :=
  let s := rr_state r in
  match rr_server r with
  | Handling => None
  | Counts =>
      Some ((r <| rr_server := if holder_gone r then Alone else Keeps |>)
              <| rr_raced := match rr_holder r with LetsGo => true | _ => rr_raced r end |>)
  | Keeps => Some (r <| rr_state := s <| rs_kept := true |> |> <| rr_server := Returns (mkHandled false None) |>)
  | Alone =>
      Some (r <| rr_warned ::= (if rs_answered s then id else S) |> <| rr_server := Returns (mkHandled false None) |>)
  | Fails error => Some (r <| rr_state := s <| rs_failed := true |> |> <| rr_server := Reports error |>)
  | Reports error =>
      if negb (rs_answered s) && (m_references (rs_message s) =? 0) then
        Some (r <| rr_reports ::= fun l => l ++ [report_error_of (rs_message s) error] |> <| rr_server := Reported error |>)
      else Some (r <| rr_server := Asks error |>)
  | Reported error => Some (r <| rr_state := s <| rs_answered := true |> |> <| rr_server := Asks error |>)
  | Asks error => Some (r <| rr_server := Returns (mkHandled true (end_of error on_error)) |>)
  | Returns handled => Some (let_go (holder_gone r) (r <| rr_server := ServerGone handled |>))
  | ServerGone _ => None
  end.

Definition request_step (l : RequestLabel) (r : RequestRun) : option RequestRun :=
  let s := rr_state r in
  match l with
  | RSend message ok =>
      guard_step (holds r)
        (if ok : bool then
           r <| rr_replies ::= fun l => l ++ [as_reply (rs_message s) message] |> <| rr_answering ::= S |>
         else r)
  | RAnswered =>
      guard_step (0 <? rr_answering r)%nat
        (r <| rr_state := s <| rs_answered := true |> |> <| rr_answering ::= pred |>)
  | RNoResponse => guard_step (holds r) (r <| rr_state := s <| rs_answered := true |> |>)
  | RNotifyStart => guard_step (holds r) r
  | RDrop =>
      guard_step (holds r && (rr_answering r =? 0)%nat)
        ((r <| rr_holder := if rs_kept s then Checks else LetsGo |>) 
           <| rr_raced := match rr_server r with Keeps => true | _ => rr_raced r end |>)
  | RCheck =>
      guard_step (match rr_holder r with Checks => true | _ => false end)
        (r <| rr_warned ::= (if rs_answered s then id else S) |> <| rr_holder := LetsGo |>)
  | RLetGo =>
      guard_step (match rr_holder r with LetsGo => true | _ => false end)
        (let_go (server_gone r) (r <| rr_holder := HolderGone |>))
  | RReturn failure =>
      guard_step (match rr_server r with Handling => true | _ => false end)
        ((r <| rr_server := match failure with Some error => Fails error | None => Counts end |>)
           <| rr_first := rs_answered s |>)
  | RServer on_error => handle_step on_error r
  end.

Definition request_start (message : Message) (replier : Replier) : RequestRun :=
  mkRequestRun (Request_new message replier) Holds Handling 0 [] [] 0 [] false false.

Definition request_reaches (message : Message) (replier : Replier) : RequestRun -> Prop :=
  steps_to request_step (request_start message replier).

(** ** What is confirmed *)

(** The handler failed, as [handle] marked it. *)
Definition marked (p : ServerPoint) : bool :=
  match p with
  | Reports _ | Reported _ | Asks _ => true
  | Returns handled | ServerGone handled => ha_failed handled
  | _ => false
  end.

Definition to_confirm (message : Message) (replier : Replier) (failed : bool) : list Confirmed :=
  match m_confirmation message, replier with
  | Some _, Threaded => [if failed then ConfirmedFailed else Processed]
  | _, _ => []
  end.

Record confirm_ok (message : Message) (replier : Replier) (r : RequestRun) : Prop := {
  ck_message : rs_message (rr_state r) = message;
  ck_replier : rs_replier (rr_state r) = replier;
  ck_confirms : rs_confirms (rr_state r) = match replier with Threaded => true | Sync => false end;
  ck_failed : rs_failed (rr_state r) = marked (rr_server r);
  ck_confirmed :
    rr_confirmed r = if holder_gone r && server_gone r then to_confirm message replier (marked (rr_server r)) else [];
}.

Lemma confirm_step message replier l r r' :
  confirm_ok message replier r -> request_step l r = Some r' -> confirm_ok message replier r'.
Proof.
  intros [Hm Hr Hc Hf Hd] Hl.
  assert (Hdrop : forall s, rs_message s = message -> rs_replier s = replier ->
            rs_confirms s = (match replier with Threaded => true | Sync => false end) ->
            match RequestState_drop s with Some c => [c] | None => [] end = to_confirm message replier (rs_failed s)).
  { intros s <- <- Hs. unfold RequestState_drop, to_confirm. rewrite Hs. by destruct (m_confirmation _), (rs_replier s). }
  destruct r as [s holder server answering replies reports warned confirmed first raced].
  cbn in Hm, Hr, Hc, Hf. destruct holder, server; cbn in Hd, Hf; subst confirmed; destruct l; cbn in Hl; try discriminate Hl;
    step_cases Hl.
  all: specialize (Hdrop s eq_refl eq_refl Hc); split; cbn; auto; by rewrite <- Hf, <- Hdrop, Heqo.
Qed.

Lemma request_confirms message replier r : request_reaches message replier r -> confirm_ok message replier r.
Proof. apply (steps_keep request_step (confirm_ok message replier)); [apply confirm_step|]. by split. Qed.

(** ** What the requester is told of a failure *)

Definition reported (first : bool) (message : Message) (error : list Z) (reports : list Message) : Prop :=
  reports = [] \/ (reports = [report_error_of message error] /\ m_references message = 0 /\ first = false).

Definition report_ok (message : Message) (r : RequestRun) : Prop :=
  let s := rr_state r in
  let told := rs_answered s = true \/ m_references message <> 0 in
  rs_message s = message
  /\ match rr_server r with
     | Handling => rr_reports r = [] /\ rr_first r = false
     | Counts | Keeps | Alone => rr_reports r = []
     | Fails _ | Reports _ => rr_reports r = [] /\ (rr_first r = true -> rs_answered s = true)
     | Reported error => rr_reports r = [report_error_of message error] /\ m_references message = 0 /\ rr_first r = false
     | Asks error => told /\ reported (rr_first r) message error (rr_reports r)
     | Returns handled | ServerGone handled =>
         if ha_failed handled then told /\ exists error, reported (rr_first r) message error (rr_reports r)
         else rr_reports r = []
     end.

Lemma let_go_eq last r :
  rr_state (let_go last r) = rr_state r /\ rr_server (let_go last r) = rr_server r /\ rr_holder (let_go last r) = rr_holder r
  /\ rr_reports (let_go last r) = rr_reports r /\ rr_first (let_go last r) = rr_first r
  /\ rr_warned (let_go last r) = rr_warned r /\ rr_raced (let_go last r) = rr_raced r /\ rr_answering (let_go last r) = rr_answering r.
Proof. by destruct last. Qed.

(** What the program does with the request changes nothing but that it is answered. *)
Lemma report_held message r r' :
  report_ok message r -> rr_server r' = rr_server r -> rr_reports r' = rr_reports r -> rr_first r' = rr_first r ->
  rs_message (rr_state r') = rs_message (rr_state r) ->
  (rs_answered (rr_state r) = true -> rs_answered (rr_state r') = true) -> report_ok message r'.
Proof.
  intros [Hm Hok] Hs Hr Hf He Ha. unfold report_ok. rewrite Hs, Hr, Hf, He. split; [done|].
  destruct (rr_server r) as [| | | | | | | |[[] ?]|[[] ?]]; cbn in *; intuition.
Qed.

Lemma report_step message l r r' : report_ok message r -> request_step l r = Some r' -> report_ok message r'.
Proof.
  intros Hok Hl. destruct l; cbn [request_step] in Hl.
  1-7: step_cases Hl; apply (report_held message _ _ Hok); auto; unfold let_go; by destruct (server_gone _).
  - step_cases Hl; destruct Hok as [Hm Hok]; destruct (rr_server r); try done; split; cbn; try done; by destruct Hok.
  - destruct Hok as [Hm Hok]. destruct r as [s holder server answering replies reports warned confirmed first raced]. cbn in Hm, Hok, Hl.
    destruct server as [| | | |error|error|error|error|handled|handled]; try discriminate Hl; cbn in Hl.
    + injection Hl as <-. split; [done|]. cbn. by destruct (holder_gone _).
    + injection Hl as <-. by split.
    + injection Hl as <-. by split.
    + injection Hl as <-. by split.
    + destruct Hok as [-> Hf]. destruct (negb (rs_answered s) && (m_references (rs_message s) =? 0)) eqn:Hb; injection Hl as <-; split; cbn; try done.
      * apply andb_prop in Hb as [Hn%negb_true_iff He%Z.eqb_eq]. rewrite <- Hm. split; [done|]. split; [done|]. destruct first; [|done].
        rewrite Hf in Hn; done.
      * split; [|by left]. apply andb_false_iff in Hb as [Hb|Hb]; [left; by apply negb_false_iff|right]. rewrite <- Hm. by apply Z.eqb_neq.
    + injection Hl as <-. split; [done|]. cbn. split; [by left|]. right. done.
    + injection Hl as <-. split; [done|]. cbn. destruct Hok. eauto.
    + injection Hl as <-. unfold report_ok.
      destruct (let_go_eq (holder_gone (mkRequestRun s holder (Returns handled) answering replies reports warned confirmed first raced))
                  (mkRequestRun s holder (ServerGone handled) answering replies reports warned confirmed first raced))
        as (-> & -> & _ & -> & -> & _). done.
Qed.

(** ** What is logged of a request let go of unanswered *)

Definition warnings (s : RequestState) : nat := if rs_answered s then 0 else 1.

Definition dropping (h : HolderPoint) : bool := match h with LetsGo | HolderGone => true | _ => false end.

Definition checking (h : HolderPoint) : bool := match h with Checks => true | _ => false end.

Definition warn_ok (r : RequestRun) : Prop :=
  let s := rr_state r in
  let unseen := rr_warned r = 0%nat /\ rs_kept s = false /\ checking (rr_holder r) = false in
  (holds r = false -> rr_answering r = 0%nat)
  /\ match rr_server r with
     | Keeps => unseen /\ (dropping (rr_holder r) = true -> rr_raced r = true)
     | Alone => unseen /\ rr_holder r = HolderGone
     | Returns handled | ServerGone handled =>
         if ha_failed handled then unseen
         else if rs_kept s then
           if dropping (rr_holder r) then (rr_raced r = true /\ rr_warned r = 0%nat) \/ rr_warned r = warnings s
           else rr_warned r = 0%nat
         else rr_holder r = HolderGone /\ rr_warned r = warnings s
     | _ => unseen
     end.

Lemma warn_step l r r' : warn_ok r -> request_step l r = Some r' -> warn_ok r'.
Proof.
  intros [Ha Hok] Hl.
  destruct r as [[message replier answered kept failed confirms] holder server answering replies reports warned confirmed first raced].
  unfold warnings in Hok. cbn in Ha, Hok.
  destruct server as [| | | |error|error|error|error|[[] end_]|[[] end_]], holder; cbn in Ha, Hok;
    destruct l; cbn in Hl; try discriminate Hl; step_cases Hl.
  all: unfold warn_ok, warnings, let_go; cbn in *; try (specialize (Ha eq_refl); subst; try discriminate).
  all: try match goal with H : (_ =? 0)%nat = true |- _ => apply Nat.eqb_eq in H end.
  all: try (destruct kept); destr_all; try discriminate; subst; auto 10; done.
Qed.

(** ** The request's guarantees *)

(** C25: A message of a confirmed batch, handled by the threaded server, is confirmed
    once: when the program and the server have both let go of its request, whoever is
    last, and not before; [Failed] if its handler failed, [Processed] otherwise.  The
    plain server's request confirms nothing itself, nor does a message of no batch. *)
Theorem request_confirmed_once (message : Message) (replier : Replier) (r : RequestRun) :
  request_reaches message replier r ->
  rr_confirmed r =
    match rr_holder r, rr_server r with
    | HolderGone, ServerGone handled =>
        match m_confirmation message, replier with
        | Some _, Threaded => [if ha_failed handled then ConfirmedFailed else Processed]
        | _, _ => []
        end
    | _, _ => []
    end.
Proof.
  intros Hr. destruct (request_confirms message replier r Hr) as [_ _ _ _ Hc]. rewrite Hc.
  unfold holder_gone, server_gone. by destruct (rr_holder r), (rr_server r).
Qed.


(** A request let go of without an answer is logged, once: by the server when
    none but it held the request at the handler's return, by the request's own drop
    otherwise.  Never twice, and it goes unlogged only if the program was in the drop
    of the request, past its look at [kept], when the server saw the request held. *)
Theorem unanswered_is_logged (message : Message) (replier : Replier) (r : RequestRun) (handled : Handled) :
  request_reaches message replier r -> rr_holder r = HolderGone -> rr_server r = ServerGone handled ->
  (rr_warned r <= 1)%nat
  /\ (ha_failed handled = false -> rr_raced r = false -> rr_warned r = if rs_answered (rr_state r) then 0%nat else 1%nat).
Proof.
  intros Hr Hh Hs.
  assert (Hok : warn_ok r).
  { eapply (steps_keep request_step warn_ok); [apply warn_step| |exact Hr]. by repeat split. }
  destruct Hok as [_ Hok]. rewrite Hs, Hh in Hok. unfold warnings in Hok.
  destruct (ha_failed handled), (rs_kept (rr_state r)), (rs_answered (rr_state r)); cbn in Hok; destr_all;
    split; intros; try lia; try congruence; destruct Hok as [[? ?]|?]; try lia; congruence.
Qed.

(** ** Witnesses *)

Definition demo_request : Message :=
  Message_default <| m_id := 9 |> <| m_sender := 4 |> <| m_type := 300 |> <| m_confirmation := Some 1 |>.

(** The handler fails, the request dropped as it unwinds. *)
Definition demo_failed_labels : list RequestLabel :=
  [RDrop; RLetGo; RReturn (Some [66])] ++ replicate 5 (RServer (Says true)).
(** The handler keeps the request, which is dropped later, unanswered. *)
Definition demo_kept_labels : list RequestLabel :=
  [RReturn None; RServer (Says true); RServer (Says true); RServer (Says true); RDrop; RCheck; RLetGo].

Definition demo_run (labels : list RequestLabel) : RequestRun :=
  default (request_start demo_request Threaded) (run_steps request_step labels (request_start demo_request Threaded)).

Lemma request_confirmed_once_witness : rr_confirmed (demo_run demo_failed_labels) = [ConfirmedFailed].
Proof.
  assert (Hr : request_reaches demo_request Threaded (demo_run demo_failed_labels)) by (exists demo_failed_labels; vm_compute; reflexivity).
  rewrite (request_confirmed_once demo_request Threaded _ Hr). vm_compute. reflexivity.
Defined.


Lemma unanswered_is_logged_witness : rr_warned (demo_run demo_kept_labels) = 1%nat.
Proof.
  assert (Hr : request_reaches demo_request Threaded (demo_run demo_kept_labels)) by (exists demo_kept_labels; vm_compute; reflexivity).
  destruct (unanswered_is_logged demo_request Threaded _ (mkHandled false None) Hr) as [_ H]; [vm_compute; reflexivity|vm_compute; reflexivity|].
  rewrite H; vm_compute; reflexivity.
Defined.

(** The request is dropped, unanswered, between the server's look at who holds it
    and its store of [kept]: nothing is logged. *)
Lemma dropped_as_kept_unlogged :
  let r := demo_run [RReturn None; RServer (Says true); RDrop; RLetGo; RServer (Says true); RServer (Says true)] in
  rr_holder r = HolderGone /\ rr_server r = ServerGone (mkHandled false None)
  /\ rs_answered (rr_state r) = false /\ rr_warned r = 0%nat.
Proof. vm_compute. auto. Qed.
