(* ===== verification/ThreadedServer.v ===== *)
(** * ThreadedServer: handlers on worker threads (servers/threaded.rs)

    The io thread hands every message to a bounded queue the workers take from; a
    serving thread polls, runs the callbacks of acknowledged changes and notices a
    stop, a failure and a drain's end; [close] lets the workers finish and refuses
    what none took.  The operations under the state's lock are functions of [State];
    the run interleaves them: the io thread's messages and acknowledgements, each
    worker, the serving loop, and a thread that closes the server.  A wake of the
    loop and a notify that a thread owes are counted, and may come later than the
    thread's next step, which only adds interleavings. *)
From S2P Require Import Prelude Defaults Records Interleaving Messages CoreTypes Message Requests.
Open Scope Z_scope.

Record ThreadedServerOptions := mkThreadedServerOptions {
  to_workers : nat;
  to_queue_size : nat;
  to_decline_searches_when_full : bool;
  to_drain_routing : Routing;
}.

(** A change acknowledged, and the number of its callback, if it has one. *)
Record Waiting := mkWaiting { wt_before : Z; wt_remaining : nat; wt_callback : option Z }.
#[export] Instance eta_Waiting : Eta Waiting := fun r => mkWaiting (wt_before r) (wt_remaining r) (wt_callback r).

Record State := mkState {
  st_queue : list (Z * Message);
  st_busy : nat;
  st_idle : nat;
  st_accepted : Z;
  st_acknowledged : list Waiting;
  st_accepting : bool;
  st_failure : option (list Z);
}.
#[export] Instance eta_State : Eta State := fun r =>
  mkState (st_queue r) (st_busy r) (st_idle r) (st_accepted r) (st_acknowledged r) (st_accepting r) (st_failure r).

Definition State_new : State := mkState [] 0 0 0 [] true None.

(** ** The operations *)

Section Operations.
Context {E : Env} (options : ThreadedServerOptions) (peer_type : Z).

(** [answers_search], its handler's word last. *)
Definition answers_search (closed should_answer : bool) (s : State) : bool :=
  if closed then false
  else if to_decline_searches_when_full options
          && ((to_workers options <=? st_busy s)%nat && negb (bool_decide (st_queue s = []))) then false
  else should_answer.

Inductive Took := Taken (notify : bool) | Full | Leaving.

(** [on_message], under the lock.  [saturating_add] bounds a sum past [usize::MAX],
    which no queue reaches. *)
Definition on_message_locked (message : Message) (s : State) : Took * State :=
  if st_accepting s && (length (st_queue s) + st_busy s <? to_workers options + to_queue_size options)%nat then
    (Taken (0 <? st_idle s)%nat,
     s <| st_accepted := st_accepted s + 1 |> <| st_queue := st_queue s ++ [(st_accepted s, message)] |>)
  else if st_accepting s then (Full, s)
  else (Leaving, s).

(** What [refuse] sends: a confirmation, or a reply. *)
Inductive Refusal := RefuseConfirm (outcome : Confirmed) | RefuseReply (reply : Message) | RefuseNothing.

Definition refuse (message : Message) : Refusal :=
  match m_confirmation message with
  | Some _ => RefuseConfirm Refused
  | None =>
      if negb (m_references message =? 0) then RefuseNothing
      else if negb (bool_decide (m_report_delivery_error message = Some false))
              && (types.MAX_MULTIPLEXER_META_PACKET <? m_type message) then
        let error := mkDeliveryError (m_id message) [peer_type] None None None None in
        RefuseReply (reply_of message types.DELIVERY_ERROR (DeliveryError_encode error))
      else RefuseNothing
  end.
End Operations.

(** A worker's turn at the queue. *)
Inductive Turn := Takes (number : Z) (message : Message) | Ends | Waits.

Definition work_turn (s : State) : Turn * State :=
  match st_queue s with
  | (number, message) :: rest => (Takes number message, s <| st_queue := rest |> <| st_busy ::= S |>)
  | [] => if st_accepting s then (Waits, s <| st_idle ::= S |>) else (Ends, s)
  end.

(** The request [number] done, as one change that waits counts it. *)
Definition count_done (number : Z) (w : Waiting) : Waiting :=
  if (0 <? wt_remaining w)%nat && (number <? wt_before w) then w <| wt_remaining ::= pred |> else w.

(** Whether its callback is due by it. *)
Definition due_by (number : Z) (w : Waiting) : bool :=
  ((0 <? wt_remaining w)%nat && (number <? wt_before w)) && (pred (wt_remaining w) =? 0)%nat.

(** [work] after the handler, under the lock: whether to wake the loop. *)
Definition work_done (number : Z) (failure : option (list Z)) (draining : bool) (s : State) : bool * State :=
  let s := s <| st_busy ::= pred |> in
  let wake := existsb (due_by number) (st_acknowledged s) in
  let s := s <| st_acknowledged ::= map (count_done number) |> in
  (wake || (draining && bool_decide (st_queue s = []) && (st_busy s =? 0)%nat),
   match st_failure s with
   | Some _ => s
   | None => s <| st_failure := failure |>
   end).

Definition acknowledged (callback : option Z) (s : State) : State :=
  s <| st_acknowledged ::= fun l => l ++ [mkWaiting (st_accepted s) (length (st_queue s) + st_busy s) callback] |>.

Definition is_due (w : Waiting) : bool := (wt_remaining w =? 0)%nat.

(** The changes whose requests are done, at the front, and the rest. *)
Fixpoint split_due (l : list Waiting) : list Waiting * list Waiting :=
  match l with
  | w :: l' => if is_due w then let '(due, rest) := split_due l' in (w :: due, rest) else ([], l)
  | [] => ([], [])
  end.

Definition run_acknowledged (s : State) : list Z * State :=
  (omap wt_callback (split_due (st_acknowledged s)).1, s <| st_acknowledged := (split_due (st_acknowledged s)).2 |>).

(** [drained]'s own answer.  [since] and [drain] are the drain's start and cap. *)
Definition drained_by_default (drain_routing : Routing) (closed : bool) (now : Z) (since drain : option Z)
    (pending : nat) (routing_acknowledged nothing_held : bool) : bool :=
  let past_cap := match since, drain with Some since, Some cap => cap <=? now - since | _, _ => false end in
  closed || past_cap
  || (nothing_more_arrives drain_routing && (pending =? 0)%nat && routing_acknowledged && nothing_held).

Definition pending (s : State) : nat := length (st_queue s) + st_busy s.

(** [next_wait]; the time since the drain began is not negative. *)
Definition next_wait (poll : Z) (draining : bool) (now : Z) (since drain : option Z) : Z :=
  if draining then
    match since, drain with
    | Some since, Some cap => Z.min poll (Z.max 0 (cap - (now - since)))
    | _, _ => poll
    end
  else poll.

Definition shut_locked (s : State) : State := s <| st_accepting := false |>.
Definition drain_locked (s : State) : list (Z * Message) * State := (st_queue s, s <| st_queue := [] |>).

(** ** The threads *)

Inductive LoopPoint :=
| LLocks                     (* about to lock [woken] *)
| LWaits                     (* in its condition variable *)
| LLetGo                     (* let go by it *)
| LRuns                      (* [woken] taken *)
| LLooks                     (* the callbacks run *)
| LChecks (failed : bool)    (* [failure] read *)
| LDrains (failed : bool)    (* [working] read, and set *)
| LPending (failed : bool)   (* [draining] read, and set *)
| LPeriodic
| LReturned.

Inductive CloserPoint :=
| COpen | CClosing | CShut | CNotified | CDraining | CStopped | CJoins | CClosed.

Record ServerRun := mkServerRun {
  sr_state : State;
  sr_looking : nat;                 (* workers about to lock the state *)
  sr_waiting : nat;                 (* workers in its condition variable *)
  sr_notified : nat;                (* workers let go by it *)
  sr_notifies : nat;                (* [notify_one]s to come *)
  sr_handling : list (Z * Message); (* a worker's each *)
  sr_finishing : list (bool * bool);(* past the second lock: failed, wake *)
  sr_ended : nat;
  sr_started : nat;
  sr_woken : bool;
  sr_to_wake : nat;                 (* [wake_loop]s to come *)
  sr_wake_notifies : nat;           (* their [notify_all]s to come *)
  sr_loop : LoopPoint;
  sr_closer : CloserPoint;
  sr_working : bool;
  sr_draining : bool;
  (* what happened *)
  sr_arrived : list Message;
  sr_full : list Message;
  sr_refused : list Message;        (* on arrival *)
  sr_left : list (Z * Message);     (* refused by [close] *)
  sr_taken : list (Z * Message);
  sr_done : list (Z * Message);
  sr_acked : list (Z * option Z);   (* the changes acknowledged: requests accepted before, callback *)
  sr_ran : list (Z * option Z);     (* those run *)
  sr_saw_idle : bool;               (* the loop looked at the drain with nothing pending, and nothing came since *)
}.
#[export] Instance eta_ServerRun : Eta ServerRun := fun r =>
  mkServerRun (sr_state r) (sr_looking r) (sr_waiting r) (sr_notified r) (sr_notifies r) (sr_handling r) (sr_finishing r)
    (sr_ended r) (sr_started r) (sr_woken r) (sr_to_wake r) (sr_wake_notifies r) (sr_loop r) (sr_closer r) (sr_working r)
    (sr_draining r) (sr_arrived r) (sr_full r) (sr_refused r) (sr_left r) (sr_taken r) (sr_done r) (sr_acked r) (sr_ran r)
    (sr_saw_idle r).

Inductive ServerLabel :=
| SMessage (message : Message) | SNotify
| SConnect (spawned : nat)
| SLook | SWoken | SSpurious
| SFinish (index : nat) (failure : option (list Z))
| SAfter (index : nat)
| SAcknowledged (callback : option Z)
| SWakeSet | SWakeNotify
| SStop | SStartDraining
| SRoutingTold                      (* the drain's routing is acknowledged, or a held flush ends *)
| SLoop | SLoopLetGo
| SLoopDrained (now : Z) (since drain : option Z) (routing_acknowledged nothing_held : bool) (word : bool -> bool)
| SClose.

(** A worker past its turn. *)
Definition turned (turn : Turn) (r : ServerRun) : ServerRun :=
  match turn with
  | Takes number message =>
      r <| sr_handling ::= fun l => l ++ [(number, message)] |> <| sr_taken ::= fun l => l ++ [(number, message)] |>
  | Ends => r <| sr_ended ::= S |>
  | Waits => r <| sr_waiting ::= S |>
  end.

Definition start_draining (r : ServerRun) : ServerRun :=
  if sr_draining r then r else r <| sr_draining := true |> <| sr_to_wake ::= S |>.

Section Steps.
Context (options : ThreadedServerOptions).

Definition on_message (message : Message) (r : ServerRun) : ServerRun :=
  let taken := on_message_locked options message (sr_state r) in
  let r := r <| sr_state := taken.2 |> <| sr_arrived ::= fun l => l ++ [message] |> in
  match taken.1 with
  | Taken notify => r <| sr_notifies ::= (if notify : bool then S else id) |> <| sr_saw_idle := false |>
  | Full => r <| sr_full ::= fun l => l ++ [message] |>
  | Leaving => r <| sr_refused ::= fun l => l ++ [message] |>
  end.

(** [connect] spawns the workers, all or, where the system refuses one, those before. *)
Definition connect (spawned : nat) (r : ServerRun) : option ServerRun :=
  guard_step (st_accepting (sr_state r) && (sr_started r =? 0)%nat && (spawned <=? to_workers options)%nat)
    (r <| sr_started := spawned |> <| sr_looking ::= Nat.add spawned |>).

Definition finish (index : nat) (failure : option (list Z)) (r : ServerRun) : option ServerRun :=
  match sr_handling r !! index with
  | None => None
  | Some request =>
      let done := work_done request.1 failure (sr_draining r) (sr_state r) in
      Some (r <| sr_state := done.2 |> <| sr_handling ::= delete index |> <| sr_done ::= fun l => l ++ [request] |>
              <| sr_finishing ::= fun l => l ++ [(bool_decide (failure <> None), done.1)] |>)
  end.

Definition after (index : nat) (r : ServerRun) : option ServerRun :=
  match sr_finishing r !! index with
  | None => None
  | Some (true, _) => Some (r <| sr_working := false |> <| sr_finishing ::= <[index := (false, true)]> |>)
  | Some (false, true) =>
      Some (r <| sr_finishing ::= delete index |> <| sr_looking ::= S |> <| sr_woken := true |> <| sr_wake_notifies ::= S |>)
  | Some (false, false) => Some (r <| sr_finishing ::= delete index |> <| sr_looking ::= S |>)
  end.

(** The serving loop but its look at the drain. *)
Definition loop_step (r : ServerRun) : option ServerRun :=
  match sr_loop r with
  | LLocks => Some (if sr_woken r then r <| sr_woken := false |> <| sr_loop := LRuns |> else r <| sr_loop := LWaits |>)
  | LLetGo => Some (r <| sr_woken := false |> <| sr_loop := LRuns |>)
  | LRuns =>
      Some (r <| sr_state := (run_acknowledged (sr_state r)).2 |> <| sr_loop := LLooks |>
              <| sr_ran ::= fun l => l ++ map (fun w => (wt_before w, wt_callback w)) (split_due (st_acknowledged (sr_state r))).1 |>)
  | LLooks => Some (r <| sr_loop := LChecks (bool_decide (st_failure (sr_state r) <> None)) |>)
  | LChecks failed => Some (r <| sr_loop := if sr_working r then LDrains failed else LReturned |>)
  | LDrains failed =>
      Some (r <| sr_loop := if sr_draining r then LPending failed else if failed then LReturned else LPeriodic |>)
  | LPeriodic => Some (r <| sr_loop := LLocks |>)
  | LWaits | LPending _ | LReturned => None
  end.

Definition closed (r : ServerRun) : bool := match sr_closer r with COpen => false | _ => true end.

Definition loop_drained (now : Z) (since drain : option Z) (routing_acknowledged nothing_held : bool) (word : bool -> bool)
    (r : ServerRun) : option ServerRun :=
  match sr_loop r with
  | LPending failed =>
      let by_default := drained_by_default (to_drain_routing options) (closed r) now since drain (pending (sr_state r))
                          routing_acknowledged nothing_held in
      Some ((r <| sr_loop := if word by_default || failed then LReturned else LPeriodic |>)
              <| sr_saw_idle := sr_saw_idle r || (pending (sr_state r) =? 0)%nat |>)
  | _ => None
  end.

(** [close], by one thread: the others wait for its lock. *)
Definition close (r : ServerRun) : option ServerRun :=
  match sr_closer r with
  | COpen => Some (r <| sr_closer := CClosing |>)
  | CClosing => Some (r <| sr_state ::= shut_locked |> <| sr_closer := CShut |>)
  | CShut => Some (r <| sr_notified ::= Nat.add (sr_waiting r) |> <| sr_waiting := 0%nat |> <| sr_closer := CNotified |>)
  | CNotified => Some ((start_draining r) <| sr_closer := CDraining |>)
  | CDraining => Some (r <| sr_working := false |> <| sr_closer := CStopped |>)
  | CStopped => Some (r <| sr_to_wake ::= S |> <| sr_closer := CJoins |>)
  | CJoins =>
      guard_step (sr_ended r =? sr_started r)%nat
        (r <| sr_left := (drain_locked (sr_state r)).1 |> <| sr_state := (drain_locked (sr_state r)).2 |> <| sr_closer := CClosed |>)
  | CClosed => None
  end.

Definition server_step (l : ServerLabel) (r : ServerRun) : option ServerRun :=
  match l with
  | SMessage message => Some (on_message message r)
  | SNotify =>
      guard_step (0 <? sr_notifies r)%nat
        ((if (0 <? sr_waiting r)%nat then r <| sr_waiting ::= pred |> <| sr_notified ::= S |> else r) <| sr_notifies ::= pred |>)
  | SConnect spawned => connect spawned r
  | SLook =>
      guard_step (0 <? sr_looking r)%nat
        (turned (work_turn (sr_state r)).1 (r <| sr_state := (work_turn (sr_state r)).2 |> <| sr_looking ::= pred |>))
  | SWoken =>
      let s := (sr_state r) <| st_idle ::= pred |> in
      guard_step (0 <? sr_notified r)%nat
        (turned (work_turn s).1 (r <| sr_state := (work_turn s).2 |> <| sr_notified ::= pred |>))
  | SSpurious => guard_step (0 <? sr_waiting r)%nat (r <| sr_waiting ::= pred |> <| sr_notified ::= S |>)
  | SFinish index failure => finish index failure r
  | SAfter index => after index r
  | SAcknowledged callback =>
      Some (r <| sr_state ::= acknowledged callback |> <| sr_to_wake ::= S |>
              <| sr_acked ::= fun l => l ++ [(st_accepted (sr_state r), callback)] |>)
  | SWakeSet =>
      guard_step (0 <? sr_to_wake r)%nat (r <| sr_to_wake ::= pred |> <| sr_woken := true |> <| sr_wake_notifies ::= S |>)
  | SWakeNotify =>
      guard_step (0 <? sr_wake_notifies r)%nat
        ((match sr_loop r with LWaits => r <| sr_loop := LLetGo |> | _ => r end) <| sr_wake_notifies ::= pred |>)
  | SStop => Some (r <| sr_working := false |> <| sr_to_wake ::= S |>)
  | SStartDraining => Some (start_draining r)
  | SRoutingTold => Some (r <| sr_to_wake ::= S |>)
  | SLoop => loop_step r
  | SLoopLetGo => guard_step (match sr_loop r with LWaits => true | _ => false end) (r <| sr_loop := LLetGo |>)
  | SLoopDrained now since drain routing_acknowledged nothing_held word =>
      loop_drained now since drain routing_acknowledged nothing_held word r
  | SClose => close r
  end.

Definition server_start : ServerRun :=
  mkServerRun State_new 0 0 0 0 [] [] 0 0 false 0 0 LLocks COpen true false [] [] [] [] [] [] [] [] false.

Definition server_reaches : ServerRun -> Prop := steps_to server_step server_start.
End Steps.

(** ** Every message is accounted for *)

Definition requests (r : ServerRun) : list (Z * Message) := sr_taken r ++ st_queue (sr_state r) ++ sr_left r.

Definition shut (p : CloserPoint) : bool := match p with COpen | CClosing => false | _ => true end.
Definition emptied (p : CloserPoint) : bool := match p with CClosed => true | _ => false end.

Record accounts_ok (options : ThreadedServerOptions) (r : ServerRun) : Prop := {
  ak_busy : st_busy (sr_state r) = length (sr_handling r);
  ak_idle : st_idle (sr_state r) = (sr_waiting r + sr_notified r)%nat;
  ak_room : (pending (sr_state r) <= to_workers options + to_queue_size options)%nat;
  ak_numbers : (requests r).*1 = seqZ 0 (st_accepted (sr_state r));
  ak_accepted : 0 <= st_accepted (sr_state r);
  ak_taken : sr_taken r ≡ₚ sr_done r ++ sr_handling r;
  ak_arrived : sr_arrived r ≡ₚ (requests r).*2 ++ sr_full r ++ sr_refused r;
  ak_shut : st_accepting (sr_state r) = negb (shut (sr_closer r));
  ak_emptied : if emptied (sr_closer r) then st_queue (sr_state r) = [] else sr_left r = [];
}.

Lemma accounts_message options message r : accounts_ok options r -> accounts_ok options (on_message options message r).
Proof.
  intros [Hb Hi Hr Hn Ha Ht Har Hs He]. unfold on_message, on_message_locked.
  destruct (st_accepting (sr_state r)) eqn:Hacc; cbn [andb].
  - destruct (Nat.ltb_spec (length (st_queue (sr_state r)) + st_busy (sr_state r)) (to_workers options + to_queue_size options)); cbn [fst snd].
    + assert (Hc : emptied (sr_closer r) = false) by (by destruct (sr_closer r)). rewrite Hc in He.
      split; unfold requests, pending in *; cbn; rewrite ?Hc, ?He, ?Hacc, ?app_nil_r in *; auto.
      * rewrite length_app. cbn. lia.
      * rewrite app_assoc, fmap_app, Hn. rewrite seqZ_app by lia. done.
      * lia.
      * rewrite Har, !fmap_app. cbn. rewrite <- !app_assoc. do 2 apply Permutation_app_head. rewrite app_assoc. apply (Permutation_app_comm _ [message]).
    + split; cbn; rewrite ?Hacc; auto. rewrite Har, <- !app_assoc. do 2 apply Permutation_app_head. apply Permutation_app_comm.
  - split; cbn; rewrite ?Hacc; auto. by rewrite Har, <- !app_assoc.
Qed.

Lemma accounts_turn options r :
  accounts_ok options r ->
  accounts_ok options (turned (work_turn (sr_state r)).1 (r <| sr_state := (work_turn (sr_state r)).2 |>)).
Proof.
  intros [Hb Hi Hr Hn Ha Ht Har Hs He]. unfold work_turn. destruct (st_queue (sr_state r)) as [|[number message] rest] eqn:Hq.
  - destruct (st_accepting (sr_state r)) eqn:Hacc; split; unfold requests, pending in *; cbn; rewrite ?Hq, ?Hacc in *; auto; lia.
  - split; unfold requests, pending in *; cbn; rewrite ?Hq, ?length_app in *; cbn in *; auto.
    + lia.
    + lia.
    + by rewrite <- app_assoc.
    + by rewrite Ht, app_assoc.
    + by rewrite <- app_assoc.
    + by destruct (emptied (sr_closer r)).
Qed.

Lemma work_done_eq number failure draining s :
  st_queue (work_done number failure draining s).2 = st_queue s
  /\ st_busy (work_done number failure draining s).2 = pred (st_busy s) /\ st_idle (work_done number failure draining s).2 = st_idle s
  /\ st_accepted (work_done number failure draining s).2 = st_accepted s
  /\ st_accepting (work_done number failure draining s).2 = st_accepting s.
Proof. unfold work_done. cbn. by destruct (st_failure s). Qed.

Lemma accounts_finish options index failure r r' :
  accounts_ok options r -> finish index failure r = Some r' -> accounts_ok options r'.
Proof.
  intros [Hb Hi Hr Hn Ha Ht Har Hs He] Hf. unfold finish in Hf. destruct (sr_handling r !! index) as [request|] eqn:Hl; [|done].
  pose proof (work_done_eq request.1 failure (sr_draining r) (sr_state r)) as (H1 & H2 & H3 & H4 & H5).
  destruct (work_done _ _ _ _) as [wake s']. cbn in H1, H2, H3, H4, H5. injection Hf as <-.
  pose proof (lookup_lt_Some _ _ _ Hl) as Hlt.
  split; unfold requests, pending in *; cbn; rewrite ?H1, ?H2, ?H3, ?H4, ?H5; auto.
  - rewrite length_delete by done. lia.
  - lia.
  - rewrite Ht, <- app_assoc. f_equiv. cbn. by apply delete_Permutation.
Qed.

(** What the other steps leave alone. *)
Lemma accounts_same options r r' :
  accounts_ok options r -> sr_state r' = sr_state r ->
  (sr_waiting r' + sr_notified r')%nat = (sr_waiting r + sr_notified r)%nat /\ sr_handling r' = sr_handling r ->
  sr_taken r' = sr_taken r /\ sr_left r' = sr_left r /\ sr_done r' = sr_done r ->
  sr_arrived r' = sr_arrived r /\ sr_full r' = sr_full r /\ sr_refused r' = sr_refused r ->
  shut (sr_closer r') = shut (sr_closer r) /\ emptied (sr_closer r') = emptied (sr_closer r) ->
  accounts_ok options r'.
Proof.
  intros [Hb Hi Hr Hn Ha Ht Har Hs He] Hst [Hw Hh] (H1 & H2 & H3) (H4 & H5 & H6) [H7 H8].
  split; unfold requests in *; rewrite ?Hst, ?Hw, ?Hh, ?H1, ?H2, ?H3, ?H4, ?H5, ?H6, ?H7, ?H8; auto.
Qed.

Lemma accounts_step options l r r' :
  accounts_ok options r -> server_step options l r = Some r' -> accounts_ok options r'.
Proof.
  intros Hok Hl. destruct l; cbn [server_step] in Hl.
  - injection Hl as <-. by apply accounts_message.
  - unfold guard_step in Hl. destruct (0 <? sr_notifies r)%nat; [|done]. injection Hl as <-.
    destruct (Nat.ltb_spec 0 (sr_waiting r)); apply (accounts_same options r); auto. cbn. split; [lia|done].
  - unfold connect in Hl. step_cases Hl. by apply (accounts_same options r).
  - unfold guard_step in Hl. destruct (0 <? sr_looking r)%nat; [|done]. injection Hl as <-.
    assert (H1 : accounts_ok options (r <| sr_looking ::= pred |>)) by (by apply (accounts_same options r)).
    exact (accounts_turn options _ H1).
  - unfold guard_step in Hl. destruct (Nat.ltb_spec 0 (sr_notified r)); [|done]. injection Hl as <-.
    assert (H1 : accounts_ok options ((r <| sr_state ::= fun s => s <| st_idle ::= pred |> |>) <| sr_notified ::= pred |>)).
    { destruct Hok as [Hb Hi Hr Hn Ha Ht Har Hs He]. split; cbn; auto. lia. }
    exact (accounts_turn options _ H1).
  - unfold guard_step in Hl. destruct (Nat.ltb_spec 0 (sr_waiting r)); [|done]. injection Hl as <-.
    apply (accounts_same options r); auto. cbn. split; [lia|done].
  - by eapply accounts_finish.
  - unfold after in Hl. destruct (sr_finishing r !! index) as [[[] []]|]; [| | | |done]; injection Hl as <-; by apply (accounts_same options r).
  - injection Hl as <-. destruct Hok as [Hb Hi Hr Hn Ha Ht Har Hs He]. by split.
  - step_cases Hl. by apply (accounts_same options r).
  - unfold guard_step in Hl. destruct (0 <? sr_wake_notifies r)%nat; [|done]. injection Hl as <-. destruct (sr_loop r); by apply (accounts_same options r).
  - injection Hl as <-. by apply (accounts_same options r).
  - injection Hl as <-. unfold start_draining. destruct (sr_draining r); by apply (accounts_same options r).
  - injection Hl as <-. by apply (accounts_same options r).
  - unfold loop_step in Hl. destruct (sr_loop r); try discriminate Hl; injection Hl as <-; try by apply (accounts_same options r).
    + destruct (sr_woken r); by apply (accounts_same options r).
    + destruct Hok as [Hb Hi Hr Hn Ha Ht Har Hs He]. by split.
  - step_cases Hl. by apply (accounts_same options r).
  - unfold loop_drained in Hl. destruct (sr_loop r); try discriminate Hl. injection Hl as <-. by apply (accounts_same options r).
  - unfold close in Hl. destruct (sr_closer r) eqn:Hc; try discriminate Hl.
    + injection Hl as <-. by apply (accounts_same options r); rewrite ?Hc.
    + injection Hl as <-. destruct Hok as [Hb Hi Hr Hn Ha Ht Har Hs He]. rewrite Hc in *. by split.
    + injection Hl as <-. apply (accounts_same options r); rewrite ?Hc; auto; cbn; split; lia || done.
    + injection Hl as <-. unfold start_draining. destruct (sr_draining r); by apply (accounts_same options r); rewrite ?Hc.
    + injection Hl as <-. by apply (accounts_same options r); rewrite ?Hc.
    + injection Hl as <-. by apply (accounts_same options r); rewrite ?Hc.
    + step_cases Hl. destruct Hok as [Hb Hi Hr Hn Ha Ht Har Hs He]. rewrite Hc in *. cbn in He.
      split; unfold requests, pending in *; cbn; rewrite ?He, ?app_nil_r in *; auto. lia.
Qed.

Lemma server_accounted options r : server_reaches options r -> accounts_ok options r.
Proof. apply (steps_keep (server_step options) (accounts_ok options)); [apply accounts_step|]. split; cbn; auto; unfold pending; cbn; lia. Qed.

(** ** No request waits for a worker that sleeps *)

#[local] Arguments Nat.ltb : simpl never.

Record work_ok (r : ServerRun) : Prop := {
  wk_queued : (0 < sr_waiting r)%nat ->
    (length (st_queue (sr_state r)) <= sr_looking r + sr_notified r + sr_notifies r)%nat;
  wk_shut : (0 < sr_waiting r)%nat -> st_accepting (sr_state r) = false -> sr_closer r = CShut;
  wk_workers :
    (sr_looking r + sr_waiting r + sr_notified r + length (sr_handling r) + length (sr_finishing r) + sr_ended r
     = sr_started r)%nat;
  wk_ended : (0 < sr_ended r)%nat -> st_accepting (sr_state r) = false /\ st_queue (sr_state r) = [];
}.

(** A worker's turn: the worker is counted in none of the others. *)
Lemma work_turned r s looking notified :
  work_ok r -> s = (sr_state r) <| st_idle := st_idle s |> -> (looking + notified + 1 = sr_looking r + sr_notified r)%nat ->
  work_ok (turned (work_turn s).1 ((r <| sr_state := (work_turn s).2 |>) <| sr_looking := looking |> <| sr_notified := notified |>)).
Proof.
  intros [Hq Hs Hw He] Hst Hn. assert (Hqs : st_queue s = st_queue (sr_state r)) by (by rewrite Hst).
  assert (Has : st_accepting s = st_accepting (sr_state r)) by (by rewrite Hst). clear Hst.
  unfold work_turn. rewrite Hqs, Has. destruct (st_queue (sr_state r)) as [|[number message] rest] eqn:Heq.
  - destruct (st_accepting (sr_state r)) eqn:Hacc; split; cbn; rewrite ?Hqs, ?Has; cbn; try lia; intros; try done; first [by apply Hs|by destruct He].
  - split; cbn; rewrite ?Has; cbn in Hq.
    + intros H. specialize (Hq H). lia.
    + done.
    + rewrite length_app. cbn. lia.
    + intros H. by destruct (He H).
Qed.

Lemma work_finish index failure r r' : work_ok r -> finish index failure r = Some r' -> work_ok r'.
Proof.
  intros [Hq Hs Hw He] Hf. unfold finish in Hf. destruct (sr_handling r !! index) as [request|] eqn:Hl; [|done].
  pose proof (work_done_eq request.1 failure (sr_draining r) (sr_state r)) as (H1 & _ & _ & _ & H5).
  destruct (work_done _ _ _ _) as [wake s']. cbn in H1, H5. injection Hf as <-.
  pose proof (lookup_lt_Some _ _ _ Hl) as Hlt. split; cbn; rewrite ?H1, ?H5; auto.
  rewrite length_delete by done. rewrite length_app. cbn. lia.
Qed.

Lemma work_after index r r' : work_ok r -> after index r = Some r' -> work_ok r'.
Proof.
  intros [Hq Hs Hw He] Ha. unfold after in Ha. destruct (sr_finishing r !! index) as [[failed wake]|] eqn:Hl; [|done].
  pose proof (lookup_lt_Some _ _ _ Hl) as Hlt. destruct failed; [|destruct wake]; injection Ha as <-; split; cbn; auto.
  all: try (intros H; specialize (Hq H); lia); rewrite ?length_insert, ?length_delete by done; lia.
Qed.

Lemma work_same r r' :
  work_ok r -> sr_state r' = sr_state r -> sr_looking r' = sr_looking r /\ sr_waiting r' = sr_waiting r /\ sr_notified r' = sr_notified r ->
  sr_notifies r' = sr_notifies r /\ sr_handling r' = sr_handling r /\ sr_finishing r' = sr_finishing r ->
  sr_ended r' = sr_ended r /\ sr_started r' = sr_started r -> (sr_closer r = CShut -> sr_closer r' = CShut) -> work_ok r'.
Proof.
  intros [Hq Hs Hw He] Hst (H1 & H2 & H3) (H4 & H5 & H6) (H7 & H8) H9.
  split; rewrite ?Hst, ?H1, ?H2, ?H3, ?H4, ?H5, ?H6, ?H7, ?H8; auto.
Qed.

Lemma work_close options r r' : accounts_ok options r -> work_ok r -> close r = Some r' -> work_ok r'.
Proof.
  intros Hacc Hok Hl. pose proof (ak_shut options r Hacc) as Hshut. unfold close in Hl. destruct (sr_closer r) eqn:Hc; cbn in Hshut.
  - injection Hl as <-. by apply (work_same r); rewrite ?Hc.
  - injection Hl as <-. destruct Hok as [Hq Hs Hw He]. split; cbn; auto.
    intros H. destruct (He H). by rewrite Hshut in *.
  - injection Hl as <-. destruct Hok as [Hq Hs Hw He]. split; cbn; auto; lia.
  - injection Hl as <-. unfold start_draining. destruct (sr_draining r); apply (work_same r); rewrite ?Hc; done.
  - injection Hl as <-. by apply (work_same r); rewrite ?Hc.
  - injection Hl as <-. by apply (work_same r); rewrite ?Hc.
  - step_cases Hl. destruct Hok as [Hq Hs Hw He]. split; cbn; [lia| |done|by split].
    intros H _. specialize (Hs H Hshut). congruence.
  - done.
Qed.

Lemma work_step options l r r' :
  accounts_ok options r -> work_ok r -> server_step options l r = Some r' -> work_ok r'.
Proof.
  intros Hacc Hok Hl. destruct l; cbn [server_step] in Hl.
  - injection Hl as <-. pose proof (ak_idle options r Hacc) as Hidle. destruct Hok as [Hq Hs Hw He]. unfold on_message, on_message_locked.
    destruct (st_accepting (sr_state r)) eqn:Ha; cbn [andb]; [destruct (_ <? _)%nat; cbn [fst snd]|]; split; cbn; rewrite ?Ha; auto.
    + intros H. specialize (Hq H). rewrite length_app. cbn. destruct (Nat.ltb_spec 0 (st_idle (sr_state r))); unfold id; lia.
    + intros H. by destruct (He H).
  - unfold guard_step in Hl. destruct (Nat.ltb_spec 0 (sr_notifies r)); [|done]. injection Hl as <-. destruct Hok as [Hq Hs Hw He].
    destruct (Nat.ltb_spec 0 (sr_waiting r)); split; cbn; auto; try lia; intros; apply Hs; lia || done.
  - unfold connect in Hl. unfold guard_step in Hl. destruct (st_accepting (sr_state r)) eqn:Ha; cbn [andb] in Hl; [|done].
    destruct (Nat.eqb_spec (sr_started r) 0); cbn [andb] in Hl; [|done]. destruct (_ <=? _)%nat; [|done]. injection Hl as <-.
    destruct Hok as [Hq Hs Hw He]. split; cbn; auto; lia.
  - unfold guard_step in Hl. destruct (Nat.ltb_spec 0 (sr_looking r)); [|done]. injection Hl as <-.
    exact (work_turned r (sr_state r) (pred (sr_looking r)) (sr_notified r) Hok ltac:(by destruct (sr_state r)) ltac:(lia)).
  - unfold guard_step in Hl. destruct (Nat.ltb_spec 0 (sr_notified r)); [|done]. injection Hl as <-.
    exact (work_turned r ((sr_state r) <| st_idle ::= pred |>) (sr_looking r) (pred (sr_notified r)) Hok ltac:(done) ltac:(lia)).
  - unfold guard_step in Hl. destruct (Nat.ltb_spec 0 (sr_waiting r)); [|done]. injection Hl as <-. destruct Hok as [Hq Hs Hw He].
    split; cbn; auto; try lia; intros; apply Hs; lia || done.
  - by eapply work_finish.
  - by eapply work_after.
  - injection Hl as <-. destruct Hok as [Hq Hs Hw He]. by split.
  - step_cases Hl. by apply (work_same r).
  - unfold guard_step in Hl. destruct (0 <? sr_wake_notifies r)%nat; [|done]. injection Hl as <-. destruct (sr_loop r); by apply (work_same r).
  - injection Hl as <-. by apply (work_same r).
  - injection Hl as <-. unfold start_draining. destruct (sr_draining r); by apply (work_same r).
  - injection Hl as <-. by apply (work_same r).
  - unfold loop_step in Hl. destruct (sr_loop r); try discriminate Hl; injection Hl as <-; try by apply (work_same r).
    + destruct (sr_woken r); by apply (work_same r).
    + destruct Hok as [Hq Hs Hw He]. by split.
  - step_cases Hl. by apply (work_same r).
  - unfold loop_drained in Hl. destruct (sr_loop r); try discriminate Hl. injection Hl as <-. by apply (work_same r).
  - by eapply work_close.
Qed.

(** ** A change's callback waits for the requests before it *)

Definition before_count (before : Z) (numbers : list Z) : nat := length (filter (fun n => n < before) numbers).
#[local] Arguments before_count : simpl never.

(** The numbers of the requests queued or being handled. *)
Definition undone (r : ServerRun) : list Z := (st_queue (sr_state r) ++ sr_handling r).*1.

Record ack_ok (r : ServerRun) : Prop := {
  ck_counts w : w ∈ st_acknowledged (sr_state r) ->
    (before_count (wt_before w) (undone r) <= wt_remaining w
     <= before_count (wt_before w) (undone r) + before_count (wt_before w) (sr_left r).*1)%nat;
  ck_known e : e ∈ sr_acked r -> e.1 <= st_accepted (sr_state r);
  ck_sorted : StronglySorted Z.le (map wt_before (st_acknowledged (sr_state r)));
  ck_order : sr_acked r = sr_ran r ++ map (fun w => (wt_before w, wt_callback w)) (st_acknowledged (sr_state r));
  ck_ran e : e ∈ sr_ran r -> before_count e.1 (undone r) = 0%nat;
}.

Lemma before_count_app b l1 l2 : before_count b (l1 ++ l2) = (before_count b l1 + before_count b l2)%nat.
Proof. unfold before_count. by rewrite filter_app, length_app. Qed.

Lemma before_count_perm b l1 l2 : l1 ≡ₚ l2 -> before_count b l1 = before_count b l2.
Proof. unfold before_count. by intros ->. Qed.

Lemma before_count_cons b n l : before_count b (n :: l) = ((if (n <? b)%Z then 1 else 0) + before_count b l)%nat.
Proof. unfold before_count. rewrite filter_cons. destruct (decide (n < b)), (Z.ltb_spec n b); cbn; lia. Qed.

Lemma before_count_all b l : Forall (fun n => n < b) l -> before_count b l = length l.
Proof. intros Hl. induction Hl as [|n l Hn _ IH]; [done|]. rewrite before_count_cons, IH. destruct (Z.ltb_spec n b); cbn; lia. Qed.

Lemma before_count_mono b b' l : b <= b' -> (before_count b l <= before_count b' l)%nat.
Proof.
  intros Hb. induction l as [|n l IH]; [done|]. rewrite !before_count_cons. destruct (Z.ltb_spec n b), (Z.ltb_spec n b'); lia.
Qed.

Lemma before_count_none b l n : before_count b l = 0%nat -> n ∈ l -> b <= n.
Proof.
  intros Hc [l1 [l2 ->]]%list_elem_of_split. rewrite before_count_app, before_count_cons in Hc. destruct (Z.ltb_spec n b); lia.
Qed.

(** Every request's number is below [accepted]. *)
Lemma numbers_below options r n : accounts_ok options r -> n ∈ (requests r).*1 -> 0 <= n < st_accepted (sr_state r).
Proof. intros Hok. rewrite (ak_numbers options r Hok). by intros ?%elem_of_seqZ. Qed.

Lemma undone_below options r : accounts_ok options r -> Forall (fun n => n < st_accepted (sr_state r)) (undone r).
Proof.
  intros Hok. apply Forall_forall. intros n Hin. apply (numbers_below options r n Hok). unfold undone, requests in *.
  rewrite !fmap_app in *. rewrite !elem_of_app in *. destruct Hin as [Hin|Hin]; [auto|]. left.
  rewrite (ak_taken options r Hok), fmap_app, elem_of_app. auto.
Qed.

(** The steps that move requests, or leave them alone. *)
Lemma ack_same r r' :
  ack_ok r -> (forall b, before_count b (undone r') = before_count b (undone r)) -> sr_left r' = sr_left r ->
  st_acknowledged (sr_state r') = st_acknowledged (sr_state r) /\ st_accepted (sr_state r') = st_accepted (sr_state r) ->
  sr_acked r' = sr_acked r /\ sr_ran r' = sr_ran r -> ack_ok r'.
Proof.
  intros [Hc Hk Hs Ho Hr] Hu Hl [H1 H2] [H3 H4]. split; rewrite ?Hl, ?H1, ?H2, ?H3, ?H4; auto.
  - intros w Hw. rewrite Hu. auto.
  - intros e He. rewrite Hu. auto.
Qed.

Lemma ack_message options message r : accounts_ok options r -> ack_ok r -> ack_ok (on_message options message r).
Proof.
  intros Hacc Hok. unfold on_message, on_message_locked. destruct (_ && _); [|destruct (st_accepting _); by apply (ack_same r)].
  destruct Hok as [Hc Hk Hs Ho Hr].
  assert (Hu : forall e, e ∈ sr_acked r ->
    before_count e.1 ((st_queue (sr_state r) ++ [(st_accepted (sr_state r), message)]) ++ sr_handling r).*1 = before_count e.1 (undone r)).
  { intros e He. specialize (Hk e He). unfold undone. rewrite !fmap_app, !before_count_app. cbn. rewrite before_count_cons.
    destruct (Z.ltb_spec (st_accepted (sr_state r)) e.1); [lia|]. cbn. change (before_count e.1 []) with 0%nat. lia. }
  split; cbn; auto.
  - intros w Hw. specialize (Hc w Hw). specialize (Hu (wt_before w, wt_callback w)). unfold undone in *. cbn in *.
    rewrite Hu; [done|]. rewrite Ho, elem_of_app. right. apply list_elem_of_fmap. eauto.
  - intros e He. specialize (Hk e He). lia.
  - intros e He. unfold undone. cbn. rewrite Hu; [auto|]. rewrite Ho, elem_of_app. auto.
Qed.

Lemma ack_turn r s looking notified :
  ack_ok r -> s = (sr_state r) <| st_idle := st_idle s |> ->
  ack_ok (turned (work_turn s).1 ((r <| sr_state := (work_turn s).2 |>) <| sr_looking := looking |> <| sr_notified := notified |>)).
Proof.
  intros Hok Hst. assert (Hqs : st_queue s = st_queue (sr_state r)) by (by rewrite Hst).
  assert (H1 : st_acknowledged s = st_acknowledged (sr_state r)) by (by rewrite Hst).
  assert (H2 : st_accepted s = st_accepted (sr_state r)) by (by rewrite Hst). clear Hst.
  unfold work_turn. rewrite Hqs. destruct (st_queue (sr_state r)) as [|[number message] rest] eqn:Hq.
  - destruct (st_accepting s); apply (ack_same r); auto; intros b; unfold undone; cbn; by rewrite Hqs, Hq.
  - apply (ack_same r); auto. intros b. unfold undone. cbn. rewrite Hq. apply before_count_perm. rewrite app_assoc, fmap_app. cbn.
    by rewrite Permutation_app_comm.
Qed.

Lemma ack_finish index failure r r' : ack_ok r -> finish index failure r = Some r' -> ack_ok r'.
Proof.
  intros [Hc Hk Hs Ho Hr] Hf. unfold finish in Hf. destruct (sr_handling r !! index) as [[number message]|] eqn:Hl; [|done].
  pose proof (delete_Permutation _ _ _ Hl) as Hp.
  assert (Hu : forall b, before_count b (undone r) =
                ((if (number <? b)%Z then 1 else 0) + before_count b (st_queue (sr_state r) ++ delete index (sr_handling r)).*1)%nat).
  { intros b. rewrite <- before_count_cons. apply before_count_perm. unfold undone.
    etrans; [apply (Permutation_map fst), Permutation_app_head, Hp|]. rewrite map_app, fmap_app. cbn. by rewrite <- Permutation_middle. }
  assert (Hw : map wt_before (map (count_done number) (st_acknowledged (sr_state r))) = map wt_before (st_acknowledged (sr_state r))).
  { rewrite map_map. apply map_ext. intros w. unfold count_done. by destruct (_ && _). }
  assert (He : map (fun w => (wt_before w, wt_callback w)) (map (count_done number) (st_acknowledged (sr_state r)))
             = map (fun w => (wt_before w, wt_callback w)) (st_acknowledged (sr_state r))).
  { rewrite map_map. apply map_ext. intros w. unfold count_done. by destruct (_ && _). }
  assert (Hst : st_acknowledged (work_done number failure (sr_draining r) (sr_state r)).2 = map (count_done number) (st_acknowledged (sr_state r))
                /\ st_queue (work_done number failure (sr_draining r) (sr_state r)).2 = st_queue (sr_state r)
                /\ st_accepted (work_done number failure (sr_draining r) (sr_state r)).2 = st_accepted (sr_state r)).
  { unfold work_done. cbn. by destruct (st_failure (sr_state r)). }
  cbn [fst] in Hf. destruct (work_done _ _ _ _) as [wake s']. cbn in Hst. destruct Hst as (H1 & H2 & H3). injection Hf as <-.
  split; unfold undone; cbn; rewrite ?H1, ?H2, ?H3, ?Hw, ?He; auto.
  - intros w' (w & -> & Hin)%list_elem_of_fmap. specialize (Hc w Hin). rewrite Hu in Hc. unfold count_done.
    destruct (Nat.ltb_spec 0 (wt_remaining w)), (Z.ltb_spec number (wt_before w)); cbn in *; lia.
  - intros e Hin. specialize (Hr e Hin). rewrite Hu in Hr. lia.
Qed.

Lemma split_due_app l : (split_due l).1 ++ (split_due l).2 = l.
Proof. induction l as [|w l IH]; [done|]. cbn. destruct (is_due w); [|done]. destruct (split_due l). cbn in *. by rewrite IH. Qed.

Lemma split_due_due l w : w ∈ (split_due l).1 -> wt_remaining w = 0%nat.
Proof.
  induction l as [|w' l IH]; cbn; [by intros ?%not_elem_of_nil|]. destruct (is_due w') eqn:Hd; [|by intros ?%not_elem_of_nil].
  destruct (split_due l). cbn in *. intros [->|?]%elem_of_cons; [by apply Nat.eqb_eq|auto].
Qed.

Lemma ack_run r :
  ack_ok r -> ack_ok ((r <| sr_state := (run_acknowledged (sr_state r)).2 |>) <| sr_loop := LLooks |>
    <| sr_ran ::= fun l => l ++ map (fun w => (wt_before w, wt_callback w)) (split_due (st_acknowledged (sr_state r))).1 |>).
Proof.
  intros [Hc Hk Hs Ho Hr]. pose proof (split_due_app (st_acknowledged (sr_state r))) as Hsp.
  split; unfold undone in *; cbn; auto.
  - intros w Hw. apply Hc. rewrite <- Hsp, elem_of_app. auto.
  - rewrite <- Hsp, map_app in Hs. by eapply StronglySorted_app_1_r.
  - rewrite Ho, <- app_assoc, <- map_app. by rewrite Hsp.
  - intros e [He|He]%elem_of_app; [auto|]. apply list_elem_of_fmap in He as (w & -> & Hw). cbn.
    assert (Hin : w ∈ st_acknowledged (sr_state r)) by (rewrite <- Hsp, elem_of_app; auto).
    specialize (Hc w Hin). rewrite (split_due_due _ _ Hw) in Hc. lia.
Qed.

Lemma ack_acknowledged options callback r :
  accounts_ok options r -> ack_ok r ->
  ack_ok ((r <| sr_state ::= acknowledged callback |>) <| sr_to_wake ::= S |>
            <| sr_acked ::= fun l => l ++ [(st_accepted (sr_state r), callback)] |>).
Proof.
  intros Hacc [Hc Hk Hs Ho Hr]. pose proof (ak_busy options r Hacc) as Hb.
  split; unfold undone in *; cbn.
  - intros w [Hw|Hw]%elem_of_app; [by apply Hc|]. apply list_elem_of_singleton in Hw as ->. cbn.
    rewrite before_count_all by (by apply (undone_below options r)). rewrite length_fmap, length_app, Hb. lia.
  - intros e [He|He]%elem_of_app; [auto|]. by apply list_elem_of_singleton in He as ->.
  - rewrite map_app. apply StronglySorted_app_2; [|done|by repeat constructor]. cbn. intros b1 b2 Hin ->%list_elem_of_singleton.
    apply list_elem_of_fmap in Hin as (w & -> & Hw). apply (Hk (wt_before w, wt_callback w)). rewrite Ho, elem_of_app. right.
    apply list_elem_of_fmap. eauto.
  - rewrite Ho, map_app, app_assoc. done.
  - auto.
Qed.

Lemma ack_step options l r r' :
  accounts_ok options r -> ack_ok r -> server_step options l r = Some r' -> ack_ok r'.
Proof.
  intros Hacc Hok Hl. destruct l; cbn [server_step] in Hl.
  - injection Hl as <-. by apply ack_message.
  - unfold guard_step in Hl. destruct (0 <? sr_notifies r)%nat; [|done]. injection Hl as <-. destruct (0 <? sr_waiting r)%nat; by apply (ack_same r).
  - unfold connect in Hl. step_cases Hl. by apply (ack_same r).
  - unfold guard_step in Hl. destruct (0 <? sr_looking r)%nat; [|done]. injection Hl as <-.
    exact (ack_turn r (sr_state r) (pred (sr_looking r)) (sr_notified r) Hok ltac:(by destruct (sr_state r))).
  - unfold guard_step in Hl. destruct (0 <? sr_notified r)%nat; [|done]. injection Hl as <-.
    exact (ack_turn r ((sr_state r) <| st_idle ::= pred |>) (sr_looking r) (pred (sr_notified r)) Hok ltac:(done)).
  - step_cases Hl. by apply (ack_same r).
  - by eapply ack_finish.
  - unfold after in Hl. destruct (sr_finishing r !! index) as [[[] []]|]; [| | | |done]; injection Hl as <-; by apply (ack_same r).
  - injection Hl as <-. by eapply ack_acknowledged.
  - step_cases Hl. by apply (ack_same r).
  - unfold guard_step in Hl. destruct (0 <? sr_wake_notifies r)%nat; [|done]. injection Hl as <-. destruct (sr_loop r); by apply (ack_same r).
  - injection Hl as <-. by apply (ack_same r).
  - injection Hl as <-. unfold start_draining. destruct (sr_draining r); by apply (ack_same r).
  - injection Hl as <-. by apply (ack_same r).
  - unfold loop_step in Hl. destruct (sr_loop r); try discriminate Hl; injection Hl as <-; try by apply (ack_same r).
    + destruct (sr_woken r); by apply (ack_same r).
    + exact (ack_run r Hok).
  - step_cases Hl. by apply (ack_same r).
  - unfold loop_drained in Hl. destruct (sr_loop r); try discriminate Hl. injection Hl as <-. by apply (ack_same r).
  - unfold close in Hl. destruct (sr_closer r) eqn:Hcl; try discriminate Hl.
    1,2,3,5,6: injection Hl as <-; by apply (ack_same r).
    + injection Hl as <-. unfold start_draining. destruct (sr_draining r); by apply (ack_same r).
    + step_cases Hl. pose proof (ak_emptied options r Hacc) as He. rewrite Hcl in He. cbn in He. destruct Hok as [Hc Hk Hs Ho Hr].
      unfold undone in Hc, Hr. split; unfold undone; cbn; auto.
      * intros w Hw. specialize (Hc w Hw). rewrite He in Hc. rewrite fmap_app, before_count_app in Hc.
        change (before_count (wt_before w) [].*1) with 0%nat in Hc. lia.
      * intros e Hin. specialize (Hr e Hin). rewrite fmap_app, before_count_app in Hr. lia.
Qed.

(** ** The serving loop is woken for all it serves *)

Definition alert (l : list (bool * bool)) : bool := existsb (fun e : bool * bool => e.1 || e.2) l.

(** A wake that is set, or owed. *)
Definition alerted (r : ServerRun) : bool :=
  sr_woken r || (0 <? sr_to_wake r)%nat || alert (sr_finishing r) || match sr_closer r with CStopped => true | _ => false end.

(** Where the loop is before its next look at what is due, at [working], at
    [failure], and at the drain. *)
Definition before_due (p : LoopPoint) : bool := match p with LRuns => true | _ => false end.
Definition before_stop (p : LoopPoint) : bool := match p with LRuns | LLooks | LChecks _ | LReturned => true | _ => false end.
Definition before_failure (p : LoopPoint) : bool :=
  match p with LRuns | LLooks | LReturned => true | LChecks failed | LDrains failed | LPending failed => failed | _ => false end.
Definition before_drain (p : LoopPoint) : bool :=
  match p with LRuns | LLooks | LChecks _ | LDrains _ | LPending _ | LReturned => true | _ => false end.

Definition stopped (p : CloserPoint) : bool := match p with CStopped | CJoins | CClosed => true | _ => false end.

Record attention_ok (r : ServerRun) : Prop := {
  at_wait : sr_loop r = LWaits -> sr_woken r = true -> (0 < sr_wake_notifies r)%nat;
  at_due w l : st_acknowledged (sr_state r) = w :: l -> wt_remaining w = 0%nat -> alerted r || before_due (sr_loop r) = true;
  at_stop : sr_working r = false -> alerted r || before_stop (sr_loop r) = true;
  at_failure : st_failure (sr_state r) <> None -> alerted r || before_failure (sr_loop r) = true;
  at_drain : sr_working r = true -> sr_draining r = true -> pending (sr_state r) = 0%nat ->
    sr_saw_idle r || alerted r || before_drain (sr_loop r) = true;
  at_closed : stopped (sr_closer r) = true -> sr_working r = false;
}.

Lemma alert_insert l i : (i < length l)%nat -> alert (<[i := (false, true)]> l) = true.
Proof.
  intros Hi. apply existsb_exists. exists (false, true). split; [|done]. apply list_elem_of_In, list_elem_of_lookup. exists i.
  by apply list_lookup_insert_eq.
Qed.

Lemma alert_delete l i : l !! i = Some (false, false) -> alert l = true -> alert (delete i l) = true.
Proof.
  intros Hl. unfold alert. rewrite !existsb_exists. intros (x & Hin & Hx). exists x. split; [|done].
  apply list_elem_of_In. apply list_elem_of_In in Hin. rewrite (delete_Permutation _ _ _ Hl) in Hin.
  apply elem_of_cons in Hin as [->|]; [done|auto].
Qed.

(** The loop has just taken its wake. *)
Lemma attention_woken r :
  attention_ok r -> attention_ok ((r <| sr_woken := false |>) <| sr_loop := LRuns |>).
Proof. intros [Hw Hd Hs Hf Hdr Hc]. split; cbn; intros; rewrite ?orb_true_r; auto; done. Qed.

(** A wake is owed, or set: nothing else matters. *)
Lemma attention_alerted r :
  (sr_loop r = LWaits -> sr_woken r = true -> (0 < sr_wake_notifies r)%nat) ->
  (stopped (sr_closer r) = true -> sr_working r = false) -> alerted r = true -> attention_ok r.
Proof. intros Hw Hc Ha. split; auto; intros; rewrite Ha; by rewrite ?orb_true_r. Qed.

(** What is due, failed and pending, and where the loop is, stay. *)
Lemma attention_same r r' :
  attention_ok r -> (alerted r = true -> alerted r' = true) ->
  (sr_woken r' = sr_woken r /\ sr_wake_notifies r' = sr_wake_notifies r) /\ sr_loop r' = sr_loop r ->
  st_acknowledged (sr_state r') = st_acknowledged (sr_state r) /\ st_failure (sr_state r') = st_failure (sr_state r) ->
  sr_working r' = sr_working r /\ sr_draining r' = sr_draining r ->
  (pending (sr_state r') = 0%nat -> pending (sr_state r) = 0%nat /\ sr_saw_idle r' = sr_saw_idle r) ->
  (stopped (sr_closer r') = true -> stopped (sr_closer r) = true) -> attention_ok r'.
Proof.
  intros [Hw Hd Hs Hf Hdr Hc] Ha [[H1 H2] H3] [H4 H5] [H6 H7] H8 H9.
  assert (Hor : forall b, alerted r || b = true -> alerted r' || b = true).
  { intros b [H| ->]%orb_prop; [by rewrite Ha|by rewrite orb_true_r]. }
  split; rewrite ?H1, ?H2, ?H3, ?H4, ?H5, ?H6, ?H7; auto.
  - intros w l Hwl H0. apply Hor. eauto.
  - intros Hwk Hdn Hp. destruct (H8 Hp) as [Hp' ->]. specialize (Hdr Hwk Hdn Hp'). destruct (sr_saw_idle r); [done|]. cbn in *. by apply Hor.
Qed.

Lemma alerted_waking r : (0 < sr_to_wake r)%nat -> alerted r = true.
Proof. intros H. unfold alerted. destruct (Nat.ltb_spec 0 (sr_to_wake r)); [|lia]. by rewrite orb_true_r. Qed.

Lemma split_due_rest l w l' : (split_due l).2 = w :: l' -> wt_remaining w <> 0%nat.
Proof.
  induction l as [|w' l IH]; cbn; [done|]. destruct (is_due w') eqn:Hd; [by destruct (split_due l)|].
  intros [= <- <-]. by apply Nat.eqb_neq.
Qed.

Lemma attention_turn r s looking notified :
  attention_ok r -> s = (sr_state r) <| st_idle := st_idle s |> ->
  attention_ok (turned (work_turn s).1 ((r <| sr_state := (work_turn s).2 |>) <| sr_looking := looking |> <| sr_notified := notified |>)).
Proof.
  intros Hok Hst. assert (H1 : st_acknowledged s = st_acknowledged (sr_state r)) by (by rewrite Hst).
  assert (H2 : st_failure s = st_failure (sr_state r)) by (by rewrite Hst).
  assert (H3 : pending s = pending (sr_state r)) by (by rewrite Hst). clear Hst.
  unfold work_turn. destruct (st_queue s) as [|[number message] rest] eqn:Hq.
  - destruct (st_accepting s); apply (attention_same r); auto; cbn; by rewrite <- H3.
  - apply (attention_same r); auto. rewrite <- H3. unfold pending. rewrite Hq. cbn. lia.
Qed.

Lemma attention_finish options index failure r r' :
  accounts_ok options r -> attention_ok r -> finish index failure r = Some r' -> attention_ok r'.
Proof.
  intros Hacc Hok Hf. unfold finish in Hf. destruct (sr_handling r !! index) as [[number message]|] eqn:Hl; [|done].
  destruct (work_done _ _ _ _) as [wake s'] eqn:Hd. cbn in Hf. injection Hf as <-.
  destruct (bool_decide (failure <> None) || wake) eqn:Hfw.
  { destruct Hok as [Hw _ _ _ _ Hc]. apply attention_alerted; [exact Hw|exact Hc|]. unfold alerted, alert. cbn. rewrite existsb_app. cbn.
    rewrite Hfw. by rewrite ?orb_true_r. }
  apply orb_false_elim in Hfw as [Hnone Hwake]. subst wake. apply bool_decide_eq_false in Hnone.
  assert (Hno : failure = None) by (by destruct failure; [destruct Hnone|]). subst failure. unfold work_done in Hd.
  injection Hd as Hwk Hs'. apply orb_false_elim in Hwk as [Hnd Hdr]. cbn in Hdr, Hnd.
  assert (Hst : st_failure s' = st_failure (sr_state r) /\ st_acknowledged s' = map (count_done number) (st_acknowledged (sr_state r))
                /\ st_queue s' = st_queue (sr_state r) /\ st_busy s' = pred (st_busy (sr_state r))).
  { rewrite <- Hs'. cbn. by destruct (st_failure (sr_state r)). }
  clear Hs'. destruct Hst as (H1 & H2 & H3 & H4). destruct Hok as [Hw Hdue Hs Hfl Hdrn Hc].
  assert (Ha : forall r1, alerted r = true -> sr_woken r1 = sr_woken r -> sr_to_wake r1 = sr_to_wake r -> sr_closer r1 = sr_closer r ->
                 sr_finishing r1 = sr_finishing r ++ [(false, false)] -> alerted r1 = true).
  { intros r1. unfold alerted. intros Har -> -> -> ->. unfold alert. rewrite existsb_app. cbn. by rewrite orb_false_r. }
  assert (Hor : forall b, alerted r || b = true -> alerted (r <| sr_finishing ::= fun l => l ++ [(false, false)] |>) || b = true).
  { intros b [H| ->]%orb_prop; [by rewrite (Ha _ H)|by rewrite orb_true_r]. }
  rewrite bool_decide_false by done.
  split; cbn; rewrite ?H1, ?H2; auto.
  - intros w l Hwl H0. destruct (st_acknowledged (sr_state r)) as [|w0 l0] eqn:Hl0; [done|]. injection Hwl as <- <-.
    apply Hor. apply (Hdue w0 l0); [done|]. cbn in Hnd. apply orb_false_elim in Hnd as [Hnd _].
    unfold count_done in H0. unfold due_by in Hnd. destruct ((0 <? wt_remaining w0)%nat && (number <? wt_before w0)); [|exact H0]. cbn in H0, Hnd. by rewrite H0 in Hnd.
  - intros _ Hdn Hp. exfalso. rewrite Hdn in Hdr. cbn in Hdr. unfold pending in Hp. rewrite H3, H4 in Hp.
    destruct (st_queue (sr_state r)) eqn:Hq; [|done]. cbn in Hp. rewrite bool_decide_true, Hp in Hdr by done. done.
Qed.

Lemma attention_after index r r' : attention_ok r -> after index r = Some r' -> attention_ok r'.
Proof.
  intros Hok Ha. unfold after in Ha. destruct (sr_finishing r !! index) as [[failed wake]|] eqn:Hl; [|done].
  pose proof (lookup_lt_Some _ _ _ Hl) as Hlt. destruct failed; [|destruct wake]; injection Ha as <-.
  - apply attention_alerted; [apply (at_wait r Hok)|done|]. unfold alerted. cbn. rewrite alert_insert by done. by rewrite !orb_true_r.
  - apply attention_alerted; [cbn; lia|apply (at_closed r Hok)|done].
  - apply (attention_same r); auto. unfold alerted. cbn. intros [[[->| ->]%orb_prop|H]%orb_prop| ->]%orb_prop; rewrite ?orb_true_r; auto.
    pose proof (alert_delete _ _ Hl H) as Hd. unfold alert in Hd. rewrite Hd. by rewrite !orb_true_r.
Qed.

(** The loop moves on, past no look it has yet to take. *)
Lemma attention_moved r p :
  attention_ok r -> (p = LWaits -> sr_woken r = false) ->
  (before_due (sr_loop r) = true -> before_due p = true) ->
  (sr_working r = false -> before_stop (sr_loop r) = true -> before_stop p = true) ->
  (st_failure (sr_state r) <> None -> before_failure (sr_loop r) = true -> before_failure p = true) ->
  (sr_draining r = true -> before_drain (sr_loop r) = true -> before_drain p = true) ->
  attention_ok (r <| sr_loop := p |>).
Proof.
  intros [Hw Hd Hs Hf Hdr Hc] H1 H2 H3 H4 H5. change (alerted r) with (alerted (r <| sr_loop := p |>)) in *.
  assert (Hor : forall a b b', a || b = true -> (b = true -> b' = true) -> a || b' = true) by (by intros [] [] []; auto).
  split; cbn [upd sr_loop sr_state sr_woken sr_wake_notifies sr_working sr_draining sr_closer sr_saw_idle].
  - intros Hp. rewrite H1 by done. done.
  - intros w l Hwl H0. eapply Hor; [by eapply Hd|done].
  - intros Hwk. eapply Hor; [by apply Hs|auto].
  - intros Hne. eapply Hor; [by apply Hf|auto].
  - intros Hwk Hdn Hp. eapply Hor; [by apply Hdr|auto].
  - done.
Qed.

Lemma attention_loop r r' : attention_ok r -> loop_step r = Some r' -> attention_ok r'.
Proof.
  intros Hok Hl. unfold loop_step in Hl.
  destruct (sr_loop r) as [| | | | |failed|failed|failed| |] eqn:Hlp; try discriminate Hl.
  - destruct (sr_woken r) eqn:Hwk; injection Hl as <-; [by apply attention_woken|]. apply attention_moved; rewrite ?Hlp; done.
  - injection Hl as <-. by apply attention_woken.
  - injection Hl as <-. destruct Hok as [Hw Hd Hs Hf Hdr Hc]. split; cbn; intros; rewrite ?orb_true_r; auto; try done.
    exfalso. by eapply split_due_rest.
  - injection Hl as <-. apply attention_moved; rewrite ?Hlp; auto; try done. intros Hne _. cbn. by apply bool_decide_true.
  - destruct (sr_working r) eqn:Hwk; injection Hl as <-; apply attention_moved; rewrite ?Hlp, ?Hwk; done.
  - destruct (sr_draining r) eqn:Hdn; [|destruct failed]; injection Hl as <-; apply attention_moved; rewrite ?Hlp, ?Hdn; done.
  - injection Hl as <-. apply attention_moved; rewrite ?Hlp; done.
Qed.

Lemma attention_drained options now since drain acked held word r r' :
  attention_ok r -> loop_drained options now since drain acked held word r = Some r' -> attention_ok r'.
Proof.
  intros Hok Hl. unfold loop_drained in Hl. destruct (sr_loop r) as [| | | | | | |failed| |] eqn:Hlp; try discriminate Hl.
  destruct Hok as [Hw Hd Hs Hf Hdr Hc]. rewrite Hlp in Hd, Hs, Hf, Hdr. cbn [before_due before_stop before_failure] in Hd, Hs, Hf.
  assert (Ha : forall p b, alerted ((r <| sr_loop := p |>) <| sr_saw_idle := b |>) = alerted r) by done.
  destruct (word _ || failed) eqn:Hwf; injection Hl as <-;
    (split; cbn [upd sr_loop sr_state sr_woken sr_wake_notifies sr_working sr_draining sr_closer sr_saw_idle]); rewrite ?Ha; try done.
  - by rewrite orb_true_r.
  - by rewrite orb_true_r.
  - intros. by rewrite orb_true_r.
  - apply orb_false_elim in Hwf as [_ ->]. done.
  - intros _ _ ->. by rewrite orb_true_r.
Qed.

Lemma attention_step options l r r' :
  accounts_ok options r -> attention_ok r -> server_step options l r = Some r' -> attention_ok r'.
Proof.
  intros Hacc Hok Hl. destruct l; cbn [server_step] in Hl.
  - injection Hl as <-. unfold on_message, on_message_locked. destruct (_ && _); [|destruct (st_accepting _); by apply (attention_same r)].
    apply (attention_same r); auto. unfold pending. cbn. rewrite length_app. cbn. lia.
  - unfold guard_step in Hl. destruct (0 <? sr_notifies r)%nat; [|done]. injection Hl as <-. destruct (0 <? sr_waiting r)%nat; by apply (attention_same r).
  - unfold connect in Hl. step_cases Hl. by apply (attention_same r).
  - unfold guard_step in Hl. destruct (0 <? sr_looking r)%nat; [|done]. injection Hl as <-.
    exact (attention_turn r (sr_state r) (pred (sr_looking r)) (sr_notified r) Hok ltac:(by destruct (sr_state r))).
  - unfold guard_step in Hl. destruct (0 <? sr_notified r)%nat; [|done]. injection Hl as <-.
    exact (attention_turn r ((sr_state r) <| st_idle ::= pred |>) (sr_looking r) (pred (sr_notified r)) Hok ltac:(done)).
  - step_cases Hl. by apply (attention_same r).
  - by eapply attention_finish.
  - by eapply attention_after.
  - injection Hl as <-. apply attention_alerted; [apply (at_wait r Hok)|apply (at_closed r Hok)|by apply alerted_waking; cbn; lia].
  - step_cases Hl. apply attention_alerted; [cbn; lia|apply (at_closed r Hok)|done].
  - unfold guard_step in Hl. destruct (0 <? sr_wake_notifies r)%nat; [|done]. injection Hl as <-. destruct Hok as [Hw Hd Hs Hf Hdr Hc].
    destruct (sr_loop r) eqn:Hlp; split; cbn; rewrite ?Hlp; auto; done.
  - injection Hl as <-. apply attention_alerted; [apply (at_wait r Hok)|done|by apply alerted_waking; cbn; lia].
  - injection Hl as <-. unfold start_draining. destruct (sr_draining r); [done|].
    apply attention_alerted; [apply (at_wait r Hok)|apply (at_closed r Hok)|by apply alerted_waking; cbn; lia].
  - injection Hl as <-. apply attention_alerted; [apply (at_wait r Hok)|apply (at_closed r Hok)|by apply alerted_waking; cbn; lia].
  - by eapply attention_loop.
  - unfold guard_step in Hl. destruct Hok as [Hw Hd Hs Hf Hdr Hc]. destruct (sr_loop r) eqn:Hlp; try discriminate Hl. injection Hl as <-. by split.
  - by eapply attention_drained.
  - unfold close in Hl. pose proof (at_closed r Hok) as Hcl. pose proof (at_wait r Hok) as Hw. destruct (sr_closer r) eqn:Hc; try discriminate Hl.
    + injection Hl as <-. apply (attention_same r); rewrite ?Hc; auto; try done. unfold alerted. cbn. by rewrite Hc.
    + injection Hl as <-. apply (attention_same r); rewrite ?Hc; auto; try done. unfold alerted. cbn. by rewrite Hc.
    + injection Hl as <-. apply (attention_same r); rewrite ?Hc; auto; try done. unfold alerted. cbn. by rewrite Hc.
    + injection Hl as <-. unfold start_draining. destruct (sr_draining r) eqn:Hd.
      * apply (attention_same r); rewrite ?Hc; auto; try done. unfold alerted. cbn. by rewrite Hc.
      * apply attention_alerted; [done|done|by apply alerted_waking; cbn; lia].
    + injection Hl as <-. apply attention_alerted; [done|done|]. unfold alerted. cbn. by rewrite orb_true_r.
    + injection Hl as <-. apply attention_alerted; [done|by intros; apply Hcl|by apply alerted_waking; cbn; lia].
    + unfold guard_step in Hl. destruct (_ =? _)%nat; [|done]. injection Hl as <-. destruct Hok as [_ Hd Hs Hf Hdr _]. specialize (Hcl eq_refl).
      match goal with |- attention_ok ?x => assert (Ha : alerted x = alerted r) by (unfold alerted; cbn; by rewrite Hc) end.
      split; rewrite ?Ha; cbn; auto. congruence.
Qed.

(** ** The close *)

Definition joined_ok (r : ServerRun) : Prop :=
  emptied (sr_closer r) = true -> sr_ended r = sr_started r /\ ((0 < sr_started r)%nat -> sr_left r = []).

Lemma joined_same r r' :
  joined_ok r -> sr_closer r' = sr_closer r -> sr_ended r' = sr_ended r /\ sr_started r' = sr_started r /\ sr_left r' = sr_left r ->
  joined_ok r'.
Proof. unfold joined_ok. by intros Hok -> (-> & -> & ->). Qed.

Lemma joined_turn r r1 turn :
  work_ok r -> joined_ok r -> (0 < sr_looking r + sr_notified r)%nat -> sr_closer r1 = sr_closer r ->
  sr_ended r1 = sr_ended r /\ sr_started r1 = sr_started r /\ sr_left r1 = sr_left r -> joined_ok (turned turn r1).
Proof.
  intros Hw Hok Hn Hc (H1 & H2 & H3) Hem. assert (He : emptied (sr_closer r) = true) by (by rewrite <- Hc; destruct turn).
  destruct (Hok He) as [Heq _]. pose proof (wk_workers r Hw). lia.
Qed.

Lemma joined_step options l r r' :
  accounts_ok options r -> work_ok r -> joined_ok r -> server_step options l r = Some r' -> joined_ok r'.
Proof.
  intros Hacc Hw Hok Hl. destruct l; cbn [server_step] in Hl.
  - injection Hl as <-. unfold on_message, on_message_locked. destruct (_ && _); [|destruct (st_accepting _)]; by apply (joined_same r).
  - unfold guard_step in Hl. destruct (0 <? sr_notifies r)%nat; [|done]. injection Hl as <-. destruct (0 <? sr_waiting r)%nat; by apply (joined_same r).
  - unfold connect, guard_step in Hl. pose proof (ak_shut options r Hacc) as Hs. destruct (st_accepting (sr_state r)) eqn:Ha; [|done].
    destruct (_ && _); [|done]. injection Hl as <-. intros Hem. cbn in Hem. by destruct (sr_closer r).
  - unfold guard_step in Hl. destruct (Nat.ltb_spec 0 (sr_looking r)); [|done]. injection Hl as <-. apply (joined_turn r); auto. lia.
  - unfold guard_step in Hl. destruct (Nat.ltb_spec 0 (sr_notified r)); [|done]. injection Hl as <-. apply (joined_turn r); auto. lia.
  - step_cases Hl. by apply (joined_same r).
  - unfold finish in Hl. destruct (sr_handling r !! index); [|done]. injection Hl as <-. by apply (joined_same r).
  - unfold after in Hl. destruct (sr_finishing r !! index) as [[[] []]|]; [| | | |done]; injection Hl as <-; by apply (joined_same r).
  - injection Hl as <-. by apply (joined_same r).
  - step_cases Hl. by apply (joined_same r).
  - unfold guard_step in Hl. destruct (0 <? sr_wake_notifies r)%nat; [|done]. injection Hl as <-. destruct (sr_loop r); by apply (joined_same r).
  - injection Hl as <-. by apply (joined_same r).
  - injection Hl as <-. unfold start_draining. destruct (sr_draining r); by apply (joined_same r).
  - injection Hl as <-. by apply (joined_same r).
  - unfold loop_step in Hl. destruct (sr_loop r); try discriminate Hl; injection Hl as <-; try by apply (joined_same r).
    destruct (sr_woken r); by apply (joined_same r).
  - step_cases Hl. by apply (joined_same r).
  - unfold loop_drained in Hl. destruct (sr_loop r); try discriminate Hl. injection Hl as <-. by apply (joined_same r).
  - unfold close in Hl. destruct (sr_closer r) eqn:Hc; try discriminate Hl; try (by injection Hl as <-).
    unfold guard_step in Hl. destruct (Nat.eqb_spec (sr_ended r) (sr_started r)) as [He|]; [|done]. injection Hl as <-. intros _. cbn.
    split; [done|]. intros Hst. apply (wk_ended r Hw). lia.
Qed.

(** ** The server's guarantees *)

Record server_ok (options : ThreadedServerOptions) (r : ServerRun) : Prop := {
  so_accounts : accounts_ok options r;
  so_work : work_ok r;
  so_ack : ack_ok r;
  so_attention : attention_ok r;
  so_joined : joined_ok r;
}.

Lemma server_reaches_ok options r : server_reaches options r -> server_ok options r.
Proof.
  apply (steps_keep (server_step options) (server_ok options)).
  - intros l s s' [H1 H2 H3 H4 H5] Hl. split.
    + by eapply accounts_step.
    + by eapply work_step.
    + by eapply ack_step.
    + by eapply attention_step.
    + by eapply joined_step.
  - split; [by apply server_accounted, steps_to_refl| | | |done]; split; cbn; try done; try lia; try (by intros ? ?%not_elem_of_nil);
      try (by intros ? ? ?%not_elem_of_nil); constructor.
Qed.

(** C15: The threaded server loses no request.  Every message that arrived was accepted,
    dropped for a full queue, or refused as the server left; those accepted, numbered
    in order from 0, are taken by the workers in that order, and each one taken was
    handled once or is being handled; no more wait and are handled at once than the
    workers and the queue's size allow. *)
Theorem requests_accounted (options : ThreadedServerOptions) (r : ServerRun) :
  server_reaches options r ->
  sr_arrived r ≡ₚ (sr_taken r ++ st_queue (sr_state r) ++ sr_left r).*2 ++ sr_full r ++ sr_refused r
  /\ (sr_taken r ++ st_queue (sr_state r) ++ sr_left r).*1 = seqZ 0 (st_accepted (sr_state r))
  /\ sr_taken r ≡ₚ sr_done r ++ sr_handling r
  /\ (length (st_queue (sr_state r)) + length (sr_handling r) <= to_workers options + to_queue_size options)%nat.
Proof.
  intros Hr. destruct (so_accounts _ _ (server_reaches_ok options r Hr)) as [Hb Hi Hro Hn Ha Ht Har Hs He].
  unfold pending in Hro. rewrite Hb in Hro. done.
Qed.

(** C22: [close] returns only after every request accepted was handled, if any worker
    was started: it refuses none of them. *)
Theorem close_handles_all (options : ThreadedServerOptions) (r : ServerRun) :
  server_reaches options r -> sr_closer r = CClosed -> (0 < sr_started r)%nat ->
  sr_left r = [] /\ st_queue (sr_state r) = [] /\ sr_handling r = [] /\ (sr_done r).*1 ≡ₚ seqZ 0 (st_accepted (sr_state r)).
Proof.
  intros Hr Hc Hst. destruct (server_reaches_ok options r Hr) as [Hacc Hw _ _ Hj].
  destruct (Hj ltac:(by rewrite Hc)) as [He Hl]. specialize (Hl Hst).
  pose proof (ak_emptied options r Hacc) as Hq. rewrite Hc in Hq. cbn in Hq.
  assert (Hh : sr_handling r = []) by (apply length_zero_iff_nil; pose proof (wk_workers r Hw); lia).
  split_and!; [done|done|done|]. rewrite <- (ak_numbers options r Hacc). unfold requests. rewrite Hq, Hl, app_nil_r.
  by rewrite (ak_taken options r Hacc), Hh, app_nil_r.
Qed.

(** C21: No request waits while a worker that could take it sleeps.  With no notify
    under way, if a worker sleeps then every request queued has a worker of its own
    that is on its way to the queue; and no worker sleeps once the server leaves. *)
Theorem no_request_waits_for_a_sleeper (options : ThreadedServerOptions) (r : ServerRun) :
  server_reaches options r -> sr_notifies r = 0%nat -> sr_closer r <> CShut -> (0 < sr_waiting r)%nat ->
  (length (st_queue (sr_state r)) <= sr_looking r + sr_notified r)%nat /\ st_accepting (sr_state r) = true.
Proof.
  intros Hr Hn Hc Hwt. destruct (so_work _ _ (server_reaches_ok options r Hr)) as [Hq Hs _ _]. split.
  - specialize (Hq Hwt). lia.
  - destruct (st_accepting (sr_state r)) eqn:Ha; [done|]. by destruct (Hc (Hs Hwt eq_refl)).
Qed.

(** C20: The callback of an acknowledged change runs after every request accepted
    before the acknowledgement was handled, or refused by [close]; and the callbacks
    run in the order the changes were acknowledged. *)
Theorem acknowledged_after_requests (options : ThreadedServerOptions) (r : ServerRun) :
  server_reaches options r ->
  (exists rest, sr_acked r = sr_ran r ++ rest)
  /\ forall before callback n, (before, callback) ∈ sr_ran r -> 0 <= n < before -> n ∈ (sr_done r).*1 \/ n ∈ (sr_left r).*1.
Proof.
  intros Hr. destruct (server_reaches_ok options r Hr) as [Hacc _ [_ Hk _ Ho Hran] _ _]. split; [eauto|].
  intros before callback n Hin Hn. pose proof (Hran _ Hin) as Hc. cbn in Hc.
  assert (Hb : before <= st_accepted (sr_state r)) by (apply (Hk (before, callback)); rewrite Ho, elem_of_app; auto).
  assert (Hreq : n ∈ (requests r).*1) by (rewrite (ak_numbers options r Hacc), elem_of_seqZ; lia).
  assert (Hno : n ∉ undone r) by (intros Hu; pose proof (before_count_none _ _ _ Hc Hu); lia).
  unfold requests, undone in *. rewrite !fmap_app, !elem_of_app in *.
  rewrite (ak_taken options r Hacc), fmap_app, elem_of_app in Hreq. tauto.
Qed.

(** C19: The serving loop sleeps only while there is nothing for it to do.  With no
    wake under way, a loop that sleeps was not stopped, no handler's failure ends the
    server, every change whose callback has not run still waits for a request
    accepted before it, and a drain with nothing left to handle was looked at. *)
Theorem serving_loop_is_woken (options : ThreadedServerOptions) (r : ServerRun) :
  server_reaches options r -> sr_loop r = LWaits ->
  sr_to_wake r = 0%nat -> sr_wake_notifies r = 0%nat -> sr_finishing r = [] -> sr_closer r <> CStopped ->
  sr_working r = true /\ st_failure (sr_state r) = None
  /\ (sr_left r = [] -> forall w, w ∈ st_acknowledged (sr_state r) -> exists n, n ∈ undone r /\ n < wt_before w)
  /\ (sr_draining r = true -> pending (sr_state r) = 0%nat -> sr_saw_idle r = true).
Proof.
  intros Hr Hl H1 H2 H3 H4. destruct (server_reaches_ok options r Hr) as [_ _ [Hcnt _ Hsort _ _] [Hw Hd Hs Hf Hdr _] _].
  assert (Ha : alerted r = false).
  { unfold alerted. rewrite H1, H3. destruct (sr_woken r) eqn:Hwk; [specialize (Hw Hl eq_refl); lia|]. cbn. by destruct (sr_closer r). }
  rewrite Hl, Ha in Hs, Hf, Hdr. cbn in Hs, Hf, Hdr.
  assert (Hwork : sr_working r = true) by (destruct (sr_working r); [done|by specialize (Hs eq_refl)]).
  split_and!; [done| | |].
  - destruct (st_failure (sr_state r)); [|done]. by discriminate Hf.
  - intros Hleft w Hin. destruct (st_acknowledged (sr_state r)) as [|w0 l0] eqn:Hack; [by apply not_elem_of_nil in Hin|].
    assert (Hr0 : wt_remaining w0 <> 0%nat).
    { intros H0. specialize (Hd w0 l0 eq_refl H0). by rewrite Hl, Ha in Hd. }
    assert (Hle : wt_before w0 <= wt_before w).
    { apply elem_of_cons in Hin as [->|Hin]; [done|]. apply StronglySorted_inv in Hsort as [_ Hall].
      rewrite Forall_forall in Hall. apply Hall, list_elem_of_fmap. eauto. }
    specialize (Hcnt w0 ltac:(by left)). rewrite Hleft in Hcnt. change (before_count (wt_before w0) [].*1) with 0%nat in Hcnt.
    destruct (filter (fun n => n < wt_before w0) (undone r)) as [|n l] eqn:Hfl.
    { exfalso. apply Hr0. unfold before_count in Hcnt. rewrite Hfl in Hcnt. cbn in Hcnt. lia. }
    assert (Hn : n ∈ filter (fun n => n < wt_before w0) (undone r)) by (rewrite Hfl; by left).
    apply list_elem_of_filter in Hn as [Hn Hu]. exists n. split; [done|lia].
  - intros Hdn Hp. specialize (Hdr Hwork Hdn Hp). by rewrite !orb_false_r in Hdr.
Qed.

(** ** Witnesses *)

Definition demo_options : ThreadedServerOptions := mkThreadedServerOptions 1 1 false direct_only_routing.
Definition demo_event (id : Z) : Message := Message_default <| m_id := id |> <| m_type := 300 |>.

(** One worker: two requests, a third dropped for a full queue, a change acknowledged
    while the first is handled, and its callback once both are done. *)
Definition demo_served : list ServerLabel :=
  [SConnect 1; SLook; SMessage (demo_event 1); SNotify; SWoken; SMessage (demo_event 2); SMessage (demo_event 3);
   SAcknowledged (Some 5); SFinish 0 None; SAfter 0; SLook; SFinish 0 None; SAfter 0; SWakeSet; SWakeNotify; SWakeNotify;
   SLoop; SLoop; SLoop; SLoop; SLoop; SLoop; SLook; SLoop].
(** The same, and the server closed. *)
Definition demo_closed : list ServerLabel := demo_served ++ repeat SClose 3 ++ [SWoken] ++ repeat SClose 4.

Definition demo_server (labels : list ServerLabel) : ServerRun :=
  default server_start (run_steps (server_step demo_options) labels server_start).

Lemma requests_accounted_witness :
  sr_full (demo_server demo_served) = [demo_event 3]
  /\ (sr_taken (demo_server demo_served) ++ st_queue (sr_state (demo_server demo_served)) ++ sr_left (demo_server demo_served)).*1 = [0; 1].
Proof.
  assert (Hr : server_reaches demo_options (demo_server demo_served)) by (exists demo_served; vm_compute; reflexivity).
  destruct (requests_accounted demo_options _ Hr) as (_ & H & _). split; [vm_compute; reflexivity|]. rewrite H. vm_compute. reflexivity.
Defined.

Lemma close_handles_all_witness :
  sr_closer (demo_server demo_closed) = CClosed /\ (sr_done (demo_server demo_closed)).*1 ≡ₚ [0; 1].
Proof.
  assert (Hr : server_reaches demo_options (demo_server demo_closed)) by (exists demo_closed; vm_compute; reflexivity).
  assert (Hc : sr_closer (demo_server demo_closed) = CClosed) by (vm_compute; reflexivity).
  assert (Hs : (0 < sr_started (demo_server demo_closed))%nat) by (vm_compute; lia).
  destruct (close_handles_all demo_options _ Hr Hc Hs) as (_ & _ & _ & H). split; [exact Hc|].
  replace [0; 1] with (seqZ 0 (st_accepted (sr_state (demo_server demo_closed)))) by (vm_compute; reflexivity). exact H.
Defined.

Lemma no_request_waits_for_a_sleeper_witness :
  (length (st_queue (sr_state (demo_server demo_served))) <= sr_looking (demo_server demo_served) + sr_notified (demo_server demo_served))%nat.
Proof.
  assert (Hr : server_reaches demo_options (demo_server demo_served)) by (exists demo_served; vm_compute; reflexivity).
  apply (no_request_waits_for_a_sleeper demo_options _ Hr); [vm_compute; reflexivity|vm_compute; discriminate|vm_compute; lia].
Defined.

Lemma acknowledged_after_requests_witness :
  sr_ran (demo_server demo_served) = [(2, Some 5)] /\ (1 ∈ (sr_done (demo_server demo_served)).*1 \/ 1 ∈ (sr_left (demo_server demo_served)).*1).
Proof.
  assert (Hr : server_reaches demo_options (demo_server demo_served)) by (exists demo_served; vm_compute; reflexivity).
  assert (Hran : sr_ran (demo_server demo_served) = [(2, Some 5)]) by (vm_compute; reflexivity).
  split; [exact Hran|]. apply (proj2 (acknowledged_after_requests demo_options _ Hr) 2 (Some 5)); [rewrite Hran; by left|lia].
Defined.

Lemma serving_loop_is_woken_witness : sr_working (demo_server demo_served) = true.
Proof.
  assert (Hr : server_reaches demo_options (demo_server demo_served)) by (exists demo_served; vm_compute; reflexivity).
  apply (serving_loop_is_woken demo_options _ Hr); vm_compute; (reflexivity || discriminate).
Defined.
