(* ===== verification/Turns.v ===== *)
(** * Turns: the plain server's client, lent by its loop (servers/plain.rs)

    The loop holds the client while it waits for a message; a call from another
    thread that finds it held asks for a turn, wakes the wait and blocks on the
    mutex, and the loop takes the client again once every call that asked had it.
    The loop and any number of callers are threads of the model: each load, store,
    lock, unlock, wake and wait is a step.  The atomics are taken in one total
    order, the relaxed loads of [asked] included: one that reads an older value is
    that load made earlier, and the wake that follows the store ends the poll it
    leads to.  A call made by the handler, on the loop's own thread between two
    waits, is a caller's too. *)
From S2P Require Import Prelude Records Interleaving.

(** ** The threads *)

(** Where the loop is, in [wait] and [yield_to_callers]. *)
Inductive LoopPoint :=
| LpYield                       (* about to load [asking] *)
| LpTurns                       (* it was not 0: about to lock [turns] *)
| LpCheck                       (* [turns] locked: about to load [asking] again *)
| LpWaits (notified : bool)     (* in [turned.wait()] *)
| LpWorking                     (* every call had its turn: about to load [working] *)
| LpLock                        (* about to lock the client *)
| LpInWait                      (* in [wait_for_server()]: about to call [asked] *)
| LpLooked                      (* no call asked: about to load [working] *)
| LpPolling                     (* in the poll *)
| LpHandling                    (* the wait ended: the handler, the callbacks *)
| LpStopped.

(** Where a call of [Shared::client] is. *)
Inductive CallerPoint :=
| CpIdle
| CpTry                         (* about to try the client's lock *)
| CpAsk                         (* it was held: about to count itself in [asking] *)
| CpWake                        (* about to wake the loop's poll *)
| CpLock                        (* about to lock the client *)
| CpHolds (asked : bool)        (* has its [Turn] *)
| CpTurns                       (* let go of the client: about to lock [turns] *)
| CpCount                       (* [turns] locked: about to count itself out *)
| CpUnlock.                     (* about to unlock [turns] *)

Record TurnRun := mkTurnRun {
  tr_client : bool;             (* the client's mutex is locked *)
  tr_turns : bool;              (* so is [turns] *)
  tr_asking : nat;
  tr_working : bool;
  tr_woken : bool;              (* a wake the poll has not seen *)
  tr_stopping : nat;            (* calls of [stop] that stored [working] and did not wake yet *)
  tr_loop : LoopPoint;
  tr_callers : list CallerPoint;
  tr_owed : list nat;           (* the calls that had asked when the loop last let go of the client for them *)
}.
#[export] Instance eta_TurnRun : Eta TurnRun := fun r =>
  mkTurnRun (tr_client r) (tr_turns r) (tr_asking r) (tr_working r) (tr_woken r) (tr_stopping r) (tr_loop r) (tr_callers r)
    (tr_owed r).

Inductive TurnLabel :=
| LoStep                        (* the loop's next step *)
| LoEnds                        (* its wait ends: a message, its deadline, an acknowledgement *)
| LoPolled                      (* its poll returns for the sockets' or the time's sake *)
| LoSpurious                    (* the condition variable lets it go unasked *)
| LoAgain                       (* the handler returned: the next wait *)
| CaCall (i : nat)              (* a call starts *)
| CaStep (i : nat)              (* its next step, the end of its use of the client included *)
| StStore                       (* [stop]: [working] stored *)
| StWake.                       (* and the poll woken *)

Definition counted (p : CallerPoint) : bool :=
  match p with CpWake | CpLock | CpHolds true | CpTurns | CpCount => true | _ => false end.

(** The calls that asked and have not had their turn. *)
Fixpoint asking_calls (i : nat) (l : list CallerPoint) : list nat :=
  match l with
  | [] => []
  | p :: l => if counted p then i :: asking_calls (S i) l else asking_calls (S i) l
  end.

(** The loop lets go of the client for them. *)
Definition let_go (r : TurnRun) : TurnRun :=
  r <| tr_client := false |> <| tr_loop := LpYield |> <| tr_owed := asking_calls 0 (tr_callers r) |>.

Definition loop_step (r : TurnRun) : option TurnRun :=
  match tr_loop r with
  | LpYield => Some (r <| tr_loop := if (tr_asking r =? 0)%nat then LpWorking else LpTurns |>)
  | LpTurns | LpWaits true => guard_step (negb (tr_turns r)) (r <| tr_turns := true |> <| tr_loop := LpCheck |>)
  | LpCheck => Some (r <| tr_turns := false |> <| tr_loop := if (tr_asking r =? 0)%nat then LpWorking else LpWaits false |>)
  | LpWorking => Some (r <| tr_loop := if tr_working r then LpLock else LpStopped |>)
  | LpLock => guard_step (negb (tr_client r)) (r <| tr_client := true |> <| tr_loop := LpInWait |>)
  | LpInWait => Some (if (tr_asking r =? 0)%nat then r <| tr_loop := LpLooked |> else let_go r)
  | LpLooked => Some (if tr_working r then r <| tr_loop := LpPolling |> else let_go r)
  | LpPolling => guard_step (tr_woken r) (r <| tr_woken := false |> <| tr_loop := LpInWait |>)
  | LpWaits false | LpHandling | LpStopped => None
  end.

Definition caller_step (i : nat) (r : TurnRun) : option TurnRun :=
  let goes p := r <| tr_callers ::= <[i := p]> |> in
  match tr_callers r !! i with
  | None | Some CpIdle => None
  | Some CpTry => Some (if tr_client r then goes CpAsk else (goes (CpHolds false)) <| tr_client := true |>)
  | Some CpAsk => Some ((goes CpWake) <| tr_asking ::= S |>)
  | Some CpWake => Some ((goes CpLock) <| tr_woken := true |>)
  | Some CpLock => guard_step (negb (tr_client r)) ((goes (CpHolds true)) <| tr_client := true |>)
  | Some (CpHolds asked) => Some ((goes (if asked then CpTurns else CpIdle)) <| tr_client := false |>)
  | Some CpTurns => guard_step (negb (tr_turns r)) ((goes CpCount) <| tr_turns := true |>)
  | Some CpCount =>
      Some ((goes CpUnlock) <| tr_asking ::= pred |>
              <| tr_loop ::= fun p => match p with LpWaits notified => LpWaits (notified || (tr_asking r =? 1)%nat) | p => p end |>
              <| tr_owed ::= filter (fun j => j <> i) |>)
  | Some CpUnlock => Some ((goes CpIdle) <| tr_turns := false |>)
  end.

Definition turn_step (l : TurnLabel) (r : TurnRun) : option TurnRun :=
  match l with
  | LoStep => loop_step r
  | LoEnds => match tr_loop r with LpInWait => Some (r <| tr_client := false |> <| tr_loop := LpHandling |>) | _ => None end
  | LoPolled => match tr_loop r with LpPolling => Some (r <| tr_loop := LpInWait |>) | _ => None end
  | LoSpurious => match tr_loop r with LpWaits false => Some (r <| tr_loop := LpWaits true |>) | _ => None end
  | LoAgain => match tr_loop r with LpHandling => Some (r <| tr_loop := LpYield |>) | _ => None end
  | CaCall i => match tr_callers r !! i with Some CpIdle => Some (r <| tr_callers ::= <[i := CpTry]> |>) | _ => None end
  | CaStep i => caller_step i r
  | StStore => Some (r <| tr_working := false |> <| tr_stopping ::= S |>)
  | StWake => guard_step (0 <? tr_stopping r)%nat (r <| tr_woken := true |> <| tr_stopping ::= pred |>)
  end.

(** A server built, with [n] threads that may call it. *)
Definition turn_start (n : nat) : TurnRun := mkTurnRun false false 0 true false 0 LpYield (replicate n CpIdle) [].
Definition turn_reaches (n : nat) : TurnRun -> Prop := steps_to turn_step (turn_start n).

(** ** Who holds what *)

Definition has_client (p : CallerPoint) : bool := match p with CpHolds _ => true | _ => false end.
Definition has_turns (p : CallerPoint) : bool := match p with CpCount | CpUnlock => true | _ => false end.
Definition loop_has_client (p : LoopPoint) : bool := match p with LpInWait | LpLooked | LpPolling => true | _ => false end.
Definition loop_has_turns (p : LoopPoint) : bool := match p with LpCheck => true | _ => false end.
(** Past the loop's look at [asking], before its poll ends. *)
Definition loop_looked (p : LoopPoint) : bool := match p with LpLooked | LpPolling => true | _ => false end.
(** The calls it let go of the client for had it. *)
Definition loop_paid (p : LoopPoint) : bool :=
  match p with LpWorking | LpLock | LpInWait | LpLooked | LpPolling | LpHandling | LpStopped => true | _ => false end.

Record turn_ok (r : TurnRun) : Prop := {
  to_client : one (tr_client r) = total has_client (tr_callers r) + one (loop_has_client (tr_loop r));
  to_turns : one (tr_turns r) = total has_turns (tr_callers r) + one (loop_has_turns (tr_loop r));
  to_asking : tr_asking r = total counted (tr_callers r);
  to_polling : loop_looked (tr_loop r) = true -> tr_woken r = false ->
    forall i p, tr_callers r !! i = Some p -> counted p = true -> p = CpWake;
  to_stopping : tr_loop r = LpPolling -> tr_woken r = false -> tr_working r = false -> 0 < tr_stopping r;
  to_asleep : tr_loop r = LpWaits false -> tr_asking r <> 0;
  to_owed i : i ∈ tr_owed r -> exists p, tr_callers r !! i = Some p /\ counted p = true;
  to_paid : loop_paid (tr_loop r) = true -> tr_owed r = [];
}.

Lemma asking_calls_counted k l i : i ∈ asking_calls k l -> exists j p, i = k + j /\ l !! j = Some p /\ counted p = true.
Proof.
  revert k. induction l as [|x l IH]; intros k; cbn [asking_calls]; [by intros ?%not_elem_of_nil|].
  assert (Hr : i ∈ asking_calls (S k) l -> exists j p, i = k + j /\ (x :: l) !! j = Some p /\ counted p = true).
  { intros (j & p & -> & H)%IH. exists (S j), p. split; [lia|done]. }
  destruct (counted x) eqn:Hx; [|done]. intros [->|H]%elem_of_cons; [|by apply Hr]. exists 0, x. split; [lia|done].
Qed.

Lemma turn_ok_start n : turn_ok (turn_start n).
Proof.
  split; cbn; try done; try (by rewrite total_replicate). intros i H. by apply not_elem_of_nil in H.
Qed.

(** The loop's own moves. *)
Lemma turn_ok_loop r r' : turn_ok r -> loop_step r = Some r' -> turn_ok r'.
Proof.
  intros [H1 H2 H3 H4 H5 H6 H7 H8] Hs. unfold loop_step in Hs.
  assert (Hnone : (tr_asking r =? 0) = true -> tr_owed r = []).
  { intros H0%Nat.eqb_eq. destruct (tr_owed r) as [|i l]; [done|]. destruct (H7 i) as (p & Hp & Hc); [by left|].
    rewrite H3 in H0. rewrite (total_zero _ _ _ _ H0 Hp) in Hc. done. }
  destruct (tr_loop r) as [| | |[]| | | | | | |] eqn:Hl; try discriminate Hs; cbn in H1, H2, H4, H6, H8.
  all: step_cases Hs; split; cbn in *; try done; auto; try lia.
  all: try (destruct (tr_turns r); cbn in *; done || lia); try (destruct (tr_client r); cbn in *; done || lia).
  - intros _. by apply Nat.eqb_neq.
  - intros _ _ i p Hp Hc. apply Nat.eqb_eq in Heqb. rewrite H3 in Heqb. by rewrite (total_zero _ _ _ _ Heqb Hp) in Hc.
  - intros i (j & p & -> & H)%asking_calls_counted. eauto.
  - congruence.
  - intros i (j & p & -> & H)%asking_calls_counted. eauto.
Qed.

(** A caller moves from [p] to [q]: what is counted of it moves along. *)
Lemma turn_ok_move i p q r r' :
  turn_ok r -> tr_callers r !! i = Some p -> tr_callers r' = <[i := q]> (tr_callers r) ->
  one (tr_client r') + one (has_client p) = one (tr_client r) + one (has_client q) ->
  one (tr_turns r') + one (has_turns p) = one (tr_turns r) + one (has_turns q) ->
  tr_asking r' + one (counted p) = tr_asking r + one (counted q) ->
  tr_working r' = tr_working r -> tr_stopping r' = tr_stopping r -> (tr_woken r' = false -> tr_woken r = false) ->
  tr_loop r' = tr_loop r \/ (exists b, tr_loop r = LpWaits b /\ tr_loop r' = LpWaits true) ->
  (loop_looked (tr_loop r) = true -> tr_woken r' = false -> counted q = true -> q = CpWake) ->
  (tr_loop r' = LpWaits false -> tr_asking r' <> 0) ->
  (forall j, j ∈ tr_owed r' -> j ∈ tr_owed r /\ (j = i -> counted q = true)) -> (tr_owed r = [] -> tr_owed r' = []) ->
  turn_ok r'.
Proof.
  intros [H1 H2 H3 H4 H5 _ H7 H8] Hp Hc Hcl Htu Has Hw Hst Hwo Hlo Hq Hz Ho1 Ho2.
  pose proof (total_insert has_client i p q _ Hp) as T1. pose proof (total_insert has_turns i p q _ Hp) as T2.
  pose proof (total_insert counted i p q _ Hp) as T3.
  assert (Hl : loop_has_client (tr_loop r') = loop_has_client (tr_loop r) /\ loop_has_turns (tr_loop r') = loop_has_turns (tr_loop r)
    /\ loop_looked (tr_loop r') = loop_looked (tr_loop r) /\ loop_paid (tr_loop r') = loop_paid (tr_loop r)
    /\ (tr_loop r' = LpPolling -> tr_loop r = LpPolling)).
  { destruct Hlo as [->|(b & -> & ->)]; done. }
  destruct Hl as (L1 & L2 & L3 & L4 & L5). split; rewrite ?Hc, ?L1, ?L2, ?L3, ?L4; try lia; try done.
  - intros Hk Hn j x. rewrite list_lookup_insert_Some. intros [(-> & -> & _)|[_ Hx]] Hx'; [by apply Hq|]. eapply H4; eauto.
  - rewrite Hst, Hw. auto.
  - intros j Hj. destruct (Ho1 j Hj) as [Hj' Hi]. destruct (decide (j = i)) as [->|Hne].
    + exists q. split; [|by apply Hi]. apply list_lookup_insert_eq. by eapply lookup_lt_Some.
    + destruct (H7 j Hj') as (x & Hx & Hx'). exists x. by rewrite list_lookup_insert_ne.
  - auto.
Qed.

(** While the loop looks for calls no other holds the client, nor waits for it unless the poll is woken. *)
Lemma looked_alone i p r :
  turn_ok r -> loop_looked (tr_loop r) = true -> tr_callers r !! i = Some p ->
  tr_client r = true /\ has_client p = false /\ (tr_woken r = false -> counted p = true -> p = CpWake).
Proof.
  intros [H1 _ _ H4 _ _ _ _] Hl Hp. assert (Hc : loop_has_client (tr_loop r) = true) by (by destruct (tr_loop r)).
  rewrite Hc in H1. cbn in H1. destruct (tr_client r); cbn in H1; [|lia]. split_and!; [done| |by eauto].
  apply (total_zero has_client (tr_callers r) i p); [lia|done].
Qed.

(** A caller that holds a lock is what holds it. *)
Lemma caller_holds i p r :
  turn_ok r -> tr_callers r !! i = Some p ->
  (has_client p = true -> tr_client r = true) /\ (has_turns p = true -> tr_turns r = true) /\ one (counted p) <= tr_asking r.
Proof.
  intros [H1 H2 H3 _ _ _ _ _] Hp.
  pose proof (total_insert has_client i p CpIdle _ Hp) as T1. pose proof (total_insert has_turns i p CpIdle _ Hp) as T2.
  pose proof (total_insert counted i p CpIdle _ Hp) as T3. cbn in T1, T2, T3.
  split_and!; [| |lia]; intros Hh; rewrite Hh in *; cbn in *.
  - destruct (tr_client r); [done|]. cbn in H1. lia.
  - destruct (tr_turns r); [done|]. cbn in H2. lia.
Qed.

Lemma turn_ok_caller i r r' : turn_ok r -> caller_step i r = Some r' -> turn_ok r'.
Proof.
  intros Hok Hs. unfold caller_step in Hs. destruct (tr_callers r !! i) as [p|] eqn:Hp; [|done].
  pose proof (fun Hl => looked_alone i p r Hok Hl Hp) as Halone. pose proof (to_asleep r Hok) as Hz.
  assert (Ho : i ∈ tr_owed r -> counted p = true) by (intros Hi; destruct (to_owed r Hok i Hi) as (x & Hx & ?); congruence).
  destruct (caller_holds i p r Hok Hp) as (Hc & Ht & Ha).
  destruct p as [| | | | |[]| | |]; try discriminate Hs; step_cases Hs; cbn [has_client has_turns counted one] in *.
  all: first [specialize (Hc eq_refl)|clear Hc]; first [specialize (Ht eq_refl)|clear Ht].
  all: match goal with |- turn_ok ?x => refine (turn_ok_move i _ _ r x Hok Hp eq_refl _ _ _ eq_refl eq_refl _ _ _ _ _ _) end; cbn;
    rewrite ?Heqb, ?Hc, ?Ht; try reflexivity; auto; try lia; try done.
  all: try (intros Hl; destruct (Halone Hl) as (? & ? & Hw); intros; try congruence; try (specialize (Hw ltac:(assumption) eq_refl); discriminate)).
  all: try (intros j Hj; split; [done|]; intros ->; specialize (Ho Hj); discriminate).
  - by destruct (tr_client r).
  - by destruct (tr_turns r).
  - destruct (tr_loop r) as [| | |[]| | | | | | |]; auto. cbn. destruct (_ =? 1); [right; by exists false|by left].
  - destruct (tr_loop r) as [| | |b| | | | | | |]; try done. destruct (Nat.eqb_spec (tr_asking r) 1); [by rewrite orb_true_r|]. lia.
  - intros j [Hj Hin]%list_elem_of_filter. by split.
  - by intros ->.
Qed.

Lemma turn_ok_step l r r' : turn_ok r -> turn_step l r = Some r' -> turn_ok r'.
Proof.
  intros Hok Hs. destruct l as [| | | | |i|i| |]; cbn [turn_step] in Hs.
  - by eapply turn_ok_loop.
  - destruct Hok as [H1 H2 H3 H4 H5 H6 H7 H8]. step_cases Hs; split; cbn in *; try done; auto.
    destruct (tr_client r); cbn in H1; lia.
  - destruct Hok. step_cases Hs; split; cbn in *; try done; auto.
  - destruct Hok. step_cases Hs; split; cbn in *; try done; auto.
  - destruct Hok. step_cases Hs; split; cbn in *; try done; auto.
  - destruct (tr_callers r !! i) as [[]|] eqn:Hp; try done. injection Hs as <-.
    match goal with |- turn_ok ?x => refine (turn_ok_move i _ _ r x Hok Hp eq_refl _ _ _ eq_refl eq_refl _ _ _ _ _ _) end; cbn; auto; try done.
    + by apply Hok.
    + intros j Hj. split; [done|]. intros ->. destruct (to_owed r Hok i Hj) as (x & Hx & ?). rewrite Hp in Hx. by injection Hx as <-.
  - by eapply turn_ok_caller.
  - destruct Hok. step_cases Hs; split; cbn in *; try done; auto. lia.
  - destruct Hok. step_cases Hs; split; cbn in *; try done; auto.
Qed.

Lemma turn_ok_reaches n r : turn_reaches n r -> turn_ok r.
Proof. apply steps_keep; [apply turn_ok_step|apply turn_ok_start]. Qed.

(** ** Every call returns *)

(** The steps that need nothing from outside: no message, no time passing, no handler returning, no new call. *)
Definition internal (l : TurnLabel) : bool := match l with LoStep | CaStep _ | StWake => true | _ => false end.

(** How far a call is from its end. *)
Definition caller_left (p : CallerPoint) : nat :=
  match p with
  | CpIdle => 0 | CpUnlock => 1 | CpCount => 2 | CpTurns => 3 | CpHolds _ => 4 | CpLock => 5 | CpWake => 6 | CpAsk => 7 | CpTry => 8
  end.
(** How far the loop is from where it rests, while nothing else moves. *)
Definition loop_left (asking working : bool) (p : LoopPoint) : nat :=
  match p, asking, working with
  | LpPolling, _, _ | LpWaits false, _, _ | LpHandling, _, _ | LpStopped, _, _ => 0
  | LpCheck, true, _ => 1
  | (LpTurns | LpWaits true), true, _ => 2
  | LpYield, true, _ => 3
  | (LpInWait | LpLooked), true, _ => 4
  | LpLock, true, _ => 5
  | LpWorking, true, _ => 6
  | LpLooked, _, true => 1
  | LpInWait, _, true => 2
  | LpLock, _, true => 3
  | LpWorking, _, true => 4
  | (LpYield | LpCheck), _, true => 5
  | (LpTurns | LpWaits true), _, true => 6
  | LpWorking, _, false => 1
  | (LpYield | LpCheck), _, false => 2
  | (LpTurns | LpWaits true | LpLooked), _, false => 3
  | LpInWait, _, false => 4
  | LpLock, _, false => 5
  end.
Definition turn_left (r : TurnRun) : nat :=
  20 * weight caller_left (tr_callers r) + 20 * tr_stopping r + 10 * one (tr_woken r)
  + loop_left (negb (tr_asking r =? 0)) (tr_working r) (tr_loop r).

Lemma loop_left_le a w p : loop_left a w p <= 6.
Proof. destruct p as [| | |[]| | | | | | |], a, w; cbn; lia. Qed.

(** A step of the loop, a caller's, a wake: each brings every call nearer to its end. *)
Lemma internal_decreases l r r' : turn_ok r -> internal l = true -> turn_step l r = Some r' -> turn_left r' < turn_left r.
Proof.
  intros Hok Hl Hs. destruct l as [| | | | | |i| |]; try discriminate Hl; cbn [turn_step] in Hs; clear Hl.
  - unfold loop_step, let_go in Hs. destruct (tr_loop r) as [| | |[]| | | | | | |] eqn:Hp; try discriminate Hs; step_cases Hs;
      unfold turn_left; cbn; rewrite Hp, ?Heqb; cbn; try destruct (tr_asking r =? 0); cbn; try destruct (tr_working r); cbn; try lia;
      try destruct (tr_woken r); cbn; try done; lia.
  - unfold caller_step in Hs. destruct (tr_callers r !! i) as [p|] eqn:Hp; [|done].
    pose proof (fun q => weight_insert caller_left i p q _ Hp) as T. pose proof (fun a w p => loop_left_le a w p) as L.
    assert (Ht : weight caller_left (tr_callers r') < weight caller_left (tr_callers r) /\ tr_stopping r' = tr_stopping r).
    { destruct p as [| | | | |[]| | |]; try discriminate Hs; step_cases Hs; cbn;
        match goal with |- weight caller_left (<[_ := ?q]> _) < _ /\ _ => specialize (T q); cbn in T end; lia. }
    unfold turn_left. specialize (L (negb (tr_asking r' =? 0)) (tr_working r') (tr_loop r')).
    destruct (tr_woken r'); cbn [one]; lia.
  - step_cases Hs. unfold turn_left. cbn. apply Nat.ltb_lt in Heqb. destruct (tr_woken r); cbn; lia.
Qed.

Definition at_rest (r : TurnRun) : Prop := forall l, internal l = true -> turn_step l r = None.

(** A caller that cannot move holds nothing, and blocks on a lock another holds. *)
Lemma stuck_caller i p r :
  tr_callers r !! i = Some p -> caller_step i r = None ->
  p = CpIdle \/ p = CpLock /\ tr_client r = true \/ p = CpTurns /\ tr_turns r = true.
Proof.
  intros Hp Hs. unfold caller_step in Hs. rewrite Hp in Hs. destruct p as [| | | | |[]| | |]; try discriminate Hs; auto.
  - right; left. by destruct (tr_client r).
  - right; right. by destruct (tr_turns r).
Qed.

Lemma rest_locks r : turn_ok r -> at_rest r -> tr_turns r = false /\ (tr_client r = true -> tr_loop r = LpPolling /\ tr_woken r = false).
Proof.
  intros Hok Hrest. pose proof (Hrest LoStep eq_refl) as Hloop. cbn in Hloop. unfold loop_step in Hloop.
  assert (Hz : forall f, f CpIdle = false -> f CpLock = false -> f CpTurns = false -> total f (tr_callers r) = 0).
  { intros f H1 H2 H3. destruct (Nat.eq_0_gt_0_cases (total f (tr_callers r))) as [|Hp]; [done|].
    apply total_pos in Hp as (i & p & Hp & Hf).
    destruct (stuck_caller i p r Hp (Hrest (CaStep i) eq_refl)) as [->|[[-> _]|[-> _]]]; congruence. }
  pose proof (to_client r Hok) as Hc. pose proof (to_turns r Hok) as Ht.
  rewrite (Hz has_client) in Hc by done. rewrite (Hz has_turns) in Ht by done. split.
  - destruct (tr_turns r); [|done]. destruct (tr_loop r); cbn in *; done.
  - intros He. rewrite He in Hc. destruct (tr_loop r); cbn in *; try done. split; [done|]. by destruct (tr_woken r).
Qed.

(** Where none of them can move, no call is under way, and the loop polls, or is in the handler, or stopped. *)
Lemma rest_is_idle r :
  turn_ok r -> at_rest r ->
  Forall (eq CpIdle) (tr_callers r) /\ match tr_loop r with LpPolling => tr_working r = true | LpHandling | LpStopped => True | _ => False end.
Proof.
  intros Hok Hrest. destruct (rest_locks r Hok Hrest) as [Ht Hc].
  assert (Hidle : forall i p, tr_callers r !! i = Some p -> p = CpIdle).
  { intros i p Hp. destruct (stuck_caller i p r Hp (Hrest (CaStep i) eq_refl)) as [->|[[-> He]|[-> He]]]; [done| |congruence].
    destruct (Hc He) as [Hl Hw]. destruct (looked_alone i _ r Hok ltac:(by rewrite Hl) Hp) as (_ & _ & H). by specialize (H Hw eq_refl). }
  split. { apply Forall_lookup. intros i p Hp. by rewrite (Hidle i p Hp). }
  pose proof (Hrest LoStep eq_refl) as Hloop. cbn in Hloop. unfold loop_step in Hloop. rewrite Ht in Hloop.
  destruct (tr_loop r) as [| | |[]| | | | | | |] eqn:Hl; try done.
  - pose proof (to_asleep r Hok Hl) as Hz. rewrite (to_asking r Hok) in Hz.
    destruct (total_pos counted (tr_callers r)) as (i & p & Hp & Hx); [lia|]. rewrite (Hidle i p Hp) in Hx. done.
  - destruct (tr_client r); [by destruct (Hc eq_refl)|done].
  - destruct (tr_woken r) eqn:Hw; [done|]. destruct (tr_working r) eqn:Hk; [done|].
    pose proof (to_stopping r Hok Hl Hw Hk) as Hz. pose proof (Hrest StWake eq_refl) as H. cbn in H.
    by destruct (tr_stopping r); [lia|].
Qed.

Lemma internal_bounded ls r r' :
  turn_ok r -> forallb internal ls = true -> run_steps turn_step ls r = Some r' -> length ls + turn_left r' <= turn_left r /\ turn_ok r'.
Proof.
  revert r. induction ls as [|l ls IH]; intros r Hok; cbn [forallb run_steps length]; [intros _ [= <-]; by split|].
  intros [Hl Hls]%andb_true_iff. destruct (turn_step l r) as [r1|] eqn:H1; [|done]. intros Hr.
  destruct (IH r1) as [Hlen Hok']; [by eapply turn_ok_step|done|done|].
  pose proof (internal_decreases l r r1 Hok Hl H1). split; [lia|done].
Qed.

(** C24: Nobody but one has the client at a time, the loop or a call; while the loop has it, every call that had asked for
    a turn when it last let go had its own; and it sleeps for the turns only while a call is there to end its sleep. *)
Theorem client_lent_in_turn n r :
  turn_reaches n r ->
  total has_client (tr_callers r) + one (loop_has_client (tr_loop r)) <= 1
  /\ (loop_has_client (tr_loop r) = true -> tr_owed r = [])
  /\ (tr_loop r = LpWaits false -> exists i p, tr_callers r !! i = Some p /\ counted p = true).
Proof.
  intros Hok%turn_ok_reaches. split_and!.
  - rewrite <- (to_client r Hok). destruct (tr_client r); cbn; lia.
  - intros H. apply (to_paid r Hok). by destruct (tr_loop r).
  - intros H. apply total_pos. pose proof (to_asleep r Hok H). rewrite <- (to_asking r Hok). lia.
Qed.

(** C14: A call for the client waits for no poll and no message, and for no scheduler's favour: from any state, the steps
    of the loop, the calls and [stop()] alone, in any order, come to an end, and where they do every call has returned,
    and the loop is in its poll with the server at work, in the handler, or stopped. *)
Theorem every_call_returns n r ls r' :
  turn_reaches n r -> forallb internal ls = true -> run_steps turn_step ls r = Some r' ->
  length ls <= turn_left r
  /\ ((forall l, internal l = true -> turn_step l r' = None) ->
      Forall (eq CpIdle) (tr_callers r')
      /\ match tr_loop r' with LpPolling => tr_working r' = true | LpHandling | LpStopped => True | _ => False end).
Proof.
  intros Hok%turn_ok_reaches Hls Hr. destruct (internal_bounded ls r r' Hok Hls Hr) as [Hlen Hok'].
  split; [lia|]. intros Hrest. by apply rest_is_idle.
Qed.

(** ** A run *)

(** The loop polls; two calls come, the first asks, then the second. *)
Definition polling_run : list TurnLabel := repeat LoStep 5 ++ [CaCall 0; CaStep 0; CaStep 0; CaCall 1].
Definition turns_taken : list TurnLabel :=
  [CaStep 0; LoStep; CaStep 1; LoStep; CaStep 1; CaStep 0; CaStep 0; LoStep; LoStep; LoStep; CaStep 0; CaStep 0; CaStep 1;
   CaStep 0; CaStep 1; CaStep 1; CaStep 1; CaStep 1; CaStep 1; LoStep; LoStep; LoStep; LoStep; LoStep; LoStep; LoStep; LoStep; LoStep].
Definition polling_state : TurnRun := default (turn_start 2) (run_steps turn_step polling_run (turn_start 2)).
Definition taken_state : TurnRun := default polling_state (run_steps turn_step turns_taken polling_state).

Lemma polling_reached : turn_reaches 2 polling_state.
Proof. exists polling_run. vm_compute. reflexivity. Qed.
Lemma sleeping_reached : turn_reaches 2 (default polling_state (run_steps turn_step (take 10 turns_taken) polling_state)).
Proof. exists (polling_run ++ take 10 turns_taken). vm_compute. reflexivity. Qed.

Lemma client_lent_in_turn_witness :
  turn_reaches 2 (default polling_state (run_steps turn_step (take 10 turns_taken) polling_state))
  /\ exists i p, tr_callers (default polling_state (run_steps turn_step (take 10 turns_taken) polling_state)) !! i = Some p /\ counted p = true.
Proof.
  split; [exact sleeping_reached|]. apply (client_lent_in_turn 2 _ sleeping_reached). vm_compute. reflexivity.
Defined.

Lemma every_call_returns_witness :
  length turns_taken <= turn_left polling_state /\ Forall (eq CpIdle) (tr_callers taken_state) /\ tr_working taken_state = true.
Proof.
  destruct (every_call_returns 2 polling_state turns_taken taken_state polling_reached) as [Hlen Hrest];
    [vm_compute; reflexivity|vm_compute; reflexivity|].
  split; [exact Hlen|]. apply Hrest. intros [] Hl; try discriminate Hl; try (vm_compute; reflexivity).
  destruct i as [|[|]]; vm_compute; reflexivity.
Defined.
