(* ===== verification/Lifecycle.v ===== *)
(** * Lifecycle: posts to the io thread and the shutdown that ends it (threaded_client.rs)

    Every call of a threaded client posts to its io thread, counting itself in
    [posting] while it does; the first shutdown sets [stopped], waits for the last
    of them under [lifecycle], and posts the command that ends the loop.  The
    calls, the shutdowns and the io thread are threads of the model, each load,
    store, swap, locked section, wake and wait a step of one.  A call or a shutdown
    is known by its number and made once, so that a thread's are several numbers.
    What a command does to the core is the core's; here it is that it ran, and what
    it may do to this state: post from a callback, shut down, tear down, panic. *)
From S2P Require Import Prelude Records Interleaving.

(** ** The threads *)

(** What is posted: by a call, by the first shutdown, by a callback on the io thread. *)
Inductive Cmd := CmdCall (i : nat) | CmdShutdown | CmdCallback (k : nat).

(** [post] and [post_plain] return at once, [call] waits for its result, [confirm] has a list of its own. *)
Inductive CallKind := KPost | KCall | KConfirm.

(** Where a call is. *)
Inductive PostPoint :=
| PoIdle
| PoLook                        (* about to load [stopped] *)
| PoCount                       (* about to count itself in [posting] *)
| PoCheck                       (* about to load [stopped] again *)
| PoPush                        (* about to queue, under the inbox's lock *)
| PoAsleep                      (* queued: about to load [asleep] *)
| PoSwap                        (* about to swap it *)
| PoWake                        (* about to wake the io thread *)
| PoLeave (ok : bool)           (* [Posting]'s drop: about to count itself out *)
| PoLeft (ok : bool)            (* it was the last: about to load [stopped] *)
| PoNotify (ok : bool)          (* about to lock [lifecycle] and notify *)
| PoResult                      (* waits for what the command gives *)
| PoReturned (ok : bool).

(** Where a shutdown is. *)
Inductive ShutPoint :=
| ShIdle
| ShSwap                        (* about to swap [stopped] *)
| ShLock                        (* the first: about to lock [lifecycle] *)
| ShCheck                       (* locked: about to load [posting] *)
| ShToWait                      (* it was not 0: about to wait, the lock let go *)
| ShWaits (notified : bool)     (* in [posted.wait()] *)
| ShPush                        (* about to queue the command *)
| ShAsleep | ShSwapAsleep       (* [push]'s look at [asleep], and its swap *)
| ShWake                        (* wakes the io thread whatever [push] said *)
| ShEnds                        (* in [ended]: about to lock *)
| ShWaitsEnd                    (* its result comes when the io thread has ended *)
| ShReturned.

(** Where the io thread is.  [pass] tells a take of a pass from one after an entry. *)
Inductive ThreadPoint :=
| ThTop                         (* about to look at the core's [torn_down] *)
| ThIdle                        (* it was set: in [engine.idle()] *)
| ThSteps                       (* at the top of the loop of [Driver::step] *)
| ThRuns                        (* an entry runs *)
| ThShuts (j : nat)             (* in the [j]-th shutdown, which a callback makes *)
| ThLooks (pass : bool)         (* in [take_inbox], about to load [pending] *)
| ThTakes (pass : bool)         (* about to lock the inbox *)
| ThPassed                      (* the pass is over *)
| ThFalls                       (* about to set [asleep] *)
| ThReads                       (* about to load [pending] *)
| ThStaysUp                     (* it was set: about to clear [asleep] *)
| ThWaits                       (* in the reactor's wait *)
| ThWakesUp                     (* the wait is over: about to clear [asleep] *)
| ThEnding                      (* out of the loop, about to set [ended] *)
| ThEnded.

Record Life := mkLife {
  lf_stopped : bool;
  lf_posting : nat;
  lf_lock : bool;               (* [lifecycle] is locked *)
  lf_inbox : list Cmd;
  lf_confirmations : list Cmd;
  lf_pending : bool;
  lf_asleep : bool;
  lf_signalled : bool;          (* the waker fired, and no poll took it yet *)
  lf_woken : bool;              (* the driver's own flag *)
  lf_ready : list Cmd;          (* the commands of the driver's queue *)
  lf_begun : bool;              (* the core began to shut down *)
  lf_core_torn : bool;          (* the core's [torn_down] *)
  lf_torn : bool;               (* the shared [torn_down] *)
  lf_io : ThreadPoint;
  lf_ended : bool;
  lf_calls : list PostPoint;
  lf_shuts : list ShutPoint;
  lf_skipped : bool;            (* a panic skipped the take after its entry, and none was made since *)
  lf_posted : list Cmd;         (* all that was queued, in order *)
  lf_ran : list Cmd;
  lf_confirmed : list Cmd;      (* all the confirmations given *)
  lf_heard : list Cmd;
}.
#[export] Instance eta_Life : Eta Life := fun r =>
  mkLife (lf_stopped r) (lf_posting r) (lf_lock r) (lf_inbox r) (lf_confirmations r) (lf_pending r) (lf_asleep r)
    (lf_signalled r) (lf_woken r) (lf_ready r) (lf_begun r) (lf_core_torn r) (lf_torn r) (lf_io r) (lf_ended r)
    (lf_calls r) (lf_shuts r) (lf_skipped r) (lf_posted r) (lf_ran r) (lf_confirmed r) (lf_heard r).

Inductive LifeLabel :=
| LfCall (i : nat)              (* a call starts *)
| LfPost (i : nat)              (* its next step *)
| LfShutdown (j : nat)          (* a shutdown starts, or the last handle goes *)
| LfShut (j : nat)              (* its next step *)
| LfSpurious (j : nat)          (* the condition variable lets it go unasked *)
| LfIo                          (* the io thread's next step *)
| LfEvent                       (* it runs an entry that is no command *)
| LfPlain                       (* a plain send right behind one runs in the same entry: [run_plains] *)
| LfPassEarly                   (* a turn's entries ran: it makes a pass with commands queued *)
| LfPolled                      (* the poll of a pass takes the waker's signal *)
| LfFound                       (* a pass found other work *)
| LfSpent                       (* [take] locks to hand bodies back *)
| LfSocket (took : bool)        (* the wait ends for a socket's, the time's or an error's sake *)
| LfQuiet                       (* nothing is left: [engine.idle()] *)
| LfBusy                        (* something is *)
| LfCallback (k : nat)          (* a callback posts *)
| LfCallbackConfirms (k : nat)  (* a callback confirms *)
| LfTakesConfirmations          (* the core takes the confirmations alone *)
| LfCallbackShuts (j : nat)     (* a callback shuts down *)
| LfTears                       (* the shutdown's end: the core sets [torn_down] *)
| LfPanics.                     (* the entry unwinds *)

(** ** Their steps *)

Definition notify (p : ShutPoint) : ShutPoint := match p with ShWaits _ => ShWaits true | p => p end.

Definition queue (c : Cmd) (r : Life) : Life :=
  r <| lf_inbox ::= fun l => l ++ [c] |> <| lf_pending := true |> <| lf_posted ::= fun l => l ++ [c] |>.
Definition queue_confirmed (c : Cmd) (r : Life) : Life :=
  r <| lf_confirmations ::= fun l => l ++ [c] |> <| lf_pending := true |> <| lf_confirmed ::= fun l => l ++ [c] |>.

Definition is_shutdown (c : Cmd) : bool := match c with CmdShutdown => true | _ => false end.
Definition is_callback (c : Cmd) : bool := match c with CmdCallback _ => true | _ => false end.
#[export] Instance Cmd_eq_dec : EqDecision Cmd.
Proof. solve_decision. Defined.

Section Life.
Context (kind : nat -> CallKind).

(** Its count ended, [post] returns, and [call] goes on to wait. *)
Definition posted_point (i : nat) (ok : bool) : PostPoint :=
  match ok, kind i with true, KCall => PoResult | _, _ => PoReturned ok end.

Definition post_step (i : nat) (r : Life) : option Life :=
  let goes p r := r <| lf_calls ::= <[i := p]> |> in
  match lf_calls r !! i with
  | None | Some PoIdle | Some (PoReturned _) => None
  | Some PoLook => Some (goes (if lf_stopped r then PoReturned false else PoCount) r)
  | Some PoCount => Some (goes PoCheck (r <| lf_posting ::= S |>))
  | Some PoCheck => Some (goes (if lf_stopped r then PoLeave false else PoPush) r)
  | Some PoPush =>
      Some (goes PoAsleep (match kind i with KConfirm => queue_confirmed (CmdCall i) r | _ => queue (CmdCall i) r end))
  | Some PoAsleep => Some (goes (if lf_asleep r then PoSwap else PoLeave true) r)
  | Some PoSwap => Some (goes (if lf_asleep r then PoWake else PoLeave true) (r <| lf_asleep := false |>))
  | Some PoWake => Some (goes (PoLeave true) (r <| lf_signalled := true |>))
  | Some (PoLeave ok) =>
      Some (goes (if (lf_posting r =? 1)%nat then PoLeft ok else posted_point i ok) (r <| lf_posting ::= pred |>))
  | Some (PoLeft ok) => Some (goes (if lf_stopped r then PoNotify ok else posted_point i ok) r)
  | Some (PoNotify ok) => guard_step (negb (lf_lock r)) (goes (posted_point i ok) (r <| lf_shuts ::= map notify |>))
  | Some PoResult => guard_step (bool_decide (CmdCall i ∈ lf_ran r)) (goes (PoReturned true) r)
  end.

Definition shut_step (j : nat) (r : Life) : option Life :=
  let goes p r := r <| lf_shuts ::= <[j := p]> |> in
  match lf_shuts r !! j with
  | None | Some ShIdle | Some ShReturned | Some (ShWaits false) => None
  | Some ShSwap => Some (goes (if lf_stopped r then ShEnds else ShLock) (r <| lf_stopped := true |>))
  | Some ShLock | Some (ShWaits true) => guard_step (negb (lf_lock r)) (goes ShCheck (r <| lf_lock := true |>))
  | Some ShCheck =>
      Some (if (lf_posting r =? 0)%nat then goes ShPush (r <| lf_lock := false |>) else goes ShToWait r)
  | Some ShToWait => Some (goes (ShWaits false) (r <| lf_lock := false |>))
  | Some ShPush => Some (goes ShAsleep (queue CmdShutdown r))
  | Some ShAsleep => Some (goes (if lf_asleep r then ShSwapAsleep else ShWake) r)
  | Some ShSwapAsleep => Some (goes ShWake (r <| lf_asleep := false |>))
  | Some ShWake => Some (goes ShEnds (r <| lf_signalled := true |>))
  | Some ShEnds => Some (goes (if lf_ended r then ShReturned else ShWaitsEnd) r)
  | Some ShWaitsEnd => guard_step (lf_ended r) (goes ShReturned r)
  end.

(** [run]: a command taken from the queue. *)
Definition run_command (c : Cmd) (r : Life) : Life :=
  r <| lf_ran ::= fun l => l ++ [c] |> <| lf_begun ::= orb (is_shutdown c) |> <| lf_io := ThRuns |>.

(** [take], locked. *)
Definition take_all (r : Life) : Life :=
  r <| lf_ready ::= fun l => l ++ lf_inbox r |> <| lf_inbox := [] |>
    <| lf_heard ::= fun l => l ++ lf_confirmations r |> <| lf_confirmations := [] |>
    <| lf_pending := false |> <| lf_skipped := false |>.

Definition after_take (pass : bool) : ThreadPoint := if pass then ThPassed else ThTop.

(** The shutdown a callback made returns its result, which is not waited for there. *)
Definition shut_left (p : ShutPoint) : bool := match p with ShWaitsEnd | ShReturned => true | _ => false end.

Definition thread_step (r : Life) : option Life :=
  let goes p := r <| lf_io := p |> in
  match lf_io r with
  | ThTop => Some (if lf_core_torn r then (goes ThIdle) <| lf_torn := true |> else goes ThSteps)
  | ThIdle => match lf_ready r with [] => None | _ => Some (goes ThSteps) end
  | ThSteps =>
      Some (match lf_ready r with [] => goes (ThLooks true) | c :: l => run_command c (r <| lf_ready := l |>) end)
  | ThRuns => Some (goes (ThLooks false))
  | ThShuts j => match lf_shuts r !! j with Some p => guard_step (shut_left p) (goes ThRuns) | None => None end
  | ThLooks pass =>
      Some (if lf_pending r then goes (ThTakes pass) else (goes (after_take pass)) <| lf_skipped := false |>)
  | ThTakes pass => Some ((take_all r) <| lf_io := after_take pass |>)
  | ThPassed =>
      Some (match lf_ready r with
            | [] => if lf_woken r then (goes ThTop) <| lf_woken := false |> else goes ThFalls
            | _ => goes ThSteps
            end)
  | ThFalls => Some ((goes ThReads) <| lf_asleep := true |>)
  | ThReads => Some (goes (if lf_pending r then ThStaysUp else ThWaits))
  | ThStaysUp | ThWakesUp => Some ((goes ThSteps) <| lf_asleep := false |>)
  | ThWaits => guard_step (lf_signalled r) ((goes ThWakesUp) <| lf_signalled := false |> <| lf_woken := true |>)
  | ThEnding => Some ((goes ThEnded) <| lf_ended := true |>)
  | ThEnded => None
  end.

Definition life_step (l : LifeLabel) (r : Life) : option Life :=
  let goes p := r <| lf_io := p |> in
  match l, lf_io r with
  | LfCall i, _ => match lf_calls r !! i with Some PoIdle => Some (r <| lf_calls ::= <[i := PoLook]> |>) | _ => None end
  | LfPost i, _ => post_step i r
  | LfShutdown j, _ => match lf_shuts r !! j with Some ShIdle => Some (r <| lf_shuts ::= <[j := ShSwap]> |>) | _ => None end
  | LfShut j, _ => shut_step j r
  | LfSpurious j, _ =>
      match lf_shuts r !! j with Some (ShWaits false) => Some (r <| lf_shuts ::= <[j := ShWaits true]> |>) | _ => None end
  | LfIo, _ => thread_step r
  | LfEvent, ThSteps => Some (goes ThRuns)
  | LfPlain, ThRuns =>
      match lf_ready r with c :: l => guard_step (negb (is_shutdown c)) (run_command c (r <| lf_ready := l |>)) | [] => None end
  | LfPassEarly, ThSteps => Some (goes (ThLooks true))
  | LfPolled, ThLooks true => guard_step (lf_signalled r) (r <| lf_signalled := false |> <| lf_woken := true |>)
  | LfFound, ThPassed => Some (goes ThSteps)
  | LfSpent, ThLooks pass => Some (goes (ThTakes pass))
  | LfSocket took, ThWaits =>
      Some (if took then (goes ThWakesUp) <| lf_woken ::= orb (lf_signalled r) |> <| lf_signalled := false |> else goes ThWakesUp)
  | LfQuiet, ThIdle => match lf_ready r with [] => Some (goes ThEnding) | _ => None end
  | LfBusy, ThIdle => Some (goes ThSteps)
  | LfCallback k, ThRuns => Some (if lf_torn r then r else queue (CmdCallback k) r)
  | LfCallbackConfirms k, ThRuns => Some (if lf_torn r then r else queue_confirmed (CmdCallback k) r)
  | LfTakesConfirmations, ThRuns =>
      guard_step (lf_pending r) (r <| lf_heard ::= fun l => l ++ lf_confirmations r |> <| lf_confirmations := [] |>)
  | LfCallbackShuts j, ThRuns =>
      match lf_shuts r !! j with
      | Some ShIdle => Some ((goes (ThShuts j)) <| lf_shuts ::= <[j := ShSwap]> |>)
      | _ => None
      end
  | LfTears, ThRuns => guard_step (lf_begun r) (r <| lf_core_torn := true |>)
  | LfPanics, ThRuns => Some ((goes ThTop) <| lf_skipped := true |>)
  | _, _ => None
  end.

(** A client built, with [n] calls and [m] shutdowns to come. *)
Definition life_start (n m : nat) : Life :=
  mkLife false 0 false [] [] false false false false [] false false false ThTop false
    (replicate n PoIdle) (replicate m ShIdle) false [] [] [] [].
Definition life_reaches (n m : nat) : Life -> Prop := steps_to life_step (life_start n m).

(** ** Who is counted, and what is queued *)

Definition po_counted (p : PostPoint) : bool :=
  match p with PoCheck | PoPush | PoAsleep | PoSwap | PoWake | PoLeave _ => true | _ => false end.
Definition po_pushes (p : PostPoint) : bool := match p with PoPush => true | _ => false end.
Definition po_last (p : PostPoint) : bool := match p with PoLeft _ | PoNotify _ => true | _ => false end.
(** What it posted is queued, or was. *)
Definition po_sent (p : PostPoint) : bool :=
  match p with
  | PoAsleep | PoSwap | PoWake | PoLeave true | PoLeft true | PoNotify true | PoResult | PoReturned true => true
  | _ => false
  end.
Definition po_waking (p : PostPoint) : bool := match p with PoWake => true | _ => false end.
Definition po_looking (p : PostPoint) : bool := match p with PoAsleep | PoSwap | PoWake => true | _ => false end.

Definition sh_holds (p : ShutPoint) : bool := match p with ShCheck | ShToWait => true | _ => false end.
(** It set [stopped], and its command is still to be queued. *)
Definition sh_under (p : ShutPoint) : bool :=
  match p with ShLock | ShCheck | ShToWait | ShWaits _ | ShPush => true | _ => false end.
Definition sh_pushes (p : ShutPoint) : bool := match p with ShPush => true | _ => false end.
Definition sh_sleeps (p : ShutPoint) : bool := match p with ShToWait | ShWaits false => true | _ => false end.
Definition sh_waking (p : ShutPoint) : bool := match p with ShWake => true | _ => false end.
Definition sh_looking (p : ShutPoint) : bool := match p with ShAsleep | ShSwapAsleep | ShWake => true | _ => false end.
Definition sh_started (p : ShutPoint) : bool := match p with ShIdle => false | _ => true end.

Record counts_ok (r : Life) : Prop := {
  co_posting : lf_posting r = total po_counted (lf_calls r);
  co_lock : one (lf_lock r) = total sh_holds (lf_shuts r);
  co_first : total sh_under (lf_shuts r) + total is_shutdown (lf_posted r) = one (lf_stopped r);
  co_late : 0 < total sh_pushes (lf_shuts r) + total is_shutdown (lf_posted r) -> total po_pushes (lf_calls r) = 0;
  co_asleep : 0 < total sh_sleeps (lf_shuts r) -> 0 < lf_posting r + total po_last (lf_calls r);
  co_shuts j : lf_io r = ThShuts j -> exists p, lf_shuts r !! j = Some p /\ sh_started p = true;
}.

Lemma total_le {A} (f g : A -> bool) l : (forall p, f p = true -> g p = true) -> total f l <= total g l.
Proof.
  intros H. induction l as [|x l IH]; [done|]. cbn. specialize (H x). destruct (f x); [rewrite H by done|]; cbn; lia.
Qed.
Lemma total_map {A} (f g : A -> bool) (h : A -> A) l : (forall p, f (h p) = g p) -> total f (map h l) = total g l.
Proof. intros H. induction l as [|x l IH]; [done|]. cbn. by rewrite H, IH. Qed.
Lemma total_app {A} (f : A -> bool) l l' : total f (l ++ l') = total f l + total f l'.
Proof. induction l as [|x l IH]; [done|]. cbn. rewrite IH. lia. Qed.

Lemma counts_ok_start n m : counts_ok (life_start n m).
Proof. split; cbn; rewrite ?total_replicate; done || lia. Qed.

(** A call that ended is none of these. *)
Lemma posted_point_off i ok :
  po_counted (posted_point i ok) = false /\ po_pushes (posted_point i ok) = false /\ po_last (posted_point i ok) = false
  /\ po_waking (posted_point i ok) = false /\ po_looking (posted_point i ok) = false /\ po_sent (posted_point i ok) = ok.
Proof. unfold posted_point. by destruct ok, (kind i). Qed.

(** A shutdown notified is where it was; none sleeps on. *)
Lemma notify_counts l :
  total sh_holds (map notify l) = total sh_holds l /\ total sh_under (map notify l) = total sh_under l
  /\ total sh_pushes (map notify l) = total sh_pushes l /\ total sh_sleeps (map notify l) <= total sh_holds l
  /\ total sh_waking (map notify l) = total sh_waking l /\ total sh_looking (map notify l) = total sh_looking l.
Proof.
  assert (Hs : total sh_sleeps (map notify l) = total (fun p => sh_sleeps (notify p)) l) by (by apply total_map).
  split_and!; try (apply total_map; by intros []). rewrite Hs. apply total_le. by intros [].
Qed.
Lemma notify_started l j p : l !! j = Some p -> sh_started p = true -> exists p', map notify l !! j = Some p' /\ sh_started p' = true.
Proof. intros Hp Hs. exists (notify p). rewrite list_lookup_fmap, Hp. split; [done|]. by destruct p. Qed.

Lemma started_insert (l : list ShutPoint) j q i :
  sh_started q = true -> (exists p, l !! i = Some p /\ sh_started p = true) ->
  exists p, <[j := q]> l !! i = Some p /\ sh_started p = true.
Proof.
  intros Hq (p & Hp & Hs). destruct (decide (i = j)) as [->|Hne]; [|exists p; by rewrite list_lookup_insert_ne].
  exists q. split; [|done]. apply list_lookup_insert_eq. by eapply lookup_lt_Some.
Qed.

Lemma under_le l : total sh_sleeps l <= total sh_under l /\ total sh_pushes l <= total sh_under l /\ total sh_holds l <= total sh_under l.
Proof. split_and!; apply total_le; by intros [| | | | |[]| | | | | | |]. Qed.

(** What a call's step changes of what is counted. *)
Lemma counts_ok_post i r r' : counts_ok r -> post_step i r = Some r' -> counts_ok r'.
Proof.
  intros [H1 H2 H3 H4 H5 H6] Hs. unfold post_step in Hs. destruct (lf_calls r !! i) as [p|] eqn:Hp; [|done].
  pose proof (fun q => total_insert po_counted i p q _ Hp) as T1. pose proof (fun q => total_insert po_pushes i p q _ Hp) as T2.
  pose proof (fun q => total_insert po_last i p q _ Hp) as T3.
  pose proof (under_le (lf_shuts r)) as (U1 & U2 & U3). pose proof (notify_counts (lf_shuts r)) as (N1 & N2 & N3 & N4 & _).
  destruct p as [| | | | | | | |ok|ok|ok| |ok]; try discriminate Hs; step_cases Hs;
    match goal with |- context [insert i ?q] => specialize (T1 q); specialize (T2 q); specialize (T3 q) end.
  all: try (destruct (posted_point_off i ok) as (P1 & P2 & P3 & _); rewrite P1, P2, P3 in *).
  all: split; cbn in *; rewrite ?total_app; cbn; auto; try lia.
  all: try (destruct (lf_stopped r); cbn in *; congruence || lia).
  all: try (destruct (lf_lock r); cbn in *; congruence || lia).
  all: try (apply Nat.eqb_neq in Heqb; lia).
  intros j Hj. destruct (H6 j Hj) as (p & Hq & Hst). by eapply notify_started.
Qed.

Lemma counts_ok_shut j r r' : counts_ok r -> shut_step j r = Some r' -> counts_ok r'.
Proof.
  intros [H1 H2 H3 H4 H5 H6] Hs. unfold shut_step in Hs. destruct (lf_shuts r !! j) as [p|] eqn:Hp; [|done].
  pose proof (fun q => total_insert sh_holds j p q _ Hp) as T1. pose proof (fun q => total_insert sh_under j p q _ Hp) as T2.
  pose proof (fun q => total_insert sh_pushes j p q _ Hp) as T3. pose proof (fun q => total_insert sh_sleeps j p q _ Hp) as T4.
  pose proof (under_le (lf_shuts r)) as (U1 & U2 & U3).
  assert (Hc : total po_pushes (lf_calls r) <= total po_counted (lf_calls r)) by (apply total_le; by intros []).
  destruct p as [| | | | |[]| | | | | | |]; try discriminate Hs; step_cases Hs;
    match goal with |- context [insert j ?q] => specialize (T1 q); specialize (T2 q); specialize (T3 q); specialize (T4 q) end.
  all: split; cbn in *; rewrite ?total_app; cbn; auto; try lia.
  all: try (destruct (lf_stopped r); cbn in *; congruence || lia).
  all: try (destruct (lf_lock r); cbn in *; congruence || lia).
  all: try (intros; apply started_insert; by auto).
  all: try (apply Nat.eqb_eq in Heqb; lia).
  apply Nat.eqb_neq in Heqb. lia.
Qed.

Lemma counts_ok_step l r r' : counts_ok r -> life_step l r = Some r' -> counts_ok r'.
Proof.
  intros Hok Hs. destruct l as [i|i|j|j|j| | | | | | | |took| | |k|k| |j| |]; cbn [life_step] in Hs.
  2: by eapply counts_ok_post. 3: by eapply counts_ok_shut.
  all: destruct Hok as [H1 H2 H3 H4 H5 H6]; unfold thread_step in Hs; step_cases Hs; unfold after_take in *.
  all: try match goal with Hp : lf_calls _ !! ?i = Some ?p |- _ =>
    pose proof (total_insert po_counted i p PoLook _ Hp); pose proof (total_insert po_pushes i p PoLook _ Hp);
    pose proof (total_insert po_last i p PoLook _ Hp) end.
  all: try match goal with Hp : lf_shuts _ !! ?j = Some ?p |- context [insert ?j ?q] =>
    pose proof (total_insert sh_holds j p q _ Hp); pose proof (total_insert sh_under j p q _ Hp);
    pose proof (total_insert sh_pushes j p q _ Hp); pose proof (total_insert sh_sleeps j p q _ Hp) end.
  all: split; cbn in *; rewrite ?total_app; cbn; auto; try lia; try done.
  all: try (intros; apply started_insert; by auto).
  all: try (intros j0 Hj; cbn in Hj; try destruct pass; by (eauto || congruence)).
  intros j0 [= <-]. exists ShSwap. split; [|done]. apply list_lookup_insert_eq. by eapply lookup_lt_Some.
Qed.

Lemma counts_ok_reaches n m r : life_reaches n m r -> counts_ok r.
Proof. apply steps_keep; [apply counts_ok_step|apply counts_ok_start]. Qed.

(** ** What is queued is run, in order *)

(** Once the shutdown is posted only callbacks post. *)
Fixpoint ordered (l : list Cmd) : bool :=
  match l with
  | [] => true
  | CmdShutdown :: l => forallb is_callback l
  | _ :: l => ordered l
  end.

Lemma ordered_snoc l c : ordered l = true -> total is_shutdown l = 0 \/ is_callback c = true -> ordered (l ++ [c]) = true.
Proof.
  intros Ho Hc. induction l as [|x l IH]; [by destruct c|]. destruct x; cbn in *.
  - by apply IH.
  - rewrite forallb_app, Ho. destruct Hc as [Hc|Hc]; [lia|]. cbn. by rewrite Hc.
  - by apply IH.
Qed.
Lemma ordered_after l l' : ordered (l ++ l') = true -> 0 < total is_shutdown l -> forallb is_callback l' = true.
Proof.
  induction l as [|x l IH]; cbn; [lia|]. destruct x; cbn; [done| |done].
  rewrite forallb_app. by intros [_ H]%andb_true_iff _.
Qed.
Lemma only_callbacks l : forallb is_callback l = true -> existsb is_callback l = false -> l = [].
Proof. destruct l as [|x l]; [done|]. cbn. by destruct (is_callback x). Qed.

(** From an entry's start to the end of the take that follows it. *)
Definition in_entry (p : ThreadPoint) : bool :=
  match p with ThRuns | ThShuts _ | ThLooks false | ThTakes false => true | _ => false end.
Definition out_of_loop (p : ThreadPoint) : bool := match p with ThEnding | ThEnded => true | _ => false end.
Definition saw_torn (p : ThreadPoint) : bool := match p with ThIdle | ThEnding | ThEnded => true | _ => false end.

Record queue_ok (r : Life) : Prop := {
  qo_posted : lf_ran r ++ lf_ready r ++ lf_inbox r = lf_posted r;
  qo_heard : lf_heard r ++ lf_confirmations r = lf_confirmed r;
  qo_inbox : lf_pending r = false -> lf_inbox r = [];
  qo_confirmations : lf_pending r = false -> lf_confirmations r = [];
  qo_order : ordered (lf_posted r) = true;
  qo_begun : lf_begun r = true -> 0 < total is_shutdown (lf_ran r);
  qo_ran : 0 < total is_shutdown (lf_ran r) -> lf_begun r = true;
  qo_core_torn : lf_core_torn r = true -> lf_begun r = true;
  qo_torn : lf_torn r = true -> lf_core_torn r = true;
  qo_saw : saw_torn (lf_io r) = true -> lf_torn r = true;
  qo_out : out_of_loop (lf_io r) = true -> lf_ready r = [];
  qo_ended : lf_ended r = true <-> lf_io r = ThEnded;
  qo_taken : lf_skipped r = false -> in_entry (lf_io r) = false -> existsb is_callback (lf_inbox r) = false;
  qo_taken_confirmations : lf_skipped r = false -> in_entry (lf_io r) = false -> existsb is_callback (lf_confirmations r) = false;
  qo_late : 0 < total is_shutdown (lf_ran r ++ lf_ready r) -> forallb is_callback (lf_confirmations r) = true;
}.

Lemma queue_ok_start n m : queue_ok (life_start n m).
Proof. split; cbn; try done; lia. Qed.

(** A command joins the queue. *)
Lemma queue_ok_queue c r r' :
  queue_ok r -> total is_shutdown (lf_posted r) = 0 \/ is_callback c = true -> (is_callback c = true -> in_entry (lf_io r) = true) ->
  r' = queue c r -> queue_ok r'.
Proof.
  intros [H1 H2 H3 H3' H4 H5 H6 H7 H8 H9 H10 H11 H12 H12' H13] Ho Hc ->. split; cbn; auto; try done.
  - rewrite <- H1. by rewrite !app_assoc.
  - by apply ordered_snoc.
  - intros Hs He. rewrite existsb_app, H12 by done. cbn. destruct (is_callback c); [|done]. rewrite Hc in He; done.
Qed.
Lemma queue_ok_confirm c r r' :
  queue_ok r -> total is_shutdown (lf_posted r) = 0 \/ is_callback c = true -> (is_callback c = true -> in_entry (lf_io r) = true) ->
  r' = queue_confirmed c r -> queue_ok r'.
Proof.
  intros [H1 H2 H3 H3' H4 H5 H6 H7 H8 H9 H10 H11 H12 H12' H13] Ho Hc ->. split; cbn; auto; try done.
  - rewrite <- H2. by rewrite !app_assoc.
  - intros Hs He. rewrite existsb_app, H12' by done. cbn. destruct (is_callback c); [|done]. rewrite Hc in He; done.
  - intros Hs. rewrite forallb_app, H13 by done. cbn. destruct Ho as [Ho| ->]; [|done].
    rewrite <- H1, app_assoc, total_app in Ho. lia.
Qed.

(** What nothing of the queues depends on. *)
Lemma queue_ok_same r r' :
  queue_ok r ->
  r' = r <| lf_stopped := lf_stopped r' |> <| lf_posting := lf_posting r' |> <| lf_lock := lf_lock r' |> <| lf_asleep := lf_asleep r' |>
         <| lf_signalled := lf_signalled r' |> <| lf_calls := lf_calls r' |> <| lf_shuts := lf_shuts r' |> ->
  queue_ok r'.
Proof. intros [] ->. split; done. Qed.

Lemma queue_ok_post i r r' : counts_ok r -> queue_ok r -> post_step i r = Some r' -> queue_ok r'.
Proof.
  intros Hco Hok Hs. unfold post_step in Hs. destruct (lf_calls r !! i) as [p|] eqn:Hp; [|done].
  assert (Hl : p = PoPush -> total is_shutdown (lf_posted r) = 0).
  { intros ->. pose proof (total_insert po_pushes i PoPush PoIdle _ Hp) as T. cbn in T. pose proof (co_late r Hco). lia. }
  destruct p as [| | | | | | | |ok|ok|ok| |ok]; try discriminate Hs; step_cases Hs.
  all: try (eapply queue_ok_same; [exact Hok|reflexivity]).
  - apply (queue_ok_same (queue (CmdCall i) r)); [|reflexivity]. eapply queue_ok_queue; eauto; done.
  - apply (queue_ok_same (queue (CmdCall i) r)); [|reflexivity]. eapply queue_ok_queue; eauto; done.
  - apply (queue_ok_same (queue_confirmed (CmdCall i) r)); [|reflexivity]. eapply queue_ok_confirm; eauto; done.
Qed.

Lemma queue_ok_shut j r r' : counts_ok r -> queue_ok r -> shut_step j r = Some r' -> queue_ok r'.
Proof.
  intros Hco Hok Hs. unfold shut_step in Hs. destruct (lf_shuts r !! j) as [p|] eqn:Hp; [|done].
  assert (Hl : p = ShPush -> total is_shutdown (lf_posted r) = 0).
  { intros ->. pose proof (total_insert sh_under j ShPush ShIdle _ Hp) as T. cbn in T. pose proof (co_first r Hco).
    destruct (lf_stopped r); cbn in *; lia. }
  destruct p as [| | | | |[]| | | | | | |]; try discriminate Hs; step_cases Hs.
  all: try (eapply queue_ok_same; [exact Hok|reflexivity]).
  apply (queue_ok_same (queue CmdShutdown r)); [|reflexivity]. eapply queue_ok_queue; eauto; done.
Qed.

(** The first command of the driver's queue runs. *)
Lemma queue_ok_run c l r : queue_ok r -> lf_ready r = c :: l -> out_of_loop (lf_io r) = false -> queue_ok (run_command c (r <| lf_ready := l |>)).
Proof.
  intros [H1 H2 H3 H3' H4 H5 H6 H7 H8 H9 H10 H11 H12 H12' H13] Hl Ho. rewrite Hl in *.
  split; cbn [run_command] in *; cbn; rewrite ?total_app; auto; try done.
  - rewrite <- H1. by rewrite <- app_assoc.
  - cbn. destruct (is_shutdown c); cbn; [lia|]. intros Hb. specialize (H5 Hb). lia.
  - cbn. destruct (is_shutdown c); cbn; [done|]. intros Hb. apply H6. lia.
  - intros Ht. rewrite H7 by done. by rewrite orb_true_r.
  - split; [|done]. intros He%H11. by rewrite He in Ho.
  - intros Hx. apply H13. rewrite total_app in *. cbn in *. lia.
Qed.

(** The io thread's own steps. *)
Lemma queue_ok_thread r r' : queue_ok r -> thread_step r = Some r' -> queue_ok r'.
Proof.
  intros Hok Hs. unfold thread_step, after_take in Hs. destruct (lf_io r) eqn:Hio; step_cases Hs.
  all: try (apply queue_ok_run; [done|done|by rewrite Hio]).
  all: destruct Hok as [H1 H2 H3 H3' H4 H5 H6 H7 H8 H9 H10 H11 H12 H12' H13]; split; cbn in *; rewrite ?Hio in *; cbn in *;
    auto; try done; try (by intuition congruence).
  all: try (by rewrite app_nil_r); try (intros _ _; by rewrite ?H3, ?H3').
Qed.

Lemma queue_ok_step l r r' : counts_ok r -> queue_ok r -> life_step l r = Some r' -> queue_ok r'.
Proof.
  intros Hco Hok Hs. destruct l as [i|i|j|j|j| | | | | | | |took| | |k|k| |j| |]; cbn [life_step] in Hs.
  2: by eapply queue_ok_post. 3: by eapply queue_ok_shut. 4: by eapply queue_ok_thread.
  all: destruct (lf_io r) eqn:Hio; try discriminate Hs; step_cases Hs.
  all: try (eapply queue_ok_same; [exact Hok|reflexivity]); try done.
  all: try (apply queue_ok_run; [done|done|by rewrite Hio]).
  all: try (eapply queue_ok_queue; cycle 3; [reflexivity|exact Hok|by right|by rewrite Hio]).
  all: try (eapply queue_ok_confirm; cycle 3; [reflexivity|exact Hok|by right|by rewrite Hio]).
  all: destruct Hok as [H1 H2 H3 H3' H4 H5 H6 H7 H8 H9 H10 H11 H12 H12' H13]; split; cbn in *; rewrite ?Hio in *; cbn in *;
    auto; try done; try (by intuition congruence).
  by rewrite app_nil_r.
Qed.

(** ** What became of a call *)

Definition is_call (i : nat) (c : Cmd) : bool := bool_decide (c = CmdCall i).

Record calls_ok (r : Life) : Prop := {
  ca_posted i p : lf_calls r !! i = Some p ->
    total (is_call i) (lf_posted r) = one (po_sent p && match kind i with KConfirm => false | _ => true end);
  ca_confirmed i p : lf_calls r !! i = Some p ->
    total (is_call i) (lf_confirmed r) = one (po_sent p && match kind i with KConfirm => true | _ => false end);
  ca_result i : lf_calls r !! i = Some PoResult -> kind i = KCall;
  ca_returned i : lf_calls r !! i = Some (PoReturned true) -> kind i = KCall -> CmdCall i ∈ lf_ran r;
}.

Lemma calls_ok_start n m : calls_ok (life_start n m).
Proof.
  assert (Hi : forall i p, replicate n PoIdle !! i = Some p -> p = PoIdle) by (by intros i p [-> _]%lookup_replicate_1).
  split; cbn; intros i.
  1, 2: by intros p ->%Hi. all: by intros [=]%Hi.
Qed.

(** Nothing posted, nothing forgotten. *)
Lemma calls_ok_same r r' :
  calls_ok r -> lf_calls r' = lf_calls r -> (forall i, total (is_call i) (lf_posted r') = total (is_call i) (lf_posted r)) ->
  (forall i, total (is_call i) (lf_confirmed r') = total (is_call i) (lf_confirmed r)) -> (forall c, c ∈ lf_ran r -> c ∈ lf_ran r') -> calls_ok r'.
Proof. intros [H1 H2 H3 H4] Hc Hp Hf Hr. split; intros i; rewrite ?Hc, ?Hp, ?Hf; eauto. Qed.

(** A call moves from [p] to [q]. *)
Lemma calls_ok_move i p q r r' :
  calls_ok r -> lf_calls r !! i = Some p -> lf_calls r' = <[i := q]> (lf_calls r) -> lf_ran r' = lf_ran r ->
  (forall j, total (is_call j) (lf_posted r') = total (is_call j) (lf_posted r)
     + if decide (j = i) then one (negb (po_sent p) && po_sent q && match kind i with KConfirm => false | _ => true end) else 0) ->
  (forall j, total (is_call j) (lf_confirmed r') = total (is_call j) (lf_confirmed r)
     + if decide (j = i) then one (negb (po_sent p) && po_sent q && match kind i with KConfirm => true | _ => false end) else 0) ->
  (po_sent p = true -> po_sent q = true) -> (q = PoResult -> kind i = KCall) ->
  (q = PoReturned true -> kind i = KCall -> CmdCall i ∈ lf_ran r) -> calls_ok r'.
Proof.
  intros [H1 H2 H3 H4] Hp Hc Hr Hpo Hco Hs Hq Hq'. split; intros j; rewrite ?Hc, ?Hr.
  - intros x. rewrite Hpo, list_lookup_insert_Some. intros [(<- & <- & _)|[Hne Hx]].
    + rewrite (H1 _ _ Hp). destruct (decide (i = i)); [|done].
      destruct (po_sent p), (po_sent q), (kind i); cbn in *; try done; by discriminate Hs.
    + rewrite (H1 _ _ Hx). destruct (decide (j = i)); [congruence|lia].
  - intros x. rewrite Hco, list_lookup_insert_Some. intros [(<- & <- & _)|[Hne Hx]].
    + rewrite (H2 _ _ Hp). destruct (decide (i = i)); [|done].
      destruct (po_sent p), (po_sent q), (kind i); cbn in *; try done; by discriminate Hs.
    + rewrite (H2 _ _ Hx). destruct (decide (j = i)); [congruence|lia].
  - rewrite list_lookup_insert_Some. intros [(<- & Hx & _)|[Hne Hx]]; auto.
  - rewrite list_lookup_insert_Some. intros [(<- & Hx & _)|[Hne Hx]]; auto.
Qed.

Lemma total_is_call i j l : total (is_call j) (l ++ [CmdCall i]) = total (is_call j) l + if decide (j = i) then 1 else 0.
Proof. rewrite total_app. cbn. unfold is_call. case_bool_decide; destruct (decide (j = i)); cbn; congruence || lia. Qed.

Lemma calls_ok_post i r r' : calls_ok r -> post_step i r = Some r' -> calls_ok r'.
Proof.
  intros Hok Hs. unfold post_step in Hs. destruct (lf_calls r !! i) as [p|] eqn:Hp; [|done].
  destruct p as [| | | | | | | |ok|ok|ok| |ok]; try discriminate Hs; step_cases Hs.
  all: match goal with |- calls_ok ?x => refine (calls_ok_move i _ _ r x Hok Hp eq_refl eq_refl _ _ _ _ _) end; cbn.
  all: try (intros j; rewrite ?total_is_call, ?Heqc; destruct (decide (j = i)); cbn; lia).
  all: unfold posted_point; try destruct ok; try destruct (kind i) eqn:Hk; try done; try apply bool_decide_eq_true_1 in Heqb; auto.
  all: try (intros j; destruct (decide (j = i)); cbn; lia).
Qed.

Lemma calls_ok_step l r r' : calls_ok r -> life_step l r = Some r' -> calls_ok r'.
Proof.
  intros Hok Hs. destruct l as [i|i|j|j|j| | | | | | | |took| | |k|k| |j| |]; cbn [life_step] in Hs.
  2: by eapply calls_ok_post.
  1: { destruct (lf_calls r !! i) as [[]|] eqn:Hp; try discriminate Hs. injection Hs as <-.
    match goal with |- calls_ok ?x => refine (calls_ok_move i _ _ r x Hok Hp eq_refl eq_refl _ _ _ _ _) end; cbn; try done.
    all: intros j; destruct (decide (j = i)); lia. }
  all: unfold shut_step, thread_step in Hs; step_cases Hs; try done.
  all: (eapply calls_ok_same; [exact Hok|reflexivity|intros ?|intros ?|intros ?]); cbn; rewrite ?total_app; cbn; try lia; try done.
  all: intros Hc; apply elem_of_app; by left.
Qed.

(** ** No command is left to a sleeping thread *)

Definition may_sleep (p : ThreadPoint) : bool := match p with ThReads | ThStaysUp | ThWaits | ThWakesUp => true | _ => false end.
Definition falling (p : ThreadPoint) : bool := match p with ThFalls | ThReads | ThWaits => true | _ => false end.

Record wakes_ok (r : Life) : Prop := {
  wa_asleep : lf_asleep r = true -> may_sleep (lf_io r) = true;
  wa_called : lf_io r = ThReads \/ lf_io r = ThWaits ->
    lf_asleep r = true \/ lf_signalled r = true \/ 0 < total po_waking (lf_calls r) + total sh_waking (lf_shuts r);
  wa_come : lf_io r = ThWaits -> lf_pending r = true ->
    lf_signalled r = true \/ 0 < total po_looking (lf_calls r) + total sh_looking (lf_shuts r);
  wa_ready : falling (lf_io r) = true -> lf_ready r = [];
}.

Lemma wakes_ok_start n m : wakes_ok (life_start n m).
Proof. by split; cbn; try intros [? |?]. Qed.

Lemma po_waking_le l : total po_waking l <= total po_looking l.
Proof. apply total_le. by intros []. Qed.
Lemma sh_waking_le l : total sh_waking l <= total sh_looking l.
Proof. apply total_le. by intros []. Qed.

Lemma wakes_ok_post i r r' : wakes_ok r -> post_step i r = Some r' -> wakes_ok r'.
Proof.
  intros [H1 H2 H3 H4] Hs. unfold post_step in Hs. destruct (lf_calls r !! i) as [p|] eqn:Hp; [|done].
  pose proof (fun q => total_insert po_waking i p q _ Hp) as T1. pose proof (fun q => total_insert po_looking i p q _ Hp) as T2.
  pose proof (sh_waking_le (lf_shuts r)) as W. pose proof (notify_counts (lf_shuts r)) as (_ & _ & _ & _ & N1 & N2).
  destruct p as [| | | | | | | |ok|ok|ok| |ok]; try discriminate Hs; step_cases Hs;
    match goal with |- context [insert i ?q] => specialize (T1 q); specialize (T2 q); pose proof (po_waking_le (<[i := q]> (lf_calls r))) end.
  all: try (destruct (posted_point_off i ok) as (_ & _ & _ & P1 & P2 & _); rewrite P1, P2 in *).
  all: split; cbn in *; rewrite ?N1, ?N2; auto; try done; intros; try (by right; left).
  all: try (destruct H2 as [?|[?|?]]; [by auto|..]; try (by congruence); intuition lia).
  all: by apply H1; congruence.
Qed.

Lemma wakes_ok_shut j r r' : wakes_ok r -> shut_step j r = Some r' -> wakes_ok r'.
Proof.
  intros [H1 H2 H3 H4] Hs. unfold shut_step in Hs. destruct (lf_shuts r !! j) as [p|] eqn:Hp; [|done].
  pose proof (fun q => total_insert sh_waking j p q _ Hp) as T1. pose proof (fun q => total_insert sh_looking j p q _ Hp) as T2.
  destruct p as [| | | | |[]| | | | | | |]; try discriminate Hs; step_cases Hs;
    match goal with |- context [insert j ?q] => specialize (T1 q); specialize (T2 q) end.
  all: split; cbn in *; auto; try done; intros; try (by right; left); try (right; right; lia); try (right; lia).
  all: try (destruct H2 as [?|[?|?]]; [by auto|..]; try (by congruence); intuition lia).
  all: try (destruct H3 as [?|?]; [by auto|by auto|..]; intuition lia).
  all: by apply H1; congruence.
Qed.

Lemma wakes_ok_step l r r' : wakes_ok r -> life_step l r = Some r' -> wakes_ok r'.
Proof.
  intros Hok Hs. destruct l as [i|i|j|j|j| | | | | | | |took| | |k|k| |j| |]; cbn [life_step] in Hs.
  2: by eapply wakes_ok_post. 3: by eapply wakes_ok_shut.
  all: destruct Hok as [H1 H2 H3 H4]; unfold thread_step, after_take in Hs; destruct (lf_io r) eqn:Hio; try discriminate Hs; step_cases Hs.
  all: try match goal with Hp : lf_calls _ !! ?i = Some ?p |- _ =>
    pose proof (total_insert po_waking i p PoLook _ Hp); pose proof (total_insert po_looking i p PoLook _ Hp) end.
  all: try match goal with Hp : lf_shuts _ !! ?j = Some ?p |- context [insert ?j ?q] =>
    pose proof (total_insert sh_waking j p q _ Hp); pose proof (total_insert sh_looking j p q _ Hp) end.
  all: split; cbn in *; rewrite ?Hio in *; cbn in *; auto; try done; try (by intuition congruence).
  all: intros; intuition lia.
Qed.

Record life_ok (r : Life) : Prop := {
  li_counts : counts_ok r;
  li_queue : queue_ok r;
  li_calls : calls_ok r;
  li_wakes : wakes_ok r;
}.

Lemma life_ok_step l r r' : life_ok r -> life_step l r = Some r' -> life_ok r'.
Proof.
  intros [H1 H2 H3 H4] Hs. split; [by eapply counts_ok_step|by eapply queue_ok_step|by eapply calls_ok_step|by eapply wakes_ok_step].
Qed.
Lemma life_ok_reaches n m r : life_reaches n m r -> life_ok r.
Proof.
  apply steps_keep; [apply life_ok_step|].
  split; [apply counts_ok_start|apply queue_ok_start|apply calls_ok_start|apply wakes_ok_start].
Qed.

(** After the shutdown's command nothing but what callbacks posted is left. *)
Lemma begun_rest r : queue_ok r -> lf_begun r = true -> forallb is_callback (lf_ready r ++ lf_inbox r) = true.
Proof.
  intros Hq Hb. pose proof (qo_order r Hq) as Ho. rewrite <- (qo_posted r Hq) in Ho. eapply ordered_after; [exact Ho|by apply qo_begun].
Qed.

Lemma total_elem (i : nat) l : 0 < total (is_call i) l <-> CmdCall i ∈ l.
Proof.
  induction l as [|x l IH]; cbn; [split; [lia|by intros ?%not_elem_of_nil]|]. rewrite elem_of_cons. unfold is_call at 1.
  case_bool_decide; subst; cbn; [split; [by left|lia]|]. rewrite IH. split; [by right|]. intros [?|?]; done.
Qed.
Lemma callbacks_no_call i l : forallb is_callback l = true -> CmdCall i ∉ l.
Proof. intros H Hi. rewrite forallb_forall in H. apply list_elem_of_In, H in Hi. done. Qed.

(** A call whose command is queued has it run once the shutdown began. *)
Lemma begun_ran i r : queue_ok r -> lf_begun r = true -> CmdCall i ∈ lf_posted r -> CmdCall i ∈ lf_ran r.
Proof.
  intros Hq Hb. rewrite <- (qo_posted r Hq), elem_of_app. intros [?|Hi]; [done|].
  exfalso. by eapply callbacks_no_call, Hi; apply begun_rest.
Qed.

(** ** Every call returns *)

(** The steps that need nothing from outside: no socket, no time passing, nothing new called. *)
Definition of_itself (l : LifeLabel) : bool := match l with LfPost _ | LfShut _ | LfIo => true | _ => false end.

(** How far a call and a shutdown are from their ends. *)
Definition post_left (p : PostPoint) : nat :=
  match p with
  | PoIdle | PoReturned _ => 0 | PoResult => 1 | PoNotify _ => 2 | PoLeft _ => 3 | PoLeave _ => 4 | PoWake => 5 | PoSwap => 6
  | PoAsleep => 7 | PoPush => 8 | PoCheck => 9 | PoCount => 10 | PoLook => 11
  end.
Definition shut_way (p : ShutPoint) : nat :=
  match p with
  | ShIdle | ShReturned => 0 | ShWaitsEnd => 1 | ShEnds => 2 | ShWake => 3 | ShSwapAsleep => 4 | ShAsleep => 5 | ShPush => 6
  | ShWaits false => 7 | ShToWait => 8 | ShCheck => 9 | ShWaits true => 10 | ShLock => 11 | ShSwap => 12
  end.
(** How far the io thread is from where it rests, by whether commands are queued and [pending] is set. *)
Definition thread_way (queued pending : bool) (p : ThreadPoint) : nat :=
  match queued, pending, p with
  | _, _, ThWaits | _, _, ThEnded => 0
  | _, _, ThEnding => 1
  | true, _, ThSteps => 1
  | true, _, (ThPassed | ThIdle | ThStaysUp | ThWakesUp) => 2
  | true, _, (ThTop | ThTakes true | ThReads) => 3
  | true, _, (ThLooks true | ThTakes false | ThFalls) => 4
  | true, _, ThLooks false => 5
  | true, _, ThRuns => 6
  | true, _, ThShuts _ => 7
  | _, _, ThIdle => 0
  | _, true, ThTakes true => 1
  | _, true, ThLooks true => 2
  | _, true, ThSteps => 3
  | _, true, (ThStaysUp | ThWakesUp | ThTop) => 4
  | _, true, (ThReads | ThTakes false) => 5
  | _, true, (ThFalls | ThLooks false) => 6
  | _, true, (ThPassed | ThRuns) => 7
  | _, true, ThShuts _ => 8
  | _, _, ThReads => 1
  | _, _, ThFalls => 2
  | _, _, ThPassed => 3
  | _, _, (ThLooks true | ThTakes true) => 4
  | _, _, ThSteps => 5
  | _, _, (ThStaysUp | ThWakesUp | ThTop) => 6
  | _, _, (ThLooks false | ThTakes false) => 7
  | _, _, ThRuns => 8
  | _, _, ThShuts _ => 9
  end.
Definition is_queued (l : list Cmd) : bool := match l with [] => false | _ => true end.

Definition life_left (r : Life) : nat :=
  1000 * S (length (lf_shuts r)) * weight post_left (lf_calls r) + 200 * weight shut_way (lf_shuts r)
  + 60 * one (lf_signalled r) + 30 * one (lf_woken r) + 30 * one (lf_pending r)
  + 30 * (length (lf_inbox r) + length (lf_ready r)) + thread_way (is_queued (lf_ready r)) (lf_pending r) (lf_io r).

Lemma thread_way_le a b p : thread_way a b p <= 9.
Proof. destruct a, b, p as [| | | | |[]|[]| | | | | | | |]; cbn; lia. Qed.
Lemma notify_way l : weight shut_way (map notify l) <= weight shut_way l + 3 * length l.
Proof. induction l as [|[| | | | |[]| | | | | | |] l IH]; cbn in *; lia. Qed.

Lemma post_decreases i r r' : post_step i r = Some r' -> life_left r' < life_left r.
Proof.
  intros Hs. unfold post_step in Hs. destruct (lf_calls r !! i) as [p|] eqn:Hp; [|done].
  pose proof (fun q => weight_insert post_left i p q _ Hp) as T. pose proof (notify_way (lf_shuts r)) as N.
  assert (Hd : weight post_left (lf_calls r') < weight post_left (lf_calls r) /\ length (lf_shuts r') = length (lf_shuts r)
    /\ weight shut_way (lf_shuts r') <= weight shut_way (lf_shuts r) + 3 * length (lf_shuts r)
    /\ lf_woken r' = lf_woken r /\ length (lf_inbox r') <= S (length (lf_inbox r)) /\ lf_ready r' = lf_ready r).
  { assert (Hpp : forall ok, post_left (posted_point i ok) <= 1) by (intros []; unfold posted_point; destruct (kind i); cbn; lia).
    destruct p as [| | | | | | | |ok|ok|ok| |ok]; try discriminate Hs; step_cases Hs; cbn; rewrite ?length_app, ?length_map; cbn;
      match goal with |- context [insert i ?q] => specialize (T q); cbn in T end; try specialize (Hpp ok); split_and!; auto; lia. }
  destruct Hd as (D1 & D2 & D3 & D4 & D5 & D6). unfold life_left. rewrite D2, D4, D6.
  pose proof (thread_way_le (is_queued (lf_ready r)) (lf_pending r') (lf_io r')).
  assert (one (lf_signalled r') <= 1 /\ one (lf_pending r') <= 1) as [O1 O2] by (destruct (lf_signalled r'), (lf_pending r'); cbn; lia).
  assert (Hm : S (length (lf_shuts r)) * weight post_left (lf_calls r') + S (length (lf_shuts r)) <= S (length (lf_shuts r)) * weight post_left (lf_calls r)).
  { rewrite <- Nat.mul_succ_r. apply Nat.mul_le_mono_l. lia. }
  rewrite <- !Nat.mul_assoc. lia.
Qed.

Lemma shut_decreases j r r' : shut_step j r = Some r' -> life_left r' < life_left r.
Proof.
  intros Hs. unfold shut_step in Hs. destruct (lf_shuts r !! j) as [p|] eqn:Hp; [|done].
  pose proof (fun q => weight_insert shut_way j p q _ Hp) as T.
  assert (Hd : weight shut_way (lf_shuts r') < weight shut_way (lf_shuts r) /\ length (lf_shuts r') = length (lf_shuts r)
    /\ lf_calls r' = lf_calls r /\ lf_woken r' = lf_woken r /\ length (lf_inbox r') <= S (length (lf_inbox r)) /\ lf_ready r' = lf_ready r).
  { destruct p as [| | | | |[]| | | | | | |]; try discriminate Hs; step_cases Hs; cbn; rewrite ?length_app, ?length_insert; cbn;
      match goal with |- context [insert j ?q] => specialize (T q); cbn in T end; split_and!; auto; lia. }
  destruct Hd as (D1 & D2 & D3 & D4 & D5 & D6). unfold life_left. rewrite D2, D3, D4, D6.
  pose proof (thread_way_le (is_queued (lf_ready r)) (lf_pending r') (lf_io r')).
  assert (one (lf_signalled r') <= 1 /\ one (lf_pending r') <= 1) as [O1 O2] by (destruct (lf_signalled r'), (lf_pending r'); cbn; lia).
  lia.
Qed.

Lemma thread_decreases r r' : queue_ok r -> thread_step r = Some r' -> life_left r' < life_left r.
Proof.
  intros Hq Hs. pose proof (qo_inbox r Hq) as Hi. unfold thread_step in Hs.
  destruct (lf_io r) as [| | | | |[]|[]| | | | | | | |] eqn:Hio; step_cases Hs;
    unfold life_left; cbn -[Nat.mul]; rewrite ?Hio, ?length_app, ?Heql, ?Heqb; cbn -[Nat.mul];
    generalize (1000 * S (length (lf_shuts r)) * weight post_left (lf_calls r)); generalize (weight shut_way (lf_shuts r)); intros w v.
  all: try (destruct (is_queued (lf_ready r)), (lf_pending r); cbn -[Nat.mul]; lia).
  - pose proof (thread_way_le (is_queued l) (lf_pending r) ThRuns). lia.
  - destruct (lf_pending r); [pose proof (thread_way_le (is_queued (lf_ready r ++ lf_inbox r)) false ThPassed); cbn -[Nat.mul]; lia|].
    rewrite Hi, app_nil_r by done. destruct (is_queued (lf_ready r)); cbn -[Nat.mul]; lia.
  - destruct (lf_pending r); [pose proof (thread_way_le (is_queued (lf_ready r ++ lf_inbox r)) false ThTop); cbn -[Nat.mul]; lia|].
    rewrite Hi, app_nil_r by done. destruct (is_queued (lf_ready r)); cbn -[Nat.mul]; lia.
  - discriminate Hs.
Qed.

Lemma of_itself_bounded ls r r' :
  life_ok r -> forallb of_itself ls = true -> run_steps life_step ls r = Some r' -> length ls + life_left r' <= life_left r /\ life_ok r'.
Proof.
  revert r. induction ls as [|l ls IH]; intros r Hok; cbn [forallb run_steps length]; [intros _ [= <-]; by split|].
  intros [Hl Hls]%andb_true_iff. destruct (life_step l r) as [r1|] eqn:H1; [|done]. intros Hr.
  destruct (IH r1) as [Hlen Hok']; [by eapply life_ok_step|done|done|]. split; [|done].
  enough (life_left r1 < life_left r) by lia.
  destruct l; try discriminate Hl; cbn [life_step] in H1;
    [by eapply post_decreases|by eapply shut_decreases|eapply thread_decreases; [apply Hok|done]].
Qed.

(** None of the threads can move of itself. *)
Definition settled (r : Life) : Prop := forall l, of_itself l = true -> life_step l r = None.

Lemma stuck_post i p r :
  lf_calls r !! i = Some p -> post_step i r = None ->
  p = PoIdle \/ (exists ok, p = PoReturned ok) \/ (exists ok, p = PoNotify ok /\ lf_lock r = true) \/ p = PoResult /\ CmdCall i ∉ lf_ran r.
Proof.
  intros Hp Hs. unfold post_step in Hs. rewrite Hp in Hs. destruct p as [| | | | | | | |ok|ok|ok| |ok]; try discriminate Hs; eauto.
  - right; right; left. exists ok. by destruct (lf_lock r).
  - right; right; right. split; [done|]. intros Hr. by rewrite bool_decide_eq_true_2 in Hs.
Qed.
Lemma stuck_shut j p r :
  lf_shuts r !! j = Some p -> shut_step j r = None ->
  p = ShIdle \/ p = ShReturned \/ p = ShWaits false \/ (p = ShLock \/ p = ShWaits true) /\ lf_lock r = true \/ p = ShWaitsEnd /\ lf_ended r = false.
Proof.
  intros Hp Hs. unfold shut_step in Hs. rewrite Hp in Hs. destruct p as [| | | | |[]| | | | | | |]; try discriminate Hs; auto.
  - right; right; right; left. destruct (lf_lock r); [by auto|done].
  - right; right; right; left. destruct (lf_lock r); [by auto|done].
  - by destruct (lf_ended r); [|repeat right].
Qed.

(** A point nobody rests at is nobody's. *)
Lemma settled_none {A} (f : A -> bool) l : (forall i p, l !! i = Some p -> f p = false) -> total f l = 0.
Proof.
  intros H. destruct (Nat.eq_0_gt_0_cases (total f l)) as [|Hp]; [done|]. apply total_pos in Hp as (i & p & Hp & Hf). by rewrite (H i p Hp) in Hf.
Qed.

Lemma settled_shuts r : life_ok r -> settled r ->
  lf_lock r = false /\ forall j p, lf_shuts r !! j = Some p -> p = ShIdle \/ p = ShReturned \/ p = ShWaitsEnd /\ lf_ended r = false.
Proof.
  intros [Hco _ _ _] Hr.
  assert (Hl : lf_lock r = false).
  { pose proof (co_lock r Hco) as Hl. rewrite settled_none in Hl; [by destruct (lf_lock r)|].
    intros j p Hp. by destruct (stuck_shut j p r Hp (Hr (LfShut j) eq_refl)) as [->|[->|[->|[[[-> | ->] _]|[-> _]]]]]. }
  split; [done|]. intros j p Hp. destruct (stuck_shut j p r Hp (Hr (LfShut j) eq_refl)) as [->|[->|[->|[[_ Hk]|?]]]]; auto; [|congruence].
  exfalso. pose proof (co_asleep r Hco) as Ha. rewrite (co_posting r Hco), (settled_none po_counted), (settled_none po_last) in Ha.
  - assert (0 < total sh_sleeps (lf_shuts r)); [|lia]. pose proof (total_insert sh_sleeps j _ ShIdle _ Hp) as T. cbn in T. lia.
  - intros i q Hq. by destruct (stuck_post i q r Hq (Hr (LfPost i) eq_refl)) as [->|[(ok & ->)|[(ok & -> & Hk)|[-> _]]]]; try congruence.
  - intros i q Hq. by destruct (stuck_post i q r Hq (Hr (LfPost i) eq_refl)) as [->|[(ok & ->)|[(ok & -> & Hk)|[-> _]]]]; try congruence.
Qed.

(** Where the io thread rests, and that it left nothing there. *)
Lemma settled_thread r : life_ok r -> settled r ->
  lf_io r = ThWaits /\ lf_ready r = [] /\ lf_inbox r = [] /\ lf_confirmations r = [] \/ saw_torn (lf_io r) = true /\ lf_begun r = true.
Proof.
  intros Hok Hr. destruct (settled_shuts r Hok Hr) as [Hl Hsh]. destruct Hok as [Hco Hq _ Hw].
  pose proof (Hr LfIo eq_refl) as Hio. cbn in Hio. unfold thread_step in Hio.
  assert (Hb : saw_torn (lf_io r) = true -> lf_begun r = true) by (intros; by apply (qo_core_torn r Hq), (qo_torn r Hq), (qo_saw r Hq)).
  destruct (lf_io r) as [| | | |j| | | | | | | | | |] eqn:Hp; try discriminate Hio; try (right; by auto).
  - destruct (co_shuts r Hco j Hp) as (p & Hj & Hst). rewrite Hj in Hio. by destruct (Hsh j p Hj) as [->|[->|[-> _]]].
  - left. assert (Hpe : lf_pending r = false).
    { destruct (lf_pending r) eqn:Hpe; [|done]. destruct (wa_come r Hw Hp Hpe) as [Hs|Hs]; [by rewrite Hs in Hio|]. exfalso.
      rewrite !settled_none in Hs; [lia| |].
      - intros j p Hj. by destruct (Hsh j p Hj) as [->|[->|[-> _]]].
      - intros i q Hi. by destruct (stuck_post i q r Hi (Hr (LfPost i) eq_refl)) as [->|[(ok & ->)|[(ok & -> & _)|[-> _]]]]. }
    split_and!; [done|apply (wa_ready r Hw); by rewrite Hp|by apply (qo_inbox r Hq)|by apply (qo_confirmations r Hq)].
Qed.

(** C9: A client's calls, from any threads, its callbacks' and its shutdowns, however they interleave.  What is posted
    runs in the order it was posted, a call's command once; a call that answers yes has its command queued, and one that waits,
    run; one that answers no posts nothing.  Once the shutdown's command is queued only callbacks post; and when the io thread
    has ended every call that was not refused had its command run or its confirmation heard, and nothing at all is left unless
    an entry's panic kept the io thread from its last look. *)
Theorem posts_run_before_the_end n m r :
  life_reaches n m r ->
  lf_ran r ++ lf_ready r ++ lf_inbox r = lf_posted r /\ ordered (lf_posted r) = true
  /\ (forall i ok, lf_calls r !! i = Some (PoReturned ok) ->
        total (is_call i) (lf_posted r) + total (is_call i) (lf_confirmed r) = one ok
        /\ (kind i = KCall -> ok = true -> CmdCall i ∈ lf_ran r))
  /\ (lf_ended r = true ->
        (forall i, lf_calls r !! i = Some (PoReturned true) -> CmdCall i ∈ lf_ran r \/ CmdCall i ∈ lf_heard r)
        /\ (lf_skipped r = false -> lf_ran r = lf_posted r /\ lf_heard r = lf_confirmed r)).
Proof.
  intros [_ Hq Hc _]%life_ok_reaches. split_and!; [apply Hq|apply Hq| |].
  - intros i ok Hp. rewrite (ca_posted r Hc i _ Hp), (ca_confirmed r Hc i _ Hp). split.
    + destruct ok, (kind i); done.
    + intros Hk ->. by apply (ca_returned r Hc).
  - intros He%(qo_ended r Hq).
    assert (Ht : lf_torn r = true) by (apply (qo_saw r Hq); by rewrite He).
    assert (Hb : lf_begun r = true) by (by apply (qo_core_torn r Hq), (qo_torn r Hq)).
    pose proof (begun_rest r Hq Hb) as Hr. rewrite (qo_out r Hq) in Hr by (by rewrite He). cbn in Hr.
    assert (Hl : forallb is_callback (lf_confirmations r) = true).
    { apply (qo_late r Hq). rewrite total_app. pose proof (qo_begun r Hq Hb). lia. }
    split.
    + intros i Hp. pose proof (ca_posted r Hc i _ Hp) as P1. pose proof (ca_confirmed r Hc i _ Hp) as P2. destruct (kind i); cbn in P1, P2.
      1, 2: left; apply begun_ran; [done|done|]; apply total_elem; lia.
      right. assert (Hi : CmdCall i ∈ lf_confirmed r) by (apply total_elem; lia).
      rewrite <- (qo_heard r Hq), elem_of_app in Hi. destruct Hi as [?|Hi]; [done|]. by apply callbacks_no_call in Hi.
    + intros Hs. rewrite <- (qo_posted r Hq), <- (qo_heard r Hq), (qo_out r Hq) by (by rewrite He).
      rewrite (only_callbacks (lf_inbox r)), (only_callbacks (lf_confirmations r)); try done; rewrite ?app_nil_r; try done.
      all: first [apply (qo_taken_confirmations r Hq)|apply (qo_taken r Hq)]; [done|by rewrite He].
Qed.

(** C10: Every call returns and every shutdown gets to the io thread.  From any state the threads' own steps are bounded in
    number, and where they end each call started has returned, and every shutdown started too or waits for the io thread's end
    alone.  The io thread then waits with everything posted run, or has ended or has but to: and if a shutdown was called its
    command ran.  Nothing else is needed: no call waits for a socket, for the time, or for another call to be made. *)
Theorem calls_and_shutdowns_return n m r ls r' :
  life_reaches n m r -> forallb of_itself ls = true -> run_steps life_step ls r = Some r' ->
  length ls <= life_left r
  /\ (settled r' ->
       Forall (fun p => p = PoIdle \/ exists ok, p = PoReturned ok) (lf_calls r')
       /\ Forall (fun p => p = ShIdle \/ p = ShReturned \/ p = ShWaitsEnd /\ lf_ended r' = false) (lf_shuts r')
       /\ (lf_stopped r' = true -> lf_begun r' = true)
       /\ (lf_io r' = ThWaits /\ lf_ran r' = lf_posted r' /\ lf_heard r' = lf_confirmed r' \/ saw_torn (lf_io r') = true)).
Proof.
  intros Hok%life_ok_reaches Hls Hrun. destruct (of_itself_bounded ls r r' Hok Hls Hrun) as [Hlen Hok']. split; [lia|]. intros Hr.
  destruct (settled_shuts r' Hok' Hr) as [Hl Hsh]. pose proof (settled_thread r' Hok' Hr) as Hth. destruct Hok' as [Hco Hq Hc Hw].
  assert (Hall : lf_begun r' = true \/ lf_ran r' = lf_posted r' /\ lf_heard r' = lf_confirmed r').
  { destruct Hth as [(_ & H1 & H2 & H3)|[_ ?]]; [right|by left]. by rewrite <- (qo_posted r' Hq), <- (qo_heard r' Hq), H1, H2, H3, !app_nil_r. }
  split_and!.
  - apply Forall_lookup. intros i p Hp. destruct (stuck_post i p r' Hp (Hr (LfPost i) eq_refl)) as [->|[?|[(ok & -> & ?)|[-> Hn]]]]; auto; [congruence|].
    exfalso. apply Hn. pose proof (ca_posted r' Hc i _ Hp) as P. rewrite (ca_result r' Hc i Hp) in P. cbn in P.
    assert (Hi : CmdCall i ∈ lf_posted r') by (apply total_elem; lia).
    destruct Hall as [Hb|[-> _]]; [by apply begun_ran|done].
  - apply Forall_lookup. eauto.
  - intros Hst. destruct Hall as [Hb|[Hran _]]; [done|]. apply (qo_ran r' Hq). rewrite Hran. pose proof (co_first r' Hco) as Hf.
    rewrite Hst, settled_none in Hf; [cbn in Hf; lia|]. intros j p Hp. by destruct (Hsh j p Hp) as [->|[->|[-> _]]].
  - destruct Hth as [(? & H1 & H2 & H3)|[? _]]; [|by right]. left. split; [done|].
    by rewrite <- (qo_posted r' Hq), <- (qo_heard r' Hq), H1, H2, H3, !app_nil_r.
Qed.

End Life.

(** ** A client used and shut down *)

(** A [call] and a confirmation are counted before a shutdown sets [stopped], which waits for them; a third call comes too late. *)
Definition demo_kind (i : nat) : CallKind := match i with 0 => KCall | 1 => KConfirm | _ => KPost end.
Definition demo_posts : list LifeLabel :=
  [LfCall 0; LfPost 0; LfPost 0; LfPost 0; LfCall 1; LfPost 1; LfPost 1; LfPost 1]
  ++ replicate 6 LfIo                                            (* the io thread goes to sleep *)
  ++ [LfShutdown 0; LfShut 0; LfShut 0; LfShut 0; LfShut 0]      (* the shutdown waits for both *)
  ++ [LfCall 2; LfPost 2].                                       (* refused *)

(** Each thread moves while it can. *)
Fixpoint own_run (fuel : nat) (r : Life) : list LifeLabel :=
  match fuel with
  | 0 => []
  | S fuel =>
      match list_find (fun l => is_Some (life_step demo_kind l r)) [LfPost 0; LfPost 1; LfPost 2; LfShut 0; LfShut 1; LfIo] with
      | Some (_, l) => l :: match life_step demo_kind l r with Some r => own_run fuel r | None => [] end
      | None => []
      end
  end.
(** Then the shutdown's time comes, the core tears down, and nothing is left. *)
Definition demo_end : list LifeLabel :=
  [LfSocket false; LfIo; LfEvent; LfTears; LfIo; LfIo; LfIo; LfQuiet; LfIo; LfShut 0].

Definition landed_life (ls : list LifeLabel) (r : Life) : Life := default r (run_steps (life_step demo_kind) ls r).
Definition demo_posted : Life := Eval vm_compute in landed_life demo_posts (life_start 3 2).
Definition demo_own : list LifeLabel := Eval vm_compute in own_run 100 demo_posted.
Definition demo_rest : Life := Eval vm_compute in landed_life demo_own demo_posted.
Definition demo_ended : Life := Eval vm_compute in landed_life demo_end demo_rest.

Lemma posts_run_before_the_end_witness :
  life_reaches demo_kind 3 2 demo_ended
  /\ (CmdCall 1 ∈ lf_ran demo_ended \/ CmdCall 1 ∈ lf_heard demo_ended) /\ lf_ran demo_ended = lf_posted demo_ended.
Proof.
  assert (Hr : life_reaches demo_kind 3 2 demo_ended).
  { exists (demo_posts ++ demo_own ++ demo_end). vm_compute. reflexivity. }
  destruct (posts_run_before_the_end demo_kind 3 2 demo_ended Hr) as (_ & _ & _ & He).
  destruct (He eq_refl) as [Hc Hl]. exact (conj Hr (conj (Hc 1 eq_refl) (proj1 (Hl eq_refl)))).
Defined.

Lemma calls_and_shutdowns_return_witness :
  life_reaches demo_kind 3 2 demo_posted /\ length demo_own <= life_left demo_posted
  /\ settled demo_kind demo_rest /\ (lf_stopped demo_rest = true -> lf_begun demo_rest = true).
Proof.
  assert (Hr : life_reaches demo_kind 3 2 demo_posted) by (exists demo_posts; vm_compute; reflexivity).
  assert (Hs : settled demo_kind demo_rest).
  { intros l Hl. destruct l as [i|i|j|j|j| | | | | | | |took| | |k|k| |j| |]; try discriminate Hl.
    - destruct i as [|[|[|i]]]; reflexivity.
    - destruct j as [|[|j]]; reflexivity.
    - reflexivity. }
  destruct (calls_and_shutdowns_return demo_kind 3 2 demo_posted demo_own demo_rest Hr) as [Hb He];
    [vm_compute; reflexivity|vm_compute; reflexivity|].
  destruct (He Hs) as (_ & _ & Hd & _). exact (conj Hr (conj Hb (conj Hs Hd))).
Defined.
