(* ===== verification/PlainServer.v ===== *)
(** * PlainServer: the loop and the handler on one thread (servers/plain.rs, servers/mod.rs)

    [BaseMultiplexerServer] over the [SyncClient] of SyncClient.v.  The program's
    part, its [Handler], is a parameter: what each of its functions does is a
    program of calls on its [Request]s and its [ServerHandle] ([Doing]), which may
    keep a request, fail or panic.  The calls other threads make on a handle are
    the world's ([Callers]): they run wherever the loop lends the client or loads
    a flag they may have stored, and end its waits; Turns.v has the locks and
    wakes this stands on.  A panic out of the handler unwinds ([Unwinds]) up to
    [serve_forever], which closes the server first.  What the client's callbacks
    push for the loop are the core's events it has not looked at. *)
From S2P Require Import Prelude Words Defaults Frame FrameReader Xxh3Simd Timers Endpoint IpAddr LogSummary Records Ordered Fork.
From S2P Require Import Messages CoreTypes CoreBase ConnQueue OutboxState ConfirmingState Placing Bodies Batching Confirming.
From S2P Require Import Sending Handover Query Connection Client Connect Run System Inbox Driver Message SyncClient Requests.
From Stdlib Require String.
Import String.StringSyntax.
Open Scope Z_scope.

(** ** The program's part *)

(** What a program does with a handle, and with the requests it holds, by their numbers. *)
Inductive HandleOp :=
| HoStop
| HoWorking
| HoStartDraining
| HoDraining
| HoInstanceId
| HoConnectionsCount
| HoRoutingAcknowledged
| HoHeldForAConnection
| HoSendMessage (message : Message)
| HoSetDelivery (type : Z) (key : option str) (delivery : Delivery)
| HoClearDelivery (type : Z) (key : option str)
| HoSetKeyFilters (filters : list (Z * list str)) (on_acknowledged : option Z)
| HoPending
| HoDropped
| HoReplyMessage (request : nat) (message : Message)
| HoNoResponse (request : nat)
| HoNotifyStart (request : nat)
| HoLetGo (request : nat).      (* the [Request] dropped *)

(** A program: it returns, or makes a call and goes on with the answer. *)
Inductive Doing (A : Type) :=
| Returned (a : A)
| Calls (op : HandleOp) (k : result Z CallError -> Doing A).
Arguments Returned {A} a.
Arguments Calls {A} op k.

(** How a function ended: it returned, or a panic goes on up. *)
Inductive Ends (A : Type) :=
| Returns (a : A)
| Unwinds (panic : list Z).
Arguments Returns {A} a.
Arguments Unwinds {A} panic.

Class Handler := {
  handler : Type;               (* what the handler keeps between its calls *)
  handle_message : nat -> Received -> handler -> Doing (option (list Z) * handler);   (* a failure's or a panic's text *)
  periodic_task : handler -> Doing (Ends unit * handler);
  on_handler_error : list Z -> handler -> Doing (OnError * handler);
  should_answer_search : handler -> Doing (Ends bool * handler);
  says_drained : bool -> handler -> Doing (Ends bool * handler);
  on_acknowledged : Z -> handler -> Doing handler;      (* the callback of an acknowledged change *)
  on_drop : Z -> DropReason -> handler -> Doing handler;
}.

(** Whether another thread asked for the client, or stopped the server; and the calls they make once lent it. *)
Class Callers {OS : Os} := {
  os_asking : os -> bool;
  os_callers : os -> list HandleOp * os;
}.

(** ** The server *)

(** A [Request] made: its state, its connection, and whether the program still holds it. *)
Record Asked := mkAsked { as_state : RequestState; as_connection : Wrapper; as_held : bool }.
#[export] Instance eta_Asked : Eta Asked := fun r => mkAsked (as_state r) (as_connection r) (as_held r).

(** The lines it logs. *)
Inductive PlainLine :=
| LnUnanswered (id type : Z)
| LnHandlerFailed (error : list Z)
| LnNotReported (error : CallError)
| LnErrorPanicked (panic : list Z)
| LnWentNowhere (references : Z)
| LnUnknownMeta (type : Z)
| LnNotEchoed (what : list Z) (error : CallError).

Inductive ServeError := ServeClient (error : CallError) | ServeHandler (error : list Z).

Record PlainServer {H : Handler} := mkPlainServer {
  ps_handler : handler;
  ps_client : SyncClient;
  ps_addresses : list str;
  ps_connected : bool;
  ps_drain : option Z;
  ps_closed : bool;
  ps_dropped_while_closing : Z;
  ps_working : bool;
  ps_drain_asked : bool;
  ps_draining : bool;
  ps_draining_since : option Z;
  ps_drain_routing : Routing;
  ps_on_drop : bool;
  ps_instance_id : Z;
  ps_told : nat;                (* the core's events the loop has looked at *)
  ps_requests : list Asked;
  ps_lines : list PlainLine;
}.
#[export] Instance eta_PlainServer {H : Handler} : Eta PlainServer := fun r =>
  mkPlainServer H (ps_handler r) (ps_client r) (ps_addresses r) (ps_connected r) (ps_drain r) (ps_closed r)
    (ps_dropped_while_closing r) (ps_working r) (ps_drain_asked r) (ps_draining r) (ps_draining_since r) (ps_drain_routing r)
    (ps_on_drop r) (ps_instance_id r) (ps_told r) (ps_requests r) (ps_lines r).

Record PlainServerBuilder := mkPlainServerBuilder {
  pb_peer_type : Z;
  pb_addresses : list str;
  pb_drain_routing : Routing;
  pb_key_filters : option (list (Z * list str));
  pb_on_drop : bool;
}.
Definition builder (peer_type : Z) (addresses : list str) : PlainServerBuilder :=
  mkPlainServerBuilder peer_type addresses direct_only_routing None false.

(** ** Echoes *)

(** A [usize] in decimal. *)
Definition show_usize (n : Z) : list Z := digits 20 n.

Definition echo_of (request : Message) : Message :=
  as_reply request (Message_default <| m_type := types.PING |> <| m_payload := m_payload request |>).

Definition too_large (request : Message) (what : list Z) : Message :=
  Message_default <| m_type := types.BACKEND_ERROR |> <| m_to := Some (m_sender request) |> <| m_references := m_id request |>
    <| m_payload := text "the echo of a " ++ what ++ text " of " ++ show_usize (Z.of_nat (length (m_payload request)))
                      ++ text " bytes would be over MAX_MESSAGE_SIZE" |>.

Section PlainServer.
Context {E : Env} {P : Program} {OS : Os} {HD : Handler} {CA : Callers} (commands : Z -> Call) (cpu : Cpu) (fuel : nat).

(** ** Programs of the server *)

Definition SM (A : Type) : Type := PlainServer -> DM (Ends A * PlainServer).
Definition sret {A} (a : A) : SM A := fun s => dret (Returns a, s).
Definition sbind {A B} (p : SM A) (k : A -> SM B) : SM B := fun s =>
  let+ (ended, s) := p s in
  match ended with
  | Returns a => k a s
  | Unwinds panic => dret (Unwinds panic, s)
  end.
Definition unwinds {A} (ended : Ends A) : SM A := fun s => dret (ended, s).
Definition sgets {A} (f : PlainServer -> A) : SM A := fun s => dret (Returns (f s), s).
Definition smod (f : PlainServer -> PlainServer) : SM unit := fun s => dret (Returns tt, f s).
Definition lift {A} (p : DM A) : SM A := fun s => let+ a := p in dret (Returns a, s).

#[local] Notation "'let&' x ':=' p 'in' k" := (sbind p (fun x => k)) (at level 10, x pattern, p at level 100, k at level 200).
#[local] Notation "p '&;' k" := (sbind p (fun _ => k)) (at level 199, right associativity).

Definition swhen (b : bool) (p : SM unit) : SM unit := if b then p else sret tt.
Fixpoint sfor_each {A} (l : list A) (body : A -> SM unit) : SM unit :=
  match l with
  | [] => sret tt
  | x :: l => body x &; sfor_each l body
  end.
Definition line (l : PlainLine) : SM unit := smod (fun s => s <| ps_lines ::= fun lines => lines ++ [l] |>).

(** ** The client, for a call *)

(** [Shared::orphaned], and [Shared::client]. *)
Definition server_orphaned (s : PlainServer) : bool := orphaned (ps_client s).
Definition client {A} (k : SyncClient -> DM (result A CallError)) : SM (result A CallError) :=
  let& s := sgets id in
  if server_orphaned s then sret (Err (Failed UsedAfterFork)) else lift (k (ps_client s)).
(** [Shared::lock]. *)
Definition lock {A} (k : SyncClient -> DM A) : SM A := let& sc := sgets ps_client in lift (k sc).

(** [Replier::send]. *)
Definition reply_through (connection : Wrapper) (message : Message) : SM (result Z CallError) :=
  client (fun sc =>
    let+ s := send_through connection (send_message message) in
    send_queue commands cpu fuel sc s).

Definition mod_asked (n : nat) (f : Asked -> Asked) : SM unit := smod (fun s => s <| ps_requests ::= alter f n |>).
Definition answered (n : nat) : SM unit := mod_asked n (fun a => a <| as_state ::= fun r => r <| rs_answered := true |> |>).

Definition start_draining : SM unit :=
  let& s := sgets id in
  if server_orphaned s || ps_drain_asked s then sret tt
  else
    smod (fun s => s <| ps_drain_asked := true |>) &;
    let& _ := client (fun sc => set_routing commands fuel sc (ps_drain_routing s) None) in
    let& now := lift (sys os_now) in
    smod (fun s => s <| ps_draining_since := Some now |> <| ps_draining := true |>).

Definition bool_answer (b : bool) : Z := if b then 1 else 0.
Definition counted_of (f : Core -> Z) : SM (result Z CallError) :=
  client (fun sc => check sc (let+ n := ask f in dret (Ok n))).
Definition answer_unit (r : result unit CallError) : result Z CallError := match r with Ok _ => Ok 0 | Err e => Err e end.
Definition USIZE_MAX : Z := 2 ^ 64 - 1.

(** A request's own calls, of one the program holds. *)
Definition with_request (n : nat) (k : Asked -> SM (result Z CallError)) : SM (result Z CallError) :=
  let& found := sgets (fun s => ps_requests s !! n) in
  match found with
  | Some asked => if as_held asked then k asked else sret (Ok 0)
  | None => sret (Ok 0)
  end.

Definition reply_message (n : nat) (message : Message) : SM (result Z CallError) :=
  with_request n (fun asked =>
    let& sent := reply_through (as_connection asked) (as_reply (rs_message (as_state asked)) message) in
    match sent with
    | Err e => sret (Err e)
    | Ok _ => answered n &; sret (Ok 0)
    end).
Definition notify_start (n : nat) : SM (result Z CallError) :=
  with_request n (fun asked => reply_through (as_connection asked) (notify_start_of (rs_message (as_state asked)))).
(** [Drop] of a [Request]. *)
Definition let_request_go (n : nat) : SM (result Z CallError) :=
  with_request n (fun asked =>
    mod_asked n (fun a => a <| as_held := false |>) &;
    let r := as_state asked in
    swhen (rs_kept r && negb (rs_answered r)) (line (LnUnanswered (m_id (rs_message r)) (m_type (rs_message r)))) &;
    sret (Ok 0)).

(** The handle's calls, and a request's. *)
Definition run_handle (op : HandleOp) : SM (result Z CallError) :=
  match op with
  | HoStop => smod (fun s => s <| ps_working := false |>) &; sret (Ok 0)
  | HoWorking => sgets (fun s => Ok (bool_answer (ps_working s)))
  | HoStartDraining => start_draining &; sret (Ok 0)
  | HoDraining => sgets (fun s => Ok (bool_answer (ps_draining s)))
  | HoInstanceId => sgets (fun s => Ok (ps_instance_id s))
  | HoConnectionsCount => counted_of connections_count
  | HoRoutingAcknowledged => counted_of (fun c => bool_answer (routing_acknowledged c))
  | HoHeldForAConnection => counted_of (fun c => ob_held_live (cr_outbox c))
  | HoSendMessage message => client (fun sc => send_queue commands cpu fuel sc (send_message message))
  | HoSetDelivery type key delivery =>
      let& set := client (fun sc => set_delivery commands cpu fuel sc type key delivery) in sret (answer_unit set)
  | HoClearDelivery type key =>
      let& set := client (fun sc => clear_delivery commands cpu fuel sc type key) in sret (answer_unit set)
  | HoSetKeyFilters filters on_acknowledged =>
      let& set := client (fun sc => set_key_filters commands fuel sc filters on_acknowledged) in sret (answer_unit set)
  | HoPending => sret (Ok 0)
  | HoDropped => let& n := lift (ask (fun c => cl_incoming_dropped (cr_client c))) in sret (Ok (Z.min n USIZE_MAX))
  | HoReplyMessage n message => reply_message n message
  | HoNoResponse n => with_request n (fun _ => answered n &; sret (Ok 0))
  | HoNotifyStart n => notify_start n
  | HoLetGo n => let_request_go n
  end.

(** [yield_to_callers]: every call that asked has its turn; also where another thread's store may come before a load. *)
Definition yield_to_callers : SM unit :=
  let& calls := lift (sys os_callers) in
  sfor_each calls (fun op => let& _ := run_handle op in sret tt).
Definition load {A} (f : PlainServer -> A) : SM A := yield_to_callers &; sgets f.

(** A function of the handler run, on the loop's thread. *)
Fixpoint do {A} (p : Doing A) : SM A :=
  match p with
  | Returned a => sret a
  | Calls op k => yield_to_callers &; let& answer := run_handle op in do (k answer)
  end.
Definition run_handler {A} (f : handler -> Doing (A * handler)) : SM A :=
  let& h := sgets ps_handler in
  let& (a, h) := do (f h) in
  smod (fun s => s <| ps_handler := h |>) &;
  sret a.

(** ** One message *)

(** [handle] of servers/mod.rs, of the request made last; first what a failure of the handler's comes to. *)
Definition handle_failure (received : Received) (n : nat) (error : list Z) (unanswered : bool) : SM Handled :=
  let message := re_message received in
  mod_asked n (fun a => a <| as_state ::= fun r => r <| rs_failed := true |> |>) &;
  line (LnHandlerFailed error) &;
  swhen (unanswered && (m_references message =? 0))
    (let& sent := reply_through (re_connection received) (report_error_of message error) in
     match sent with Err e => line (LnNotReported e) | Ok _ => sret tt end &;
     answered n) &;
  let& on_error := run_handler (on_handler_error error) in
  match on_error with Panics panic => line (LnErrorPanicked panic) | Says _ => sret tt end &;
  sret (mkHandled true (end_of error on_error)).

Definition handle (received : Received) (n : nat) : SM Handled :=
  let& failure := run_handler (handle_message n received) in
  let& found := load (fun s => ps_requests s !! n) in
  let asked := default (mkAsked (Request_new (re_message received) Sync) (re_connection received) false) found in
  let unanswered := negb (rs_answered (as_state asked)) in
  match failure with
  | None =>
      (if as_held asked then mod_asked n (fun a => a <| as_state ::= fun r => r <| rs_kept := true |> |>)
       else swhen unanswered (line (LnUnanswered (m_id (re_message received)) (m_type (re_message received))))) &;
      sret (mkHandled false None)
  | Some error => handle_failure received n error unanswered
  end.

Definition echo (received : Received) (what : list Z) : SM unit :=
  let send message := reply_through (re_connection received) message in
  let& sent := send (echo_of (re_message received)) in
  let& sent :=
    match sent with
    | Err (Failed (TooLarge _ _ _)) => send (too_large (re_message received) what)
    | other => sret other
    end in
  match sent with Err e => line (LnNotEchoed what e) | Ok _ => sret tt end.

Definition handle_internal (received : Received) : SM unit :=
  let message := re_message received in
  if m_type message =? types.BACKEND_FOR_PACKET_SEARCH then
    let& answers := run_handler should_answer_search in
    let& answers := unwinds answers in
    swhen answers (echo received (text "search"))
  else if m_type message =? types.PING then
    swhen (m_references message =? 0) (echo received (text "PING"))
  else if m_type message =? types.DELIVERY_ERROR then line (LnWentNowhere (m_references message))
  else line (LnUnknownMeta (m_type message)).

Definition handle_received (received : Received) : SM (option (list Z)) :=
  let message := re_message received in
  if m_type message <=? types.MAX_MULTIPLEXER_META_PACKET then handle_internal received &; sret None
  else
    let confirmation := (fun number => (m_sender message, number)) <$> m_confirmation message in
    let& n := sgets (fun s => length (ps_requests s)) in
    smod (fun s => s <| ps_requests ::= fun l => l ++ [mkAsked (Request_new message Sync) (re_connection received) true] |>) &;
    let& handled := handle received n in
    match confirmation with
    | Some (sender, number) =>
        lock (fun sc => confirm_number sc sender number (if ha_failed handled then ConfirmedFailed else Processed))
    | None => sret tt
    end &;
    sret (ha_end handled).

(** ** The loop *)

(** [Shared::asked], at every look of the wait. *)
Definition asked (working : bool) : DM bool := dgets (fun m => os_asking (mc_os m) || negb working).

Fixpoint wait (n : nat) (until : option Z) (end_on_acknowledgement : bool) : SM (result (option Received) CallError) :=
  match n with
  | O => lift out_of_fuel
  | S n =>
      let& working := load ps_working in
      if negb working then sret (Ok None)
      else
        let& waited := lock (fun sc => wait_for_server commands cpu fuel sc until end_on_acknowledgement (asked working)) in
        match waited with
        | Err e => sret (Err e)
        | Ok (WaitedMessage incoming) => sret (Ok (Some incoming))
        | Ok WaitedNothing => sret (Ok None)
        | Ok WaitedAsked => wait n until end_on_acknowledgement
        end
  end.

(** One callback left to the loop; the program's own may not end it. *)
Definition run_callback (event : CoreTypes.Event) : SM unit :=
  let callback f := run_handler (fun h => let fix told (p : Doing handler) : Doing (unit * handler) :=
    match p with Returned h => Returned (tt, h) | Calls op k => Calls op (fun answer => told (k answer)) end in told (f h)) in
  match event with
  | EvAcknowledged cb => callback (on_acknowledged cb)
  | EvDropped id reason =>
      let& observed := sgets ps_on_drop in
      swhen observed (callback (on_drop id reason))
  | _ => sret tt
  end.
Definition run_deferred : SM unit :=
  let& told := sgets ps_told in
  let& events := lift (ask cr_events) in
  smod (fun s => s <| ps_told := length events |>) &;
  sfor_each (drop told events) run_callback.

(** When the next wait ends at the latest, the flags and the time read. *)
Definition wait_limit (now poll : Z) (draining : bool) (since drain : option Z) : option Z :=
  let until := deadline_after now (Some poll) in
  if negb draining then until
  else
    match until, match since, drain with Some since, Some cap => deadline_after since (Some cap) | _, _ => None end with
    | Some until, Some cap => Some (Z.min until cap)
    | until, None => until
    | None, cap => cap
    end.
Definition next_wait (poll : Z) : SM (option Z) :=
  let& now := lift (sys os_now) in
  let& s := load id in
  sret (wait_limit now poll (ps_draining s) (ps_draining_since s) (ps_drain s)).

Definition drained : SM bool :=
  let& s := load id in
  let& past_cap :=
    match ps_draining_since s, ps_drain s with
    | Some since, Some cap => let& now := lift (sys os_now) in sret (cap <=? now - since)
    | _, _ => sret false
    end in
  let& by_default :=
    if past_cap then sret true
    else if negb (nothing_more_arrives (ps_drain_routing s)) then sret false
    else
      lock (fun sc =>
        let+ _ := flush_all commands cpu fuel sc (Some 0) in
        if orphaned sc then dret true
        else ask (fun c => routing_acknowledged c && (ob_held_live (cr_outbox c) =? 0))) in
  let& says := run_handler (says_drained by_default) in
  unwinds says.

Fixpoint serve_loop (n : nat) (poll : Z) : SM (result unit ServeError) :=
  match n with
  | O => lift out_of_fuel
  | S n =>
      let& working := load ps_working in
      if negb working then sret (Ok tt)
      else
        let& draining := load ps_draining in
        let& over := if draining then drained else sret false in
        if over : bool then sret (Ok tt)
        else
          let& until := next_wait poll in
          let& received := wait fuel until true in
          run_deferred &;
          let& failed :=
            match received with
            | Ok (Some incoming) => let& ended := handle_received incoming in sret (ServeHandler <$> ended)
            | Ok None => sret None
            | Err e => sret (Some (ServeClient e))
            end in
          match failed with
          | Some e => sret (Err e)
          | None =>
              let& done := run_handler periodic_task in
              unwinds done &;
              serve_loop n poll
          end
  end.

(** What was read before the drain was over. *)
Definition has_incoming (c : Core) : bool := negb (bool_decide (cl_incoming (cr_client c) = [])).
Fixpoint drain_loop (n : nat) : SM (result unit ServeError) :=
  match n with
  | O => lift out_of_fuel
  | S n =>
      let& working := load ps_working in
      let& more := if working then lift (ask has_incoming) else sret false in
      if negb more then sret (Ok tt)
      else
        let& received := lock (fun sc => receive commands cpu fuel sc (Some 0)) in
        run_deferred &;
        match received with
        | Err _ => sret (Ok tt)
        | Ok incoming =>
            let& ended := handle_received incoming in
            match ended with
            | Some error => sret (Err (ServeHandler error))
            | None => drain_loop n
            end
        end
  end.

Definition serve (poll : Z) : SM (result unit ServeError) :=
  let& s := sgets id in
  let& started :=
    if ps_connected s then sret (Ok 0)
    else
      smod (fun s => s <| ps_connected := true |>) &;
      lock (fun sc => connect_all commands cpu fuel sc (ps_addresses s) (Some 0)) in
  match started with
  | Err e => sret (Err (ServeClient e))
  | Ok _ =>
      let& ended := serve_loop fuel poll in
      match ended with
      | Err e => sret (Err e)
      | Ok _ =>
          let& leaves := load (fun s => ps_draining s && ps_working s) in
          if negb leaves then sret (Ok tt)
          else
            lock (fun _ => SyncClient_refuse_arrivals commands fuel) &;
            drain_loop fuel
      end
  end.

Definition close (timeout : option Z) : SM unit :=
  let& s := sgets id in
  if ps_closed s then sret tt
  else
    smod (fun s => s <| ps_closed := true |>) &;
    if server_orphaned s then lift close_inherited
    else
      let& closing := lock (fun sc =>
        SyncClient_refuse_arrivals commands fuel +;
        SyncClient_refuse_unread commands fuel +;
        shutdown commands cpu fuel sc timeout +;
        ask (fun c => cl_dropped_while_closing (cr_client c))) in
      smod (fun s => s <| ps_dropped_while_closing := closing |>) &;
      run_deferred.

(** A panic of the handler's closes the server before it goes on up. *)
Definition serve_forever (poll : Z) (drain : option Z) : SM (result unit ServeError) := fun s =>
  if server_orphaned s then dret (Returns (Err (ServeClient (Failed UsedAfterFork))), s)
  else
    let+ (served, s) := serve poll (s <| ps_drain := drain |>) in
    let+ (closed, s) := close (Some CLOSE_FLUSH_SECONDS) s in
    dret (match closed with Returns _ => served | Unwinds panic => Unwinds panic end, s).

Definition loop_iter (timeout : option Z) : SM (result unit ServeError) :=
  let& s := sgets id in
  if server_orphaned s then sret (Err (ServeClient (Failed UsedAfterFork)))
  else
    let& until := lift (deadline timeout) in
    let& received := wait fuel until false in
    run_deferred &;
    match received with
    | Err e => sret (Err (ServeClient e))
    | Ok None => sret (Err (ServeClient (Failed OperationTimedOut)))
    | Ok (Some incoming) =>
        let& ended := handle_received incoming in
        sret match ended with Some error => Err (ServeHandler error) | None => Ok tt end
    end.

Definition server_connect : SM (result Z CallError) :=
  let& s := sgets id in
  if ps_connected s then sret (Ok 0)
  else
    smod (fun s => s <| ps_connected := true |>) &;
    client (fun sc => connect_all commands cpu fuel sc (ps_addresses s) (Some DEFAULT_TIMEOUT)).

Definition server_dropped_while_closing : SM Z :=
  let& s := sgets id in
  if ps_closed s || server_orphaned s then sret (ps_dropped_while_closing s)
  else lock (fun _ => ask (fun c => cl_dropped_while_closing (cr_client c))).

(** [BaseMultiplexerServerBuilder::build] of the engine made. *)
Definition server_build (b : PlainServerBuilder) (h : handler) : DM (result PlainServer CallError) :=
  match parse_all (pb_addresses b) with
  | None => dret (Err (Failed InvalidArgument))
  | Some _ =>
      let+ built := build commands fuel (mkBuilder (pb_peer_type b) (pb_on_drop b) (pb_key_filters b) None false) in
      let+ instance_id := ask cr_instance_id in
      dret match built with
           | Err e => Err e
           | Ok sc =>
               Ok (mkPlainServer HD h sc (pb_addresses b) false None false 0 true false false None (pb_drain_routing b) (pb_on_drop b)
                     instance_id 0 [] [])
           end
  end.
End PlainServer.
