(* ===== verification/PlainSpec.v ===== *)
(** * PlainSpec: the plain server's loop

    Whatever the handler does and other threads call, a server on its client is a
    program of that client's calls ([plain_server_sound]), and its own state only
    ever goes one way ([server_grows]): [serve_forever] ends for a reason and
    closed ([serve_ends_for_a_reason]); every message is handled to its end, its
    confirmation owed ([message_handled]); and an echo is refused for its size at
    most once ([echo_never_too_large]). *)
From S2P Require Import Prelude Words Defaults Frame FrameReader Xxh3Simd Timers Endpoint IpAddr LogSummary Records Ordered Fork.
From S2P Require Import Messages CoreTypes CoreBase ConnQueue OutboxState ConfirmingState Placing Bodies Batching Confirming.
From S2P Require Import Sending Handover Query Connection Client Connect Run System Concrete Inbox Driver DriverSpec WireSpec.
From S2P Require Import Message SyncClient SyncSpec Requests PlainServer.
From Stdlib Require String.
Import String.StringSyntax.
Open Scope Z_scope.

(** ** What only grows *)

(** A request's fate is settled once. *)
Record asked_grows (a a' : Asked) : Prop := {
  ag_message : rs_message (as_state a') = rs_message (as_state a);
  ag_connection : as_connection a' = as_connection a;
  ag_answered : rs_answered (as_state a) = true -> rs_answered (as_state a') = true;
  ag_kept : rs_kept (as_state a) = true -> rs_kept (as_state a') = true;
  ag_failed : rs_failed (as_state a) = true -> rs_failed (as_state a') = true;
  ag_held : as_held a' = true -> as_held a = true;
}.

Section Grows.
Context {HD : Handler}.

Record server_grows (s s' : PlainServer) : Prop := {
  sg_client : ps_client s' = ps_client s;
  sg_routing : ps_drain_routing s' = ps_drain_routing s;
  sg_working : ps_working s' = true -> ps_working s = true;
  sg_draining : ps_draining s = true -> ps_draining s' = true;
  sg_asked : ps_drain_asked s = true -> ps_drain_asked s' = true /\ ps_draining_since s' = ps_draining_since s;
  sg_closed : ps_closed s = true -> ps_closed s' = true;
  sg_lines : ps_lines s `prefix_of` ps_lines s';
  sg_requests n a : ps_requests s !! n = Some a -> exists a', ps_requests s' !! n = Some a' /\ asked_grows a a';
}.

Lemma asked_grows_refl a : asked_grows a a.
Proof. by split. Qed.
Lemma asked_grows_trans a b c : asked_grows a b -> asked_grows b c -> asked_grows a c.
Proof. intros [] []. split; try congruence; auto. Qed.

#[export] Instance server_grows_refl : Reflexive server_grows.
Proof. intros s. split; auto using asked_grows_refl. intros n a Ha. exists a. by split; [|apply asked_grows_refl]. Qed.
#[export] Instance server_grows_trans : Transitive server_grows.
Proof.
  intros a b c [A1 A2 A3 A4 A5 A6 A7 A8] [B1 B2 B3 B4 B5 B6 B7 B8]. split; try congruence; auto.
  - intros H. destruct (A5 H) as [H1 <-]. by apply B5.
  - by etrans.
  - intros n x Hx. destruct (A8 n x Hx) as (y & Hy & Hxy). destruct (B8 n y Hy) as (z & Hz & Hyz).
    exists z. split; [done|by eapply asked_grows_trans].
Qed.

(** What changes none of it but the requests, each growing. *)
Lemma grows_alter n f s : (forall a, asked_grows a (f a)) -> server_grows s (s <| ps_requests ::= alter f n |>).
Proof.
  intros Hf. split; cbn; auto. intros n' a Ha. destruct (decide (n = n')) as [->|Hne].
  - exists (f a). split; [|apply Hf]. by rewrite list_lookup_alter_eq, Ha.
  - exists a. split; [by rewrite list_lookup_alter_ne|apply asked_grows_refl].
Qed.
End Grows.

Section Plain.
Context {E : Env} {P : Program} {OS : Os} {HD : Handler} {CA : Callers} (commands : Z -> Call) (cpu : Cpu) (fuel : nat).

(** A program of the server that keeps an invariant of the machine, and its state growing. *)
Definition goes (I : Machine -> Prop) {A} (p : SM A) : Prop :=
  forall s m e s' m', p s m = Some ((e, s'), m') -> (I m -> I m') /\ server_grows s s'.

Context (I : Machine -> Prop) `{!Engined commands cpu fuel I}.

Lemma goes_ret A (a : A) : goes I (sret a).
Proof. intros s m e s' m' [= <- <- <-]. done. Qed.
Lemma goes_unwinds A (e : Ends A) : goes I (unwinds e).
Proof. intros s m e' s' m' [= <- <- <-]. done. Qed.
Lemma goes_gets A (f : PlainServer -> A) : goes I (sgets f).
Proof. intros s m e s' m' [= <- <- <-]. done. Qed.
Lemma goes_mod f : (forall s, server_grows s (f s)) -> goes I (smod f).
Proof. intros Hf s m e s' m' [= <- <- <-]. done. Qed.
Lemma goes_lift A (p : DM A) : keeps I p -> goes I (lift p).
Proof. intros Hp s m e s' m' Hm. apply dbind_some in Hm as (a & m1 & Hm & [= <- <- <-]). split; [by eapply Hp|done]. Qed.

(** One program of a bind run: it unwound, or the rest ran. *)
Lemma sbind_some A B (p : SM A) (k : A -> SM B) s m e s' m' :
  sbind p k s m = Some ((e, s'), m') ->
  exists e1 s1 m1, p s m = Some ((e1, s1), m1)
    /\ match e1 with Returns a => k a s1 m1 = Some ((e, s'), m') | Unwinds panic => e = Unwinds panic /\ s' = s1 /\ m' = m1 end.
Proof.
  unfold sbind. intros Hm. apply dbind_some in Hm as ([e1 s1] & m1 & H1 & H2). exists e1, s1, m1. split; [done|].
  destruct e1; [done|]. by injection H2 as <- <- <-.
Qed.

Lemma goes_bind A B (p : SM A) (k : A -> SM B) : goes I p -> (forall a, goes I (k a)) -> goes I (sbind p k).
Proof.
  intros Hp Hk s m e s' m' Hm. apply sbind_some in Hm as (e1 & s1 & m1 & H1 & H2). destruct (Hp _ _ _ _ _ H1) as [Hi Hg].
  destruct e1 as [a|panic]; [|by destruct H2 as (-> & -> & ->)]. destruct (Hk a _ _ _ _ _ H2) as [Hi' Hg'].
  split; [auto|by etrans].
Qed.
Lemma goes_when b p : goes I p -> goes I (swhen b p).
Proof. destruct b; [done|intros _; apply goes_ret]. Qed.
Lemma goes_for_each A (l : list A) body : (forall x, goes I (body x)) -> goes I (sfor_each l body).
Proof. intros H. induction l as [|x l IH]; [apply goes_ret|]. by apply goes_bind. Qed.
End Plain.

Create HintDb goes discriminated.
Ltac goes_step :=
  match goal with
  | |- goes _ (sret _) => apply goes_ret
  | |- goes _ (unwinds _) => apply goes_unwinds
  | |- goes _ (sgets _) => apply goes_gets
  | |- goes _ (sbind _ _) => apply goes_bind; [|intros ?]
  | |- goes _ (swhen _ _) => apply goes_when
  | |- goes _ (sfor_each _ _) => apply goes_for_each; intros ?
  | |- goes _ (match ?x with _ => _ end) => destruct x eqn:?
  | |- goes _ (smod _) => apply goes_mod; intros ?; solve [eauto 3 with goes nocore]
  | |- goes _ (lift _) => apply goes_lift; solve [eauto 3 with goes nocore]
  | |- goes _ _ => solve [eauto 3 with goes nocore]
  end.
Ltac goes_tac := repeat (cbn beta; goes_step).

(** A change of anything else, or one that grows. *)
Ltac grows_tac :=
  split; cbn; try done; auto;
  try (let x := fresh "x" in intros ? x ?; exists x; split; [first [done|by apply lookup_app_l_Some]|apply asked_grows_refl]);
  try (by apply prefix_app_r).

Section Calls.
Context {E : Env} {P : Program} {OS : Os} {HD : Handler} {CA : Callers} (commands : Z -> Call) (cpu : Cpu) (fuel : nat).
Context (I : Machine -> Prop) `{!Engined commands cpu fuel I}.
#[local] Hint Extern 2 (server_grows ?s _) => grows_tac : goes.
#[local] Hint Extern 2 (dleads I I (sys _)) => apply (eg_sys (commands := commands) (cpu := cpu) (fuel := fuel)) : goes.
#[local] Hint Extern 2 (dleads I I (ask _)) => apply keeps_gets : goes.
#[local] Hint Extern 2 (dleads I I out_of_fuel) => apply keeps_fuel : goes.
#[local] Hint Extern 2 (dleads I I (deadline _)) => apply (eg_deadline commands cpu fuel) : goes.
#[local] Hint Extern 2 (dleads I I close_inherited) => apply (eg_close_inherited commands cpu fuel) : goes.

Lemma goes_line l : goes I (line l).
Proof. unfold line. goes_tac. Qed.
Lemma goes_client A (k : SyncClient -> DM (result A CallError)) : (forall sc, keeps I (k sc)) -> goes I (client k).
Proof. intros Hk. unfold client. goes_tac; apply goes_lift, Hk. Qed.
Lemma goes_lock A (k : SyncClient -> DM A) : (forall sc, keeps I (k sc)) -> goes I (lock k).
Proof. intros Hk. unfold lock. goes_tac; apply goes_lift, Hk. Qed.
#[local] Hint Resolve goes_line : goes.

Lemma goes_reply connection message : goes I (reply_through commands cpu fuel connection message).
Proof.
  apply goes_client. intros sc. unfold send_through. keeps_step; [|by apply eg_send_queue].
  keeps_step; [|apply keeps_ret]. apply (eg_core commands cpu fuel); exact _.
Qed.
#[local] Hint Resolve goes_reply : goes.

Lemma goes_mod_asked n f : (forall a, asked_grows a (f a)) -> goes I (mod_asked n f).
Proof. intros Hf. apply goes_mod. intros s. by apply grows_alter. Qed.
Lemma goes_answered n : goes I (answered n).
Proof. apply goes_mod_asked. by split. Qed.
#[local] Hint Resolve goes_answered : goes.

(** The drain starts once. *)
Lemma goes_start_draining : goes I (start_draining commands fuel).
Proof.
  intros s m e s' m' Hm. unfold start_draining in Hm. apply sbind_some in Hm as (e1 & s1 & m1 & [= <- <- <-] & Hm).
  destruct (server_orphaned s || ps_drain_asked s) eqn:Ha; [by injection Hm as <- <- <-|]. apply orb_false_iff in Ha as [_ Ha].
  apply sbind_some in Hm as (e1 & s1 & m1 & [= <- <- <-] & Hm). apply sbind_some in Hm as (e2 & s2 & m2 & H2 & Hm).
  assert (Hc : (I m -> I m2) /\ s2 = s <| ps_drain_asked := true |> /\ exists a, e2 = Returns a).
  { pose proof (fun sc => eg_set_routing commands cpu fuel I sc (ps_drain_routing s) None) as Hk. unfold client in H2.
    apply sbind_some in H2 as (e3 & s3 & m3 & [= <- <- <-] & H2). destruct (server_orphaned _).
    - injection H2 as <- <- <-. eauto.
    - apply dbind_some in H2 as (a & m4 & H2 & [= <- <- <-]). split; [intros HI; by eapply Hk|eauto]. }
  destruct Hc as (HI & -> & a & ->). apply sbind_some in Hm as (e3 & s3 & m3 & H3 & Hm).
  apply dbind_some in H3 as (now & m4 & H3 & [= <- <- <-]). injection Hm as <- <- <-.
  split; [|split; cbn; try done; try congruence; intros n x Hx; exists x; split; [done|apply asked_grows_refl]].
  intros HI0. eapply (eg_sys (commands := commands) (cpu := cpu) (fuel := fuel)); [exact H3|auto].
Qed.
#[local] Hint Resolve goes_start_draining : goes.

Lemma goes_with_request n k : (forall asked, goes I (k asked)) -> goes I (with_request n k).
Proof. intros Hk. unfold with_request. goes_tac; auto. Qed.
Lemma goes_counted f : goes I (counted_of f).
Proof. apply goes_client. intros sc. apply eg_check. keeps_step; [apply keeps_gets|apply keeps_ret]. Qed.
#[local] Hint Resolve goes_counted : goes.

Lemma goes_handle_op op : goes I (run_handle commands cpu fuel op).
Proof.
  destruct op; cbn [run_handle]; unfold reply_message, notify_start, let_request_go; goes_tac;
    try (apply goes_client; intros sc); try (apply goes_with_request; intros asked; goes_tac);
    eauto using eg_send_queue, eg_set_delivery, eg_clear_delivery, eg_set_key_filters.
  apply goes_mod_asked. by split.
Qed.
#[local] Hint Resolve goes_handle_op : goes.

Lemma goes_yield : goes I (yield_to_callers commands cpu fuel).
Proof. unfold yield_to_callers. goes_tac. Qed.
#[local] Hint Resolve goes_yield : goes.
Lemma goes_load A (f : PlainServer -> A) : goes I (load commands cpu fuel f).
Proof. unfold load. goes_tac. Qed.
#[local] Hint Resolve goes_load : goes.
Lemma goes_do A (p : Doing A) : goes I (do commands cpu fuel p).
Proof. induction p as [a|op k IH]; cbn [do]; goes_tac. Qed.
#[local] Hint Resolve goes_do : goes.
Lemma goes_run_handler A (f : handler -> Doing (A * handler)) : goes I (run_handler commands cpu fuel f).
Proof. unfold run_handler. goes_tac. Qed.
#[local] Hint Resolve goes_run_handler : goes.

Lemma goes_handle received n : goes I (handle commands cpu fuel received n).
Proof. unfold handle, handle_failure. goes_tac; apply goes_mod_asked; by split. Qed.
Lemma goes_echo received what : goes I (echo commands cpu fuel received what).
Proof. unfold echo. goes_tac. Qed.
#[local] Hint Resolve goes_handle goes_echo : goes.
Lemma goes_handle_internal received : goes I (handle_internal commands cpu fuel received).
Proof. unfold handle_internal. goes_tac. Qed.
#[local] Hint Resolve goes_handle_internal : goes.
Lemma goes_handle_received received : goes I (handle_received commands cpu fuel received).
Proof. unfold handle_received. goes_tac. apply goes_lock. intros sc. by apply (eg_confirm_number commands cpu fuel). Qed.
#[local] Hint Resolve goes_handle_received : goes.

Lemma goes_wait n limit ack : goes I (wait commands cpu fuel n limit ack).
Proof.
  induction n as [|n IH]; cbn [wait]; goes_tac. apply goes_lock. intros sc. unfold wait_for_server.
  apply eg_wait_for_message; [exact _|apply keeps_gets].
Qed.
Lemma goes_run_callback event : goes I (run_callback commands cpu fuel event).
Proof. unfold run_callback. goes_tac. Qed.
#[local] Hint Resolve goes_wait goes_run_callback : goes.
Lemma goes_run_deferred : goes I (run_deferred commands cpu fuel).
Proof. unfold run_deferred. goes_tac. Qed.
Lemma goes_next_wait poll : goes I (next_wait commands cpu fuel poll).
Proof. unfold next_wait. goes_tac. Qed.
Lemma goes_drained : goes I (drained commands cpu fuel).
Proof.
  unfold drained. goes_tac. apply goes_lock. intros sc. keeps_step; [by apply eg_flush_all|].
  destruct (orphaned sc); [apply keeps_ret|apply keeps_gets].
Qed.
#[local] Hint Resolve goes_run_deferred goes_next_wait goes_drained : goes.
Lemma goes_serve_loop n poll : goes I (serve_loop commands cpu fuel n poll).
Proof. induction n as [|n IH]; cbn [serve_loop]; goes_tac. Qed.
Lemma goes_drain_loop n : goes I (drain_loop commands cpu fuel n).
Proof.
  induction n as [|n IH]; cbn [drain_loop]; goes_tac. apply goes_lock. intros sc. unfold receive. by apply eg_wait_to_receive.
Qed.
#[local] Hint Resolve goes_serve_loop goes_drain_loop : goes.
Lemma goes_serve poll : goes I (serve commands cpu fuel poll).
Proof.
  unfold serve. goes_tac; apply goes_lock; intros sc; [by apply eg_connect_all|]. apply (eg_do commands cpu fuel); exact _.
Qed.
Lemma goes_close timeout : goes I (close commands cpu fuel timeout).
Proof.
  unfold close. goes_tac. apply goes_lock. intros sc. unfold SyncClient_refuse_arrivals, SyncClient_refuse_unread.
  keeps_step; [apply (eg_do commands cpu fuel); exact _|]. keeps_step; [apply (eg_do commands cpu fuel); exact _|].
  keeps_step; [by apply eg_shutdown|apply keeps_gets].
Qed.
Lemma goes_loop_iter timeout : goes I (loop_iter commands cpu fuel timeout).
Proof. unfold loop_iter. goes_tac. Qed.
Lemma goes_connect : goes I (server_connect commands cpu fuel).
Proof. unfold server_connect. goes_tac. apply goes_client. intros sc. by apply eg_connect_all. Qed.

Lemma grows_drain (s : PlainServer) drain : server_grows s (s <| ps_drain := drain |>).
Proof. grows_tac. Qed.
Lemma goes_serve_forever poll drain : goes I (serve_forever commands cpu fuel poll drain).
Proof.
  intros s m e s' m' Hm. unfold serve_forever in Hm. destruct (server_orphaned s); [by injection Hm as <- <- <-|].
  apply dbind_some in Hm as ([served s1] & m1 & H1 & Hm). apply dbind_some in Hm as ([closed s2] & m2 & H2 & [= <- <- <-]).
  destruct (goes_serve _ _ _ _ _ _ H1) as [K1 G1], (goes_close _ _ _ _ _ _ H2) as [K2 G2].
  split; [auto|]. etrans; [apply (grows_drain s drain)|by etrans].
Qed.
End Calls.
#[export] Hint Resolve goes_line goes_reply goes_answered goes_handle_op goes_load goes_do goes_run_handler goes_handle goes_handle_internal
  goes_handle_received goes_wait goes_run_deferred goes_next_wait goes_drained goes_serve_loop goes_drain_loop goes_serve goes_close : goes.
#[export] Hint Extern 1 (Engined _ _ _ _) => exact _ : goes.
#[export] Hint Extern 2 (dleads _ _ (ask _)) => apply keeps_gets : goes.

(** ** What no panic goes through *)

Section Calm.
Context {E : Env} {P : Program} {OS : Os} {HD : Handler} {CA : Callers} (commands : Z -> Call) (cpu : Cpu) (fuel : nat).

Definition calm {A} (p : SM A) : Prop := forall s m e s' m', p s m = Some ((e, s'), m') -> exists a, e = Returns a.

Lemma calm_ret A (a : A) : calm (sret a).
Proof. intros s m e s' m' [= <- <- <-]. eauto. Qed.
Lemma calm_gets A (f : PlainServer -> A) : calm (sgets f).
Proof. intros s m e s' m' [= <- <- <-]. eauto. Qed.
Lemma calm_mod f : calm (smod f).
Proof. intros s m e s' m' [= <- <- <-]. eauto. Qed.
Lemma calm_lift A (p : DM A) : calm (lift p).
Proof. intros s m e s' m' Hm. apply dbind_some in Hm as (a & m1 & Hm & [= <- <- <-]). eauto. Qed.
Lemma calm_bind A B (p : SM A) (k : A -> SM B) : calm p -> (forall a, calm (k a)) -> calm (sbind p k).
Proof.
  intros Hp Hk s m e s' m' Hm. apply sbind_some in Hm as (e1 & s1 & m1 & H1 & H2). destruct (Hp _ _ _ _ _ H1) as [a ->]. by eapply Hk.
Qed.
(** A bind of one run: both its programs did. *)
Lemma calm_some A B (p : SM A) (k : A -> SM B) s m e s' m' :
  calm p -> sbind p k s m = Some ((e, s'), m') -> exists a s1 m1, p s m = Some ((Returns a, s1), m1) /\ k a s1 m1 = Some ((e, s'), m').
Proof.
  intros Hp Hm. apply sbind_some in Hm as (e1 & s1 & m1 & H1 & H2). destruct (Hp _ _ _ _ _ H1) as [a ->]. eauto.
Qed.
Lemma calm_when b p : calm p -> calm (swhen b p).
Proof. destruct b; [done|intros _; apply calm_ret]. Qed.
Lemma calm_for_each A (l : list A) body : (forall x, calm (body x)) -> calm (sfor_each l body).
Proof. intros H. induction l as [|x l IH]; [apply calm_ret|]. by apply calm_bind. Qed.
End Calm.

Create HintDb calm discriminated.
Ltac calm_step :=
  match goal with
  | |- calm (sret _) => apply calm_ret
  | |- calm (sgets _) => apply calm_gets
  | |- calm (smod _) => apply calm_mod
  | |- calm (lift _) => apply calm_lift
  | |- calm (sbind _ _) => apply calm_bind; [|intros ?]
  | |- calm (swhen _ _) => apply calm_when
  | |- calm (sfor_each _ _) => apply calm_for_each; intros ?
  | |- calm (match ?x with _ => _ end) => destruct x eqn:?
  | |- calm _ => solve [eauto 3 with calm nocore]
  end.
Ltac calm_tac := repeat (cbn beta; calm_step).

Section CalmCalls.
Context {E : Env} {P : Program} {OS : Os} {HD : Handler} {CA : Callers} (commands : Z -> Call) (cpu : Cpu) (fuel : nat).

Lemma calm_reply connection message : calm (reply_through commands cpu fuel connection message).
Proof. unfold reply_through, client. calm_tac. Qed.
#[local] Hint Resolve calm_reply : calm.
Lemma calm_handle_op op : calm (run_handle commands cpu fuel op).
Proof.
  destruct op; cbn [run_handle]; unfold reply_message, notify_start, let_request_go, with_request, answered, mod_asked, line,
    counted_of, start_draining, client; calm_tac.
Qed.
#[local] Hint Resolve calm_handle_op : calm.
Lemma calm_load A (f : PlainServer -> A) : calm (load commands cpu fuel f).
Proof. unfold load, yield_to_callers. calm_tac. Qed.
Lemma calm_do A (p : Doing A) : calm (do commands cpu fuel p).
Proof. induction p as [a|op k IH]; cbn [do]; unfold yield_to_callers; calm_tac. Qed.
#[local] Hint Resolve calm_load calm_do : calm.
Lemma calm_run_handler A (f : handler -> Doing (A * handler)) : calm (run_handler commands cpu fuel f).
Proof. unfold run_handler. calm_tac. Qed.
#[local] Hint Resolve calm_run_handler : calm.
Lemma calm_run_deferred : calm (run_deferred commands cpu fuel).
Proof. unfold run_deferred, run_callback. calm_tac. Qed.
#[local] Hint Resolve calm_run_deferred : calm.
Lemma calm_close timeout : calm (close commands cpu fuel timeout).
Proof. unfold close, lock. calm_tac. Qed.
Lemma calm_wait n limit ack : calm (wait commands cpu fuel n limit ack).
Proof. induction n as [|n IH]; cbn [wait]; unfold lock; calm_tac. Qed.
Lemma calm_next_wait poll : calm (next_wait commands cpu fuel poll).
Proof. unfold next_wait. calm_tac. Qed.
End CalmCalls.
#[export] Hint Resolve calm_reply calm_handle_op calm_load calm_do calm_run_handler calm_run_deferred calm_close calm_wait calm_next_wait : calm.

(** ** A message handled *)

Section Handled.
Context {E : Env} {P : Program} {OS : Os} {HD : Handler} {CA : Callers} (commands : Z -> Call) (cpu : Cpu) (fuel : nat).

#[local] Instance engined_anything : Engined commands cpu fuel (fun _ => True).
Proof. by split. Qed.

Lemma grows_of A (p : SM A) s m e s' m' : goes (fun _ => True) p -> p s m = Some ((e, s'), m') -> server_grows s s'.
Proof. intros Hp Hm. by destruct (Hp _ _ _ _ _ Hm). Qed.

(** Takes the first program of a run off it. *)
Ltac dstep H a m E := apply dbind_some in H as (a & m & E & H).
Ltac sgo H a s m E := apply calm_some in H as (a & s & m & E & H); [|solve [unfold line, answered, mod_asked, lock; calm_tac]].
Ltac sgrow E G := let G' := fresh in pose proof (fun Hg => grows_of _ _ _ _ _ _ _ Hg E) as G'; pose proof (G' ltac:(goes_tac)) as G; clear G'.

(** What became of the request of a message that was handled, and what the server's log says of it. *)
Definition settled (message : Message) (handled : Handled) (a : Asked) (lines : list PlainLine) : Prop :=
  rs_message (as_state a) = message
  /\ if ha_failed handled then
       rs_failed (as_state a) = true /\ (rs_answered (as_state a) = true \/ m_references message <> 0)
       /\ exists error, LnHandlerFailed error ∈ lines
            /\ forall x, ha_end handled = Some x -> x = error \/ exists panic, x = panicked_text panic /\ LnErrorPanicked panic ∈ lines
     else
       ha_end handled = None
       /\ (rs_kept (as_state a) = true \/ rs_answered (as_state a) = true \/ LnUnanswered (m_id message) (m_type message) ∈ lines).

Lemma grows_line l s m e s' m' : line l s m = Some ((e, s'), m') -> l ∈ ps_lines s' /\ server_grows s s'.
Proof. intros [= <- <- <-]. split; [cbn; set_solver|grows_tac]. Qed.
Lemma grows_in l (s s' : PlainServer) : l ∈ ps_lines s -> server_grows s s' -> l ∈ ps_lines s'.
Proof. intros Hl [_ _ _ _ _ _ [k ->] _]. set_solver. Qed.

Lemma lock_some A (k : SyncClient -> DM A) s m e s' m' :
  lock k s m = Some ((e, s'), m') -> s' = s /\ exists a, e = Returns a /\ k (ps_client s) m = Some (a, m').
Proof.
  intros Hs. unfold lock in Hs. apply sbind_some in Hs as (e1 & s1 & m1 & [= <- <- <-] & Hs).
  apply dbind_some in Hs as (a & m2 & Hs & [= <- <- <-]). eauto.
Qed.
Lemma load_eq A (f : PlainServer -> A) s m a s' m' : load commands cpu fuel f s m = Some ((Returns a, s'), m') -> a = f s'.
Proof.
  intros Hs. unfold load in Hs. apply sbind_some in Hs as (e1 & s1 & m1 & _ & Hs). destruct e1; [|by destruct Hs as [Hs _]].
  by injection Hs as <- <- <-.
Qed.
Lemma mod_asked_eq n f s m e s' m' a :
  mod_asked n f s m = Some ((e, s'), m') -> ps_requests s !! n = Some a -> ps_requests s' !! n = Some (f a).
Proof. intros [= <- <- <-] Ha. cbn. by rewrite list_lookup_alter_eq, Ha. Qed.

(** The server once it noted the failure of request [n]. *)
Definition failure_noted (n : nat) (error : list Z) (s : PlainServer) : PlainServer :=
  s <| ps_requests ::= alter (fun a => a <| as_state ::= fun r => r <| rs_failed := true |> |>) n |>
    <| ps_lines ::= fun lines => lines ++ [LnHandlerFailed error] |>.

(** The failure's report.  One of a request not answered yet, if the message answers no other, goes through the message's
    connection to its sender: a BACKEND_ERROR that names the message and says the error.  The log has it when it could not
    be sent, and the request is answered with it. *)
Definition reported (received : Received) (n : nat) (error : list Z) (unanswered : bool)
    (s : PlainServer) (m : Machine) (s' : PlainServer) (m' : Machine) : Prop :=
  let message := re_message received in
  if unanswered && (m_references message =? 0) then
    exists report answer s1,
      m_type report = types.BACKEND_ERROR /\ m_to report = Some (m_sender message) /\ m_references report = m_id message
      /\ m_payload report = error
      /\ reply_through commands cpu fuel (re_connection received) report (failure_noted n error s) m = Some ((Returns answer, s1), m')
      /\ s' = (match answer with Err e => s1 <| ps_lines ::= fun lines => lines ++ [LnNotReported e] |> | Ok _ => s1 end)
                <| ps_requests ::= alter (fun a => a <| as_state ::= fun r => r <| rs_answered := true |> |>) n |>
  else s' = failure_noted n error s /\ m' = m.

(** What a failure comes to: its report, then the word of [on_handler_error]. *)
Definition failure_run (received : Received) (n : nat) (error : list Z) (unanswered : bool)
    (s : PlainServer) (m : Machine) (h : Handled) (m' : Machine) : Prop :=
  exists s1 m1 word s2, reported received n error unanswered s m s1 m1
    /\ run_handler commands cpu fuel (on_handler_error error) s1 m1 = Some ((Returns word, s2), m') /\ h = mkHandled true (end_of error word).

Lemma handle_failure_run received n error unanswered s m e s' m' :
  handle_failure commands cpu fuel received n error unanswered s m = Some ((e, s'), m') ->
  exists h, e = Returns h /\ failure_run received n error unanswered s m h m'.
Proof.
  intros Hs. unfold handle_failure in Hs. sgo Hs u1 s1 m1 E1. injection E1 as <- <- <-. sgo Hs u2 s2 m2 E2. injection E2 as <- <- <-.
  sgo Hs u3 s3 m3 E3. sgo Hs word s4 m4 E4. sgo Hs u5 s5 m5 E5. injection Hs as <- <- <-.
  eexists. split; [reflexivity|]. exists s3, m3, word, s4. assert (m5 = m4) as -> by (destruct word; by injection E5).
  split_and!; [|exact E4|done]. unfold reported. destruct (unanswered && _); cbn [swhen] in E3; [|by injection E3 as <- <- <-].
  sgo E3 answer s6 m6 E6. sgo E3 u7 s7 m7 E7. injection E3 as <- <- <-. assert (m7 = m6) as -> by (destruct answer; by injection E7).
  exists (report_error_of (re_message received) error), answer, s6. split_and!; try done. destruct answer; by injection E7 as <- <-.
Qed.

Lemma handle_failure_end received n error unanswered s m e s' m' a :
  ps_requests s !! n = Some a -> rs_message (as_state a) = re_message received -> unanswered = negb (rs_answered (as_state a)) ->
  handle_failure commands cpu fuel received n error unanswered s m = Some ((e, s'), m') ->
  exists h a', e = Returns h /\ ps_requests s' !! n = Some a' /\ settled (re_message received) h a' (ps_lines s').
Proof.
  intros Ha Hm Hu Hs. unfold handle_failure in Hs. sgo Hs u1 s1 m1 E1. apply (mod_asked_eq _ _ _ _ _ _ _ a) in E1; [|done].
  sgo Hs u2 s2 m2 E2. apply grows_line in E2 as [L2 G2].
  destruct (sg_requests _ _ G2 n _ E1) as (a2 & Ha2 & Hg2).
  sgo Hs u3 s3 m3 E3. assert (H3 : server_grows s2 s3 /\ exists a3, ps_requests s3 !! n = Some a3 /\ asked_grows a2 a3
    /\ (unanswered && (m_references (re_message received) =? 0) = true -> rs_answered (as_state a3) = true)).
  { destruct (unanswered && _) eqn:Hb; cbn [swhen] in E3.
    - sgo E3 r4 s4 m4 E4. sgrow E4 G4. sgo E3 u5 s5 m5 E5. sgrow E5 G5. assert (G : server_grows s2 s5) by (by etrans).
      destruct (sg_requests _ _ G n _ Ha2) as (a5 & Ha5 & Hg5). pose proof E3 as E6. sgrow E6 G6. apply (mod_asked_eq _ _ _ _ _ _ _ a5) in E3; [|done].
      split; [by etrans|]. eexists. split; [exact E3|]. split; [eapply asked_grows_trans; [exact Hg5|by split]|done].
    - injection E3 as <- <- <-. split; [done|]. exists a2. split_and!; [done|apply asked_grows_refl|done]. }
  destruct H3 as (G3 & a3 & Ha3 & Hg3 & Hans). sgo Hs word s4 m4 E4. sgrow E4 G4. sgo Hs u5 s5 m5 E5. sgrow E5 G5. injection Hs as <- <- <-.
  assert (G : server_grows s3 s5) by (by etrans). destruct (sg_requests _ _ G n _ Ha3) as (a5 & Ha5 & Hg5).
  assert (Hall : asked_grows (a <| as_state ::= fun r => r <| rs_failed := true |> |>) a5) by (by do 2 (eapply asked_grows_trans; [done|])).
  eexists _, a5. split_and!; [done|done|]. split; [by rewrite (ag_message _ _ Hall)|]. cbn [ha_failed ha_end]. split_and!.
  - by apply (ag_failed _ _ Hall).
  - destruct (m_references (re_message received) =? 0) eqn:Hr; [left|right; lia]. rewrite andb_true_r, Hu in Hans.
    destruct (rs_answered (as_state a)) eqn:Hra; [by apply (ag_answered _ _ Hall)|]. by apply (ag_answered _ _ Hg5), Hans.
  - exists error. split; [eapply grows_in; [exact L2|by etrans]|]. intros x. destruct word as [[]|panic]; cbn [end_of]; [done|intros [= <-]; by left|].
    intros [= <-]. right. exists panic. split; [done|]. by apply grows_line in E5 as [].
Qed.

(** The request handled: the handler's function, then what its end comes to. *)
Definition handle_run (received : Received) (n : nat) (s : PlainServer) (m : Machine) (h : Handled) (m' : Machine) : Prop :=
  exists failure s1 m1 asked s2 m2,
    run_handler commands cpu fuel (handle_message n received) s m = Some ((Returns failure, s1), m1)
    /\ load commands cpu fuel (fun s => ps_requests s !! n) s1 m1 = Some ((Returns (Some asked), s2), m2)
    /\ match failure with
       | None => h = mkHandled false None /\ m' = m2
       | Some error => failure_run received n error (negb (rs_answered (as_state asked))) s2 m2 h m'
       end.

Lemma handle_end received n s m e s' m' a :
  ps_requests s !! n = Some a -> rs_message (as_state a) = re_message received ->
  handle commands cpu fuel received n s m = Some ((e, s'), m') ->
  exists h a', e = Returns h /\ ps_requests s' !! n = Some a' /\ settled (re_message received) h a' (ps_lines s')
    /\ handle_run received n s m h m'.
Proof.
  intros Ha Hm Hs. unfold handle in Hs. sgo Hs outcome s1 m1 E1. sgrow E1 G1. sgo Hs found s2 m2 E2. sgrow E2 G2.
  assert (G : server_grows s s2) by (by etrans). destruct (sg_requests _ _ G n _ Ha) as (a2 & Ha2 & Hg2).
  pose proof E2 as Hfound. apply load_eq in E2 as ->. rewrite Ha2 in Hs, Hfound. cbn [from_option id] in Hs.
  assert (Hm2 : rs_message (as_state a2) = re_message received) by (by rewrite (ag_message _ _ Hg2)).
  destruct outcome as [error|].
  { destruct (handle_failure_end _ _ _ _ _ _ _ _ _ _ Ha2 Hm2 eq_refl Hs) as (h & a' & -> & Ha' & Hset).
    destruct (handle_failure_run _ _ _ _ _ _ _ _ _ Hs) as (h' & [= <-] & Hrun). exists h, a'. split_and!; try done.
    by exists (Some error), s1, m1, a2, s2, m2. }
  assert (Hrun : handle_run received n s m (mkHandled false None) m2) by (by exists None, s1, m1, a2, s2, m2).
  destruct (as_held a2) eqn:Hh.
  - sgo Hs u3 s3 m3 E3. assert (m3 = m2) as -> by (by injection E3). apply (mod_asked_eq _ _ _ _ _ _ _ a2) in E3; [|done]. injection Hs as <- <- <-.
    eexists _, _. split_and!; [done|exact E3| |done]. split; [done|]. split; [done|]. by left.
  - sgo Hs u3 s3 m3 E3. injection Hs as <- <- <-. destruct (rs_answered (as_state a2)) eqn:Hra; cbn [negb swhen] in E3.
    + injection E3 as <- <- <-. eexists _, a2. split_and!; [done|done| |done]. split; [done|]. split; [done|]. by right; left.
    + assert (m3 = m2) as -> by (by injection E3). apply grows_line in E3 as [L3 G3]. destruct (sg_requests _ _ G3 n _ Ha2) as (a3 & Ha3 & Hg3).
      eexists _, a3. split_and!; [done|done| |done]. split; [by rewrite (ag_message _ _ Hg3)|]. split; [done|]. by right; right.
Qed.

(** The server with the request of a message made. *)
Definition asking (received : Received) (s : PlainServer) : PlainServer :=
  s <| ps_requests ::= fun l => l ++ [mkAsked (Request_new (re_message received) Sync) (re_connection received) true] |>.

Lemma handle_received_end received s m e s' m' :
  types.MAX_MULTIPLEXER_META_PACKET < m_type (re_message received) ->
  handle_received commands cpu fuel received s m = Some ((e, s'), m') ->
  exists h a m1, e = Returns (ha_end h) /\ handle_run received (length (ps_requests s)) (asking received s) m h m1
    /\ ps_requests s' !! length (ps_requests s) = Some a /\ settled (re_message received) h a (ps_lines s')
    /\ mc_core m' =
         match m_confirmation (re_message received) with
         | Some number =>
             if orphaned (ps_client s) then mc_core m1
             else (confirm (m_sender (re_message received)) number (if ha_failed h then ConfirmedFailed else Processed) (mc_core m1)).2
         | None => mc_core m1
         end.
Proof.
  intros Ht Hs. unfold handle_received in Hs. destruct (Z.leb_spec (m_type (re_message received)) types.MAX_MULTIPLEXER_META_PACKET); [lia|].
  sgo Hs n s1 m1 E1. injection E1 as <- <- <-. sgo Hs u2 s2 m2 E2. injection E2 as <- <- <-.
  match type of Hs with sbind _ _ ?s0 _ = _ => change s0 with (asking received s) in Hs end.
  assert (Ha : ps_requests (asking received s) !! length (ps_requests s)
    = Some (mkAsked (Request_new (re_message received) Sync) (re_connection received) true)).
  { cbn. by rewrite lookup_app_r, Nat.sub_diag by done. }
  assert (Hc : ps_client (asking received s) = ps_client s) by done.
  apply sbind_some in Hs as (e3 & s3 & m3 & E3 & Hs). destruct (handle_end _ _ _ _ _ _ _ _ Ha eq_refl E3) as (h & a & -> & Ha3 & Hset & Hrun).
  sgrow E3 G3. exists h, a, m3. destruct (m_confirmation (re_message received)) as [number|]; cbn [fmap option_fmap option_map] in Hs.
  - sgo Hs u4 s4 m4 E4. injection Hs as <- <- <-. apply lock_some in E4 as (-> & u & [= <-] & E4). rewrite (sg_client _ _ G3), Hc in E4. split_and!; [done|done|done|done|].
    unfold confirm_number in E4. destruct (orphaned (ps_client s)); cbn [negb dwhen] in E4; [by injection E4 as <- <-|]. by apply on_core_eq in E4 as ->.
  - sgo Hs u4 s4 m4 E4. injection E4 as <- <- <-. by injection Hs as <- <- <-.
Qed.

(** C23: A message of the program's given to the plain server is handled to its end, whatever its handler does, panics
    included.  The handler's function runs, with a request of the message; then the request was answered, or is kept by the
    program, or the log says it was not.  After a failure a request not answered yet, of a message that answers no other, is
    reported: the requester is sent a BACKEND_ERROR that names the message and carries the error, before
    [on_handler_error] is asked, and the log has the failure.  A message of a confirmed batch is confirmed to its producer
    after that, as failed when the handler failed and as processed otherwise; and only a failure, with the word of
    [on_handler_error] or its panic, ends the server. *)
Theorem message_handled received s m e s' m' :
  types.MAX_MULTIPLEXER_META_PACKET < m_type (re_message received) ->
  handle_received commands cpu fuel received s m = Some ((e, s'), m') ->
  exists h a m1, e = Returns (ha_end h) /\ handle_run received (length (ps_requests s)) (asking received s) m h m1
    /\ ps_requests s' !! length (ps_requests s) = Some a /\ settled (re_message received) h a (ps_lines s')
    /\ mc_core m' =
         match m_confirmation (re_message received) with
         | Some number =>
             if orphaned (ps_client s) then mc_core m1
             else (confirm (m_sender (re_message received)) number (if ha_failed h then ConfirmedFailed else Processed) (mc_core m1)).2
         | None => mc_core m1
         end.
Proof. apply handle_received_end. Qed.

(** ** How serving ends *)

(** The error a server ends with for its handler's sake. *)
Definition handler_failed (error : list Z) (lines : list PlainLine) : Prop :=
  exists failure, LnHandlerFailed failure ∈ lines
    /\ (error = failure \/ exists panic, error = panicked_text panic /\ LnErrorPanicked panic ∈ lines).

Lemma handle_received_ends received s m ended s' m' :
  handle_received commands cpu fuel received s m = Some ((Returns (Some ended), s'), m') -> handler_failed ended (ps_lines s').
Proof.
  intros Hs. destruct (Z.leb_spec (m_type (re_message received)) types.MAX_MULTIPLEXER_META_PACKET) as [Ht|Ht].
  { unfold handle_received in Hs. apply Z.leb_le in Ht. rewrite Ht in Hs. apply sbind_some in Hs as (e1 & s1 & m1 & _ & Hs).
    destruct e1; [done|by destruct Hs]. }
  destruct (handle_received_end _ _ _ _ _ _ Ht Hs) as (h & a & m1 & [= He] & _ & _ & [_ Hset] & _).
  destruct (ha_failed h); [|by destruct Hset as [Hn _]; rewrite Hn in He]. destruct Hset as (_ & _ & failure & Hf & Hx).
  exists failure. split; [done|]. by apply Hx.
Qed.

(** A wait for a message fails only without a deadline, where nothing could ever arrive. *)
Lemma wait_loop_error n limit ack want m x m' :
  wait_loop commands cpu fuel n limit ack want m = Some (Some (Err x), m') ->
  x = Failed NotConnected /\ limit = None /\ idle m' = true.
Proof.
  revert m. induction n as [|n IH]; intros m Hm; cbn [wait_loop] in Hm; [done|].
  dstep Hm u1 m1 E1. dstep Hm next m2 E2. destruct next as [incoming|]; [done|].
  dstep Hm u3 m3 E3. dstep Hm woken m4 E4. destruct woken; [done|]. dstep Hm u5 m5 E5. dstep Hm over m6 E6. destruct over; [done|].
  dstep Hm wanted m7 E7. destruct wanted; [done|]. dstep Hm ran m8 E8. destruct (ran =? 0)%nat eqn:H0; [|by eapply IH].
  injection Hm as <- <-. split; [done|]. by eapply run_one_none.
Qed.
Lemma wait_for_message_error sc limit ack want m x m' :
  orphaned sc = false -> wait_for_message commands cpu fuel sc limit ack want m = Some (Err x, m') ->
  x = Failed NotConnected /\ limit = None /\ idle m' = true.
Proof.
  intros Ho Hm. unfold wait_for_message, check in Hm. rewrite Ho in Hm. dstep Hm res m1 E1. destruct res as [answer|].
  - injection Hm as -> <-. by eapply wait_loop_error.
  - dstep Hm u2 m2 E2. dstep Hm u3 m3 E3. by dstep Hm next m4 E4.
Qed.
Lemma wait_error n limit ack s m x s' m' :
  orphaned (ps_client s) = false -> wait commands cpu fuel n limit ack s m = Some ((Returns (Err x), s'), m') ->
  x = Failed NotConnected /\ limit = None /\ idle m' = true.
Proof.
  revert s m. induction n as [|n IH]; intros s m Ho Hs; cbn [wait] in Hs; [done|]. sgo Hs working s1 m1 E1. sgrow E1 G1.
  destruct (negb working); [done|]. sgo Hs waited s2 m2 E2. apply lock_some in E2 as (-> & w & [= ->] & E2). assert (Ho1 : orphaned (ps_client s1) = false) by (by rewrite (sg_client _ _ G1)).
  destruct w as [[r| |]|x']; [done|done|by eapply IH|]. injection Hs as <- <- <-. by eapply wait_for_message_error.
Qed.

(** The loop's flags say to go on: the server is not draining, or [drained] says it is not. *)
Definition goes_on (s : PlainServer) (m : Machine) (s' : PlainServer) (m' : Machine) : Prop :=
  exists s1 m1 draining s2 m2, load commands cpu fuel ps_working s m = Some ((Returns true, s1), m1)
    /\ load commands cpu fuel ps_draining s1 m1 = Some ((Returns draining, s2), m2)
    /\ if draining then drained commands cpu fuel s2 m2 = Some ((Returns false, s'), m') else s' = s2 /\ m' = m2.

(** What a turn of the loop gets to handle, and that this ends nothing. *)
Definition handles (received : option Received) (s : PlainServer) (m : Machine) (s' : PlainServer) (m' : Machine) : Prop :=
  match received with
  | Some incoming => handle_received commands cpu fuel incoming s m = Some ((Returns None, s'), m')
  | None => s' = s /\ m' = m
  end.

(** Turns of the loop. *)
Inductive serving (poll : Z) : PlainServer -> Machine -> PlainServer -> Machine -> Prop :=
| serving_none s m : serving poll s m s m
| serving_turn s m s1 m1 limit s2 m2 received s3 m3 s4 m4 s5 m5 s6 m6 s' m' :
    goes_on s m s1 m1 -> next_wait commands cpu fuel poll s1 m1 = Some ((Returns limit, s2), m2) ->
    wait commands cpu fuel fuel limit true s2 m2 = Some ((Returns (Ok received), s3), m3) ->
    run_deferred commands cpu fuel s3 m3 = Some ((Returns tt, s4), m4) -> handles received s4 m4 s5 m5 ->
    run_handler commands cpu fuel periodic_task s5 m5 = Some ((Returns (Returns tt), s6), m6) ->
    serving poll s6 m6 s' m' -> serving poll s m s' m'.

(** The loop's reasons to end: it was stopped; its drain began and [drained] says that it is over; or its wait, which has no
    deadline, finds that nothing could ever arrive. *)
Definition stopped (s : PlainServer) (m : Machine) : Prop :=
  exists s1 m1, load commands cpu fuel ps_working s m = Some ((Returns false, s1), m1).
Definition drained_out (s : PlainServer) (m : Machine) : Prop :=
  exists s1 m1 s2 m2 s3 m3, load commands cpu fuel ps_working s m = Some ((Returns true, s1), m1)
    /\ load commands cpu fuel ps_draining s1 m1 = Some ((Returns true, s2), m2)
    /\ drained commands cpu fuel s2 m2 = Some ((Returns true, s3), m3).
Definition nothing_comes (poll : Z) (s : PlainServer) (m : Machine) : Prop :=
  exists s1 m1 s2 m2 s3 m3, goes_on s m s1 m1 /\ next_wait commands cpu fuel poll s1 m1 = Some ((Returns None, s2), m2)
    /\ wait commands cpu fuel fuel None true s2 m2 = Some ((Returns (Err (Failed NotConnected)), s3), m3) /\ idle m3 = true.

(** How the loop's part ends. *)
Definition served_end (poll : Z) (s : PlainServer) (m : Machine) (ended : Ends (result unit ServeError)) (s' : PlainServer) : Prop :=
  match ended with
  | Returns (Ok _) => exists s1 m1, serving poll s m s1 m1 /\ (stopped s1 m1 \/ drained_out s1 m1)
  | Returns (Err (ServeHandler error)) => handler_failed error (ps_lines s')
  | Returns (Err (ServeClient error)) => error = Failed NotConnected /\ exists s1 m1, serving poll s m s1 m1 /\ nothing_comes poll s1 m1
  | Unwinds _ => True
  end.

Lemma served_before poll s m s1 m1 e s' :
  (forall s2 m2, serving poll s1 m1 s2 m2 -> serving poll s m s2 m2) -> served_end poll s1 m1 e s' -> served_end poll s m e s'.
Proof.
  intros Ht. destruct e as [[u|[x|error]]|panic]; cbn [served_end]; [| |done|done].
  - intros (s2 & m2 & H & Hr). exists s2, m2. auto.
  - intros (-> & s2 & m2 & H & Hr). split; [done|]. exists s2, m2. auto.
Qed.

Lemma served_grows poll s0 m0 e s s' : server_grows s s' -> served_end poll s0 m0 e s -> served_end poll s0 m0 e s'.
Proof.
  intros G. destruct e as [[u|[x|error]]|panic]; cbn; [done|done| |done].
  intros (failure & Hf & Hx). exists failure. split; [by eapply grows_in|]. destruct Hx as [Hx|(panic & Hx & Hp)]; [by left|].
  right. exists panic. split; [done|by eapply grows_in].
Qed.

(** The part of a turn before its wait: the loop ends, a panic goes up, or it goes on. *)
Lemma serve_loop_head n poll s m e s' m' :
  serve_loop commands cpu fuel (S n) poll s m = Some ((e, s'), m') ->
  served_end poll s m e s'
  \/ exists s1 m1 limit s2 m2 received s3 m3 s4 m4, goes_on s m s1 m1
       /\ next_wait commands cpu fuel poll s1 m1 = Some ((Returns limit, s2), m2)
       /\ wait commands cpu fuel fuel limit true s2 m2 = Some ((Returns received, s3), m3)
       /\ run_deferred commands cpu fuel s3 m3 = Some ((Returns tt, s4), m4)
       /\ sbind (match received with
                 | Ok (Some incoming) => sbind (handle_received commands cpu fuel incoming) (fun ended => sret (ServeHandler <$> ended))
                 | Ok None => sret None
                 | Err e => sret (Some (ServeClient e))
                 end)
            (fun failed => match failed with
               | Some e => sret (Err e)
               | None => sbind (run_handler commands cpu fuel periodic_task) (fun done => sbind (unwinds done) (fun _ => serve_loop commands cpu fuel n poll))
               end) s4 m4 = Some ((e, s'), m').
Proof.
  intros Hs. cbn [serve_loop] in Hs. sgo Hs working s1 m1 E1. destruct working; cbn [negb] in Hs.
  2:{ injection Hs as <- <- <-. left. exists s, m. split; [constructor|left; by exists s1, m1]. }
  sgo Hs draining s2 m2 E2. apply sbind_some in Hs as (e3 & s3 & m3 & E3 & Hs). destruct e3 as [over|]; [|destruct Hs as [-> _]; by left].
  destruct over.
  { injection Hs as <- <- <-. left. destruct draining; [|by injection E3]. exists s, m. split; [constructor|right; by exists s1, m1, s2, m2, s3, m3]. }
  right. sgo Hs limit s4 m4 E4. sgo Hs received s5 m5 E5. sgo Hs u6 s6 m6 E6. destruct u6.
  exists s3, m3, limit, s4, m4, received, s5, m5, s6, m6. split_and!; [|done|done|done|exact Hs].
  exists s1, m1, draining, s2, m2. split_and!; [done|done|]. destruct draining; [done|by injection E3 as <- <-].
Qed.

Lemma serve_loop_end n poll s m e s' m' :
  orphaned (ps_client s) = false -> serve_loop commands cpu fuel n poll s m = Some ((e, s'), m') -> served_end poll s m e s'.
Proof.
  revert s m. induction n as [|n IH]; intros s m Ho Hs; [done|].
  destruct (serve_loop_head _ _ _ _ _ _ _ Hs) as [H|(s1 & m1 & limit & s2 & m2 & received & s3 & m3 & s4 & m4 & Hgo & E2 & E3 & E4 & Hr)]; [done|].
  assert (G1 : server_grows s s1).
  { destruct Hgo as (sa & ma & dr & sb & mb & Ha & Hb & Hc). sgrow Ha Ga. sgrow Hb Gb. destruct dr; [sgrow Hc Gc|destruct Hc as [-> ->]]; by do 2 (etrans; [done|]). }
  sgrow E2 G2. sgrow E3 G3. sgrow E4 G4. clear Hs.
  assert (Ho2 : orphaned (ps_client s2) = false) by (by rewrite (sg_client _ _ G2), (sg_client _ _ G1)).
  assert (Hagain : forall got s5 m5, server_grows s4 s5 -> received = Ok got -> handles got s4 m4 s5 m5 ->
    sbind (run_handler commands cpu fuel periodic_task) (fun done => sbind (unwinds done) (fun _ => serve_loop commands cpu fuel n poll)) s5 m5
      = Some ((e, s'), m') -> served_end poll s m e s').
  { intros got s5 m5 G5 -> Hh Hr'. sgo Hr' task s6 m6 E6. sgrow E6 G6. apply sbind_some in Hr' as (e7 & s7 & m7 & [= <- <- <-] & Hr').
    destruct task as [[]|]; [|by destruct Hr' as [-> _]]. eapply (served_before poll s m s6 m6); [|eapply IH; [|exact Hr']].
    - intros s8 m8 Ht. by apply (serving_turn poll s m s1 m1 limit s2 m2 got s3 m3 s4 m4 s5 m5 s6 m6).
    - by rewrite (sg_client _ _ G6), (sg_client _ _ G5), (sg_client _ _ G4), (sg_client _ _ G3). }
  destruct received as [[incoming|]|x].
  - apply sbind_some in Hr as (e7 & s7 & m7 & E7 & Hr). apply sbind_some in E7 as (e8 & s8 & m8 & E8 & E7).
    destruct e8 as [ended|]; [injection E7 as <- <- <-|by destruct E7 as (-> & -> & ->), Hr as [-> _]]. sgrow E8 G8.
    destruct ended as [error|]; cbn [fmap option_fmap option_map] in Hr; [|by eapply (Hagain (Some incoming))].
    injection Hr as <- <- <-. by eapply handle_received_ends.
  - sgo Hr none s7 m7 E7. injection E7 as <- <- <-. by eapply (Hagain None).
  - sgo Hr none s7 m7 E7. injection E7 as <- <- <-. injection Hr as <- <- <-. destruct (wait_error _ _ _ _ _ _ _ _ Ho2 E3) as (-> & -> & Hi).
    split; [done|]. exists s, m. split; [constructor|]. by exists s1, m1, s2, m2, s3, m3.
Qed.

Lemma drain_loop_end n poll s0 m0 s m e s' m' :
  served_end poll s0 m0 (Returns (Ok tt)) s -> drain_loop commands cpu fuel n s m = Some ((e, s'), m') -> served_end poll s0 m0 e s'.
Proof.
  intros Hd. revert s m Hd. induction n as [|n IH]; intros s m Hd Hs; cbn [drain_loop] in Hs; [done|]. sgo Hs working s1 m1 E1.
  sgo Hs more s2 m2 E2. clear E1 E2.
  destruct (negb more); [by injection Hs as <- <- <-|]. sgo Hs received s3 m3 E3. sgo Hs u4 s4 m4 E4.
  destruct received as [incoming|x]; [|by injection Hs as <- <- <-].
  apply sbind_some in Hs as (e5 & s5 & m5 & E5 & Hs). destruct e5 as [ended|]; [|by destruct Hs as [-> _]].
  destruct ended as [error|]; [|by eapply (IH s5)]. injection Hs as <- <- <-. by eapply handle_received_ends.
Qed.

Lemma connect_all_error sc addresses timeout m x m' :
  orphaned sc = false -> connect_all commands cpu fuel sc addresses timeout m = Some (Err x, m') ->
  x = Failed NotConnected \/ x = Failed InvalidArgument /\ parse_all addresses = None.
Proof.
  intros Ho Hm. unfold connect_all, check in Hm. rewrite Ho in Hm. destruct (parse_all addresses); [|injection Hm as <- <-; by right].
  dstep Hm conns m1 E1. destruct conns; [|injection Hm as <- <-; by left]. dstep Hm limit m2 E2. dstep Hm u3 m3 E3. by dstep Hm up m4 E4.
Qed.

(** The server connected, or about to: its state where the loop begins. *)
Definition started (s : PlainServer) (m : Machine) (s' : PlainServer) (m' : Machine) : Prop :=
  if ps_connected s then s' = s /\ m' = m
  else s' = s <| ps_connected := true |>
       /\ exists up, connect_all commands cpu fuel (ps_client s) (ps_addresses s) (Some 0) m = Some (Ok up, m').

(** [serve]'s end: that of the loop once it began, or its connects were refused: an address does not parse, or the client
    connects no more. *)
Definition serve_end (poll : Z) (s : PlainServer) (m : Machine) (e : Ends (result unit ServeError)) (s' : PlainServer) : Prop :=
  (exists s1 m1, started s m s1 m1 /\ served_end poll s1 m1 e s')
  \/ exists x m1, e = Returns (Err (ServeClient x)) /\ ps_connected s = false
       /\ connect_all commands cpu fuel (ps_client s) (ps_addresses s) (Some 0) m = Some (Err x, m1)
       /\ (x = Failed NotConnected \/ x = Failed InvalidArgument /\ parse_all (ps_addresses s) = None).

Lemma serve_ends poll s m e s' m' :
  orphaned (ps_client s) = false -> serve commands cpu fuel poll s m = Some ((e, s'), m') -> serve_end poll s m e s'.
Proof.
  intros Ho Hs. unfold serve in Hs. sgo Hs s0 s1 m1 E1. injection E1 as <- <- <-. sgo Hs begun s2 m2 E2. cbn [id] in *.
  assert (H2 : match begun with
    | Ok _ => started s m s2 m2 /\ ps_client s2 = ps_client s
    | Err x => ps_connected s = false /\ connect_all commands cpu fuel (ps_client s) (ps_addresses s) (Some 0) m = Some (Err x, m2)
    end).
  { unfold started. destruct (ps_connected s); [injection E2 as <- <- <-; done|]. sgo E2 u3 s3 m3 E3. injection E3 as <- <- <-.
    apply lock_some in E2 as (-> & a & [= <-] & E2). destruct begun as [up|x]; [|done]. split; [|done]. split; [done|by exists up]. }
  destruct begun as [up|x].
  2:{ injection Hs as <- <- <-. destruct H2 as [Hc Hx]. right. exists x, m2. split_and!; try done. by eapply connect_all_error; [|exact Hx]. }
  destruct H2 as [Hst Hc]. left. exists s2, m2. split; [done|].
  apply sbind_some in Hs as (e3 & s3 & m3 & E3 & Hs). apply serve_loop_end in E3 as Hd; [|by rewrite Hc].
  destruct e3 as [[u|x]|panic]; [|by injection Hs as <- <- <-|by destruct Hs as (-> & -> & ->)]. destruct u.
  sgo Hs leaves s4 m4 E4. destruct (negb leaves); [by injection Hs as <- <- <-|].
  sgo Hs u5 s5 m5 E5. eapply drain_loop_end; [|exact Hs]. exact Hd.
Qed.

Lemma close_ends timeout s m e s' m' : close commands cpu fuel timeout s m = Some ((e, s'), m') -> ps_closed s' = true.
Proof.
  intros Hs. unfold close in Hs. sgo Hs s0 s1 m1 E1. injection E1 as <- <- <-. cbn [id] in *. destruct (ps_closed s) eqn:Hc.
  { by injection Hs as <- <- <-. }
  sgo Hs u2 s2 m2 E2. injection E2 as <- <- <-. match type of Hs with _ ?s0 _ = _ => set (s2 := s0) in Hs end.
  assert (H2 : ps_closed s2 = true) by done. clearbody s2. destruct (server_orphaned s).
  { by apply dbind_some in Hs as (a & m7 & _ & [= _ <- _]). }
  sgo Hs r3 s3 m3 E3. apply lock_some in E3 as (-> & _).
  sgo Hs u4 s4 m4 E4. injection E4 as <- <- <-. sgrow Hs G5. by apply (sg_closed _ _ G5).
Qed.

(** C32: [serve_forever] leaves the server closed, and ends for a reason.  It returns well only if after some turns of its
    loop the server was stopped, or was draining and [drained] said that the drain is over.  A handler's error is a failure
    its log has, or the panic of [on_handler_error] after one.  The client's error is that its connects were refused -- an
    address that does not parse, or a client that connects no more -- or that, after some turns of the loop, its wait without a
    deadline found that nothing could ever arrive: no socket, no name being resolved, no timer, nothing queued.  A panic of
    the handler's other functions goes on up, the server closed before. *)
Theorem serve_ends_for_a_reason poll drain s m e s' m' :
  serve_forever commands cpu fuel poll drain s m = Some ((e, s'), m') -> server_orphaned s = false ->
  ps_closed s' = true /\ serve_end poll (s <| ps_drain := drain |>) m e s'.
Proof.
  intros Hs Ho. unfold serve_forever in Hs. rewrite Ho in Hs. apply dbind_some in Hs as ([served s1] & m1 & E1 & Hs).
  apply dbind_some in Hs as ([closed s2] & m2 & E2 & [= <- <- <-]). split; [by eapply close_ends|].
  apply serve_ends in E1; [|done]. destruct (calm_close _ _ _ _ _ _ _ _ _ E2) as [u ->]. sgrow E2 G2.
  destruct E1 as [(s3 & m3 & H1 & H2)|H]; [left; exists s3, m3; split; [done|by eapply served_grows]|by right].
Qed.
End Handled.

(** ** Echoes *)

Section Echoes.
Context {E : Env} {P : Program} {OS : Os} {HD : Handler} {CA : Callers} (commands : Z -> Call) (cpu : Cpu) (fuel : nat).

(** A message of numbers and a payload alone. *)
Definition bare (m : MultiplexerMessage) : Prop :=
  m = MultiplexerMessage_default <| mm_id := mm_id m |> <| mm_sender := mm_sender m |> <| mm_to := mm_to m |> <| mm_type := mm_type m |>
        <| mm_references := mm_references m |> <| mm_message := mm_message m |>.

(** The wire's format: six fields, none of whose numbers takes more than ten bytes and its tag, and the payload. *)
Class Sized := sized m : bare m -> message_len m <= 128 + Z.of_nat (length (default [] (mm_message m))).

Lemma framed_fits encoded delivery :
  mm_key encoded = None -> message_len encoded <= MAX_MESSAGE_SIZE -> exists frame, framed encoded delivery = Ok frame.
Proof.
  intros Hk Hl. unfold framed, encode_unsealed, encode, encode_body. rewrite Hk. cbn [check_key_size].
  change (MAX_KEY_SIZE <? 0) with false. cbn iota. unfold check_message_size.
  destruct (Z.ltb_spec MAX_MESSAGE_SIZE (message_len encoded)); [lia|]. case_match; eauto.
Qed.

Lemma digits_length n x : (length (digits n x) <= n)%nat.
Proof.
  revert x. induction n as [|n IH]; intros x; cbn [digits]; [done|]. rewrite length_app. specialize (IH (x / 10)). cbn [length].
  destruct (x <? 10); cbn [length]; lia.
Qed.

Lemma too_large_fits `{!Sized} request what id sender :
  (length what <= 64)%nat -> message_len (stamped (too_large request what) id sender) <= MAX_MESSAGE_SIZE.
Proof.
  intros Hw. etrans; [apply sized|].
  - unfold stamped, too_large. repeat case_match; reflexivity.
  - assert (Hp : default [] (mm_message (stamped (too_large request what) id sender)) = m_payload (too_large request what)).
    { unfold stamped. repeat case_match; reflexivity. }
    rewrite Hp. cbn [too_large m_payload upd]. pose proof (digits_length 20 (Z.of_nat (length (m_payload request)))) as Hd.
    unfold show_usize in *. revert Hd. generalize (digits 20 (Z.of_nat (length (m_payload request)))) as shown. intros shown Hd.
    rewrite !length_app. change MAX_MESSAGE_SIZE with 134217728. 
    replace (length (text "the echo of a ")) with 14%nat by reflexivity. replace (length (text " of ")) with 4%nat by reflexivity.
    replace (length (text " bytes would be over MAX_MESSAGE_SIZE")) with 37%nat by reflexivity. lia.
Qed.

(** A send through a connection fails for its size, or for what the client is. *)
Lemma send_through_errors connection message sc m s m1 x m' :
  send_through connection (send_message message) m = Some (s, m1) ->
  (forall id sender delivery, exists frame, framed (stamped message id sender) delivery = Ok frame) ->
  send_queue commands cpu fuel sc s m1 = Some (Err x, m') ->
  x = Failed UsedAfterFork \/ x = Failed InvalidArgument \/ x = Failed NotConnected.
Proof.
  intros Hs Hf Hm. unfold send_through in Hs. apply dbind_some in Hs as (lane & m2 & _ & [= <- <-]).
  unfold send_queue, check in Hm. destruct (orphaned sc); [injection Hm as <- <-; auto|]. unfold check_lane in Hm.
  apply dbind_some in Hm as (error & m3 & E3 & Hm). destruct error as [error|].
  { injection Hm as <- <-. injection E3 as E3 _. unfold lane_error in E3. repeat case_match; simplify_eq; auto. }
  apply dbind_some in Hm as (closed & m4 & E4 & Hm). destruct closed; [injection Hm as <- <-; auto|].
  apply dbind_some in Hm as (id & m5 & E5 & Hm). apply dbind_some in Hm as (c & m6 & E6 & Hm).
  cbn [sd_on_end sd_all sd_lane upd send_message] in Hm. rewrite (bool_decide_eq_false_2 (Some lane = None)) in Hm by done.
  rewrite andb_false_r in Hm. cbn [andb] in Hm. cbn [sd_message upd send_message] in Hm.
  destruct (Hf id (cr_instance_id c) (configured (cr_batcher c))) as [frame Hframe]. rewrite Hframe in Hm.
  apply dbind_some in Hm as (now & m7 & _ & Hm). apply dbind_some in Hm as (needs & m8 & _ & Hm).
  apply dbind_some in Hm as (u & m9 & _ & Hm). apply dbind_some in Hm as ([[taken copies] used] & m10 & _ & Hm).
  injection Hm as Hm _. destruct taken; [done|]. injection Hm as <-. auto.
Qed.

Lemma reply_some connection message s m e s' m' :
  reply_through commands cpu fuel connection message s m = Some ((e, s'), m') ->
  s' = s /\ (e = Returns (Err (Failed UsedAfterFork))
             \/ exists r x m1, e = Returns r /\ send_through connection (send_message message) m = Some (x, m1)
                  /\ send_queue commands cpu fuel (ps_client s) x m1 = Some (r, m')).
Proof.
  intros Hs. unfold reply_through, client in Hs. apply sbind_some in Hs as (e1 & s1 & m1 & [= <- <- <-] & Hs).
  destruct (server_orphaned s); [injection Hs as <- <- <-; auto|]. apply dbind_some in Hs as (r & m2 & Hs & [= <- <- <-]).
  split; [done|]. right. apply dbind_some in Hs as (x & m3 & H1 & H2). eauto 6.
Qed.

Definition too_big (x : CallError) : bool := match x with Failed (TooLarge _ _ _) => true | _ => false end.

(** A PING or a search is answered, whatever it carries: its echo, or, where that would be over the limit, the report that says
    so, which never is.  So what the log says of one not answered is never its size. *)
Theorem echo_never_too_large `{!Sized} received what s m e s' m' :
  (length what <= 64)%nat -> echo commands cpu fuel received what s m = Some ((e, s'), m') ->
  e = Returns tt
  /\ (ps_lines s' = ps_lines s \/ exists x, ps_lines s' = ps_lines s ++ [LnNotEchoed what x] /\ too_big x = false).
Proof.
  intros Hw Hs. unfold echo in Hs. apply calm_some in Hs as (r1 & s1 & m1 & E1 & Hs); [|calm_tac].
  apply calm_some in Hs as (r2 & s2 & m2 & E2 & Hs); [|calm_tac]. apply reply_some in E1 as [-> _].
  assert (H2 : s2 = s /\ forall x, r2 = Err x -> too_big x = false).
  { destruct r1 as [n|x1]; [injection E2 as <- <- <-; done|]. destruct (too_big x1) eqn:Hb.
    2:{ assert (H3 : r2 = Err x1 /\ s2 = s) by (destruct x1 as [[]|]; try done; by injection E2 as <- <- <-).
        destruct H3 as [-> ->]. split; [done|]. by intros x [= <-]. }
    destruct x1 as [[]|]; try done. apply reply_some in E2 as [-> [[= ->]|(r & x & m3 & [= ->] & H1 & H2)]]; (split; [done|]); intros y Hy.
    - by injection Hy as <-.
    - subst r. eapply send_through_errors in H2 as [->|[->| ->]]; [done..|exact H1|].
      intros id sender delivery. apply framed_fits; [unfold stamped; by repeat case_match|by apply too_large_fits]. }
  destruct H2 as [-> Hr]. destruct r2 as [n|x]; injection Hs as <- <- <-; [split; [done|by left]|]. split; [done|]. right.
  exists x. split; [done|by apply Hr].
Qed.
End Echoes.

(** ** Programs of the server *)

(** What a program does with its server; its handles' calls too. *)
Inductive PlainOp :=
| PoConnect
| PoServeForever (poll : Z) (drain : option Z)
| PoLoopIter (timeout : option Z)
| PoHandle (op : HandleOp)
| PoClose (timeout : option Z).

Section Programs.
Context {E : Env} {P : Program} {OS : Os} {OSOK : OsOk} {HD : Handler} {CA : Callers} (commands : Z -> Call) (cpu : Cpu) (fuel : nat).

Definition run_plain_op (op : PlainOp) (s : PlainServer) : DM PlainServer :=
  match op with
  | PoConnect => let+ (_, s) := server_connect commands cpu fuel s in dret s
  | PoServeForever poll drain => let+ (_, s) := serve_forever commands cpu fuel poll drain s in dret s
  | PoLoopIter timeout => let+ (_, s) := loop_iter commands cpu fuel timeout s in dret s
  | PoHandle op => let+ (_, s) := run_handle commands cpu fuel op s in dret s
  | PoClose timeout => let+ (_, s) := close commands cpu fuel timeout s in dret s
  end.
Fixpoint run_plain (ops : list PlainOp) (s : PlainServer) : DM PlainServer :=
  match ops with
  | [] => dret s
  | op :: ops => let+ s := run_plain_op op s in run_plain ops s
  end.

Lemma goes_plain (I : Machine -> Prop) ops s m s' m' :
  Engined commands cpu fuel I -> run_plain ops s m = Some (s', m') -> I m -> I m' /\ server_grows s s'.
Proof.
  intros HI. revert s m. induction ops as [|op ops IH]; intros s m; [by intros [= <- <-]|]. intros Hm Hi. cbn [run_plain] in Hm.
  apply dbind_some in Hm as (s1 & m1 & E1 & Hm). assert (H1 : I m1 /\ server_grows s s1).
  { destruct op; cbn [run_plain_op] in E1; apply dbind_some in E1 as ([e s2] & m2 & E1 & [= <- <-]).
    - destruct (goes_connect commands cpu fuel I _ _ _ _ _ E1). auto.
    - destruct (goes_serve_forever commands cpu fuel I _ _ _ _ _ _ _ E1). auto.
    - destruct (goes_loop_iter commands cpu fuel I _ _ _ _ _ _ E1). auto.
    - destruct (goes_handle_op commands cpu fuel I _ _ _ _ _ _ E1). auto.
    - destruct (goes_close commands cpu fuel I _ _ _ _ _ _ E1). auto. }
  destruct H1 as [H1 G1]. destruct (IH _ _ Hm H1) as [H2 G2]. split; [done|by etrans].
Qed.

(** C16: A plain server is a program of its client's calls.  Whatever its handler does, whatever other threads call, the server
    built and then used in any way: its client's core is in a state of [reachable], every socket has taken a prefix of the frames
    its connection asked to write, and the server's own state went one way only -- once stopped or closed it stays so, a drain
    begins once and keeps its time, a request answered stays answered, one let go of is held by no one again. *)
Theorem plain_server_sound peer_type ids (w : os) b h s m0 ops s' m :
  server_build commands fuel b h (Engine_new peer_type ids Queue None w) = Some (Ok s, m0) ->
  run_plain ops s m0 = Some (s', m) ->
  reachable commands (mc_core m)
  /\ (forall conn sk, dr_sockets (mc_driver m) !! conn = Some sk ->
        exists wi, mc_wire m !! sk_token sk = Some wi /\ wi_sent wi `prefix_of` concat (wi_frames wi))
  /\ server_grows s s'.
Proof.
  intros Hb Hm. assert (H0 : wires_ok commands m0).
  { unfold server_build in Hb. destruct (parse_all (pb_addresses b)); [|done]. apply dbind_some in Hb as (built & m1 & E1 & Hb).
    apply dbind_some in Hb as (instance & m2 & [= <- <-] & Hb). injection Hb as _ <-.
    eapply (eg_build commands cpu fuel); [exact _|exact E1|]. by apply wires_new. }
  destruct (goes_plain (wires_ok commands) ops s m0 s' m _ Hm H0) as [[[[Hr _] _] Hok] G]. split_and!; [done| |done].
  intros conn sk Hs. destruct (wd_sockets _ _ _ Hok conn sk Hs) as [_ _ (wi & P3 & P4)]. exists wi. split; [done|]. by eapply wire_prefix.
Qed.
End Programs.

(** ** Runs *)

(** A multiplexer that says its welcome, takes what is written, and closes its side once the other did: the time, whether it said
    it, and whether the socket was shut down. *)
#[local] Instance polite_os : Os := {|
  os := Z * (bool * bool);
  os_now s := (s.1, (s.1 + 1, s.2));
  os_poll _ s := (Some [mkEvent 1 true false true false false], (s.1 + 1, s.2));
  os_connect _ s := (inl 7, s);
  os_register _ _ s := (None, s);
  os_take_error _ s := (false, s);
  os_peer_addr _ s := (PeerKnown, s);
  os_write _ bytes s := (Wrote (length bytes), s);
  os_read _ _ s := if s.2.1 then (if s.2.2 then Read [] else ReadWouldBlock, s) else (Read demo_welcome, (s.1, (true, s.2.2)));
  os_shutdown _ _ s := (s.1, (s.2.1, true));
  os_close _ s := s;
  os_spawn s := (true, s);
  os_request _ _ _ s := (true, s);
  os_answers s := ([], s);
  os_others s := ([], s);
|}.
#[local] Instance polite_os_ok : OsOk.
Proof. intros fd bytes s count s' [= <- _]. lia. Qed.

(** A handler that answers with the payload it was sent, and fails on an empty one; another thread stops the server at time 40. *)
#[local] Instance demo_handler : Handler := {|
  handler := nat;
  handle_message n received h :=
    match m_payload (re_message received) with
    | [] => Calls (HoLetGo n) (fun _ => Returned (Some (text "empty"), h))
    | payload =>
        Calls (HoReplyMessage n (Message_default <| m_type := 201 |> <| m_payload := payload |>)) (fun _ =>
        Calls (HoLetGo n) (fun _ => Returned (None, S h)))
    end;
  periodic_task h := Returned (Returns tt, h);
  on_handler_error _ h := Returned (Says true, h);
  should_answer_search h := Returned (Returns true, h);
  says_drained by_default h := Returned (Returns by_default, h);
  on_acknowledged _ h := Returned h;
  on_drop _ _ h := Returned h;
|}.
#[local] Instance demo_callers : Callers := {|
  os_asking s := 40 <=? s.1;
  os_callers s := (if 40 <=? s.1 then [HoStop] else [], s);
|}.
#[local] Instance demo_sized : Sized.
Proof. intros m _. cbn. lia. Qed.

Definition served_builder : PlainServerBuilder := builder 200 [demo_address].
Definition served_start : Machine := Engine_new 200 7 Queue None ((0, (false, false)) : @os polite_os).

(** A server built, or [s0]; and that it was. *)
Definition fallback_server : PlainServer :=
  mkPlainServer demo_handler 0%nat demo_client [] false None false 0 true false false None direct_only_routing false 0 0 [] [].
Definition built_server (ran : option (result PlainServer CallError * Machine)) : PlainServer :=
  match ran with Some (Ok s, _) => s | _ => fallback_server end.
Lemma built_run ran m :
  match ran with Some (Ok _, _) => true | _ => false end = true -> ran = Some (Ok (built_server ran), landed ran m).
Proof. by destruct ran as [[[]]|]. Qed.

Definition demo_server : PlainServer := built_server (server_build (fun _ => CallClosing) 60 served_builder 0%nat served_start).
Definition served_built : Machine := landed (server_build (fun _ => CallClosing) 60 served_builder 0%nat served_start) served_start.
Lemma demo_server_built :
  server_build (fun _ => CallClosing) 60 served_builder 0%nat (Engine_new 200 7 Queue None ((0, (false, false)) : @os polite_os))
  = Some (Ok demo_server, served_built).
Proof. unfold demo_server, served_built. apply built_run. vm_compute. reflexivity. Qed.

(** It serves until it is stopped. *)
Definition demo_serves : list PlainOp := [PoHandle (HoSendMessage (Message_default <| m_type := 200 |>)); PoServeForever 5 None].
Lemma demo_served : exists s', run_plain (fun _ => CallClosing) demo_cpu 60 demo_serves demo_server served_built
  = Some (s', landed (run_plain (fun _ => CallClosing) demo_cpu 60 demo_serves demo_server served_built) served_built)
  /\ (ps_closed s' && negb (ps_working s')) = true.
Proof. apply (landed_run _ (fun s' => ps_closed s' && negb (ps_working s'))). vm_compute. reflexivity. Qed.

Lemma plain_server_sound_witness : exists s' m,
  reachable (fun _ => CallClosing) (mc_core m) /\ ps_closed s' = true /\ server_grows demo_server s'.
Proof.
  destruct demo_served as (s' & Hr & Hc). apply andb_true_iff in Hc as [Hc _].
  destruct (plain_server_sound (fun _ => CallClosing) demo_cpu 60 200 7 ((0, (false, false)) : @os polite_os) served_builder (0%nat : @handler demo_handler) demo_server
    served_built demo_serves s' _ demo_server_built Hr) as (H1 & _ & H2).
  exists s'. eexists. exact (conj H1 (conj Hc H2)).
Defined.

Lemma demo_serve_ends : exists ended, serve_forever (fun _ => CallClosing) demo_cpu 60 5 None demo_server served_built
  = Some (ended, landed (serve_forever (fun _ => CallClosing) demo_cpu 60 5 None demo_server served_built) served_built)
  /\ match ended.1 with Returns (Ok _) => true | _ => false end = true.
Proof. apply (landed_run _ (fun ended : Ends (result unit ServeError) * PlainServer => match ended.1 with Returns (Ok _) => true | _ => false end)). vm_compute. reflexivity. Qed.

Lemma serve_ends_for_a_reason_witness : exists s' s1 m1 s2 m2, ps_closed s' = true
  /\ started (fun _ => CallClosing) demo_cpu 60 (demo_server <| ps_drain := None |>) served_built s1 m1
  /\ serving (fun _ => CallClosing) demo_cpu 60 5 s1 m1 s2 m2
  /\ (stopped (fun _ => CallClosing) demo_cpu 60 s2 m2 \/ drained_out (fun _ => CallClosing) demo_cpu 60 s2 m2).
Proof.
  destruct demo_serve_ends as ([e s'] & Hs & He).
  destruct (serve_ends_for_a_reason (fun _ => CallClosing) demo_cpu 60 5 None demo_server served_built e s' _ Hs) as [H1 H2]; [vm_compute; reflexivity|].
  destruct e as [[u|x]|panic]; try discriminate He. destruct H2 as [(s1 & m1 & H2 & s2 & m2 & H3 & H4)|(x & m1 & H2 & _)]; [|discriminate H2].
  exists s', s1, m1, s2, m2. exact (conj H1 (conj H2 (conj H3 H4))).
Defined.

(** A message of a confirmed batch the handler fails on, and a PING. *)
Definition demo_message (type : Z) : Received :=
  mkReceived (Message_default <| m_id := 5 |> <| m_sender := 9 |> <| m_type := type |> <| m_confirmation := Some 4 |>) (mkWrapper None ([], 0) None None 0 0).

Lemma demo_handled : exists ended, handle_received (fun _ => CallClosing) demo_cpu 60 (demo_message 300) demo_server served_built
  = Some (ended, landed (handle_received (fun _ => CallClosing) demo_cpu 60 (demo_message 300) demo_server served_built) served_built) /\ true = true.
Proof. apply (landed_run _ (fun _ => true)). vm_compute. reflexivity. Qed.

Lemma message_handled_witness : exists s' h a m1,
  handle_run (fun _ => CallClosing) demo_cpu 60 (demo_message 300) (length (ps_requests demo_server)) (asking (demo_message 300) demo_server) served_built h m1
  /\ settled (re_message (demo_message 300)) h a (ps_lines s').
Proof.
  destruct demo_handled as ([e s'] & Hs & _).
  destruct (message_handled (fun _ => CallClosing) demo_cpu 60 (demo_message 300) demo_server served_built e s' _ eq_refl Hs)
    as (h & a & m1 & _ & H1 & _ & H2 & _).
  exists s', h, a, m1. exact (conj H1 H2).
Defined.

Lemma demo_echoed : exists ended, echo (fun _ => CallClosing) demo_cpu 60 (demo_message types.PING) (text "PING") demo_server served_built
  = Some (ended, landed (echo (fun _ => CallClosing) demo_cpu 60 (demo_message types.PING) (text "PING") demo_server served_built) served_built) /\ true = true.
Proof. apply (landed_run _ (fun _ => true)). vm_compute. reflexivity. Qed.

Lemma echo_never_too_large_witness : exists s',
  ps_lines s' = ps_lines demo_server \/ exists x, ps_lines s' = ps_lines demo_server ++ [LnNotEchoed (text "PING") x] /\ too_big x = false.
Proof.
  destruct demo_echoed as ([e s'] & Hs & _).
  destruct (echo_never_too_large (fun _ => CallClosing) demo_cpu 60 (demo_message types.PING) (text "PING") demo_server served_built e s' _
    ltac:(vm_compute; lia) Hs) as [_ H].
  exists s'. exact H.
Defined.
