(* ===== verification/ThreadedClient.v ===== *)
(** * ThreadedClient: the calls of the client with an io thread (threaded_client.rs)

    A call is made on a thread that shares with the io thread no more than
    [Shared]: it refuses, or posts one command and answers at once or once the
    command's callback is told.  [Calling] is what a call finds of [Shared] and of
    its thread and what it leaves, the commands posted last; how posts and the
    shutdown interleave is in Lifecycle.v, whose answer to a post is [cg_open] here.
    A command is the call of the core it makes (System.v).  A callback or a stream
    is known by its number, new ones counted up.  [io_thread] is the loop over the
    engine, and [threaded_build] what comes before it. *)
From S2P Require Import Prelude Words Ids Defaults Frame FrameReader Xxh3Simd Timers Endpoint IpAddr LogSummary Records Ordered Fork.
From S2P Require Import Messages CoreTypes CoreBase ConnQueue OutboxState ConfirmingState Placing Bodies Batching Confirming.
From S2P Require Import Sending Handover Query Connection Client Connect Run System Concrete Inbox Driver DriverSpec WireSpec.
From S2P Require Import Message SyncClient SyncSpec.
Open Scope Z_scope.

(** ** What a call finds and leaves *)

Inductive Post :=
| PsCommand (call : Call)
| PsCall (body : Call) (done : Z)   (* [call]'s: [done] completed with what [body] gave *)
| PsPlain (plain : Plain) (deadline : option Z)
| PsConfirmation (confirmation : HandedConfirmation).

Record Calling := mkCalling {
  cg_orphaned : bool;             (* the process inherited the client across a fork *)
  cg_on_io : bool;                (* this is the client's io thread *)
  cg_open : bool;                 (* what a post answers *)
  cg_instance_id : Z;
  cg_core : Core;                 (* read for the lanes the program holds alone *)
  cg_now : Z;
  cg_delivery_set : bool;
  cg_ids : Z;                     (* the counter of the ids *)
  cg_spare : Vec8;                (* this thread's [SPARE_BODY] *)
  cg_returned : Vec8;             (* the body the inbox hands back for a plain send *)
  cg_messages : option Z;         (* the stream [messages()] reads *)
  cg_next : Z;                    (* callbacks and streams so far *)
  cg_noted : list (Z * Z);        (* what [in_hand] was told *)
  cg_closed : list Z;             (* streams closed here *)
  cg_told : list Z;               (* callbacks told [NotConnected] here *)
  cg_posted : list Post;
}.
#[export] Instance eta_Calling : Eta Calling := fun r =>
  mkCalling (cg_orphaned r) (cg_on_io r) (cg_open r) (cg_instance_id r) (cg_core r) (cg_now r) (cg_delivery_set r) (cg_ids r)
    (cg_spare r) (cg_returned r) (cg_messages r) (cg_next r) (cg_noted r) (cg_closed r) (cg_told r) (cg_posted r).

Definition TM (A : Type) : Type := Calling -> A * Calling.
Definition tret {A} (a : A) : TM A := fun g => (a, g).
Definition tbind {A B} (p : TM A) (k : A -> TM B) : TM B := fun g => let '(a, g) := p g in k a g.
Definition tget {A} (f : Calling -> A) : TM A := fun g => (f g, g).
Definition tmod (f : Calling -> Calling) : TM unit := fun g => (tt, f g).

#[local] Notation "'let^' x ':=' p 'in' k" := (tbind p (fun x => k)) (at level 10, x pattern, k at level 200).
#[local] Notation "p '^;' k" := (tbind p (fun _ => k)) (at level 199, right associativity).

(** A result that is there, or that comes with what this callback is told. *)
Inductive Pending (A : Type) := PnReady (answer : result A CallError) | PnComes (callback : Z).
Arguments PnReady {A}. Arguments PnComes {A}.

(** ** Shared *)

Definition fresh : TM Z := let^ n := tget cg_next in tmod (fun g => g <| cg_next ::= Z.add 1 |>) ^; tret n.
Definition hand_post (post : Post) : TM unit := tmod (fun g => g <| cg_posted ::= fun l => l ++ [post] |>).

Definition post (call : Call) : TM bool :=
  let^ open := tget cg_open in
  if open : bool then hand_post (PsCommand call) ^; tret true else tret false.

(** The body handed back, or the send itself. *)
Definition post_plain (plain : Plain) (deadline : option Z) : TM (result Vec8 Plain) :=
  let^ open := tget cg_open in
  if open : bool then
    hand_post (PsPlain plain deadline) ^;
    let^ spare := tget cg_returned in tret (Ok spare)
  else tret (Err plain).

Definition keep_spare (body : Vec8) : TM unit :=
  if v_capacity body <=? BODY_KEPT_MAX then tmod (fun g => g <| cg_spare := body |>) else tret tt.

Definition checked {A} (k : TM (result A CallError)) : TM (result A CallError) :=
  let^ orphaned := tget cg_orphaned in
  if orphaned : bool then tret (Err (Failed UsedAfterFork)) else k.
Definition checked_pending {A} (k : TM (Pending A)) : TM (Pending A) :=
  let^ orphaned := tget cg_orphaned in
  if orphaned : bool then tret (PnReady (Err (Failed UsedAfterFork))) else k.
Definition off_io {A} (k : TM (Pending A)) : TM (Pending A) :=
  let^ on_io := tget cg_on_io in
  if on_io : bool then tret (PnReady (Err (Failed OnIoThread))) else k.

(** A command with a callback of its own: its result, or [refused] when it is not posted. *)
Definition post_pending {A} (command : Z -> Call) (refused : result A CallError) : TM (Pending A) :=
  let^ done := fresh in
  let^ posted := post (command done) in
  tret (if posted : bool then PnComes done else PnReady refused).

Section Calls.
Context {E : Env}.

Definition threaded_queue_plain (encoded : MultiplexerMessage) (timeout : option Z) : TM (result Z CallError) :=
  let^ spare := tget cg_spare in
  tmod (fun g => g <| cg_spare := Vec8_new |>) ^;
  match plain_of encoded spare with
  | Err (error, body) => keep_spare body ^; tret (Err (Failed error))
  | Ok plain =>
      let^ now := tget cg_now in
      let^ posted := post_plain plain (deadline_after now timeout) in
      match posted with
      | Ok spare => keep_spare spare ^; tret (Ok (default 0 (mm_id encoded)))
      | Err plain => keep_spare (pl_body plain) ^; tret (Err (Failed NotConnected))
      end
  end.

Definition shared_confirm (sender number : Z) (outcome : Confirmed) : TM unit :=
  let^ g := tget id in
  if (number =? 0) || cg_orphaned g then tret tt
  else
    (if cg_on_io g then tmod (fun g => g <| cg_noted ::= fun l => l ++ [(sender, number)] |>) else tret tt) ^;
    (if cg_open g then hand_post (PsConfirmation (mkHanded sender number outcome)) else tret tt).

(** [call]: the body's answer is waited for. *)
Definition shared_call {A} (body : Call) : TM (Pending A) :=
  checked_pending (off_io (
    let^ done := fresh in
    let^ open := tget cg_open in
    if open : bool then hand_post (PsCall body done) ^; tret (PnComes done)
    else tret (PnReady (Err (Failed NotConnected))))).

(** ** ThreadedClient *)

(** [ids.next()]. *)
Definition next_of_ids : TM Z :=
  let^ counter := tget cg_ids in
  match next counter with
  | Some (id, counter) => tmod (fun g => g <| cg_ids := counter |>) ^; tret id
  | None => tret 0
  end.

Definition threaded_new_message (type : Z) (payload : list Z) : TM Message :=
  let^ id := next_of_ids in
  let^ sender := tget cg_instance_id in
  tret (Message_default <| m_id := id |> <| m_sender := sender |> <| m_type := type |> <| m_payload := payload |>).

Definition threaded_connect (address : str) (timeout : option Z) : TM (Pending bool) :=
  checked_pending (off_io
    match parse_endpoint address None with
    | Err _ => tret (PnReady (Err (Failed InvalidArgument)))
    | Ok (host, port) => post_pending (CallStartConnect host port timeout) (Err (Failed NotConnected))
    end).

Definition threaded_connect_all (addresses : list str) (timeout : option Z) : TM (Pending Z) :=
  checked_pending (off_io
    match parse_all addresses with
    | None => tret (PnReady (Err (Failed InvalidArgument)))
    | Some [] => tret (PnReady (Ok 0))
    | Some parsed => post_pending (CallConnectEach parsed timeout) (Err (Failed NotConnected))
    end).

(** The tally the connects of one [connect_all] share: how many are to come, how many came up, and what it tells. *)
Record Tally := mkTally { ta_left : Z; ta_up : Z; ta_completer : bool }.
Definition tally_new (count : Z) : Tally := mkTally count 0 true.
Definition tally_step (up : bool) (t : Tally) : option Z * Tally :=
  let left := ta_left t - 1 in
  let ups := ta_up t + if up then 1 else 0 in
  if (left =? 0) && ta_completer t then (Some ups, mkTally left ups false) else (None, mkTally left ups (ta_completer t)).

Definition threaded_disconnect (address : str) : TM (Pending bool) :=
  match parse_endpoint address None with
  | Err _ => tret (PnReady (Err (Failed InvalidArgument)))
  | Ok (host, port) => shared_call (CallDisconnect host port)
  end.

(** [connections_count], [unconfirmed], [routing_acknowledged] and the others that read the core. *)
Definition threaded_look : TM (Pending Z) := shared_call CallLook.

Definition threaded_flush_all (timeout : option Z) : TM (Pending bool) :=
  checked_pending (post_pending (CallBeginFlushAll timeout) (Ok true)).
Definition flush_all_then (timeout : option Z) (done : Z) : TM bool :=
  let^ orphaned := tget cg_orphaned in
  if orphaned : bool then tret false else post (CallBeginFlushAll timeout done).

(** The setters, [acknowledged] of the [_then] forms; posted or not, they succeed. *)
Definition threaded_set_routing (routing : Routing) (acknowledged : option Z) : TM (result unit CallError) :=
  checked (let^ _ := post (CallUnlessShutDown (CallSetRouting (routing_to_proto routing) acknowledged)) in tret (Ok tt)).
Definition threaded_set_key_filters (filters : list (Z * list str)) (acknowledged : option Z) : TM (result unit CallError) :=
  checked
    match check_key_filters filters with
    | Err e => tret (Err (Failed e))
    | Ok _ => let^ _ := post (CallUnlessShutDown (CallSetKeyFilters filters acknowledged)) in tret (Ok tt)
    end.
Definition threaded_set_delivery (type : Z) (key : option str) (delivery : Delivery) : TM (result unit CallError) :=
  checked
    match check_delivery type key delivery with
    | Err e => tret (Err (Failed e))
    | Ok _ =>
        tmod (fun g => g <| cg_delivery_set := true |>) ^;
        let^ _ := post (CallUnlessShutDown (CallSetDelivery type key delivery)) in tret (Ok tt)
    end.
Definition threaded_clear_delivery (type : Z) (key : option str) : TM (result unit CallError) :=
  checked (let^ _ := post (CallUnlessShutDown (CallClearDelivery type key)) in tret (Ok tt)).

Definition threaded_confirm (message : Message) (outcome : Confirmed) : TM unit :=
  match m_confirmation message with
  | Some number => shared_confirm (m_sender message) number outcome
  | None => tret tt
  end.

Definition close_queue (queue : Z) : TM unit := tmod (fun g => g <| cg_closed ::= fun l => l ++ [queue] |>).

(** A stream registered with the io thread, or closed. *)
Definition register (command : Call) (queue : Z) : TM unit :=
  let^ orphaned := tget cg_orphaned in
  let^ posted := if orphaned : bool then tret false else post command in
  if posted : bool then tret tt else close_queue queue.

Definition messages : TM Z :=
  let^ g := tget id in
  if cg_orphaned g then let^ queue := fresh in close_queue queue ^; tret queue
  else
    match cg_messages g with
    | Some queue => tret queue
    | None =>
        let^ queue := fresh in
        register (CallRegisterInbox queue) queue ^;
        tmod (fun g => g <| cg_messages := Some queue |>) ^;
        tret queue
    end.
Definition subscribe (type : Z) : TM Z :=
  let^ queue := fresh in
  register (CallRegisterSubscription type queue) queue ^;
  tret queue.

Definition threaded_forget_finished_ids : TM unit :=
  let^ on_io := tget cg_on_io in
  if on_io : bool then let^ _ := post CallForgetFinishedIds in tret tt
  else let^ _ := shared_call (A := unit) CallForgetFinishedIds in tret tt.

(** ** Queries *)

(** [start]: [done] hears the end, here when the command is not posted. *)
Definition query_start (q : SyncQuery) (done : Z) : TM (result unit CallError) :=
  checked (
    let^ g := tget id in
    match lane_error (cg_core g) (sq_lane q) with
    | Some error => tret (Err (Failed error))
    | None =>
        match check_size_sent_again ((message_to_proto (sq_request q)) <| mm_id := None |>) (cg_instance_id g) with
        | (_, Err e) => tret (Err (Failed e))
        | (prototype, Ok _) =>
            let^ posted := post (CallStartQuery prototype (sq_timeout q) (sq_lane q) done (sq_received q)) in
            (if posted : bool then tret tt else tmod (fun g => g <| cg_told ::= fun l => l ++ [done] |>)) ^;
            tret (Ok tt)
        end
    end).
Definition query_into_future (q : SyncQuery) : TM (Pending Received) :=
  let^ done := fresh in
  let^ started := query_start q done in
  tret match started with Ok _ => PnComes done | Err e => PnReady (Err e) end.
Definition threaded_query_wait (q : SyncQuery) : TM (Pending Received) := off_io (query_into_future q).

(** ** Sends *)

(** An id for a message that has none, from the shared counter. *)
Definition id_for (message : Message) : TM Z := if m_id message =? 0 then next_of_ids else tret 0.

Definition send_frame (s : SyncSend) : TM (result FrameIn CallError) :=
  checked (
    let^ g := tget id in
    match lane_error (cg_core g) (sd_lane s) with
    | Some error => tret (Err (Failed error))
    | None =>
        if lane_closed (cg_core g) (sd_lane s) then tret (Err (Failed NotConnected))
        else
          let^ id := id_for (sd_message s) in
          tret match frame_of (sd_message s) id (cg_instance_id g) (cg_delivery_set g) with
               | Ok frame => Ok frame
               | Err e => Err (Failed e)
               end
    end).

(** [post] of a frame by [place_send]. *)
Definition post_frame (s : SyncSend) (frame : FrameIn) (wait : bool) (settled : option Z) : TM bool :=
  let^ now := tget cg_now in
  post (CallPlaceSend frame (sd_all s) (sd_lane s) (deadline_after now (sd_timeout s)) wait settled).

Definition queue_frame (s : SyncSend) (frame : FrameIn) : TM (result Z CallError) :=
  let^ posted := post_frame s frame false (sd_on_end s) in
  tret (if posted : bool then Ok (fi_id frame) else Err (Failed NotConnected)).

Definition threaded_queue (s : SyncSend) : TM (result Z CallError) :=
  let^ g := tget id in
  if bool_decide (sd_on_end s = None) && bool_decide (sd_lane s = None) && negb (sd_all s) && cg_delivery_set g then
    checked (
      let^ id := id_for (sd_message s) in
      let encoded := stamped (sd_message s) id (cg_instance_id g) in
      if plain_event encoded then threaded_queue_plain encoded (sd_timeout s)
      else
        match framed encoded true with
        | Err e => tret (Err (Failed e))
        | Ok frame => queue_frame s frame
        end)
  else
    let^ framed := send_frame s in
    match framed with Err e => tret (Err e) | Ok frame => queue_frame s frame end.

Definition written (s : SyncSend) : TM (Pending Z) :=
  let^ framed := send_frame s in
  match framed with
  | Err e => tret (PnReady (Err e))
  | Ok frame =>
      let^ settled := fresh in
      let^ posted := post_frame s frame true (Some settled) in
      tret (if posted : bool then PnComes settled else PnReady (Err (Failed NotConnected)))
  end.
Definition threaded_send_wait (s : SyncSend) : TM (Pending Z) := off_io (written s).

(** What the result of [written] is, by what its callback is told. *)
Definition written_answer (id written : Z) (not_connected : bool) : result Z CallError :=
  if 0 <? written then Ok id else Err (Failed (if not_connected then NotConnected else OperationTimedOut)).
End Calls.

(** ** The io thread *)

Record ThreadedClientBuilder := mkThreadedClientBuilder {
  tb_peer_type : Z;
  tb_on_message : bool;
  tb_on_drop : bool;
  tb_search_policy : bool;
  tb_key_filters : option (list (Z * list str));
  tb_routing : option Routing;
  tb_confirm_after_on_message : bool;
}.
Definition threaded_builder (peer_type : Z) : ThreadedClientBuilder :=
  mkThreadedClientBuilder peer_type false false false None None true.

Section Thread.
Context {E : Env} {P : Program} {OS : Os} (commands : Z -> Call) (cpu : Cpu) (fuel : nat).

(** [build], of an engine in [Dispatch] with an empty inbox; the key filters are looked at before it is made. *)
Definition threaded_build (b : ThreadedClientBuilder) : DM (result unit CallError) :=
  match tb_key_filters b ≫= fun filters => match check_key_filters filters with Err e => Some e | Ok _ => None end with
  | Some e => dret (Err (Failed e))
  | None =>
      on_core (run_call (CallBuilt (tb_on_message b) (tb_search_policy b) (negb (tb_confirm_after_on_message b)))) +;
      dwhen (tb_on_drop b) (on_core (mod_client (fun cl => cl <| cl_drop_observer := true |>))) +;
      let+ filtered :=
        match tb_key_filters b with
        | None => dret (Ok tt)
        | Some filters => SyncClient.call commands fuel (Connection.set_key_filters filters None)
        end in
      match filtered with
      | Err e => dret (Err (Failed e))
      | Ok _ =>
          match tb_routing b with
          | None => dret tt
          | Some routing => SyncClient.call commands fuel (Connection.set_routing (routing_to_proto routing) None)
          end +;
          dret (Ok tt)
      end
  end.

(** [if torn_down { ... if idle { break } }]. *)
Definition thread_over : DM bool :=
  let+ torn_down := ask (fun c => th_torn_down (cr_threaded c)) in
  if torn_down : bool then dgets idle else dret false.

(** The loop.  A panic that escapes a step is caught there; the core's own calls of the program are guarded, and none is modelled. *)
Fixpoint io_loop (n : nat) : DM unit :=
  match n with
  | O => out_of_fuel
  | S n =>
      let+ over := thread_over in
      if over : bool then dret tt
      else
        let+ _ := step commands cpu fuel None true in
        io_loop n
  end.

Definition io_thread (n : nat) : DM unit := io_loop n +; Driver.call commands fuel CallEndFollows.

(** Its turns, however many it made. *)
Fixpoint io_turns (n : nat) : DM unit :=
  match n with
  | O => dret tt
  | S n => let+ _ := step commands cpu fuel None true in io_turns n
  end.
End Thread.

(** ** A call posts once or not at all *)

(** The calls of a program on its client. *)
Inductive ThreadedOp :=
| ToNewMessage (type : Z) (payload : list Z)
| ToConnect (address : str) (timeout : option Z)
| ToConnectAll (addresses : list str) (timeout : option Z)
| ToDisconnect (address : str)
| ToLook
| ToFlushAll (timeout : option Z)
| ToFlushAllThen (timeout : option Z) (done : Z)
| ToSetRouting (routing : Routing) (acknowledged : option Z)
| ToSetKeyFilters (filters : list (Z * list str)) (acknowledged : option Z)
| ToSetDelivery (type : Z) (key : option str) (delivery : Delivery)
| ToClearDelivery (type : Z) (key : option str)
| ToConfirm (message : Message) (outcome : Confirmed)
| ToMessages
| ToSubscribe (type : Z)
| ToForgetFinishedIds
| ToQueryThen (q : SyncQuery) (done : Z)
| ToQueryWait (q : SyncQuery)
| ToQueue (s : SyncSend)
| ToWritten (s : SyncSend)
| ToSendWait (s : SyncSend).

(** A call's answer: there, with its error if it failed, or to come with its callback. *)
Inductive Answered := AnNow (failed : option CallError) | AnLater (callback : Z).

Definition of_result {A} (answer : result A CallError) : Answered := AnNow match answer with Ok _ => None | Err e => Some e end.
Definition of_pending {A} (pending : Pending A) : Answered :=
  match pending with PnReady answer => of_result answer | PnComes callback => AnLater callback end.

Section Ops.
Context {E : Env}.

Definition answer {A} (f : A -> Answered) (p : TM A) : TM Answered := let^ a := p in tret (f a).
Definition run_threaded (op : ThreadedOp) : TM Answered :=
  match op with
  | ToNewMessage type payload => answer (fun _ => AnNow None) (threaded_new_message type payload)
  | ToConnect address timeout => answer of_pending (threaded_connect address timeout)
  | ToConnectAll addresses timeout => answer of_pending (threaded_connect_all addresses timeout)
  | ToDisconnect address => answer of_pending (threaded_disconnect address)
  | ToLook => answer of_pending threaded_look
  | ToFlushAll timeout => answer of_pending (threaded_flush_all timeout)
  | ToFlushAllThen timeout done => answer (fun _ => AnNow None) (flush_all_then timeout done)
  | ToSetRouting routing acknowledged => answer of_result (threaded_set_routing routing acknowledged)
  | ToSetKeyFilters filters acknowledged => answer of_result (threaded_set_key_filters filters acknowledged)
  | ToSetDelivery type key delivery => answer of_result (threaded_set_delivery type key delivery)
  | ToClearDelivery type key => answer of_result (threaded_clear_delivery type key)
  | ToConfirm message outcome => answer (fun _ => AnNow None) (threaded_confirm message outcome)
  | ToMessages => answer (fun _ => AnNow None) messages
  | ToSubscribe type => answer (fun _ => AnNow None) (subscribe type)
  | ToForgetFinishedIds => answer (fun _ => AnNow None) threaded_forget_finished_ids
  | ToQueryThen q done => answer of_result (query_start q done)
  | ToQueryWait q => answer of_pending (threaded_query_wait q)
  | ToQueue s => answer of_result (threaded_queue s)
  | ToWritten s => answer of_pending (written s)
  | ToSendWait s => answer of_pending (threaded_send_wait s)
  end.

Definition failed (ans : Answered) : bool := match ans with AnNow (Some _) => true | _ => false end.

(** The calls that answer nothing a process could be refused by: they do nothing there instead. *)
Definition says_errors (op : ThreadedOp) : bool :=
  match op with
  | ToNewMessage _ _ | ToFlushAllThen _ _ | ToConfirm _ _ | ToMessages | ToSubscribe _ | ToForgetFinishedIds => false
  | _ => true
  end.
(** The calls that wait for the io thread, which it cannot make. *)
Definition waits_for_io (op : ThreadedOp) : bool :=
  match op with
  | ToConnect _ _ | ToConnectAll _ _ | ToLook | ToQueryWait _ | ToSendWait _ => true
  | _ => false
  end.

(** The callback a posted command tells its end. *)
Definition tells (x : Post) : option Z :=
  match x with
  | PsCall _ done => Some done
  | PsCommand (CallStartConnect _ _ _ done) | PsCommand (CallConnectEach _ _ done) | PsCommand (CallBeginFlushAll _ done)
  | PsCommand (CallStartQuery _ _ _ done _) => Some done
  | PsCommand (CallPlaceSend _ _ _ _ _ settled) => settled
  | _ => None
  end.

(** Nothing was posted, and a result to come was told here; or one thing was, which tells that result, by a call
    that did not fail. *)
Definition fate (g : Calling) (ans : Answered) (g' : Calling) : Prop :=
  (cg_posted g' = cg_posted g /\ (forall callback, ans = AnLater callback -> callback ∈ cg_told g'))
  \/ (exists x, cg_posted g' = cg_posted g ++ [x] /\ forall callback, ans = AnLater callback -> tells x = Some callback)
     /\ cg_open g = true /\ cg_orphaned g && negb (cg_on_io g) = false /\ failed ans = false.

Ltac calls := repeat (unfold answer, of_result, of_pending, checked, checked_pending, off_io, shared_call, post_pending, post, hand_post, fresh,
  close_queue, register, keep_spare, post_plain, next_of_ids, tbind, tret, tget, tmod in *; cbn in *; try case_match; simplify_eq).

Lemma run_threaded_fate op g : fate g (run_threaded op g).1 (run_threaded op g).2.
Proof.
  unfold fate. destruct op; cbn [run_threaded];
  unfold threaded_new_message, threaded_connect, threaded_connect_all, threaded_disconnect, threaded_look, threaded_flush_all, flush_all_then,
    threaded_set_routing, threaded_set_key_filters, threaded_set_delivery, threaded_clear_delivery, threaded_confirm, shared_confirm, messages,
    subscribe, threaded_forget_finished_ids, threaded_query_wait, query_into_future, query_start, threaded_queue, threaded_queue_plain,
    threaded_send_wait, written, send_frame, queue_frame, post_frame, id_for.
  all: calls.
  all: try (left; split; [done|intros; simplify_eq; try done; apply elem_of_app; right; by left]).
  all: right; (split; [eexists; split; [reflexivity|intros; by simplify_eq]|]); split_and!; try done.
  all: rewrite ?andb_false_r; try done.
  all: match goal with H : _ || cg_orphaned _ = false |- _ => apply orb_false_elim in H as [_ ->]; done end.
Qed.

(** C28: What a threaded client's calls do, whichever thread makes them and whatever they are given.  A call posts one command
    or nothing: nothing when it fails, when the client was shut down first or in a forked child.  A result that is to come has
    a command posted that tells it, or was told at once: no call leaves its program to wait for nothing.  In a forked child
    every call that can fail does, a bad address aside with [UsedAfterFork]; on the io thread itself every call that would
    wait for it does, with [OnIoThread]. *)
Theorem calls_post_once_or_refuse (op : ThreadedOp) (g : Calling) :
  let '(ans, g') := run_threaded op g in
  fate g ans g'
  /\ (cg_orphaned g = true -> says_errors op = true -> waits_for_io op && cg_on_io g = false ->
        ans = AnNow (Some (Failed UsedAfterFork)) \/ exists address, op = ToDisconnect address /\ ans = AnNow (Some (Failed InvalidArgument)))
  /\ (cg_orphaned g = false -> cg_on_io g = true -> waits_for_io op = true -> ans = AnNow (Some (Failed OnIoThread))).
Proof.
  pose proof (run_threaded_fate op g) as Hf. destruct (run_threaded op g) as [ans g'] eqn:Hr. split; [done|]. clear Hf.
  split.
  - intros Ho Hs Hw. destruct op; try discriminate Hs; cbn [run_threaded waits_for_io andb] in *;
    unfold threaded_connect, threaded_connect_all, threaded_disconnect, threaded_look, threaded_flush_all, threaded_set_routing,
      threaded_set_key_filters, threaded_set_delivery, threaded_clear_delivery, threaded_query_wait, query_into_future, query_start,
      threaded_queue, threaded_send_wait, written, send_frame in Hr; calls; eauto.
  - intros Ho Hi Hw. destruct op; try discriminate Hw; cbn [run_threaded] in *;
    unfold threaded_connect, threaded_connect_all, threaded_look, threaded_query_wait, threaded_send_wait in Hr; calls; done.
Qed.
End Ops.

(** ** What [connect_all] counts *)

(** What the tally tells, as each connect ends. *)
Fixpoint tally_run (ups : list bool) (t : Tally) : list (option Z) :=
  match ups with
  | [] => []
  | up :: ups => let '(told, t) := tally_step up t in told :: tally_run ups t
  end.
Definition ups_of (ups : list bool) : Z := Z.of_nat (length (filter (fun up => up = true) ups)).

Lemma tally_run_eq ups count :
  ups <> [] -> tally_run ups (mkTally (Z.of_nat (length ups)) count true)
               = replicate (pred (length ups)) None ++ [Some (count + ups_of ups)].
Proof.
  revert count. induction ups as [|up ups IH]; intros count Hne; [done|]. clear Hne. cbn [tally_run].
  destruct ups as [|x ups]; [unfold tally_step, ups_of; destruct up; cbn; do 2 f_equal; lia|].
  assert (Hs : tally_step up (mkTally (Z.of_nat (length (up :: x :: ups))) count true)
    = (None, mkTally (Z.of_nat (length (x :: ups))) (count + if up then 1 else 0) true)).
  { unfold tally_step. cbn [ta_left ta_up ta_completer]. rewrite (proj2 (Z.eqb_neq _ 0)) by (cbn [length]; lia). cbn [andb]. do 2 f_equal. cbn [length]. lia. }
  rewrite Hs, IH by done. cbn [length pred replicate app]. do 4 f_equal. unfold ups_of. destruct up.
  - rewrite (filter_cons_True _ true) by done. cbn [length]. lia.
  - rewrite (filter_cons_False _ false) by done. lia.
Qed.

(** The result of [connect_all] comes once, with the last of its connects to end, and says how many came up: whatever
    order they end in, none before tells anything. *)
Theorem connect_all_counts (ups : list bool) :
  ups <> [] ->
  tally_run ups (tally_new (Z.of_nat (length ups))) = replicate (pred (length ups)) None ++ [Some (ups_of ups)].
Proof. apply (tally_run_eq ups 0). Qed.
Lemma connect_all_counts_witness : tally_run [true; false; true] (tally_new 3) = [None; None; Some 2].
Proof. exact (connect_all_counts [true; false; true] ltac:(discriminate)). Defined.

(** ** The io thread's run *)

Section Soundness.
Context {E : Env} {P : Program} {OS : Os} {OSOK : OsOk} (commands : Z -> Call) (cpu : Cpu) (fuel : nat).

#[local] Instance callable_built on_message search_policy confirms :
  Callable (run_call (CallBuilt on_message search_policy confirms)) := callable_call _ (CallBuilt on_message search_policy confirms) eq_refl.

Section Keeps.
Context (I : Machine -> Prop) `{!Engined commands cpu fuel I}.

#[local] Hint Resolve eg_step : keeps.
#[local] Hint Extern 1 (dleads I I (ask _)) => apply keeps_gets : keeps.
#[local] Hint Extern 2 (dleads I I (on_core _)) => (apply (eg_core commands cpu fuel); exact _) : keeps.
#[local] Hint Extern 2 (dleads I I (SyncClient.call _ _ _)) => (apply (eg_do commands cpu fuel); exact _) : keeps.

Lemma eg_threaded_build b : keeps I (threaded_build commands fuel b).
Proof. unfold threaded_build. keeps_tac. Qed.
Lemma eg_io_loop n : keeps I (io_loop commands cpu fuel n).
Proof. induction n as [|n IH]; cbn [io_loop]; unfold thread_over; keeps_tac; exact IH. Qed.
Lemma eg_io_turns n : keeps I (io_turns commands cpu fuel n).
Proof. induction n as [|n IH]; cbn [io_turns]; keeps_tac; exact IH. Qed.
End Keeps.

(** The loop is left with the core torn down and nothing to happen. *)
Lemma io_loop_over n m m' :
  io_loop commands cpu fuel n m = Some (tt, m') -> th_torn_down (cr_threaded (mc_core m')) = true /\ idle m' = true.
Proof.
  revert m. induction n as [|n IH]; intros m; cbn [io_loop]; [done|]. intros (over & m1 & Ho & Hm)%dbind_some.
  unfold thread_over in Ho. apply dbind_some in Ho as (torn & m2 & [= <- <-] & Ho). destruct over.
  - injection Hm as <-. destruct (th_torn_down (cr_threaded (mc_core m))) eqn:Ht; [|discriminate Ho]. injection Ho as Ho <-. by split.
  - apply dbind_some in Hm as (st & m3 & _ & Hm). by eapply IH.
Qed.

Lemma idle_empty m : idle m = true -> dr_sockets (mc_driver m) = ∅ /\ dr_resolving (mc_driver m) = ∅ /\ dr_ready (mc_driver m) = [] /\ has_work (mc_core m) = false.
Proof.
  unfold idle, Driver_has_work. intros [H1%negb_true_iff H2%negb_true_iff]%andb_true_iff.
  apply orb_false_iff in H1 as [[H1 H3]%orb_false_iff H4]. apply negb_false_iff in H1, H3, H4.
  split_and!; [by apply bool_decide_eq_true_1 in H1|by apply bool_decide_eq_true_1 in H3| |done].
  apply bool_decide_eq_true_1 in H4. by apply nil_length_inv.
Qed.

(** C8: The io thread of a client built, whatever other threads hand its inbox and the system answers.  After any number of
    its turns its core is in a state of [reachable] and each socket has taken a prefix of the frames asked of it, so that what
    is proved of those states holds of a threaded client too; and when it leaves its loop the client is torn down, no socket is
    open, no name is looked up, and neither the driver nor the core has anything left to do. *)
Theorem threaded_client_sound peer_type ids (s : os) b m0 n m :
  threaded_build commands fuel b (Engine_new peer_type ids Dispatch (Some Inbox_default) s) = Some (Ok tt, m0) ->
  (io_turns commands cpu fuel n m0 = Some (tt, m) \/ io_loop commands cpu fuel n m0 = Some (tt, m)) ->
  reachable commands (mc_core m)
  /\ (forall conn sk, dr_sockets (mc_driver m) !! conn = Some sk ->
        exists wi, mc_wire m !! sk_token sk = Some wi /\ wi_sent wi `prefix_of` concat (wi_frames wi))
  /\ (io_loop commands cpu fuel n m0 = Some (tt, m) ->
        th_torn_down (cr_threaded (mc_core m)) = true
        /\ dr_sockets (mc_driver m) = ∅ /\ dr_resolving (mc_driver m) = ∅ /\ dr_ready (mc_driver m) = [] /\ has_work (mc_core m) = false).
Proof.
  intros Hb Hm.
  assert (H0 : wires_ok commands m0).
  { eapply (eg_threaded_build (wires_ok commands)); [exact Hb|]. apply wires_new. by intros i [= <-]. }
  assert (Hok : wires_ok commands m).
  { destruct Hm as [Hm|Hm]; [by eapply (eg_io_turns (wires_ok commands) n)|by eapply (eg_io_loop (wires_ok commands) n)]. }
  destruct Hok as [[[Hr _] _] Hok]. split_and!; [done| |].
  - intros conn sk Hs. destruct (wd_sockets _ _ _ Hok conn sk Hs) as [_ _ (wi & P3 & P4)]. exists wi. split; [done|]. by eapply wire_prefix.
  - intros Hl. destruct (io_loop_over _ _ _ Hl) as [Ht Hi]. split; [done|by apply idle_empty].
Qed.
End Soundness.

(** ** A run *)

(** Another thread connects the client, then shuts it down; the multiplexer is there, and closes its side when the client does. *)
Definition demo_commands (command : Z) : Call :=
  if command =? 0 then CallStartConnect [49; 50; 55; 46; 48; 46; 48; 46; 49] 80 None 0 else CallBeginShutdown (Some 0).
Record SharedOs := mkSharedOs { so_now : Z; so_welcomed : bool; so_closes : bool; so_handed : Z }.
#[local] Instance eta_SharedOs : Eta SharedOs := fun r => mkSharedOs (so_now r) (so_welcomed r) (so_closes r) (so_handed r).
#[local] Instance shared_os : Os := {|
  os := SharedOs;
  os_now s := (so_now s, s <| so_now ::= Z.add 1 |>);
  os_poll _ s := (Some [mkEvent 1 true false true false false], s <| so_now ::= Z.add 1 |>);
  os_connect _ s := (inl 7, s);
  os_register _ _ s := (None, s);
  os_take_error _ s := (false, s);
  os_peer_addr _ s := (PeerKnown, s);
  os_write _ bytes s := (Wrote (length bytes), s);
  os_read _ _ s :=
    if so_welcomed s then (if so_closes s then Read [] else ReadWouldBlock, s) else (Read demo_welcome, s <| so_welcomed := true |>);
  os_shutdown _ _ s := s <| so_closes := true |>;
  os_close _ s := s;
  os_spawn s := (true, s);
  os_request _ _ _ s := (true, s);
  os_answers s := ([], s);
  os_others s :=
    if so_handed s * 40 <=? so_now s then
      (if so_handed s <? 2 then [HandCommand (so_handed s)] else [], s <| so_handed ::= Z.add 1 |>)
    else ([], s);
|}.
#[local] Instance shared_os_ok : OsOk.
Proof. intros fd bytes s count s' [= <- _]. lia. Qed.

Definition threaded_start : Machine := Engine_new 200 7 Dispatch (Some Inbox_default) (mkSharedOs 0 false false 0 : @os shared_os).
Definition threaded_built : Machine := landed (threaded_build demo_commands 60 (threaded_builder 200) threaded_start) threaded_start.
Definition threaded_ended : Machine := landed (io_loop demo_commands demo_cpu 60 100 threaded_built) threaded_built.

Lemma threaded_builds :
  threaded_build demo_commands 60 (threaded_builder 200) (Engine_new 200 7 Dispatch (Some Inbox_default) (mkSharedOs 0 false false 0 : @os shared_os))
  = Some (Ok tt, threaded_built).
Proof.
  destruct (landed_run (threaded_build demo_commands 60 (threaded_builder 200) threaded_start) is_ok threaded_start) as ([[]|e] & H & Ht);
    [vm_compute; reflexivity|exact H|discriminate Ht].
Qed.
Lemma threaded_ends : io_loop demo_commands demo_cpu 60 100 threaded_built = Some (tt, threaded_ended).
Proof.
  destruct (landed_run (io_loop demo_commands demo_cpu 60 100 threaded_built) (fun _ => true) threaded_built) as ([] & H & _);
    [vm_compute; reflexivity|exact H].
Qed.
Lemma threaded_client_sound_witness :
  reachable demo_commands (mc_core threaded_ended) /\ th_torn_down (cr_threaded (mc_core threaded_ended)) = true.
Proof.
  destruct (threaded_client_sound demo_commands demo_cpu 60 200 7 (mkSharedOs 0 false false 0 : @os shared_os) (threaded_builder 200)
    threaded_built 100 threaded_ended threaded_builds (or_intror threaded_ends)) as (Hr & _ & He).
  exact (conj Hr (proj1 (He threaded_ends))).
Defined.

(** A flush in a forked child. *)
Definition demo_calling : Calling :=
  mkCalling true false true 77 (Core_new 200 7 Dispatch 0) 0 false 7 Vec8_new Vec8_new None 0 [] [] [] [].
Lemma calls_post_once_or_refuse_witness :
  (run_threaded (ToFlushAll None) demo_calling).1 = AnNow (Some (Failed UsedAfterFork)).
Proof.
  pose proof (calls_post_once_or_refuse (ToFlushAll None) demo_calling) as H.
  destruct (run_threaded (ToFlushAll None) demo_calling) as [ans g']. destruct H as (_ & H & _).
  destruct (H eq_refl eq_refl eq_refl) as [Ha|(address & Hd & _)]; [exact Ha|discriminate Hd].
Defined.
